(** * Cluster containment and soft Robinson-Foulds distance

    A shallow embedding of the C programs [ClusterContainment.c],
    [SoftRFDist_print.c] and [SoftRFDist_parallel.c], followed by the
    properties of the programs that the specification states.

    Conventions of the embedding.
    - A C [int] is a [Z].  Every counter of the programs is bounded by the
      number of nodes or edges of the input (at most [MAXSIZE], [MAXEDGE]),
      so no arithmetic of the modelled code leaves the range of [int];
      the products of [nChoosek] are formed in 32 bits ([SRFD.int32]) and
      stay in the range up to 29 leaves ([nChoosek_no_wrap]).
    - An array indexed by a node or a leaf ([node_type], [inner_flag],
      [lf_below], [super_deg], [in_cluster], the adjacency matrix) is a
      function from the index; a write is the pointwise update [upd].
    - An array that the C code carries together with its length
      ([r_nodes]/[n_r], [input_leaves]/[no1], [sleaves]/[no_slf], ...) is
      the list of its first length-many cells.
    - A [struct lnode] chain is the list of its [leaf] fields.
    - A [struct arb_tnode] is a node of a finitely branching tree: label,
      flag and the list of the first [no_children] children.  A null tree
      pointer is [None].
    - [printf] appends a line to an output list. *)

From Stdlib Require Import ZArith QArith Qround List String Ascii Bool Lia DecimalString Sorted Permutation.
Import ListNotations.
Open Scope Z_scope.

(** ** Constants of the three programs *)

Definition ROOT : Z := 0.
Definition TREE : Z := 1.
Definition RET : Z := 2.
Definition LEAVE : Z := 3.
Definition INNER : Z := 4.
Definition CROSS : Z := 5.
Definition REVISED : Z := 6.

(** ** Arrays *)

Definition upd (a : Z -> Z) (i v : Z) : Z -> Z :=
  fun j => if j =? i then v else a j.

Definition upd2 (m : Z -> Z -> Z) (i j v : Z) : Z -> Z -> Z :=
  fun a b => if (a =? i) && (b =? j) then v else m a b.

(** [a[i]] for an array held as a list, for [0 <= i < length a]. *)
Definition rd (a : list Z) (i : Z) : Z :=
  if i <? 0 then 0 else nth (Z.to_nat i) a 0.

Definition len {A} (l : list A) : Z := Z.of_nat (List.length l).

(** ** Component trees *)

Unset Elimination Schemes.
Inductive arb_tnode : Type :=
  Tnode (label : Z) (flag : Z) (child : list arb_tnode).
Set Elimination Schemes.

Definition label (t : arb_tnode) : Z := let 'Tnode l _ _ := t in l.
Definition flag (t : arb_tnode) : Z := let 'Tnode _ f _ := t in f.
Definition child (t : arb_tnode) : list arb_tnode := let 'Tnode _ _ c := t in c.
Definition no_children (t : arb_tnode) : Z := len (child t).

Section arb_tnode_ind.
Variable P : arb_tnode -> Prop.
Hypothesis P_node : forall l f cs, Forall P cs -> P (Tnode l f cs).

Fixpoint arb_tnode_ind (t : arb_tnode) : P t :=
  match t with
  | Tnode l f cs =>
      P_node l f cs
        ((fix all (cs : list arb_tnode) : Forall P cs :=
            match cs with
            | [] => Forall_nil P
            | c :: cs' => Forall_cons c (arb_tnode_ind c) (all cs')
            end) cs)
  end.
End arb_tnode_ind.

(** Every node of a tree, the root first (preorder). *)
Fixpoint nodes (t : arb_tnode) : list arb_tnode :=
  t :: flat_map nodes (child t).

Record components : Type := Comp {
  ret_node : Z;
  inner : Z;
  size : Z;
  no_tree_node : Z;
  tree_com : option arb_tnode
}.

(** ** Searching lists and trees *)

(** [Is_In]: 1 when [elt] occurs among the cells, -1 otherwise. *)
Fixpoint Is_In (elt : Z) (Ambig : list Z) : Z :=
  match Ambig with
  | [] => -1
  | x :: rest => if elt =? x then 1 else Is_In elt rest
  end.

(** [Is_In_Str]: 1 when the string occurs, 0 otherwise. *)
Fixpoint Is_In_Str (node : string) (leaves : list string) : Z :=
  match leaves with
  | [] => 0
  | x :: rest => if String.eqb node x then 1 else Is_In_Str node rest
  end.

(** [Check_List]: the first position of [b], -1 when absent. *)
Fixpoint Check_List_from (i : Z) (list_a : list Z) (b : Z) : Z :=
  match list_a with
  | [] => -1
  | x :: rest => if x =? b then i else Check_List_from (i + 1) rest b
  end.

Definition Check_List (list_a : list Z) (b : Z) : Z := Check_List_from 0 list_a b.

(** [Check_Name]: the first index of the name, -1 when absent. *)
Fixpoint Check_Name_from (i : Z) (node_strings : list string) (str1 : string) : Z :=
  match node_strings with
  | [] => -1
  | x :: rest =>
      if String.eqb str1 x then i else Check_Name_from (i + 1) rest str1
  end.

Definition Check_Name (node_strings : list string) (str1 : string) : Z :=
  Check_Name_from 0 node_strings str1.

(** [Search_Revised]: the first node, in preorder, that carries the label. *)
Fixpoint Search_Revised (tree : arb_tnode) (node : Z) : option arb_tnode :=
  if label tree =? node then Some tree
  else
    (fix scan (cs : list arb_tnode) : option arb_tnode :=
       match cs with
       | [] => None
       | c :: cs' =>
           match Search_Revised c node with
           | Some p => Some p
           | None => scan cs'
           end
       end) (child tree).

(** [Is_In_Comp]: 1 when a childless node of the tree carries the label. *)
Fixpoint Is_In_Comp (tree : arb_tnode) (node : Z) : Z :=
  let k :=
    match child tree with
    | [] => if node =? label tree then 1 else 0
    | cs =>
        (fix sum (cs : list arb_tnode) (k : Z) : Z :=
           match cs with
           | [] => k
           | c :: cs' => sum cs' (k + Is_In_Comp c node)
           end) cs 0
    end in
  if k >? 0 then 1 else 0.

(** [Initiallize]: clear every flag. *)
Fixpoint Initiallize (tree : arb_tnode) : arb_tnode :=
  Tnode (label tree) 0 (map Initiallize (child tree)).

(** [PostTrans_Revised]: the nodes in postorder, appended to [PostList]. *)
Fixpoint PostTrans_Revised (tree : arb_tnode) (PostList : list arb_tnode)
  : list arb_tnode :=
  (fix walk (cs : list arb_tnode) (acc : list arb_tnode) : list arb_tnode :=
     match cs with
     | [] => acc
     | c :: cs' => walk cs' (PostTrans_Revised c acc)
     end) (child tree) PostList ++ [tree].

(** ** Marking forbidden nodes and collecting Vmax *)

(** The loop of [Mark_Revised] over the children: [x] counts the children
    whose subtree holds [leaf], [y] is the index of the last of them. *)
Fixpoint Mark_scan (cs : list arb_tnode) (leaf : Z) (i x y : Z) : Z * Z :=
  match cs with
  | [] => (x, y)
  | c :: cs' =>
      match Search_Revised c leaf with
      | Some _ => Mark_scan cs' leaf (i + 1) (x + 1) i
      | None => Mark_scan cs' leaf (i + 1) x y
      end
  end.

Fixpoint Mark_Revised (tree : arb_tnode) (leaf : Z) (no_mark : Z)
  : arb_tnode * Z :=
  match tree with
  | Tnode l f cs =>
      if (len cs =? 0) && (l =? leaf) then (Tnode l 1 cs, no_mark + 1)
      else
        let '(x, y) := Mark_scan cs leaf 0 0 (-1) in
        if x =? 1 then
          let '(cs', n') :=
            (fix at_child (cs : list arb_tnode) (i : Z) : list arb_tnode * Z :=
               match cs with
               | [] => ([], no_mark + 1)
               | c :: rest =>
                   if i =? y then
                     let '(c', n') := Mark_Revised c leaf (no_mark + 1) in
                     (c' :: rest, n')
                   else
                     let '(rest', n') := at_child rest (i + 1) in
                     (c :: rest', n')
               end) cs 0 in
          (Tnode l 1 cs', n')
        else if x >? 1 then (Tnode l 1 cs, no_mark + 1)
        else (tree, no_mark)
  end.

(** [vmax] extended by a label it does not hold yet. *)
Definition add_new (l : list Z) (x : Z) : list Z :=
  if existsb (Z.eqb x) l then l else l ++ [x].

Fixpoint Find_Vmax (tree : arb_tnode) (vmax : list Z) : list Z :=
  if flag tree =? 1 then
    (fix over (cs : list arb_tnode) (vmax : list Z) : list Z :=
       match cs with
       | [] => vmax
       | c :: cs' =>
           if flag c =? 0 then over cs' (add_new vmax (label c))
           else over cs' (Find_Vmax c vmax)
       end) (child tree) vmax
  else vmax.

(** ** The row scan of the stable resolver *)

Section WithNodeType.
Variable node_type : Z -> Z.

(** [Is_Below]: 1 when leaf [y] labels a leaf-typed node reached from [p]
    without passing below another leaf-typed node. *)
Fixpoint Is_Below (p : arb_tnode) (y : Z) : Z :=
  let x := label p in
  if node_type x =? LEAVE then (if x =? y then 1 else 0)
  else
    (fix scan (cs : list arb_tnode) : Z :=
       match cs with
       | [] => 0
       | c :: cs' => if Is_Below c y =? 1 then 1 else scan cs'
       end) (child p).

(** One row of [DProgram_Revised]: the number of input leaves below the
    node found for [v].  ([Search_Revised] finds every label that
    [Find_Vmax] collected; the [None] case is not reached.) *)
Definition DProgram_row (super_t : arb_tnode) (input_leaves : list Z) (v : Z) : Z :=
  match Search_Revised super_t v with
  | Some p =>
      fold_left (fun k lf => if Is_Below p lf =? 1 then k + 1 else k)
                input_leaves 0
  | None => 0
  end.

Fixpoint DProgram_Revised (super_t : arb_tnode) (n_embed : Z)
  (vmax : list Z) (input_leaves : list Z) : Z :=
  match vmax with
  | [] => -1
  | v :: rest =>
      if DProgram_row super_t input_leaves v =? n_embed then v
      else DProgram_Revised super_t n_embed rest input_leaves
  end.

(** [Rebuilt_Component]: put back the reticulation that a leaf replaced. *)
Fixpoint Rebuilt_Component (tree : arb_tnode) (rpl_comp : Z -> Z) : arb_tnode :=
  match tree with
  | Tnode x f [] =>
      if (node_type x =? LEAVE) && negb (rpl_comp x =? -1)
      then Tnode (rpl_comp x) f []
      else tree
  | Tnode x f cs => Tnode x f (map (fun c => Rebuilt_Component c rpl_comp) cs)
  end.
End WithNodeType.

(** ** Classifying and rewriting a component *)

(** The arrays that [Replace_Ret_Revised] writes. *)
Record replace_state : Type := RS {
  rs_inner_flag : Z -> Z;
  rs_leaf_set : list Z;
  rs_ambig : list Z;
  rs_optional : list Z;
  rs_rpl_comp : Z -> Z
}.

Section WithNetwork.
Variable node_type : Z -> Z.

(** [Is_Stable] on a non-null node.  When the type of a node is none of
    the four, the C function ends without a [return]; the value is then
    unspecified and is taken to be 0 here. *)
Fixpoint Is_Stable_node (inner_flag lf_below : Z -> Z) (comp_ptr : arb_tnode) : Z :=
  let l := label comp_ptr in
  if node_type l =? LEAVE then 1
  else if node_type l =? RET then
    if (inner_flag l =? INNER) && (lf_below l >=? 0) then 1 else 0
  else if (node_type l =? TREE) || (node_type l =? ROOT) then
    (fix scan (cs : list arb_tnode) : Z :=
       match cs with
       | [] => 0
       | c :: cs' =>
           if Is_Stable_node inner_flag lf_below c =? 1 then 1 else scan cs'
       end) (child comp_ptr)
  else 0.

Definition Is_Stable (comp_ptr : option arb_tnode) (inner_flag lf_below : Z -> Z) : Z :=
  match comp_ptr with
  | None => -1
  | Some t => Is_Stable_node inner_flag lf_below t
  end.

(** The node a childless node of the component becomes, and the arrays
    after it: the body of [Replace_Ret_Revised] for [no_children == 0]. *)
Definition Replace_leaf (leaf_below super_deg : Z -> Z) (x f : Z)
  (s : replace_state) : arb_tnode * replace_state :=
  if node_type x =? LEAVE then
    (Tnode x f [],
     RS (rs_inner_flag s) (add_new (rs_leaf_set s) x) (rs_ambig s)
        (rs_optional s) (rs_rpl_comp s))
  else if node_type x =? RET then
    if leaf_below x =? -2 then (Tnode x f [], s)
    else if rs_inner_flag s x =? INNER then
      (Tnode (leaf_below x) f [],
       RS (rs_inner_flag s)
          (if leaf_below x >=? 0 then add_new (rs_leaf_set s) (leaf_below x)
           else rs_leaf_set s)
          (add_new (rs_ambig s) (leaf_below x))
          (rs_optional s)
          (upd (rs_rpl_comp s) (leaf_below x) x))
    else if rs_inner_flag s x =? CROSS then
      (Tnode (leaf_below x) f [],
       RS (upd (rs_inner_flag s) x REVISED)
          (rs_leaf_set s) (rs_ambig s)
          (add_new (rs_optional s) (leaf_below x))
          (upd (rs_rpl_comp s) (leaf_below x) x))
    else if rs_inner_flag s x =? REVISED then
      (Tnode (leaf_below x) f [],
       if super_deg x >? 2 then
         RS (rs_inner_flag s) (rs_leaf_set s) (rs_ambig s)
            (add_new (rs_optional s) (leaf_below x))
            (upd (rs_rpl_comp s) (leaf_below x) x)
       else
         RS (rs_inner_flag s) (rs_leaf_set s)
            (add_new (rs_ambig s) (leaf_below x))
            (rs_optional s)
            (upd (rs_rpl_comp s) (leaf_below x) x))
    else (Tnode x f [], s)
  else (Tnode x f [], s).

Fixpoint Replace_Ret_Revised (leaf_below super_deg : Z -> Z)
  (tree : arb_tnode) (s : replace_state) : arb_tnode * replace_state :=
  match tree with
  | Tnode x f [] => Replace_leaf leaf_below super_deg x f s
  | Tnode x f cs =>
      let '(cs', s') :=
        (fix over (cs : list arb_tnode) (s : replace_state)
           : list arb_tnode * replace_state :=
           match cs with
           | [] => ([], s)
           | c :: rest =>
               let '(c', s1) := Replace_Ret_Revised leaf_below super_deg c s in
               let '(rest', s2) := over rest s1 in
               (c' :: rest', s2)
           end) cs s in
      (Tnode x f cs', s')
  end.

(** The loop that follows [Replace_Ret_Revised] in the stable case of
    [Cluster_Containment] ([ClusterContainment.c]): every reticulation of
    [r_nodes] that is REVISED goes back to CROSS or INNER. *)
Fixpoint Normalize_Revised (r_nodes : list Z) (inner_flag super_deg : Z -> Z)
  : (Z -> Z) * (Z -> Z) :=
  match r_nodes with
  | [] => (inner_flag, super_deg)
  | r :: rest =>
      if inner_flag r =? REVISED then
        if super_deg r >? 2 then
          Normalize_Revised rest (upd inner_flag r CROSS)
                            (upd super_deg r (super_deg r - 1))
        else
          Normalize_Revised rest (upd inner_flag r INNER) (upd super_deg r 1)
      else Normalize_Revised rest inner_flag super_deg
  end.

(** The four arrays that [Find_UnStable] fills. *)
Record unstable_lists : Type := UL {
  unstb_rets_in : list Z;
  unstb_rets_out : list Z;
  lf_in_comp : list Z;
  lf_out_comp : list Z
}.

Fixpoint Find_UnStable (inner_flag lf_below : Z -> Z) (input_leaves : list Z)
  (comp_ptr : arb_tnode) (u : unstable_lists) : unstable_lists :=
  let l := label comp_ptr in
  if node_type l =? LEAVE then u
  else if node_type l =? RET then
    if inner_flag l =? CROSS then
      let leaf := lf_below l in
      if leaf =? -2 then u
      else if Is_In leaf input_leaves =? 1 then
        UL (unstb_rets_in u ++ [l]) (unstb_rets_out u)
           (lf_in_comp u ++ [leaf]) (lf_out_comp u)
      else
        UL (unstb_rets_in u) (unstb_rets_out u ++ [l])
           (lf_in_comp u) (lf_out_comp u ++ [leaf])
    else u
  else if (node_type l =? TREE) || (node_type l =? ROOT) then
    (fix over (cs : list arb_tnode) (u : unstable_lists) : unstable_lists :=
       match cs with
       | [] => u
       | c :: rest => over rest (Find_UnStable inner_flag lf_below input_leaves c u)
       end) (child comp_ptr) u
  else u.

(** ** Removing edges *)

(** [Modify1]: below tree-typed nodes, drop every child labelled
    [unstb_ret], clear its edge and count the component one smaller. *)
Fixpoint Modify1 (unstb_ret : Z) (p : arb_tnode) (comp_size : Z)
  (net_edges : Z -> Z -> Z) : arb_tnode * Z * (Z -> Z -> Z) :=
  match p with
  | Tnode l f cs =>
      if node_type l =? LEAVE then (p, comp_size, net_edges)
      else if node_type l =? RET then (p, comp_size, net_edges)
      else if (node_type l =? TREE) || (node_type l =? ROOT) then
        let '(cs', sz, ne) :=
          (fix over (cs : list arb_tnode) (sz : Z) (ne : Z -> Z -> Z)
             : list arb_tnode * Z * (Z -> Z -> Z) :=
             match cs with
             | [] => ([], sz, ne)
             | c :: rest =>
                 if label c =? unstb_ret then
                   over rest (sz - 1) (upd2 ne l (label c) 0)
                 else
                   let '(c', sz1, ne1) := Modify1 unstb_ret c sz ne in
                   let '(rest', sz2, ne2) := over rest sz1 ne1 in
                   (c' :: rest', sz2, ne2)
             end) cs comp_size net_edges in
        (Tnode l f cs', sz, ne)
      else (p, comp_size, net_edges)
  end.

Definition Modify1_comp (unstb_ret : Z) (c : components)
  (net_edges : Z -> Z -> Z) : components * (Z -> Z -> Z) :=
  match tree_com c with
  | None => (c, net_edges)
  | Some t =>
      let '(t', sz, ne) := Modify1 unstb_ret t (size c) net_edges in
      (Comp (ret_node c) (inner c) sz (no_tree_node c) (Some t'), ne)
  end.

(** [Modify2]: [Modify1] on every component from [p] on. *)
Fixpoint Modify2 (p : list components) (x : Z) (net_edges : Z -> Z -> Z)
  : list components * (Z -> Z -> Z) :=
  match p with
  | [] => ([], net_edges)
  | c :: rest =>
      let '(c', ne1) := Modify1_comp x c net_edges in
      let '(rest', ne2) := Modify2 rest x ne1 in
      (c' :: rest', ne2)
  end.

(** What [Modify] does to one component: empty it when its root is
    [unstb_ret], run [Modify1] on it otherwise. *)
Definition Modify_comp (unstb_ret : Z) (c : components)
  (net_edges : Z -> Z -> Z) : components * (Z -> Z -> Z) :=
  match tree_com c with
  | None => (c, net_edges)
  | Some t =>
      if label t =? unstb_ret then
        (Comp (ret_node c) (inner c) (size c - 1) (no_tree_node c) None,
         upd2 net_edges (ret_node c) unstb_ret 0)
      else Modify1_comp unstb_ret c net_edges
  end.

(** The first loop of [Modify], over the components after [p]. *)
Fixpoint Modify_later (later : list components) (unstb_ret : Z)
  (net_edges : Z -> Z -> Z) : list components * (Z -> Z -> Z) :=
  match later with
  | [] => ([], net_edges)
  | c :: rest =>
      let '(c', ne1) := Modify_comp unstb_ret c net_edges in
      let '(rest', ne2) := Modify_later rest unstb_ret ne1 in
      (c' :: rest', ne2)
  end.
End WithNetwork.

(** ** Output *)

Definition nl : string := String (ascii_of_nat 10) EmptyString.

(** [%d] *)
Definition dec (n : Z) : string := NilZero.string_of_int (Z.to_int n).

(** [node_strings[i]] *)
Definition name (node_strings : list string) (i : Z) : string :=
  if i <? 0 then EmptyString else nth (Z.to_nat i) node_strings EmptyString.

(** ** The search state *)

(** Everything one branch of the search owns: the component list with its
    trees, the three reticulation arrays and the adjacency matrix. *)
Record state : Type := ST {
  cps : list components;
  inner_flag : Z -> Z;
  lf_below : Z -> Z;
  super_deg : Z -> Z;
  net_edges : Z -> Z -> Z
}.

(** What a call of [Cluster_Containment] leaves behind: the returned
    value, the counter behind [no_break] and the lines printed. *)
Record result : Type := Res {
  res_value : Z;
  res_no_break : Z;
  res_output : list string
}.

Definition set_tree (p : components) (t : option arb_tnode) : components :=
  Comp (ret_node p) (inner p) (size p) (no_tree_node p) t.

(** [p->tree_com->label], for a component whose tree is not null. *)
Definition root_label (p : components) : Z :=
  match tree_com p with
  | Some t => label t
  | None => 0
  end.

(** [Make_Current_Network]: the copy of a component list.  A component of
    size 0 gets a null tree.  (The list holds [n_r + 1] components, so the
    copy is chained like the original.) *)
Definition Make_Current_Network (p : list components) : list components :=
  map (fun c => if size c =? 0 then set_tree c None else c) p.

(** The index of the first component whose [ret_node] is [r]. *)
Fixpoint find_ret_node (cs : list components) (r : Z) : nat :=
  match cs with
  | [] => O
  | c :: rest => if ret_node c =? r then O else S (find_ret_node rest r)
  end.

Section Search.
Variable node_type : Z -> Z.
Variable r_nodes : list Z.
Variable node_strings : list string.
Variable parent_array : Z -> list Z.
(** Bound on the depth of the walks through the graph below. *)
Variable gas : nat.

(** [Modify]: clear the edges into [unstb_ret] from the components after
    position [pos] of [cs]; in the other network, clear them from the
    component at position [pos1]. *)
Definition Modify (cs : list components) (pos : nat) (ne : Z -> Z -> Z)
  (cs1 : list components) (pos1 : option nat) (ne1 : Z -> Z -> Z)
  (unstb_ret : Z)
  : list components * (Z -> Z -> Z) * list components * (Z -> Z -> Z) :=
  match nth_error cs pos with
  | None => (cs, ne, cs1, ne1)
  | Some _ =>
      let '(later', ne') :=
        Modify_later node_type (skipn (S pos) cs) unstb_ret ne in
      let cs' := firstn (S pos) cs ++ later' in
      match pos1 with
      | None => (cs', ne', cs1, ne1)
      | Some k =>
          match nth_error cs1 k with
          | None => (cs', ne', cs1, ne1)
          | Some p1 =>
              let '(p1', ne1') := Modify_comp node_type unstb_ret p1 ne1 in
              (cs', ne', firstn k cs1 ++ p1' :: skipn (S k) cs1, ne1')
          end
      end
  end.

(** [Modify_Cross_Ret] (cleanup after a match): for every reticulation
    whose leaf is optional, cut the other components when the leaf is in
    the cluster, cut this component when it is not. *)
Fixpoint Modify_Cross_Ret (rs : list Z) (optional : list Z)
  (in_cluster : Z -> Z) (p : components) (later : list components)
  (lf_below : Z -> Z) (ne : Z -> Z -> Z)
  : components * list components * (Z -> Z) * (Z -> Z -> Z) :=
  match rs with
  | [] => (p, later, lf_below, ne)
  | r :: rest =>
      let x := lf_below r in
      if (x >=? 0) && (Is_In x optional =? 1) then
        if in_cluster x =? 1 then
          let '(later', ne') := Modify2 node_type later r ne in
          Modify_Cross_Ret rest optional in_cluster p later'
                           (upd lf_below r (-2)) ne'
        else if in_cluster x =? 0 then
          let '(p', ne') := Modify1_comp node_type r p ne in
          Modify_Cross_Ret rest optional in_cluster p' later lf_below ne'
        else Modify_Cross_Ret rest optional in_cluster p later lf_below ne
      else Modify_Cross_Ret rest optional in_cluster p later lf_below ne
  end.

(** [Modify_Cross_Ret1]: the mirror image. *)
Fixpoint Modify_Cross_Ret1 (rs : list Z) (optional : list Z)
  (in_cluster : Z -> Z) (p : components) (later : list components)
  (lf_below : Z -> Z) (ne : Z -> Z -> Z)
  : components * list components * (Z -> Z) * (Z -> Z -> Z) :=
  match rs with
  | [] => (p, later, lf_below, ne)
  | r :: rest =>
      let x := lf_below r in
      if (x >=? 0) && (Is_In x optional =? 1) then
        if in_cluster x =? 0 then
          let '(later', ne') := Modify2 node_type later r ne in
          Modify_Cross_Ret1 rest optional in_cluster p later'
                            (upd lf_below r (-2)) ne'
        else if in_cluster x =? 1 then
          let '(p', ne') := Modify1_comp node_type r p ne in
          Modify_Cross_Ret1 rest optional in_cluster p' later lf_below ne'
        else Modify_Cross_Ret1 rest optional in_cluster p later lf_below ne
      else Modify_Cross_Ret1 rest optional in_cluster p later lf_below ne
  end.

(** [Count_Parent]: the parents whose edge to [child] is still there. *)
Definition Count_Parent (child : Z) (ne : Z -> Z -> Z) : Z :=
  fold_left (fun count parent => if ne parent child =? 0 then count else count + 1)
            (parent_array child) 0.

(** [Is_Feasible_Node]: 0 when a leaf of the wrong class hangs below
    [parent].  [None] when the walk is deeper than [gas]. *)
Fixpoint Is_Feasible_Node (fuel : nat) (child_array : Z -> list Z)
  (input_leaves : list Z) (lf_below : Z -> Z) (ne : Z -> Z -> Z)
  (parent curr_leaf indicator : Z) : option Z :=
  match fuel with
  | O => None
  | S fuel' =>
      (fix over (children : list Z) : option Z :=
         match children with
         | [] => Some 1
         | a_leaf :: rest =>
             if a_leaf =? curr_leaf then over rest
             else if ne parent a_leaf =? 0 then over rest
             else if node_type a_leaf =? RET then
               let l_below := lf_below a_leaf in
               if negb (l_below =? -2) && (l_below =? curr_leaf) then over rest
               else
                 let num_parent := Count_Parent a_leaf ne in
                 if (num_parent >=? 2) && (l_below =? -2) then Some 1
                 else if (num_parent <=? 1)
                         && (Is_In l_below input_leaves =? indicator)
                 then Some 0
                 else over rest
             else if node_type a_leaf =? LEAVE then
               if Is_In a_leaf input_leaves =? indicator then Some 0
               else over rest
             else
               match Is_Feasible_Node fuel' child_array input_leaves lf_below
                                      ne a_leaf curr_leaf indicator with
               | None => None
               | Some res => if res =? 0 then Some 0 else over rest
               end
         end) (child_array parent)
  end.

(** [To_Run_Network]: walk the live parents of [unstb_ret], up to the
    first root-typed one, until one of them is not feasible. *)
Definition To_Run_Network (child_array : Z -> list Z) (input_leaves : list Z)
  (lf_below : Z -> Z) (ne : Z -> Z -> Z) (unstb_ret indicator : Z) : option Z :=
  let curr_leaf := lf_below unstb_ret in
  (fix over (parents : list Z) : option Z :=
     match parents with
     | [] => Some 1
     | parent :: rest =>
         if node_type parent =? ROOT then Some 1
         else if ne parent unstb_ret =? 0 then over rest
         else
           match Is_Feasible_Node gas child_array input_leaves lf_below ne
                                  parent curr_leaf indicator with
           | None => None
           | Some to_run => if to_run =? 0 then Some 0 else over rest
           end
     end) (parent_array unstb_ret).

(** The loops of the splitter around [To_Run_Network]: stop at the
    first reticulation that makes the network infeasible. *)
Fixpoint Run_Check (child_array : Z -> list Z) (input_leaves : list Z)
  (lf_below : Z -> Z) (ne : Z -> Z -> Z) (indicator : Z) (rets : list Z)
  : option Z :=
  match rets with
  | [] => Some 1
  | unstb_ret :: rest =>
      match To_Run_Network child_array input_leaves lf_below ne
                           unstb_ret indicator with
      | None => None
      | Some run =>
          if run =? 0 then Some 0
          else
            match rest with
            | [] => Some run
            | _ => Run_Check child_array input_leaves lf_below ne indicator rest
            end
      end
  end.

(** [Print_tree11]: the edges of a component tree; the edge below a
    reticulation is printed once, and its child list is then dropped. *)
Fixpoint Print_tree11 (tree : arb_tnode) (child_array : Z -> list Z)
  : list string * (Z -> list Z) :=
  match tree with
  | Tnode l _ [] =>
      match child_array l with
      | c :: _ =>
          if node_type l =? RET then
            ([(name node_strings l ++ " " ++ name node_strings c ++ nl)%string],
             fun i => if i =? l then [] else child_array i)
          else ([], child_array)
      | [] => ([], child_array)
      end
  | Tnode l _ cs =>
      (fix over (cs : list arb_tnode) (ca : Z -> list Z)
         : list string * (Z -> list Z) :=
         match cs with
         | [] => ([], ca)
         | c :: rest =>
             let '(o1, ca1) := Print_tree11 c ca in
             let '(o2, ca2) := over rest ca1 in
             ((name node_strings l ++ " " ++ name node_strings (label c)
                 ++ nl)%string :: o1 ++ o2, ca2)
         end) cs child_array
  end.

Fixpoint Print_Final_Tree (out : list components) (child_array : Z -> list Z)
  : list string :=
  match out with
  | [] => []
  | c :: rest =>
      match tree_com c with
      | None => Print_Final_Tree rest child_array
      | Some t =>
          let '(o, ca) := Print_tree11 t child_array in
          o ++ Print_Final_Tree rest ca
      end
  end.

(** The three [printf]s of a success. *)
Definition print_success (node : Z) (all : list components)
  (child_array : Z -> list Z) (no_break : Z) : list string :=
  [("The input is the soft cluster of node: " ++ name node_strings node ++ nl)%string]
    ++ Print_Final_Tree all child_array
    ++ [(nl ++ nl ++ nl ++ " The no. of rets eliminated: " ++ dec no_break ++ nl)%string].
End Search.

(** ** [Cluster_Containment] of [ClusterContainment.c] *)

Module CCP.
Section Cluster_Containment.
Variable node_type : Z -> Z.
Variable r_nodes : list Z.
Variable node_strings : list string.
Variable child_array : Z -> list Z.
Variable parent_array : Z -> list Z.
Variable gas : nat.

(** A recursive call: the state, the position of the component [ptr]
  in [cps], the cluster as list and as bitmap, and [*no_break]. *)
Definition call : Type :=
state -> nat -> list Z -> (Z -> Z) -> Z -> option result.

(** [lf_below[r] = -2] for every reticulation whose leaf is [lf]. *)
Definition clear_leaf (lf : Z) (lf_below : Z -> Z) : Z -> Z :=
fold_left (fun lb r => if lb r =? lf then upd lb r (-2) else lb) r_nodes lf_below.

(** The marking loops of the stable case. *)
Definition mark_leaves (t : arb_tnode) (ambig sleaves : list Z)
(in_cluster : Z -> Z) : arb_tnode * Z :=
let m1 :=
  fold_left (fun (tn : arb_tnode * Z) a =>
               if in_cluster a =? 0 then Mark_Revised (fst tn) a (snd tn) else tn)
            ambig (t, 0) in
fold_left (fun (tn : arb_tnode * Z) s =>
             if (Check_List ambig s =? -1) && (in_cluster s =? 0)
             then Mark_Revised (fst tn) s (snd tn) else tn)
          sleaves m1.

Definition count_eq (in_cluster : Z -> Z) (v : Z) (l : list Z) : Z :=
fold_left (fun n x => if in_cluster x =? v then n + 1 else n) l 0.

(** The cluster with the leaves of [drop1] and [drop2] taken out and
  [keep] appended, and its bitmap. *)
Definition shrink_leaves (input_leaves drop1 drop2 : list Z) (keep : Z) : list Z :=
filter (fun x => (Is_In x drop1 =? -1) && (Is_In x drop2 =? -1)) input_leaves
  ++ [keep].

Definition shrink_cluster (in_cluster : Z -> Z) (input_leaves1 : list Z) : Z -> Z :=
fun i => if Is_In i input_leaves1 =? -1 then 0 else in_cluster i.

(** The stable case: the component at [pos] is [p], its tree is [t]. *)
Definition stable_case (rec : call) (st : state) (pos : nat)
(p : components) (t : arb_tnode)
(input_leaves : list Z) (in_cluster : Z -> Z) (no_break : Z) : option result :=
let before := firstn pos (cps st) in
let later := skipn (S pos) (cps st) in
let no1 := len input_leaves in
let '(t1, rs) :=
  Replace_Ret_Revised node_type (lf_below st) (super_deg st) t
    (RS (inner_flag st) [] [] [] (fun _ => -1)) in
let sleaves := rs_leaf_set rs in
let ambig := rs_ambig rs in
let optional := rs_optional rs in
let rpl_comp := rs_rpl_comp rs in
let no_slf := len sleaves in
let no_opt := len optional in
let '(iflag, sdeg) := Normalize_Revised r_nodes (rs_inner_flag rs) (super_deg st) in
if no_slf >? 0 then
  if (no_opt =? 0) && (no_slf =? 1) then
    if (no1 =? 1) && (rd sleaves 0 =? rd input_leaves 0) then
      Some (Res 50 no_break
              (print_success node_type node_strings (ret_node p)
                 (before ++ set_tree p (Some t1) :: later) child_array no_break))
    else
      rec (ST (before ++ set_tree p (Some t1) :: later) iflag
              (upd (lf_below st) (ret_node p) (rd sleaves 0)) sdeg (net_edges st))
          (S pos) input_leaves in_cluster no_break
  else
    let '(t3, no_mark) := mark_leaves (Initiallize t1) ambig sleaves in_cluster in
    let vmax := if no_mark =? 0 then [label t3] else Find_Vmax t3 [] in
    let is_cluster := DProgram_Revised node_type t3 no1 vmax input_leaves in
    let p4 := set_tree p (Some (Rebuilt_Component node_type t3 rpl_comp)) in
    if is_cluster >=? 0 then
      let '(p5, later5, _, _) :=
        Modify_Cross_Ret node_type r_nodes optional in_cluster p4 later
                         (lf_below st) (net_edges st) in
      Some (Res 50 no_break
              (print_success node_type node_strings is_cluster
                 (before ++ p5 :: later5) child_array no_break))
    else
      let lfb :=
        if negb (node_type (ret_node p) =? ROOT) then
          upd (clear_leaf (rd sleaves 0) (lf_below st)) (ret_node p) (rd sleaves 0)
        else lf_below st in
      let count_out := count_eq in_cluster 0 sleaves in
      let count_in := count_eq in_cluster 1 sleaves in
      if count_out =? no_slf then
        let '(p5, later5, lfb5, ne5) :=
          Modify_Cross_Ret1 node_type r_nodes optional in_cluster p4 later
                            lfb (net_edges st) in
        rec (ST (before ++ p5 :: later5) iflag lfb5 sdeg ne5)
            (S pos) input_leaves in_cluster no_break
      else if count_in =? no_slf then
        let num_inleaf :=
          count_eq in_cluster 1 sleaves + count_eq in_cluster 1 optional in
        let '(p5, later5, lfb5, ne5) :=
          Modify_Cross_Ret node_type r_nodes optional in_cluster p4 later
                           lfb (net_edges st) in
        if num_inleaf =? no1 then
          Some (Res 50 no_break
                  (print_success node_type node_strings (root_label p5)
                     (before ++ p5 :: later5) child_array no_break))
        else if no_slf + no_opt >? 1 then
          let input_leaves1 :=
            shrink_leaves input_leaves sleaves optional (rd sleaves 0) in
          rec (ST (before ++ p5 :: later5) iflag lfb5 sdeg ne5)
              (S pos) input_leaves1 (shrink_cluster in_cluster input_leaves1)
              no_break
        else
          rec (ST (before ++ p5 :: later5) iflag lfb5 sdeg ne5)
              (S pos) input_leaves in_cluster no_break
      else Some (Res 10 no_break [])
else
  let t2 := Rebuilt_Component node_type t1 rpl_comp in
  let cps2 := before ++ set_tree p (Some t2) :: later in
  let '(cps3, ne3, _, _) :=
    Modify node_type cps2 (S pos) (net_edges st) [] None (net_edges st)
           (label t2) in
  rec (ST cps3 iflag (lf_below st) sdeg ne3)
      (S pos) input_leaves in_cluster no_break.

(** One round of the first loop of the splitter, for a reticulation whose
  leaf is in the cluster: [a] keeps it inside the component, the copy
  [b] loses the edge from the component. *)
Definition split_in (pos pos1 : nat) (ab : state * state) (unstb_ret : Z)
: state * state :=
let '(a, b) := ab in
let '(ifa, sda, ifb, sdb) :=
  if inner_flag a unstb_ret =? CROSS then
    let sd1 := super_deg a unstb_ret - 1 in
    (upd (inner_flag a) unstb_ret INNER,
     upd (super_deg a) unstb_ret 1,
     upd (inner_flag b) unstb_ret (if sd1 =? 1 then INNER else CROSS),
     upd (super_deg b) unstb_ret sd1)
  else (inner_flag a, super_deg a, inner_flag b, super_deg b) in
let '(cs, ne, cs1, ne1) :=
  Modify node_type (cps a) pos (net_edges a)
         (cps b) (Some pos1) (net_edges b) unstb_ret in
(ST cs ifa (lf_below a) sda ne, ST cs1 ifb (lf_below b) sdb ne1).

(** One round of the second loop, for a reticulation whose leaf is not
  in the cluster: the sides are swapped. *)
Definition split_out (pos pos1 : nat) (ab : state * state) (unstb_ret : Z)
: state * state :=
let '(a, b) := ab in
let '(ifa, sda, ifb, sdb) :=
  if inner_flag a unstb_ret =? CROSS then
    let sd := super_deg a unstb_ret - 1 in
    (upd (inner_flag a) unstb_ret (if sd =? 1 then INNER else CROSS),
     upd (super_deg a) unstb_ret sd,
     upd (inner_flag b) unstb_ret INNER,
     upd (super_deg b) unstb_ret 1)
  else (inner_flag a, super_deg a, inner_flag b, super_deg b) in
let '(cs1, ne1, cs, ne) :=
  Modify node_type (cps b) pos1 (net_edges b)
         (cps a) (Some pos) (net_edges a) unstb_ret in
(ST cs ifa (lf_below a) sda ne, ST cs1 ifb (lf_below b) sdb ne1).

(** The leaf that stands for the component after the split. *)
Definition replace_component (lf_comp rets : list Z) (ret : Z)
(lf_below : Z -> Z) : Z -> Z :=
match lf_comp with
| [] => upd lf_below ret (-2)
| lf0 :: _ =>
    fold_left (fun lb r => upd lb r (-2)) rets
              (upd (clear_leaf lf0 lf_below) ret lf0)
end.

(** The unstable case. *)
Definition unstable_case (rec : call) (st : state) (pos : nat)
(p : components) (t : arb_tnode)
(input_leaves : list Z) (in_cluster : Z -> Z) (no_break : Z) : option result :=
let no1 := len input_leaves in
let u :=
  Find_UnStable node_type (inner_flag st) (lf_below st) input_leaves t
                (UL [] [] [] []) in
let no_rets_in := len (unstb_rets_in u) in
let no_rets_out := len (unstb_rets_out u) in
let no_in_lfb := len (lf_in_comp u) in
if no_in_lfb =? no1 then
  Some (Res 50 no_break
          (print_success node_type node_strings (label t) (cps st)
             child_array no_break))
else if (no_rets_in >? 0) || (no_rets_out >? 0) then
  let whole_copy := Make_Current_Network (cps st) in
  let pos1 := find_ret_node whole_copy (ret_node p) in
  let st1 :=
    ST whole_copy (inner_flag st) (lf_below st) (super_deg st) (net_edges st) in
  let ab1 := fold_left (split_in pos pos1) (unstb_rets_in u) (st, st1) in
  let '(a, b) := fold_left (split_out pos pos1) (unstb_rets_out u) ab1 in
  let no_break1 := no_break + 1 in
  let lfb := replace_component (lf_in_comp u) (unstb_rets_in u) (ret_node p)
                               (lf_below a) in
  let lfb1 := replace_component (lf_out_comp u) (unstb_rets_out u) (ret_node p)
                                (lf_below b) in
  match Run_Check node_type parent_array gas child_array input_leaves lfb
                  (net_edges a) 1 (unstb_rets_out u),
        Run_Check node_type parent_array gas child_array input_leaves lfb1
                  (net_edges b) (-1) (unstb_rets_in u) with
  | Some run_1st, Some run_2nd =>
      if (run_1st =? 0) && (run_2nd =? 0) then Some (Res 10 no_break1 [])
      else
        let first :=
          if run_1st =? 1 then
            if no_in_lfb >? 1 then
              let input_leaves1 :=
                shrink_leaves input_leaves (lf_in_comp u) [] (rd (lf_in_comp u) 0) in
              rec (ST (cps a) (inner_flag a) lfb (super_deg a) (net_edges a))
                  (S pos) input_leaves1
                  (shrink_cluster in_cluster input_leaves1) no_break1
            else
              rec (ST (cps a) (inner_flag a) lfb (super_deg a) (net_edges a))
                  (S pos) input_leaves in_cluster no_break1
          else Some (Res 0 no_break1 []) in
        match first with
        | None => None
        | Some r1 =>
            if negb (res_value r1 =? 50) && (run_2nd =? 1) then
              match rec (ST (cps b) (inner_flag b) lfb1 (super_deg b) (net_edges b))
                        (S pos1) input_leaves in_cluster (res_no_break r1) with
              | None => None
              | Some r2 =>
                  Some (Res (res_value r2) (res_no_break r2)
                          (res_output r1 ++ res_output r2))
              end
            else Some r1
        end
  | _, _ => None
  end
else
  let '(later', ne') :=
    Modify2 node_type (skipn (S pos) (cps st)) (ret_node p) (net_edges st) in
  rec (ST (firstn (S pos) (cps st) ++ later') (inner_flag st) (lf_below st)
          (super_deg st) ne')
      (S pos) input_leaves in_cluster no_break.

(** [Cluster_Containment]: 50 when the cluster is found, 10 or 0 when it
  is not.  Every recursive call moves to the next component; [fuel]
  bounds the number of nested calls, and [None] means it ran out. *)
Fixpoint Cluster_Containment (fuel : nat) (st : state) (pos : nat)
(input_leaves : list Z) (in_cluster : Z -> Z) (no_break : Z) : option result :=
match fuel with
| O => None
| S fuel' =>
    match nth_error (cps st) pos with
    | None => Some (Res 0 no_break [])
    | Some p =>
        match tree_com p with
        | None =>
            let '(later', ne') :=
              Modify2 node_type (skipn (S pos) (cps st)) (ret_node p)
                      (net_edges st) in
            Cluster_Containment fuel'
              (ST (firstn (S pos) (cps st) ++ later') (inner_flag st)
                  (lf_below st) (super_deg st) ne')
              (S pos) input_leaves in_cluster no_break
        | Some t =>
            if Is_Stable node_type (Some t) (inner_flag st) (lf_below st) =? 1
            then stable_case (Cluster_Containment fuel') st pos p t
                             input_leaves in_cluster no_break
            else unstable_case (Cluster_Containment fuel') st pos p t
                               input_leaves in_cluster no_break
        end
    end
end.
End Cluster_Containment.
End CCP.

(** ** Reading and classifying the network *)

(** The edge arrays [start] and [end], cell by cell. *)
Definition edges : Type := list (Z * Z).

(** The interning loop of [main]: names get indices in order of first
    appearance; every line of the network file becomes one edge. *)
Definition intern (node_strings : list string) (s : string) : list string * Z :=
  let u := Check_Name node_strings s in
  if u =? -1 then (node_strings ++ [s], len node_strings) else (node_strings, u).

Fixpoint read_network (lines : list (string * string))
  (node_strings : list string) (es : edges) : list string * edges :=
  match lines with
  | [] => (node_strings, es)
  | (str1, str2) :: rest =>
      let '(ns1, u1) := intern node_strings str1 in
      let '(ns2, u2) := intern ns1 str2 in
      read_network rest ns2 (es ++ [(u1, u2)])
  end.

(** The loop of [main] over the leaf file: the names, without repeats. *)
Fixpoint read_leaves (tokens : list string) (leave_names : list string) : list string :=
  match tokens with
  | [] => leave_names
  | str1 :: rest =>
      if Check_Name leave_names str1 =? -1
      then read_leaves rest (leave_names ++ [str1])
      else read_leaves rest leave_names
  end.

Definition indeg (es : edges) (i : Z) : Z :=
  fold_left (fun n (e : Z * Z) => if snd e =? i then n + 1 else n) es 0.

Definition outdeg (es : edges) (i : Z) : Z :=
  fold_left (fun n (e : Z * Z) => if fst e =? i then n + 1 else n) es 0.

(** The nodes [0 .. n-1]. *)
Definition upto (n : Z) : list Z := map Z.of_nat (seq 0 (Z.to_nat n)).

(** What [Node_Type_Inform1] has computed after some nodes. *)
Record type_info : Type := TI {
  ti_node_type : Z -> Z;
  ti_root : Z;
  ti_check : Z;
  ti_check_node : Z
}.

(** The body of the loop of [Node_Type_Inform1] for node [i].  A node
    that fits none of the rules keeps the type its cell held before. *)
Definition type_node (es : edges) (s : type_info) (i : Z) : type_info :=
  let i_in := indeg es i in
  let out := outdeg es i in
  let s1 :=
    if (i_in =? 0) && (out >? 1)
    then TI (upd (ti_node_type s) i ROOT) i (1 + ti_check s) (ti_check_node s)
    else s in
  let s2 :=
    if (i_in =? 1) && (out =? 0)
    then TI (upd (ti_node_type s1) i LEAVE) (ti_root s1) (ti_check s1) (ti_check_node s1)
    else s1 in
  let s3 :=
    if (i_in =? 1) && (out >=? 1)
    then TI (upd (ti_node_type s2) i TREE) (ti_root s2) (ti_check s2) (ti_check_node s2)
    else s2 in
  let s4 :=
    if (i_in >? 1) && (out =? 1)
    then TI (upd (ti_node_type s3) i RET) (ti_root s3) (ti_check s3) (ti_check_node s3)
    else s3 in
  if (i_in >? 1) && (out >? 1)
  then TI (ti_node_type s4) (ti_root s4) (ti_check s4) (ti_check_node s4 + 1)
  else s4.

(** [Node_Type_Inform1]: the types, the root, and -2 when the graph is
    rejected, 0 otherwise. *)
Definition Node_Type_Inform1 (node_type : Z -> Z) (no_nodes : Z) (es : edges)
  (root : Z) : (Z -> Z) * Z * Z :=
  let s := fold_left (type_node es) (upto no_nodes) (TI node_type root 0 0) in
  (ti_node_type s, ti_root s,
   if (ti_check s >? 1) || (ti_check_node s >? 0) then -2 else 0).

(** Exchange the indices [i] and [j]. *)
Definition swap_index (i j v : Z) : Z :=
  if v =? i then j else if v =? j then i else v.

Definition swap_names (ns : list string) (i j : Z) : list string :=
  map (fun k => if k =? i then name ns j else if k =? j then name ns i else name ns k)
      (upto (len ns)).

(** [Move_Leaves_Front]: leaf number [i] of [leave_names] goes to index
    [i]; the node that was there takes the old index of the leaf. *)
Fixpoint Move_Leaves_Front (leave_names : list string) (i : Z)
  (ntk_names : list string) (es : edges) : list string * edges :=
  match leave_names with
  | [] => (ntk_names, es)
  | lf :: rest =>
      let j := Check_Name ntk_names lf in
      if j =? -1 then (ntk_names, es)
      else
        Move_Leaves_Front rest (i + 1) (swap_names ntk_names i j)
          (map (fun e : Z * Z => (swap_index i j (fst e), swap_index i j (snd e))) es)
  end.

(** [Child_Parent_Inform] *)
Definition ListExtend (arr : Z -> list Z) (i : Z) (lf : Z) : Z -> list Z :=
  fun k => if k =? i then arr k ++ [lf] else arr k.

Definition Child_Parent_Inform (es : edges) : (Z -> list Z) * (Z -> list Z) :=
  fold_left
    (fun (cp : (Z -> list Z) * (Z -> list Z)) (e : Z * Z) =>
       (ListExtend (fst cp) (fst e) (snd e), ListExtend (snd cp) (snd e) (fst e)))
    es (fun _ => [], fun _ => []).

(** ** Ordering the reticulations by level *)

(** An entry of [level_ret]. *)
Record temp_node : Type := TN {
  pnode : Z;
  value : Z;
  index : nat
}.

(** [qsort] with [tnode_comparator]: larger values first; entries of
    equal value are kept in the order they were collected. *)
Fixpoint tnode_insert (x : temp_node) (l : list temp_node) : list temp_node :=
  match l with
  | [] => [x]
  | y :: rest =>
      if value y >=? value x then y :: tnode_insert x rest else x :: y :: rest
  end.

Definition tnode_sort (l : list temp_node) : list temp_node :=
  fold_left (fun acc x => tnode_insert x acc) l [].

(** [orig_rnodes[i] = -2] *)
Fixpoint mark_done (orig_rnodes : list Z) (i : nat) : list Z :=
  match orig_rnodes, i with
  | [], _ => []
  | _ :: rest, O => -2 :: rest
  | x :: rest, S i' => x :: mark_done rest i'
  end.

(** [Is_Empty]: 1 when every cell is -2. *)
Fixpoint Is_Empty (r_nodes : list Z) : Z :=
  match r_nodes with
  | [] => 1
  | x :: rest => if negb (x =? -2) then 0 else Is_Empty rest
  end.

Section Levels.
Variable node_type : Z -> Z.
Variable child_array : Z -> list Z.

(** The test of the first loop: 1 when a child is not a leaf. *)
Fixpoint has_nonleaf (children : list Z) : Z :=
  match children with
  | [] => 0
  | c :: rest => if node_type c =? LEAVE then has_nonleaf rest else 1
  end.

(** [Is_Tree_Component]: 1 when a reticulation is met below [rnode]
    before a leaf.  [None] when the walk is deeper than [fuel]. *)
Fixpoint Is_Tree_Component (fuel : nat) (rnode : Z) : option Z :=
  match fuel with
  | O => None
  | S fuel' =>
      (fix over (children : list Z) (res : Z) : option Z :=
         match children with
         | [] => Some res
         | c :: rest =>
             if node_type c =? LEAVE then over rest res
             else if node_type c =? RET then Some 1
             else
               match Is_Tree_Component fuel' c with
               | None => None
               | Some r => if r =? 1 then Some 1 else over rest r
               end
         end) (child_array rnode) 0
  end.

(** [Count_Ret_Child]: [count] the reticulations met below [rnode],
    [flag] those of them no longer in [orig_rnodes], [size] the other
    nodes. *)
Fixpoint Count_Ret_Child (fuel : nat) (orig_rnodes : list Z) (rnode : Z)
  (cfs : Z * Z * Z) : option (Z * Z * Z) :=
  match fuel with
  | O => None
  | S fuel' =>
      (fix over (children : list Z) (cfs : Z * Z * Z) : option (Z * Z * Z) :=
         match children with
         | [] => Some cfs
         | c :: rest =>
             let '(count, flag, size) := cfs in
             if node_type c =? LEAVE then over rest (count, flag, size + 1)
             else if node_type c =? RET then
               over rest (count + 1,
                          (if Is_In c orig_rnodes =? -1 then flag + 1 else flag),
                          size)
             else
               match Count_Ret_Child fuel' orig_rnodes c (count, flag, size + 1) with
               | None => None
               | Some cfs' => over rest cfs'
               end
         end) (child_array rnode) cfs
  end.

(** The first loop of [Sort_Rets_By_Level]: the cells after the loop
    and the reticulations moved to [r_nodes]. *)
Fixpoint level_leaves (orig_rnodes : list Z) : list Z * list Z :=
  match orig_rnodes with
  | [] => ([], [])
  | r :: rest =>
      let '(orig', out) := level_leaves rest in
      if r =? -2 then (r :: orig', out)
      else if has_nonleaf (child_array r) =? 0 then (-2 :: orig', r :: out)
      else (r :: orig', out)
  end.

(** The second loop. *)
Fixpoint level_trees (gas : nat) (orig_rnodes : list Z) : option (list Z * list Z) :=
  match orig_rnodes with
  | [] => Some ([], [])
  | r :: rest =>
      match level_trees gas rest with
      | None => None
      | Some (orig', out) =>
          if r =? -2 then Some (r :: orig', out)
          else
            match Is_Tree_Component gas r with
            | None => None
            | Some flag =>
                if flag =? 0 then Some (-2 :: orig', r :: out)
                else Some (r :: orig', out)
            end
      end
  end.

(** The [for] loop inside the [while]: the entries of [level_ret]. *)
Fixpoint level_collect (gas : nat) (orig_rnodes : list Z) (i : nat)
  (cells : list Z) : option (list temp_node) :=
  match cells with
  | [] => Some []
  | r :: rest =>
      match level_collect gas orig_rnodes (S i) rest with
      | None => None
      | Some sel =>
          if r =? -2 then Some sel
          else
            match Count_Ret_Child gas orig_rnodes r (0, 0, 0) with
            | None => None
            | Some (count, flag, size) =>
                if (flag >? 0) && (flag =? count)
                then Some (TN r size i :: sel)
                else Some sel
            end
      end
  end.

(** One round of the [while] loop: the cells and the reticulations
    moved to [r_nodes] in this round. *)
Definition level_round (gas : nat) (orig_rnodes : list Z) : option (list Z * list Z) :=
  match level_collect gas orig_rnodes O orig_rnodes with
  | None => None
  | Some level_ret =>
      let sorted := tnode_sort level_ret in
      Some (fold_left (fun o t => mark_done o (index t)) sorted orig_rnodes,
            map pnode sorted)
  end.

(** The [while] loop; [fuel] bounds the number of rounds. *)
Fixpoint level_loop (fuel gas : nat) (orig_rnodes out : list Z) : option (list Z) :=
  if Is_Empty orig_rnodes =? 1 then Some out
  else
    match fuel with
    | O => None
    | S fuel' =>
        match level_round gas orig_rnodes with
        | None => None
        | Some (orig', moved) => level_loop fuel' gas orig' (out ++ moved)
        end
    end.

(** [Sort_Rets_By_Level]: the contents of [r_nodes] when the function
    returns; [None] when it has not returned within the bounds. *)
Definition Sort_Rets_By_Level (fuel gas : nat) (orig_rnodes r_nodes : list Z)
  : option (list Z) :=
  let '(orig1, out1) := level_leaves orig_rnodes in
  match level_trees gas orig1 with
  | None => None
  | Some (orig2, out2) =>
      match level_loop fuel gas orig2 (out1 ++ out2) with
      | None => None
      | Some out => Some (out ++ skipn (List.length out) r_nodes)
      end
  end.
End Levels.

(** ** Building the components *)

Section Components.
Variable node_type : Z -> Z.
Variable child_array : Z -> list Z.
Variable parent_array : Z -> list Z.

(** The inner loops of [Is_Inner_Revised]: from a parent up to the
    first node that is not tree-typed.  [None] when the climb is longer
    than [fuel] or a tree-typed node has no parent. *)
Fixpoint climb (fuel : nat) (f : Z) : option Z :=
  match fuel with
  | O => None
  | S fuel' =>
      if node_type f =? TREE then
        match parent_array f with
        | p :: _ => climb fuel' p
        | [] => None
        end
      else Some f
  end.

(** [Is_Inner_Revised]: INNER when every parent of [node] climbs to
    the same node, CROSS otherwise. *)
Definition Is_Inner_Revised (fuel : nat) (node : Z) : option Z :=
  match parent_array node with
  | [] => None
  | f0 :: q =>
      match climb fuel f0 with
      | None => None
      | Some f =>
          (fix over (q : list Z) : option Z :=
             match q with
             | [] => Some INNER
             | g0 :: rest =>
                 match climb fuel g0 with
                 | None => None
                 | Some g => if negb (f =? g) then Some CROSS else over rest
                 end
             end) q
      end
  end.

(** [Build_Comp_Revised]: grow the tree below the node labelled [l]
    through tree-typed nodes, counting [size] and [no_tree_node]. *)
Fixpoint Build_Comp_Revised (fuel : nat) (l f : Z) (size no_tree_node : Z)
  : option (arb_tnode * Z * Z) :=
  match fuel with
  | O => None
  | S fuel' =>
      if node_type l =? LEAVE then Some (Tnode l f [], size, no_tree_node)
      else if node_type l =? RET then Some (Tnode l f [], size, no_tree_node)
      else if (node_type l =? TREE) || (node_type l =? ROOT) then
        match
          (fix over (children : list Z) (size no_tree_node : Z)
             : option (list arb_tnode * Z * Z) :=
             match children with
             | [] => Some ([], size, no_tree_node)
             | q :: rest =>
                 let ntn := if negb (RET =? node_type q)
                            then no_tree_node + 1 else no_tree_node in
                 match Build_Comp_Revised fuel' q 0 (size + 1) ntn with
                 | None => None
                 | Some (c, size1, ntn1) =>
                     match over rest size1 ntn1 with
                     | None => None
                     | Some (cs, size2, ntn2) => Some (c :: cs, size2, ntn2)
                     end
                 end
             end) (child_array l) size no_tree_node
        with
        | None => None
        | Some (cs, size', ntn') => Some (Tnode l f cs, size', ntn')
        end
      else Some (Tnode l f [], size, no_tree_node)
  end.

(** [Add_Component_Array]: one component per reticulation, rooted at
    its child.  [None] when a reticulation has no child. *)
Fixpoint Add_Component_Array (r_nodes : list Z) (inner_flag : Z -> Z)
  : option (list components) :=
  match r_nodes with
  | [] => Some []
  | r :: rest =>
      match child_array r, Add_Component_Array rest inner_flag with
      | child :: _, Some cs =>
          Some (Comp r (inner_flag r) 1
                     (if node_type child =? RET then 0 else 1)
                     (Some (Tnode child 0 [])) :: cs)
      | _, _ => None
      end
  end.

(** [Add_Component_Root] *)
Definition Add_Component_Root (root : Z) : components :=
  Comp root CROSS 1 1 (Some (Tnode root 0 [])).

(** The loop of [main] that builds every component and adds it to the
    super-degrees. *)
Fixpoint build_all (fuel : nat) (r_nodes : list Z) (cs : list components)
  (super_deg : Z -> Z) : option (list components * (Z -> Z)) :=
  match cs with
  | [] => Some ([], super_deg)
  | p :: rest =>
      match tree_com p with
      | None => None
      | Some t =>
          match Build_Comp_Revised fuel (label t) (flag t) (size p)
                                   (no_tree_node p) with
          | None => None
          | Some (t', size', ntn') =>
              let sd :=
                fold_left (fun sd r => upd sd r (sd r + Is_In_Comp t' r))
                          r_nodes super_deg in
              match build_all fuel r_nodes rest sd with
              | None => None
              | Some (rest', sd') =>
                  Some (Comp (ret_node p) (inner p) size' ntn' (Some t') :: rest',
                        sd')
              end
          end
      end
  end.

(** The last loop of [main] before the search: the reticulations at
    the head of the list that sit right above a leaf get that leaf; the
    result is the position of the first other component. *)
Fixpoint first_component (cs : list components) (i : nat) (lf_below : Z -> Z)
  : nat * (Z -> Z) :=
  match cs with
  | [] => (Nat.pred i, lf_below)
  | p :: rest =>
      if node_type (ret_node p) =? ROOT then (i, lf_below)
      else
        match child_array (ret_node p) with
        | c :: _ =>
            if node_type c =? LEAVE
            then first_component rest (S i) (upd lf_below (ret_node p) c)
            else (i, lf_below)
        | [] => (i, lf_below)
        end
  end.
End Components.

(** ** [main] of [ClusterContainment.c] *)

Module CCP_main.

(** The listing of the nodes and of the input leaves. *)
Definition print_nodes (node_strings : list string) : list string :=
  ["Network nodes" ++ nl ++ "   "]%string
    ++ flat_map
         (fun i =>
            (name node_strings i ++ "(" ++ dec i ++ ") ")%string
              :: (if (i + 1) mod 5 =? 0 then [(nl ++ "   ")%string] else []))
         (upto (len node_strings)).

Definition print_leaves (node_strings : list string) (input_leaves : list Z)
  : list string :=
  [nl ++ "Input leaves" ++ nl ++ "   "]%string
    ++ map (fun l => (name node_strings l ++ "(" ++ dec l ++ ") ")%string)
           input_leaves
    ++ [nl ++ nl]%string.

Definition msg_usage : list string :=
  ["Command: PROGRAM(./ccp) network_file_name leaf_file_name" ++ nl]%string.

Definition msg_topology : list string :=
  [nl ++ " the network graph has two or more roots or a node with";
   nl ++ " both in- and out-degree greater than 1;" ++ nl ++ " Recheck it" ++ nl]%string.

Definition msg_leaf : list string :=
  [nl ++ " A leaf in the cluster is not a leaf in the network;" ++ nl
      ++ "Recheck it" ++ nl]%string.

Definition msg_trivial : list string :=
  ["The input is a trivial soft cluster " ++ nl;
   nl ++ nl ++ nl ++ " The no. of rets eliminated: 0" ++ nl]%string.

Definition msg_not_cluster (no_break : Z) : list string :=
  ["not a cluster!" ++ nl ++ nl;
   "The no. of rets eliminated: " ++ dec no_break ++ nl]%string.

(** Where [main] stands when it has read and checked its input: it has
    returned, or it is about to build the components and search. *)
Inductive checked : Type :=
| Exit (code : Z) (out : list string)
| Proceed (node_strings : list string) (es : edges) (node_type : Z -> Z)
          (root : Z) (n_l : Z) (input_leaves : list Z) (in_cluster : Z -> Z)
          (out : list string).

(** [main] up to the test for a trivial cluster.  [argv] is the
    argument vector, [leaf_file] and [network_file] are the successive
    conversions that [fscanf] returns from the files named by [argv[2]]
    and [argv[1]], and [root0] is the indeterminate initial value of the
    local variable [root]. *)
Definition check_input (root0 : Z) (argv : list string)
  (leaf_file : list string) (network_file : list (string * string)) : checked :=
  if negb (len argv =? 3) then Exit 10 msg_usage
  else
    let leave_names := read_leaves leaf_file [] in
    let no1 := len leave_names in
    let '(node_strings0, es0) := read_network network_file [] [] in
    let no_nodes := len node_strings0 in
    let '(node_type1, root1, x) :=
      Node_Type_Inform1 (fun _ => 0) no_nodes es0 root0 in
    if x <? 0 then Exit 10 msg_topology
    else
      let leaf_nodes := filter (fun i => node_type1 i =? LEAVE) (upto no_nodes) in
      let n_l := len leaf_nodes in
      let net_leaves := map (name node_strings0) leaf_nodes in
      let '(node_strings, es) := Move_Leaves_Front net_leaves 0 node_strings0 es0 in
      let '(node_type, root, _) := Node_Type_Inform1 node_type1 no_nodes es root1 in
      let in_cluster :=
        fun i => if (0 <=? i) && (i <? n_l)
                 then Is_In_Str (name node_strings i) leave_names else 0 in
      let input_leaves := filter (fun i => in_cluster i =? 1) (upto n_l) in
      let check_leaves := len input_leaves in
      if negb (check_leaves =? no1) then Exit 10 msg_leaf
      else
        let out := print_nodes node_strings ++ print_leaves node_strings input_leaves in
        if (no1 =? 1) || (n_l =? no1) then Exit 0 (out ++ msg_trivial)
        else Proceed node_strings es node_type root n_l input_leaves in_cluster out.

(** The arguments of the first call of [Cluster_Containment]. *)
Record search_input : Type := SI {
  si_node_type : Z -> Z;
  si_r_nodes : list Z;
  si_node_strings : list string;
  si_child_array : Z -> list Z;
  si_parent_array : Z -> list Z;
  si_state : state;
  si_pos : nat;
  si_input_leaves : list Z;
  si_in_cluster : Z -> Z
}.

(** [main] from the adjacency matrix to the call of
    [Cluster_Containment].  [None] when one of the loops over the graph
    does not end within [fuel]. *)
Definition prepare (fuel : nat) (node_strings : list string) (es : edges)
  (node_type : Z -> Z) (root : Z) (input_leaves : list Z) (in_cluster : Z -> Z)
  : option search_input :=
  let no_nodes := len node_strings in
  let net_edges :=
    fold_left (fun m (e : Z * Z) => upd2 m (fst e) (snd e) 1) es (fun _ _ => 0) in
  let orig_rnodes := filter (fun i => node_type i =? RET) (upto no_nodes) in
  let '(child_array, parent_array) := Child_Parent_Inform es in
  match Sort_Rets_By_Level node_type child_array fuel fuel orig_rnodes orig_rnodes with
  | None => None
  | Some r_nodes =>
      let flags :=
        fold_left
          (fun (acc : option (Z -> Z)) r =>
             match acc, Is_Inner_Revised node_type parent_array fuel r with
             | Some fl, Some x => Some (upd fl r x)
             | _, _ => None
             end)
          r_nodes (Some (fun _ => -2)) in
      match flags with
      | None => None
      | Some flags0 =>
          let inner_flag := upd flags0 root CROSS in
          match Add_Component_Array node_type child_array r_nodes inner_flag with
          | None => None
          | Some cs0 =>
              match build_all node_type child_array fuel r_nodes
                              (cs0 ++ [Add_Component_Root root]) (fun _ => 0) with
              | None => None
              | Some (component_array, super_deg) =>
                  let '(pos, lf_below) :=
                    match r_nodes with
                    | [] => (O, fun _ : Z => -2)
                    | _ => first_component node_type child_array component_array O
                                           (fun _ => -2)
                    end in
                  Some (SI node_type r_nodes node_strings child_array parent_array
                           (ST component_array inner_flag lf_below super_deg net_edges)
                           pos input_leaves in_cluster)
              end
          end
      end
  end.

(** The call of [Cluster_Containment] in [main]. *)
Definition search (fuel : nat) (si : search_input) : option result :=
  CCP.Cluster_Containment (si_node_type si) (si_r_nodes si) (si_node_strings si)
    (si_child_array si) (si_parent_array si) fuel fuel
    (si_state si) (si_pos si) (si_input_leaves si) (si_in_cluster si) 0.

(** [main]: the value returned and the lines printed. *)
Definition main (fuel : nat) (root0 : Z) (argv : list string)
  (leaf_file : list string) (network_file : list (string * string))
  : option (Z * list string) :=
  match check_input root0 argv leaf_file network_file with
  | Exit code out => Some (code, out)
  | Proceed node_strings es node_type root n_l input_leaves in_cluster out =>
      match prepare fuel node_strings es node_type root input_leaves in_cluster with
      | None => None
      | Some si =>
          match search fuel si with
          | None => None
          | Some r =>
              Some (0, out ++ res_output r
                         ++ (if negb (res_value r =? 50)
                             then msg_not_cluster (res_no_break r) else []))
          end
      end
  end.
End CCP_main.

(** The network of the header comment of [ClusterContainment.c]. *)
Definition reference_network : list (string * string) :=
  [("1", "2"); ("1", "3"); ("3", "4"); ("4", "5"); ("2", "6"); ("3", "6");
   ("6", "leaf1"); ("5", "leaf2"); ("5", "leaf3"); ("4", "leaf4")]%string.

Definition ccp_argv : list string := ["ccp"; "network"; "leaves"]%string.

(** ** Subsets of the leaves ([SoftRFDist_print.c]) *)

Module SRFD.

(** [pop]: the number of 1 bits of a 32-bit word; each round clears
    the lowest one, so 32 rounds are enough. *)
Fixpoint pop_loop (rounds : nat) (x n : Z) : Z :=
  match rounds with
  | O => n
  | S rounds' => if x =? 0 then n else pop_loop rounds' (Z.land x (x - 1)) (n + 1)
  end.

Definition pop (x : Z) : Z := pop_loop 32 x 0.

(** The integers [lo, lo+1, ...], [count] of them. *)
Fixpoint range (lo : Z) (count : nat) : list Z :=
  match count with
  | O => []
  | S c => lo :: range (lo + 1) c
  end.

(** What a 32-bit [int] holds after an operation whose result on the
    integers is [z]: the low 32 bits, read in two's complement. *)
Definition int32 (z : Z) : Z := (z + 2 ^ 31) mod 2 ^ 32 - 2 ^ 31.

(** [nChoosek].  The product [result * (n - i + 1)] is formed in an
    [int]: it wraps around from [n = 30] on. *)
Definition nChoosek (n k : Z) : Z :=
  if k >? n then 0
  else
    let k := if k * 2 >? n then n - k else k in
    if k =? 0 then 1
    else
      fold_left (fun result i => Z.quot (int32 (result * (n - i + 1))) i)
                (range 2 (Z.to_nat (k - 1))) n.

(** [i4vec_indicator0]: the first [n] cells become 0, 1, ..., n-1. *)
Definition i4vec_indicator0 (n : Z) (a : list Z) : list Z :=
  range 0 (Z.to_nat n) ++ skipn (Z.to_nat n) a.

(** The search loop of [ksub_next]: the first [j] with
    [a[j] + 1 < a[j + 1]], and [k - 1] when there is none.  [a] holds
    the cells from index [j] on. *)
Fixpoint ksub_jsave (a : list Z) (j : Z) (k : Z) : Z :=
  match a with
  | x :: ((y :: _) as rest) => if x + 1 <? y then j else ksub_jsave rest (j + 1) k
  | _ => k - 1
  end.

(** [a[i] = v] *)
Definition set_cell (a : list Z) (i v : Z) : list Z :=
  firstn (Z.to_nat i) a ++ v :: skipn (S (Z.to_nat i)) a.

(** [ksub_next]: the subset after [a] among the subsets of size [k] of
    [0 .. n-1]. *)
Definition ksub_next (n k : Z) (a : list Z) : list Z :=
  if rd a 0 <? n - k + 1 then
    let jsave := ksub_jsave a 0 k in
    let a1 := i4vec_indicator0 jsave a in
    set_cell a1 jsave (rd a1 jsave + 1)
  else a.

(** The arrays [input_leaves] that [Subset_CCP] hands to [Is_Cluster],
    in order: the first is 0 .. k-1, each of the [no - 1] others comes
    from [ksub_next]. *)
Fixpoint subset_walk (n k : Z) (steps : nat) (a : list Z) : list (list Z) :=
  match steps with
  | O => []
  | S s => let a' := ksub_next n k a in a' :: subset_walk n k s a'
  end.

Definition Subset_CCP_inputs (n k : Z) (no : Z) : list (list Z) :=
  let a0 := i4vec_indicator0 k (repeat 0 (Z.to_nat k)) in
  a0 :: subset_walk n k (Z.to_nat (no - 1)) a0.

(** All the subsets that [Find_Cluster_Distance] tries, size by size. *)
Definition all_inputs (n : Z) : list (list Z) :=
  flat_map (fun k => Subset_CCP_inputs n k (nChoosek n k))
           (range 1 (Z.to_nat (n - 1))).

(** The membership bitmap of a subset, read as an integer: leaf [i]
    is bit [i]. *)
Definition bitmap (a : list Z) : Z :=
  fold_left (fun b i => Z.lor b (Z.shiftl 1 i)) a 0.

(** *** [Cluster_Containment] of [SoftRFDist_print.c]

    The function differs from the one of [ClusterContainment.c]: it
    keeps no adjacency matrix and makes no feasibility test, it has no
    shortcut for a single stable leaf, it returns 0 where the other
    returns 10, and it passes through REVISED when it splits.  It also
    prints a trace of its steps.  The returned value is modelled, and of
    the trace the one thing that matters for it: the trace reads
    [node_strings] at [lf_below[r]], and [Replace_Ret_Revised] of this
    file writes [rpl_comp] there, also when [lf_below[r]] is -2, the
    mark of a reticulation without a leaf.  Node and leaf numbers index
    the arrays within their bounds in every state that the program
    builds; -2 is the one index outside that the program makes
    itself. *)

(** How a part of the program ends: with a value, or at an access
    outside an array, from where on C leaves the behaviour undefined. *)
Inductive run (A : Type) : Type :=
| Done (a : A)
| Fault.

Arguments Done {A} a.
Arguments Fault {A}.

(** To go on after a part that has ended with a value.  [None] is a
    search that needs more than the given number of nested calls. *)
Definition and_then {A B : Type} (x : option (run A))
  (f : A -> option (run B)) : option (run B) :=
  match x with
  | None => None
  | Some Fault => Some Fault
  | Some (Done a) => f a
  end.

(** The record [struct network] that [Preprocess_Network] fills. *)
Record network : Type := Net {
  root : Z;
  n_r : Z;
  n_l : Z;
  no_nodes : Z;
  node_strings : list string;
  child_array : Z -> list Z;
  net_lf_below : Z -> Z;
  net_inner_flag : Z -> Z;
  net_super_deg : Z -> Z;
  node_type : Z -> Z;
  r_nodes : list Z;
  all_cps : list components
}.

(** The functions that remove edges are those of [ClusterContainment.c]
    without the writes to the adjacency matrix; the matrix threaded
    through them here is never read. *)
Definition no_edges : Z -> Z -> Z := fun _ _ => 0.

Section Cluster_Containment.
Variable node_type : Z -> Z.
Variable r_nodes : list Z.

(** [Replace_Ret_Revised] of this file has no test for
    [leaf_below[tree->label] == -2]. *)
Definition Replace_leaf (leaf_below super_deg : Z -> Z) (x f : Z)
  (s : replace_state) : arb_tnode * replace_state :=
  if node_type x =? LEAVE then
    (Tnode x f [],
     RS (rs_inner_flag s) (add_new (rs_leaf_set s) x) (rs_ambig s)
        (rs_optional s) (rs_rpl_comp s))
  else if node_type x =? RET then
    if rs_inner_flag s x =? INNER then
      (Tnode (leaf_below x) f [],
       RS (rs_inner_flag s)
          (if leaf_below x >=? 0 then add_new (rs_leaf_set s) (leaf_below x)
           else rs_leaf_set s)
          (add_new (rs_ambig s) (leaf_below x))
          (rs_optional s)
          (upd (rs_rpl_comp s) (leaf_below x) x))
    else if rs_inner_flag s x =? CROSS then
      (Tnode (leaf_below x) f [],
       RS (upd (rs_inner_flag s) x REVISED)
          (rs_leaf_set s) (rs_ambig s)
          (add_new (rs_optional s) (leaf_below x))
          (upd (rs_rpl_comp s) (leaf_below x) x))
    else if rs_inner_flag s x =? REVISED then
      (Tnode (leaf_below x) f [],
       if super_deg x >? 2 then
         RS (rs_inner_flag s) (rs_leaf_set s) (rs_ambig s)
            (add_new (rs_optional s) (leaf_below x))
            (upd (rs_rpl_comp s) (leaf_below x) x)
       else
         RS (rs_inner_flag s) (rs_leaf_set s)
            (add_new (rs_ambig s) (leaf_below x))
            (rs_optional s)
            (upd (rs_rpl_comp s) (leaf_below x) x))
    else (Tnode x f [], s)
  else (Tnode x f [], s).

Fixpoint Replace_Ret_Revised (leaf_below super_deg : Z -> Z)
  (tree : arb_tnode) (s : replace_state) : arb_tnode * replace_state :=
  match tree with
  | Tnode x f [] => Replace_leaf leaf_below super_deg x f s
  | Tnode x f cs =>
      let '(cs', s') :=
        (fix over (cs : list arb_tnode) (s : replace_state)
           : list arb_tnode * replace_state :=
           match cs with
           | [] => ([], s)
           | c :: rest =>
               let '(c', s1) := Replace_Ret_Revised leaf_below super_deg c s in
               let '(rest', s2) := over rest s1 in
               (c' :: rest', s2)
           end) cs s in
      (Tnode x f cs', s')
  end.

(** [Rebuilt_Component] of this file tests [rpl_comp[x] >= 0]. *)
Fixpoint Rebuilt_Component (tree : arb_tnode) (rpl_comp : Z -> Z) : arb_tnode :=
  match tree with
  | Tnode x f [] =>
      if (node_type x =? LEAVE) && (rpl_comp x >=? 0)
      then Tnode (rpl_comp x) f []
      else tree
  | Tnode x f cs => Tnode x f (map (fun c => Rebuilt_Component c rpl_comp) cs)
  end.

(** The same loop after [Replace_Ret_Revised] as in the other file. *)
Fixpoint Normalize_Revised (r_nodes : list Z) (inner_flag super_deg : Z -> Z)
  : (Z -> Z) * (Z -> Z) :=
  match r_nodes with
  | [] => (inner_flag, super_deg)
  | r :: rest =>
      if inner_flag r =? REVISED then
        if super_deg r >? 2 then
          Normalize_Revised rest (upd inner_flag r CROSS)
                            (upd super_deg r (super_deg r - 1))
        else
          Normalize_Revised rest (upd inner_flag r INNER) (upd super_deg r 1)
      else Normalize_Revised rest inner_flag super_deg
  end.

Definition call : Type := state -> nat -> list Z -> (Z -> Z) -> option (run Z).

(** The trace of a call ends with [node_strings[lf_below[r]]] for every
    reticulation [r]: a read outside [node_strings] when [lf_below[r]]
    is -2. *)
Definition trace_outside (lf_below : Z -> Z) : bool :=
  existsb (fun r => lf_below r <? 0) r_nodes.

(** [Replace_Ret_Revised] has written [rpl_comp[x]] for every [x] that
    it has put into [ambig] or [optional]: a write outside [rpl_comp]
    when [x] is -2 (and the loops of the stable case then read
    [in_cluster[x]]). *)
Definition replaced_outside (rs : replace_state) : bool :=
  existsb (fun x => x <? 0) (rs_ambig rs ++ rs_optional rs).

Definition step_cps (st : state) (pos : nat) (p : components)
  (later : list components) : list components :=
  firstn pos (cps st) ++ p :: later.

Definition stable_case (rec : call) (st : state) (pos : nat)
  (p : components) (t : arb_tnode)
  (input_leaves : list Z) (in_cluster : Z -> Z) : option (run Z) :=
  let later := skipn (S pos) (cps st) in
  let no1 := len input_leaves in
  let '(t1, rs) :=
    Replace_Ret_Revised (lf_below st) (super_deg st) t
      (RS (inner_flag st) [] [] [] (fun _ => -1)) in
  let sleaves := rs_leaf_set rs in
  let ambig := rs_ambig rs in
  let optional := rs_optional rs in
  let rpl_comp := rs_rpl_comp rs in
  let no_slf := len sleaves in
  let '(iflag, sdeg) := Normalize_Revised r_nodes (rs_inner_flag rs) (super_deg st) in
  if replaced_outside rs then Some Fault
  else if no_slf >? 0 then
    let '(t3, no_mark) :=
      CCP.mark_leaves (Initiallize t1) ambig sleaves in_cluster in
    let vmax := if no_mark =? 0 then [label t3] else Find_Vmax t3 [] in
    let is_cluster := DProgram_Revised node_type t3 no1 vmax input_leaves in
    let p4 := set_tree p (Some (Rebuilt_Component t3 rpl_comp)) in
    if is_cluster >=? 0 then Some (Done 50)
    else
      let lfb := upd (CCP.clear_leaf r_nodes (rd sleaves 0) (lf_below st))
                     (ret_node p) (rd sleaves 0) in
      let count_out := CCP.count_eq in_cluster 0 sleaves in
      let count_in := CCP.count_eq in_cluster 1 sleaves in
      if count_out =? no_slf then
        let '(p5, later5, lfb5, _) :=
          Modify_Cross_Ret1 node_type r_nodes optional in_cluster p4 later
                            lfb no_edges in
        rec (ST (step_cps st pos p5 later5) iflag lfb5 sdeg no_edges)
            (S pos) input_leaves in_cluster
      else if count_in =? no_slf then
        let num_inleaf :=
          CCP.count_eq in_cluster 1 sleaves + CCP.count_eq in_cluster 1 optional in
        if num_inleaf =? no1 then Some (Done 50)
        else
          let '(p5, later5, lfb5, _) :=
            Modify_Cross_Ret node_type r_nodes optional in_cluster p4 later
                             lfb no_edges in
          let input_leaves1 :=
            CCP.shrink_leaves input_leaves sleaves optional (rd sleaves 0) in
          rec (ST (step_cps st pos p5 later5) iflag lfb5 sdeg no_edges)
              (S pos) input_leaves1 (CCP.shrink_cluster in_cluster input_leaves1)
      else Some (Done 0)
  else
    let t2 := Rebuilt_Component t1 rpl_comp in
    let cps2 := step_cps st pos (set_tree p (Some t2)) later in
    let '(cps3, _, _, _) :=
      Modify node_type cps2 (S pos) no_edges [] None no_edges (label t2) in
    rec (ST cps3 iflag (lf_below st) sdeg no_edges)
        (S pos) input_leaves in_cluster.

(** The two loops of the splitter of this file. *)
Definition split_in (pos pos1 : nat) (ab : state * state) (unstb_ret : Z)
  : state * state :=
  let '(a, b) := ab in
  let '(ifa, sda, ifb, sdb) :=
    if inner_flag a unstb_ret =? CROSS then
      let sd1 := super_deg a unstb_ret - 1 in
      (upd (inner_flag a) unstb_ret INNER,
       upd (super_deg a) unstb_ret 1,
       upd (inner_flag b) unstb_ret (if sd1 =? 1 then INNER else REVISED),
       upd (super_deg b) unstb_ret sd1)
    else (inner_flag a, super_deg a, inner_flag b, super_deg b) in
  let '(cs, _, cs1, _) :=
    Modify node_type (cps a) pos no_edges (cps b) (Some pos1) no_edges unstb_ret in
  (ST cs ifa (lf_below a) sda no_edges, ST cs1 ifb (lf_below b) sdb no_edges).

Definition split_out (pos pos1 : nat) (ab : state * state) (unstb_ret : Z)
  : state * state :=
  let '(a, b) := ab in
  let '(ifa, sda, ifb, sdb) :=
    if inner_flag a unstb_ret =? CROSS then
      let sd := super_deg a unstb_ret - 1 in
      (upd (inner_flag a) unstb_ret (if sd =? 1 then INNER else REVISED),
       upd (super_deg a) unstb_ret sd,
       upd (inner_flag b) unstb_ret INNER,
       upd (super_deg b) unstb_ret 1)
    else (inner_flag a, super_deg a, inner_flag b, super_deg b) in
  let '(cs1, _, cs, _) :=
    Modify node_type (cps b) pos1 no_edges (cps a) (Some pos) no_edges unstb_ret in
  (ST cs ifa (lf_below a) sda no_edges, ST cs1 ifb (lf_below b) sdb no_edges).

(** The flags of the copy before the second branch is entered. *)
Definition settle_flags (rets : list Z) (super_deg1 inner_flag1 : Z -> Z) : Z -> Z :=
  fold_left (fun fl u => upd fl u (if super_deg1 u =? 1 then INNER else CROSS))
            rets inner_flag1.

(** [lf_below] after the component is replaced by its first leaf;
    unchanged when the component has none. *)
Definition replace_component (lf_comp rets : list Z) (ret : Z)
  (lf_below : Z -> Z) : Z -> Z :=
  match lf_comp with
  | [] => lf_below
  | lf0 :: _ =>
      fold_left (fun lb r => upd lb r (-2)) rets
                (upd (CCP.clear_leaf r_nodes lf0 lf_below) ret lf0)
  end.

Definition unstable_case (rec : call) (st : state) (pos : nat)
  (p : components) (t : arb_tnode)
  (input_leaves : list Z) (in_cluster : Z -> Z) : option (run Z) :=
  let no1 := len input_leaves in
  let u :=
    Find_UnStable node_type (inner_flag st) (lf_below st) input_leaves t
                  (UL [] [] [] []) in
  let no_in_lfb := len (lf_in_comp u) in
  if no_in_lfb =? no1 then Some (Done 50)
  else if (len (unstb_rets_in u) >? 0) || (len (unstb_rets_out u) >? 0) then
    let whole_copy := Make_Current_Network (cps st) in
    let pos1 := find_ret_node whole_copy (ret_node p) in
    let st1 :=
      ST whole_copy (inner_flag st) (lf_below st) (super_deg st) no_edges in
    let ab1 := fold_left (split_in pos pos1) (unstb_rets_in u) (st, st1) in
    let '(a, b) := fold_left (split_out pos pos1) (unstb_rets_out u) ab1 in
    let lfb := replace_component (lf_in_comp u) (unstb_rets_in u) (ret_node p)
                                 (lf_below a) in
    let first :=
      if no_in_lfb >? 1 then
        let input_leaves1 :=
          CCP.shrink_leaves input_leaves (lf_in_comp u) [] (rd (lf_in_comp u) 0) in
        rec (ST (cps a) (inner_flag a) lfb (super_deg a) no_edges)
            (S pos) input_leaves1 (CCP.shrink_cluster in_cluster input_leaves1)
      else
        rec (ST (cps a) (inner_flag a) lfb (super_deg a) no_edges)
            (S pos) input_leaves in_cluster in
    and_then first
      (fun res =>
         if res =? 0 then
           let iflag1 :=
             settle_flags (unstb_rets_out u) (super_deg b)
               (settle_flags (unstb_rets_in u) (super_deg b) (inner_flag b)) in
           let lfb1 :=
             replace_component (lf_out_comp u) (unstb_rets_out u) (ret_node p)
                               (lf_below b) in
           rec (ST (cps b) iflag1 lfb1 (super_deg b) no_edges)
               (S pos1) input_leaves in_cluster
         else Some (Done res))
  else
    let '(later', _) :=
      Modify2 node_type (skipn (S pos) (cps st)) (ret_node p) no_edges in
    rec (ST (firstn (S pos) (cps st) ++ later') (inner_flag st) (lf_below st)
            (super_deg st) no_edges)
        (S pos) input_leaves in_cluster.

(** [Cluster_Containment]: 50 when the cluster is found, 0 when it is
    not.  A null [ptr] returns at once; every other call prints its
    trace first. *)
Fixpoint Cluster_Containment (fuel : nat) (st : state) (pos : nat)
  (input_leaves : list Z) (in_cluster : Z -> Z) : option (run Z) :=
  match fuel with
  | O => None
  | S fuel' =>
      match nth_error (cps st) pos with
      | None => Some (Done 0)
      | Some p =>
          if trace_outside (lf_below st) then Some Fault
          else
            match tree_com p with
            | None =>
                let '(later', _) :=
                  Modify2 node_type (skipn (S pos) (cps st)) (ret_node p) no_edges in
                Cluster_Containment fuel'
                  (ST (firstn (S pos) (cps st) ++ later') (inner_flag st)
                      (lf_below st) (super_deg st) no_edges)
                  (S pos) input_leaves in_cluster
            | Some t =>
                if Is_Stable node_type (Some t) (inner_flag st) (lf_below st) =? 1
                then stable_case (Cluster_Containment fuel') st pos p t
                                 input_leaves in_cluster
                else unstable_case (Cluster_Containment fuel') st pos p t
                                   input_leaves in_cluster
            end
      end
  end.
End Cluster_Containment.

(** *** The distance *)

(** [BITSET(a, b)] with 32-bit words. *)
Definition BITSET (a : Z -> Z) (b : Z) : Z -> Z :=
  upd a (b / 32) (Z.lor (a (b / 32)) (Z.shiftl 1 (b mod 32))).

(** The loop of [Is_Cluster] that passes the reticulations right above
    a leaf.  (The list ends with the component of the root, so the loop
    stops inside the list.) *)
Fixpoint skip_leaf_components (net : network) (cs : list components) (i : nat) : nat :=
  match cs with
  | [] => i
  | p :: rest =>
      if node_type net (ret_node p) =? ROOT then i
      else
        match child_array net (ret_node p) with
        | c :: _ =>
            if node_type net c =? LEAVE then skip_leaf_components net rest (S i)
            else i
        | [] => i
        end
  end.

(** One of the two searches of [Is_Cluster]: copy the network, find the
    first component, call [Cluster_Containment]. *)
Definition run_search (fuel : nat) (net : network) (input_leaves : list Z)
  (in_cluster : Z -> Z) : option (run Z) :=
  let cps1 := Make_Current_Network (all_cps net) in
  let pos := if n_r net >? 0 then skip_leaf_components net cps1 O else O in
  Cluster_Containment (node_type net) (r_nodes net) fuel
    (ST cps1 (net_inner_flag net) (net_lf_below net) (net_super_deg net) no_edges)
    pos input_leaves in_cluster.

(** The two bit arrays and the index of the next subset. *)
Record results : Type := Results {
  res1 : Z -> Z;
  res2 : Z -> Z;
  no_res : Z
}.

(** [Is_Cluster]: bit [no_res] of [res1] (of [res2]) is set when the
    subset is a cluster of the first (second) network.  The first
    network is searched first. *)
Definition Is_Cluster (fuel : nat) (net1 net2 : network)
  (input_leaves : list Z) (rs : results) : option (run results) :=
  let r := len input_leaves in
  if (r =? 0) || (r =? n_l net1) then Some (Done rs)
  else if r =? 1 then
    Some (Done (Results (BITSET (res1 rs) (no_res rs))
                        (BITSET (res2 rs) (no_res rs))
                        (no_res rs + 1)))
  else
    let in_cluster := fold_left (fun ic l => upd ic l 1) input_leaves (fun _ => 0) in
    and_then (run_search fuel net1 input_leaves in_cluster)
      (fun r1 =>
         and_then (run_search fuel net2 input_leaves in_cluster)
           (fun r2 =>
              Some (Done
                (Results
                   (if r1 >? 0 then BITSET (res1 rs) (no_res rs) else res1 rs)
                   (if r2 >? 0 then BITSET (res2 rs) (no_res rs) else res2 rs)
                   (no_res rs + 1))))).

(** A loop of calls of [Is_Cluster]. *)
Fixpoint Is_Cluster_all (fuel : nat) (net1 net2 : network)
  (inputs : list (list Z)) (rs : results) : option (run results) :=
  match inputs with
  | [] => Some (Done rs)
  | a :: rest =>
      and_then (Is_Cluster fuel net1 net2 a rs)
               (fun rs' => Is_Cluster_all fuel net1 net2 rest rs')
  end.

(** [Subset_CCP]: every subset of size [k]. *)
Definition Subset_CCP (fuel : nat) (k no : Z) (net1 net2 : network)
  (rs : results) : option (run results) :=
  Is_Cluster_all fuel net1 net2 (Subset_CCP_inputs (n_l net1) k no) rs.

(** The loop of [Find_Cluster_Distance] over the sizes [ks] of the
    subsets. *)
Fixpoint sizes_loop (fuel : nat) (net1 net2 : network) (ks : list Z)
  (rs : results) : option (run results) :=
  match ks with
  | [] => Some (Done rs)
  | k :: rest =>
      and_then (Subset_CCP fuel k (nChoosek (n_l net1) k) net1 net2 rs)
               (fun rs' => sizes_loop fuel net1 net2 rest rs')
  end.

(** The test of [Find_Cluster_Distance] that both networks have the
    same leaves at the same indices. *)
Definition same_leaves (net1 net2 : network) : bool :=
  (n_l net1 =? n_l net2)
  && forallb (fun i => String.eqb (name (node_strings net1) i)
                                  (name (node_strings net2) i))
             (upto (n_l net1)).

(** How [Find_Cluster_Distance] ends: it returns the distance, it
    leaves the program with [exit(10)], or a search has left an array
    and C says no more about the run. *)
Inductive outcome : Type :=
| Distance (dist : Q)
| Exit10 (out : list string)
| Undefined.

Definition msg_leaf_count : list string :=
  [nl ++ " The networks have different number of leaves;" ++ nl
      ++ "Recheck it" ++ nl]%string.

Definition msg_leaf_names : list string :=
  [nl ++ " The networks have different leaves;" ++ nl ++ "Recheck it" ++ nl]%string.

(** The number of bits in which the two arrays differ. *)
Definition count_diff (rlen : Z) (rs : results) : Z :=
  fold_left (fun dist i => dist + pop (Z.lxor (res1 rs i) (res2 rs i)))
            (upto rlen) 0.

(** [Find_Cluster_Distance] from the two preprocessed networks on.
    [None] when a search does not end within [fuel].  The program adds
    up the differences in a [float], which holds the sum exactly as
    long as it is below [2^24]; the distance is a rational here. *)
Definition Find_Cluster_Distance (fuel : nat) (net1 net2 : network) : option outcome :=
  if negb (n_l net1 =? n_l net2) then Some (Exit10 msg_leaf_count)
  else if negb (same_leaves net1 net2) then Some (Exit10 msg_leaf_names)
  else
    let no_res := Z.shiftl 1 (n_l net1) in
    let rlen := (no_res + 32 - 1) / 32 in
    match sizes_loop fuel net1 net2 (range 1 (Z.to_nat (n_l net1 - 1)))
                     (Results (fun _ => 0) (fun _ => 0) 0) with
    | None => None
    | Some Fault => Some Undefined
    | Some (Done rs) => Some (Distance (inject_Z (count_diff rlen rs) / 2)%Q)
    end.

(** [%.1f] for a multiple of one half. *)
Definition fmt1 (q : Q) : string :=
  let tenths := Qfloor (q * 10)%Q in
  (dec (tenths / 10) ++ "." ++ dec (tenths mod 10))%string.

Definition msg_usage : list string :=
  ["Command: PROGRAM(./srfd) network_file1_name network_file2_name" ++ nl]%string.

Definition msg_same : list string :=
  [nl ++ "The two network files are the same." ++ nl
      ++ "The soft Robinson-Foulds distance between the two input networks is: "
      ++ fmt1 0%Q ++ nl]%string.

Definition msg_distance (dist : Q) : list string :=
  [nl ++ "The soft Robinson-Foulds distance between the two input networks is: "
      ++ fmt1 dist ++ nl]%string.

(** How the program ends when [main] does not simply return: with
    [exit(code)], or in a search that has left an array. *)
Inductive ending : Type :=
| Exit (code : Z)
| Lost.

Section Main.
(** [Preprocess_Network] reads and checks the file named by its
    argument: it prints, and it fills the network or leaves the
    program with [exit(10)]. *)
Variable Preprocess_Network : string -> list string * option network.
Variable fuel : nat.

(** [main]: the lines that [main], [Preprocess_Network] and
    [Find_Cluster_Distance] print (without the trace of the searches),
    and the way the program ends when [main] does not return.  [None]
    when a search does not end within [fuel]. *)
Definition main (argv : list string) : option (list string * option ending) :=
  if negb (len argv =? 3) then Some (msg_usage, Some (Exit 10))
  else if String.eqb (nth 1 argv EmptyString) (nth 2 argv EmptyString)
  then Some (msg_same, None)
  else
    let '(out1, net1) := Preprocess_Network (nth 1 argv EmptyString) in
    match net1 with
    | None => Some (out1, Some (Exit 10))
    | Some net1 =>
        let '(out2, net2) := Preprocess_Network (nth 2 argv EmptyString) in
        match net2 with
        | None => Some (out1 ++ out2, Some (Exit 10))
        | Some net2 =>
            match Find_Cluster_Distance fuel net1 net2 with
            | None => None
            | Some (Exit10 out) => Some (out1 ++ out2 ++ out, Some (Exit 10))
            | Some Undefined => Some (out1 ++ out2, Some Lost)
            | Some (Distance dist) =>
                Some (out1 ++ out2 ++ msg_distance dist, None)
            end
        end
    end.
End Main.
End SRFD.

(** ** [SoftRFDist_parallel.c] *)

Module Parallel.

(** The loop that follows [Replace_Ret_Revised] in the stable case of
    [Cluster_Containment] of this file. *)
Fixpoint Normalize_Revised (r_nodes : list Z) (inner_flag super_deg : Z -> Z)
  : (Z -> Z) * (Z -> Z) :=
  match r_nodes with
  | [] => (inner_flag, super_deg)
  | r :: rest =>
      if inner_flag r =? REVISED then
        if super_deg r >? 2 then
          Normalize_Revised rest (upd inner_flag r CROSS)
                            (upd super_deg r (super_deg r - 1))
        else
          Normalize_Revised rest (upd inner_flag r INNER) (upd super_deg r 1)
      else Normalize_Revised rest inner_flag super_deg
  end.

(** The stable case of [Cluster_Containment] of this file is the one
    of [ClusterContainment.c] with the adjacency matrix kept in one
    row, with the other [Rebuilt_Component], and without the report of
    a success: the search prints nothing. *)
Section Cluster_Containment.
Variable node_type : Z -> Z.
Variable r_nodes : list Z.

(** A recursive call, as in the other file. *)
Definition call : Type :=
  state -> nat -> list Z -> (Z -> Z) -> Z -> option result.

(** [Rebuilt_Component] of this file tests [rpl_comp[x] >= 0]. *)
Fixpoint Rebuilt_Component (tree : arb_tnode) (rpl_comp : Z -> Z) : arb_tnode :=
  match tree with
  | Tnode x f [] =>
      if (node_type x =? LEAVE) && (rpl_comp x >=? 0)
      then Tnode (rpl_comp x) f []
      else tree
  | Tnode x f cs => Tnode x f (map (fun c => Rebuilt_Component c rpl_comp) cs)
  end.

(** The stable case: the component at [pos] is [p], its tree is [t]. *)
Definition stable_case (rec : call) (st : state) (pos : nat)
  (p : components) (t : arb_tnode)
  (input_leaves : list Z) (in_cluster : Z -> Z) (no_break : Z) : option result :=
  let before := firstn pos (cps st) in
  let later := skipn (S pos) (cps st) in
  let no1 := len input_leaves in
  let '(t1, rs) :=
    Replace_Ret_Revised node_type (lf_below st) (super_deg st) t
      (RS (inner_flag st) [] [] [] (fun _ => -1)) in
  let sleaves := rs_leaf_set rs in
  let ambig := rs_ambig rs in
  let optional := rs_optional rs in
  let rpl_comp := rs_rpl_comp rs in
  let no_slf := len sleaves in
  let no_opt := len optional in
  let '(iflag, sdeg) := Normalize_Revised r_nodes (rs_inner_flag rs) (super_deg st) in
  if no_slf >? 0 then
    if (no_opt =? 0) && (no_slf =? 1) then
      if (no1 =? 1) && (rd sleaves 0 =? rd input_leaves 0) then
        Some (Res 50 no_break [])
      else
        rec (ST (before ++ set_tree p (Some t1) :: later) iflag
                (upd (lf_below st) (ret_node p) (rd sleaves 0)) sdeg (net_edges st))
            (S pos) input_leaves in_cluster no_break
    else
      let '(t3, no_mark) :=
        CCP.mark_leaves (Initiallize t1) ambig sleaves in_cluster in
      let vmax := if no_mark =? 0 then [label t3] else Find_Vmax t3 [] in
      let is_cluster := DProgram_Revised node_type t3 no1 vmax input_leaves in
      let p4 := set_tree p (Some (Rebuilt_Component t3 rpl_comp)) in
      if is_cluster >=? 0 then Some (Res 50 no_break [])
      else
        let lfb :=
          if negb (node_type (ret_node p) =? ROOT) then
            upd (CCP.clear_leaf r_nodes (rd sleaves 0) (lf_below st))
                (ret_node p) (rd sleaves 0)
          else lf_below st in
        let count_out := CCP.count_eq in_cluster 0 sleaves in
        let count_in := CCP.count_eq in_cluster 1 sleaves in
        if count_out =? no_slf then
          let '(p5, later5, lfb5, ne5) :=
            Modify_Cross_Ret1 node_type r_nodes optional in_cluster p4 later
                              lfb (net_edges st) in
          rec (ST (before ++ p5 :: later5) iflag lfb5 sdeg ne5)
              (S pos) input_leaves in_cluster no_break
        else if count_in =? no_slf then
          let num_inleaf :=
            CCP.count_eq in_cluster 1 sleaves + CCP.count_eq in_cluster 1 optional in
          if num_inleaf =? no1 then Some (Res 50 no_break [])
          else
            let '(p5, later5, lfb5, ne5) :=
              Modify_Cross_Ret node_type r_nodes optional in_cluster p4 later
                               lfb (net_edges st) in
            if no_slf + no_opt >? 1 then
              let input_leaves1 :=
                CCP.shrink_leaves input_leaves sleaves optional (rd sleaves 0) in
              rec (ST (before ++ p5 :: later5) iflag lfb5 sdeg ne5)
                  (S pos) input_leaves1
                  (CCP.shrink_cluster in_cluster input_leaves1) no_break
            else
              rec (ST (before ++ p5 :: later5) iflag lfb5 sdeg ne5)
                  (S pos) input_leaves in_cluster no_break
        else Some (Res 10 no_break [])
  else
    let t2 := Rebuilt_Component t1 rpl_comp in
    let cps2 := before ++ set_tree p (Some t2) :: later in
    let '(cps3, ne3, _, _) :=
      Modify node_type cps2 (S pos) (net_edges st) [] None (net_edges st)
             (label t2) in
    rec (ST cps3 iflag (lf_below st) sdeg ne3)
        (S pos) input_leaves in_cluster no_break.
End Cluster_Containment.

Definition msg_usage : list string :=
  ["Command: PROGRAM(./psrfd) network_file1_name network_file2_name" ++ nl]%string.

Section Main.
(** [Find_Cluster_Distance] of this file reads both files and runs
    the searches in parallel threads; here it is what it prints and
    the distance it returns. *)
Variable Find_Cluster_Distance : string -> string -> list string * Q.

(** [main]: the lines printed. *)
Definition main (argv : list string) : list string :=
  if negb (len argv =? 3) then msg_usage
  else if String.eqb (nth 1 argv EmptyString) (nth 2 argv EmptyString)
  then SRFD.msg_same
  else
    let '(out, dist) :=
      Find_Cluster_Distance (nth 1 argv EmptyString) (nth 2 argv EmptyString) in
    out ++ SRFD.msg_distance dist.
End Main.
End Parallel.

(** ** The words of the specification *)

(** A vertex that makes a component stable: a leaf, or a reticulation
    that is INNER and has a leaf below. *)
Definition stable_vertex (node_type inner_flag lf_below : Z -> Z) (v : arb_tnode) : Prop :=
  node_type (label v) = LEAVE
  \/ (node_type (label v) = RET
      /\ inner_flag (label v) = INNER /\ 0 <= lf_below (label v)).

(** The tree of a tree component: its inner vertices are tree vertices or
    the root; leaves and reticulations are at its frontier. *)
Definition component_tree (node_type : Z -> Z) (t : arb_tnode) : Prop :=
  Forall (fun v => child v <> [] ->
                   node_type (label v) = TREE \/ node_type (label v) = ROOT)
         (nodes t).

(** The leaves that the splitter collects for the cluster [B]: the
    values [lf_below[r]] of the CROSS reticulations [r] of the component
    for which that value is a leaf of [B]. *)
Definition cross_leaves_in (node_type inner_flag lf_below : Z -> Z)
  (B : list Z) (t : arb_tnode) : list Z :=
  map lf_below
      (filter (fun r => (node_type r =? RET) && (inner_flag r =? CROSS)
                        && negb (lf_below r =? -2)
                        && (Is_In (lf_below r) B =? 1))
              (map label (nodes t))).

(** A resolver either ends the search itself, or it goes on with one
    recursive call, whatever that call does; [flags] and [degs] are then
    the arrays [inner_flag] and [super_deg] that it passes on. *)
Definition passes_on (resolver : CCP.call -> option result)
  (flags degs : Z -> Z) : Prop :=
  (exists res, forall rec, resolver rec = Some res)
  \/ (exists st' pos' input_leaves' in_cluster' no_break',
        inner_flag st' = flags /\ super_deg st' = degs
        /\ forall rec,
             resolver rec = rec st' pos' input_leaves' in_cluster' no_break').

(** ** Small inputs to try the statements on *)

(** A component with the vertices 0 (the root), 1 (a leaf) and 2 (a
    reticulation), used to try the statements on. *)
Definition small_types : Z -> Z :=
  fun i => if i =? 0 then ROOT else if i =? 1 then LEAVE else RET.

Definition small_tree : arb_tnode := Tnode 0 0 [Tnode 1 0 []; Tnode 2 0 []].

Definition small_state : state :=
  ST [Comp 0 CROSS 3 2 (Some small_tree)]
     (fun _ => CROSS) (fun _ => 5) (fun _ => 2) (fun _ _ => 1).

(** The component of [small_state] with a CROSS reticulation of
    super-degree 3, and a cluster of two leaves that are not below it. *)
Definition crossing_state : state :=
  ST [Comp 0 CROSS 3 2 (Some small_tree)]
     (fun _ => CROSS) (fun _ => 5) (fun _ => 3) (fun _ _ => 1).

Definition far_cluster : Z -> Z := fun i => if (i =? 7) || (i =? 8) then 1 else 0.

(** A component without a stable vertex: the root 0 above the CROSS
    reticulation 2, whose leaf is 5. *)
Definition bare_tree : arb_tnode := Tnode 0 0 [Tnode 2 0 []].

Definition bare_state : state :=
  ST [Comp 0 CROSS 2 1 (Some bare_tree)]
     (fun _ => CROSS) (fun _ => 5) (fun _ => 2) (fun _ _ => 1).

(** The nodes that the validation counts: the ROOT nodes (indegree 0,
    outdegree above 1) and the nodes with both degrees above 1. *)
Definition root_nodes (es : edges) (no_nodes : Z) : list Z :=
  filter (fun i => (indeg es i =? 0) && (outdeg es i >? 1)) (upto no_nodes).

Definition mixed_nodes (es : edges) (no_nodes : Z) : list Z :=
  filter (fun i => (indeg es i >? 1) && (outdeg es i >? 1)) (upto no_nodes).

(** A network file with a single line: the graph has no ROOT. *)
Definition rootless_network : list (string * string) := [("a", "b")]%string.

(** The size of the cluster [B] and the number of leaves of the network,
    as [main] computes them ([no1] and [n_l]). *)
Definition cluster_size (leaf_file : list string) : Z :=
  len (read_leaves leaf_file []).

Definition network_leaf_count (root0 : Z) (network_file : list (string * string)) : Z :=
  let '(node_strings0, es0) := read_network network_file [] [] in
  let '(node_type1, _, _) :=
    Node_Type_Inform1 (fun _ => 0) (len node_strings0) es0 root0 in
  len (filter (fun i => node_type1 i =? LEAVE) (upto (len node_strings0))).

(** The two bit arrays exchanged. *)
Definition swap_results (rs : SRFD.results) : SRFD.results :=
  SRFD.Results (SRFD.res2 rs) (SRFD.res1 rs) (SRFD.no_res rs).

(** Two trees on the leaves a, b, c (nodes 0, 1, 2) with root 3 and one
    more tree node 4: ((a, b), c) and (a, (b, c)). *)
Definition tree_network (children : Z -> list Z) (t : arb_tnode) : SRFD.network :=
  SRFD.Net 3 0 3 5 ["a"; "b"; "c"; "r"; "t"]%string children
           (fun _ => 0) (fun i => if i =? 3 then CROSS else -2) (fun _ => 0)
           (fun i => if i <? 3 then LEAVE else if i =? 3 then ROOT else TREE)
           [] [Comp 3 CROSS 5 5 (Some t)].

Definition left_tree : SRFD.network :=
  tree_network (fun i => if i =? 3 then [4; 2] else if i =? 4 then [0; 1] else [])
               (Tnode 3 0 [Tnode 4 0 [Tnode 0 0 []; Tnode 1 0 []]; Tnode 2 0 []]).

Definition right_tree : SRFD.network :=
  tree_network (fun i => if i =? 3 then [0; 4] else if i =? 4 then [1; 2] else [])
               (Tnode 3 0 [Tnode 0 0 []; Tnode 4 0 [Tnode 1 0 []; Tnode 2 0 []]]).

(** ** The subsets of a size, in the order of their bitmaps *)

(** The subsets of size [k] of [0 .. n-1], as increasing lists: first
    those without [n-1], then those with it. *)
Fixpoint colex (n k : nat) {struct n} : list (list Z) :=
  match k with
  | O => [[]]
  | S k' =>
      match n with
      | O => []
      | S n' => colex n' k ++ map (fun s => s ++ [Z.of_nat n']) (colex n' k')
      end
  end.

(** The body of [ksub_next], following the scan: [j] cells lie before
    the cells [a]. *)
Fixpoint advance (j : nat) (a : list Z) : list Z :=
  match a with
  | [] => []
  | x :: rest =>
      match rest with
      | [] => SRFD.range 0 j ++ [x + 1]
      | y :: _ =>
          if x + 1 <? y then SRFD.range 0 j ++ (x + 1) :: rest
          else advance (S j) rest
      end
  end.

(** A subset of size [k] of [0 .. n-1], as the increasing list of its
    elements. *)
Definition k_subset (n : Z) (k : nat) (a : list Z) : Prop :=
  List.length a = k /\ StronglySorted Z.lt a /\ Forall (fun x => 0 <= x < n) a.

(** Each element of the list is followed by its image under [step]. *)
Fixpoint chained (step : list Z -> list Z) (l : list (list Z)) : Prop :=
  match l with
  | x :: rest =>
      match rest with
      | [] => True
      | y :: _ => step x = y /\ chained step rest
      end
  | [] => True
  end.

(** The number of subsets of size [k] of a set of size [n]. *)
Definition subset_count (n k : nat) : Z := Z.of_nat (List.length (colex n k)).

(** The order of lists of indices by their first difference. *)
Fixpoint lex_lt (a b : list Z) : bool :=
  match a, b with
  | [], _ :: _ => true
  | x :: a', y :: b' => (x <? y) || ((x =? y) && lex_lt a' b')
  | _, [] => false
  end.

(** ** The loops of the level ordering *)

(** The number of cells of [orig_rnodes] that still hold a
    reticulation. *)
Definition unresolved (orig_rnodes : list Z) : nat :=
  List.length (filter (fun r => negb (r =? -2)) orig_rnodes).

(** A graph without a directed cycle: a rank goes down along every
    edge. *)
Definition ranked (child_array : Z -> list Z) (rank : Z -> nat) : Prop :=
  forall v c, In c (child_array v) -> (rank c < rank v)%nat.

(** The loop over the children in [Is_Tree_Component]; [below] is the
    call of the function on a child. *)
Fixpoint Is_Tree_Component_loop (node_type : Z -> Z) (below : Z -> option Z)
  (children : list Z) (res : Z) : option Z :=
  match children with
  | [] => Some res
  | c :: rest =>
      if node_type c =? LEAVE then Is_Tree_Component_loop node_type below rest res
      else if node_type c =? RET then Some 1
      else
        match below c with
        | None => None
        | Some r =>
            if r =? 1 then Some 1
            else Is_Tree_Component_loop node_type below rest r
        end
  end.

(** The loop over the children in [Count_Ret_Child]. *)
Fixpoint Count_Ret_Child_loop (node_type : Z -> Z) (orig_rnodes : list Z)
  (below : Z -> Z * Z * Z -> option (Z * Z * Z))
  (children : list Z) (cfs : Z * Z * Z) : option (Z * Z * Z) :=
  match children with
  | [] => Some cfs
  | c :: rest =>
      let '(count, flag, size) := cfs in
      if node_type c =? LEAVE
      then Count_Ret_Child_loop node_type orig_rnodes below rest (count, flag, size + 1)
      else if node_type c =? RET then
        Count_Ret_Child_loop node_type orig_rnodes below rest
          (count + 1, (if Is_In c orig_rnodes =? -1 then flag + 1 else flag), size)
      else
        match below c (count, flag, size + 1) with
        | None => None
        | Some cfs' => Count_Ret_Child_loop node_type orig_rnodes below rest cfs'
        end
  end.

(** What the third rule needs of the cells: the walks below the
    reticulations left fit in [gas], and each of them has a
    reticulation below. *)
Definition above_ret (node_type : Z -> Z) (child_array : Z -> list Z)
  (rank : Z -> nat) (gas : nat) (orig : list Z) : Prop :=
  forall r, In r orig -> r <> -2 ->
            (rank r < gas)%nat
            /\ Is_Tree_Component node_type child_array gas r = Some 1.

(** ** Networks for the level ordering *)

(** A network with the reticulations 3 (above the leaf 0) and 4 (above
    3), under the tree nodes 5 and 6 and the root 7. *)
Definition level_types : Z -> Z :=
  fun i => if i <? 3 then LEAVE else if i <? 5 then RET
           else if i <? 7 then TREE else ROOT.

Definition level_children : Z -> list Z :=
  fun i => if i =? 7 then [5; 6] else if i =? 5 then [4; 1]
           else if i =? 6 then [4; 3; 2] else if i =? 4 then [3]
           else if i =? 3 then [0] else [].

Definition level_rank : Z -> nat :=
  fun i => if i =? 7 then 4%nat else if (i =? 5) || (i =? 6) then 3%nat
           else if i =? 4 then 2%nat else if i =? 3 then 1%nat else 0%nat.

(** The same nodes, but the reticulations 3 and 4 are each the child
    of the other. *)
Definition cyclic_children : Z -> list Z :=
  fun i => if i =? 7 then [5; 6] else if i =? 5 then [4; 1]
           else if i =? 6 then [3; 2; 0] else if i =? 4 then [3]
           else if i =? 3 then [4] else [].

(** A network file with one root, the leaves a, b and c, and two
    reticulations that are each the child of the other. *)
Definition cyclic_network : list (string * string) :=
  [("0", "r1"); ("0", "r2"); ("r1", "r2"); ("r2", "r1");
   ("0", "a"); ("0", "b"); ("0", "c")]%string.

(** The loop of [nChoosek] on the integers, without the wrap-around of
    the products. *)
Definition nChoosek_on_Z (n k : Z) : Z :=
  if k >? n then 0
  else
    let k := if k * 2 >? n then n - k else k in
    if k =? 0 then 1
    else
      fold_left (fun result i => Z.quot (result * (n - i + 1)) i)
                (SRFD.range 2 (Z.to_nat (k - 1))) n.

(** A network whose components have different roots, fewer of them
    than [fuel]. *)
Definition searchable (fuel : nat) (net : SRFD.network) : Prop :=
  NoDup (map ret_node (SRFD.all_cps net))
  /\ (List.length (SRFD.all_cps net) < fuel)%nat.

(** ** Bits of a word *)

(** The number of 1 bits among the lowest [w] bits of [x]. *)
Definition bit_count (w : nat) (x : Z) : Z :=
  len (filter (Z.testbit x) (SRFD.range 0 w)).

(** [int_to_bin_digit] of [SoftRFDist_parallel.c]: the cells [out[0]],
    ..., [out[count - 1]].  The argument is an [unsigned int]: the shift
    drops the bits from 32 on. *)
Fixpoint bin_digits (steps : nat) (x mask : Z) : list Z :=
  match steps with
  | O => []
  | S s =>
      (if Z.land x mask =? 0 then 0 else 1)
        :: bin_digits s (Z.shiftl x 1 mod 2 ^ 32) mask
  end.

Definition int_to_bin_digit (x count : Z) : list Z :=
  bin_digits (Z.to_nat count) x (Z.shiftl 1 (count - 1)).

(** The number that a list of binary digits writes, the first digit
    being the highest. *)
Definition bin_value (digits : list Z) : Z :=
  fold_left (fun acc d => 2 * acc + d) digits 0.

(** ** Names, edges and types, as the properties speak of them *)

(** The two names of an edge. *)
Definition edge_names (ns : list string) (e : Z * Z) : string * string :=
  (name ns (fst e), name ns (snd e)).

(** The cells of the edge arrays hold indices of [node_strings]. *)
Definition edges_within (no_nodes : Z) (es : edges) : Prop :=
  Forall (fun e => 0 <= fst e < no_nodes /\ 0 <= snd e < no_nodes) es.

(** The type that the rules of [Node_Type_Inform1] give a node with
    these degrees; [old] is what the cell held. *)
Definition type_of_degrees (i_in out old : Z) : Z :=
  if (i_in =? 0) && (out >? 1) then ROOT
  else if (i_in =? 1) && (out =? 0) then LEAVE
  else if (i_in =? 1) && (out >=? 1) then TREE
  else if (i_in >? 1) && (out =? 1) then RET
  else old.

(** The names of the leaves of the network, as [main] collects them in
    [net_leaves]. *)
Definition network_leaves (root0 : Z) (network_file : list (string * string))
  : list string :=
  let '(node_strings0, es0) := read_network network_file [] [] in
  let '(node_type1, _, _) :=
    Node_Type_Inform1 (fun _ => 0) (len node_strings0) es0 root0 in
  map (name node_strings0)
      (filter (fun i => node_type1 i =? LEAVE) (upto (len node_strings0))).

(** ** Notions used for the trees of the components *)

(** What [Build_Comp_Revised] makes of a node: its children are the
    children of its label in the graph when the label is tree-typed,
    and it has none otherwise; the nodes below the root carry the flag
    0. *)
Definition unfolds_graph (node_type : Z -> Z) (child_array : Z -> list Z)
  (t : arb_tnode) : Prop :=
  Forall (fun v => map label (child v)
                   = if (node_type (label v) =? TREE) || (node_type (label v) =? ROOT)
                     then child_array (label v) else [])
         (nodes t)
  /\ Forall (fun v => flag v = 0) (flat_map nodes (child t)).

Definition cut_edge (r : Z) (p : arb_tnode) (a : Z) : bool :=
  existsb (fun v => (a =? label v) && existsb (fun c => label c =? r) (child v))
          (nodes p).

(** ** The verdicts behind the distance *)

(** Bit [j] of a result array of 32-bit words. *)
Definition result_bit (res : Z -> Z) (j : Z) : bool :=
  Z.testbit (res (j / 32)) (j mod 32).

(** What [Is_Cluster] finds for a subset [a] in one network: a single
    leaf is a cluster without a search, otherwise the search decides,
    when it ends with a value. *)
Definition verdict (fuel : nat) (net : SRFD.network) (a : list Z) : bool :=
  (len a =? 1)
  || match SRFD.run_search fuel net a
             (fold_left (fun ic l => upd ic l 1) a (fun _ => 0)) with
     | Some (SRFD.Done r) => r >? 0
     | _ => false
     end.

Definition disagree (fuel : nat) (net1 net2 : SRFD.network) (a : list Z) : bool :=
  xorb (verdict fuel net1 a) (verdict fuel net2 a).

(** ** Leaves standing in for reticulations *)

(** The childless nodes that [Replace_Ret_Revised] relabels: the
    reticulations with a leaf below and one of the three flags. *)
Definition replaced (node_type inner_flag leaf_below : Z -> Z) (x : Z) : bool :=
  (node_type x =? RET) && negb (leaf_below x =? -2)
  && ((inner_flag x =? INNER) || (inner_flag x =? CROSS) || (inner_flag x =? REVISED)).

(** The tree with the leaf of each such reticulation in its place. *)
Fixpoint stand_in (node_type inner_flag leaf_below : Z -> Z) (t : arb_tnode)
  : arb_tnode :=
  match t with
  | Tnode x f [] =>
      Tnode (if replaced node_type inner_flag leaf_below x then leaf_below x else x) f []
  | Tnode x f cs => Tnode x f (map (stand_in node_type inner_flag leaf_below) cs)
  end.

(** ** The results of a search *)

(** What every call of the search leaves behind: one of the three
    values, printed lines exactly when the value is 50, and a counter
    that has not gone down. *)
Definition sound_result (no_break : Z) (r : result) : Prop :=
  (res_value r = 0 \/ res_value r = 10 \/ res_value r = 50)
  /\ (res_value r = 50 <-> res_output r <> [])
  /\ no_break <= res_no_break r.

(** ** The order of the reticulations *)

(** The cells of [orig_rnodes] that still hold a reticulation. *)
Definition live_cells (orig_rnodes : list Z) : list Z :=
  filter (fun r => negb (r =? -2)) orig_rnodes.

(** A reticulation [c] is below the node [v]: reached from [v] through
    nodes that are neither leaves nor reticulations. *)
Inductive ret_below (node_type : Z -> Z) (child_array : Z -> list Z)
  : Z -> Z -> Prop :=
| ret_below_child v c :
    In c (child_array v) -> node_type c = RET -> ret_below node_type child_array v c
| ret_below_deeper v t c :
    In t (child_array v) -> node_type t <> LEAVE -> node_type t <> RET ->
    ret_below node_type child_array t c -> ret_below node_type child_array v c.

(** In [out], every reticulation of [orig] that is below another one
    comes before it. *)
Definition bottom_up (node_type : Z -> Z) (child_array : Z -> list Z)
  (orig out : list Z) : Prop :=
  forall pre r post,
    out = pre ++ r :: post ->
    forall c, ret_below node_type child_array r c -> In c orig -> In c pre.

(** ** The leaves below a node *)

(** The input leaves that label a node of the tree, with repetitions. *)
Definition leaves_within (node_type : Z -> Z) (p : arb_tnode) (input_leaves : list Z)
  : list Z :=
  filter (fun lf => (node_type lf =? LEAVE)
                    && existsb (fun v => label v =? lf) (nodes p)) input_leaves.

(** ** Trees that differ in flags only *)

(** Two trees are the same but for the flags, node by node. *)
Definition flags_raised (t t' : arb_tnode) : Prop :=
  Forall2 (fun v v' => label v' = label v /\ (flag v' = flag v \/ flag v' = 1))
          (nodes t) (nodes t').

(** ** Networks with and without reticulations *)

(** A network without reticulations: a tree. *)
Definition reticulation_free (net : SRFD.network) : Prop :=
  SRFD.r_nodes net = [] /\ forall x, SRFD.node_type net x <> RET.



(** The network of the file with the lines [r x], [r h], [x h], [h t],
    [t a], [t b], [x c]: the reticulation [h] (node 6) is above the tree
    node [t] (node 3), so that [lf_below[6]] is -2. *)
Definition hybrid_network : SRFD.network :=
  SRFD.Net 4 1 3 7 ["a"; "b"; "c"; "t"; "r"; "x"; "h"]%string
    (fun i => if i =? 3 then [0; 1] else if i =? 4 then [5; 6]
              else if i =? 5 then [6; 2] else if i =? 6 then [3] else [])
    (fun i => if i =? 6 then -2 else 0)
    (fun i => if i =? 6 then INNER else -2)
    (fun i => if i =? 6 then 1 else 0)
    (fun i => if i <? 3 then LEAVE else if i =? 4 then ROOT
              else if i =? 6 then RET else TREE)
    [6]
    [Comp 6 INNER 3 3 (Some (Tnode 3 0 [Tnode 0 0 []; Tnode 1 0 []]));
     Comp 4 CROSS 5 3
          (Some (Tnode 4 0 [Tnode 5 0 [Tnode 6 0 []; Tnode 2 0 []]; Tnode 6 0 []]))].

(** The file of [hybrid_network]. *)
Definition hybrid_file : list (string * string) :=
  [("r", "x"); ("r", "h"); ("x", "h"); ("h", "t"); ("t", "a"); ("t", "b");
   ("x", "c")]%string.

(** A file of [left_tree]. *)
Definition tree_file : list (string * string) :=
  [("t", "a"); ("t", "b"); ("r", "t"); ("r", "c")]%string.

(** * Properties *)

(** ** Stable components (C1) *)

Section Stable.
Variables node_type inner_flag lf_below : Z -> Z.

Let stable := Is_Stable_node node_type inner_flag lf_below.

Lemma Is_Stable_node_unfold l f cs :
  Is_Stable_node node_type inner_flag lf_below (Tnode l f cs) =
  if node_type l =? LEAVE then 1
  else if node_type l =? RET then
    if (inner_flag l =? INNER) && (lf_below l >=? 0) then 1 else 0
  else if (node_type l =? TREE) || (node_type l =? ROOT) then
    if existsb (fun c => stable c =? 1) cs then 1 else 0
  else 0.
Proof.
  cbn [Is_Stable_node label child].
  destruct (node_type l =? LEAVE); [reflexivity|].
  destruct (node_type l =? RET); [reflexivity|].
  destruct ((node_type l =? TREE) || (node_type l =? ROOT)); [|reflexivity].
  induction cs as [|c cs IH]; cbn [existsb]; [reflexivity|].
  fold (stable c). destruct (stable c =? 1); cbn [orb]; [reflexivity|exact IH].
Qed.

Lemma component_tree_child l f cs c :
  component_tree node_type (Tnode l f cs) -> In c cs ->
  component_tree node_type c.
Proof.
  unfold component_tree. cbn [nodes child]. intros H Hc.
  apply Forall_inv_tail in H. rewrite Forall_forall in *.
  intros v Hv. apply H. apply in_flat_map. exists c. split; assumption.
Qed.

Lemma Is_Stable_node_spec t :
  component_tree node_type t ->
  (stable t = 1 <-> Exists (stable_vertex node_type inner_flag lf_below) (nodes t)).
Proof.
  induction t as [l f cs IH] using arb_tnode_ind. intros Hwf.
  unfold stable. rewrite Is_Stable_node_unfold. cbn [nodes child].
  rewrite Exists_cons. unfold stable_vertex at 1. cbn [label].
  assert (Hkids : existsb (fun c => stable c =? 1) cs = true <->
                  Exists (stable_vertex node_type inner_flag lf_below)
                         (flat_map nodes cs)).
  { rewrite existsb_exists, Exists_exists. split.
    - intros (c & Hc & Hs). apply Z.eqb_eq in Hs.
      rewrite Forall_forall in IH.
      apply (IH c Hc (component_tree_child _ _ _ _ Hwf Hc)) in Hs.
      apply Exists_exists in Hs. destruct Hs as (v & Hv & Hsv).
      exists v. split; [|exact Hsv]. apply in_flat_map. exists c. now split.
    - intros (v & Hv & Hsv). apply in_flat_map in Hv. destruct Hv as (c & Hc & Hv).
      exists c. split; [exact Hc|]. apply Z.eqb_eq.
      rewrite Forall_forall in IH.
      apply (IH c Hc (component_tree_child _ _ _ _ Hwf Hc)).
      apply Exists_exists. exists v. now split. }
  destruct (Z.eqb_spec (node_type l) LEAVE) as [HL|HL].
  { split; [intros _; left; left; exact HL | reflexivity]. }
  destruct (Z.eqb_spec (node_type l) RET) as [HR|HR].
  { assert (Hnokids : cs = []).
    { destruct cs as [|c cs']; [reflexivity|].
      apply Forall_inv in Hwf. cbn [child label] in Hwf.
      destruct Hwf as [H|H]; [discriminate| |]; rewrite HR in H; discriminate. }
    subst cs. cbn [flat_map].
    destruct (Z.eqb_spec (inner_flag l) INNER) as [HI|HI];
      destruct (Z.geb_spec (lf_below l) 0) as [HB|HB]; cbn [andb].
    - split; [intros _; left; right; repeat split; [exact HR|exact HI|lia] | reflexivity].
    - split; [discriminate|].
      intros [[H|(_ & _ & H)]|H]; [congruence|lia|inversion H].
    - split; [discriminate|].
      intros [[H|(_ & H & _)]|H]; [congruence|congruence|inversion H].
    - split; [discriminate|].
      intros [[H|(_ & H & _)]|H]; [congruence|congruence|inversion H]. }
  assert (Hself : ~ (node_type l = LEAVE \/
                     node_type l = RET /\ inner_flag l = INNER /\ 0 <= lf_below l)).
  { intros [H|(H & _)]; congruence. }
  destruct ((node_type l =? TREE) || (node_type l =? ROOT)) eqn:HT.
  - destruct (existsb (fun c => stable c =? 1) cs) eqn:HE.
    + split; [intros _; right; apply Hkids; reflexivity | reflexivity].
    + split; [discriminate|]. intros [H|H]; [contradiction|].
      apply Hkids in H. discriminate.
  - split; [discriminate|]. intros [H|H]; [contradiction|].
    exfalso. destruct cs as [|c cs'].
    + inversion H.
    + apply Forall_inv in Hwf. cbn [child label] in Hwf.
      apply orb_false_iff in HT. destruct HT as [HT1 HT2].
      apply Z.eqb_neq in HT1, HT2.
      destruct Hwf as [Hw|Hw]; [discriminate|congruence|congruence].
Qed.
End Stable.

Lemma Cluster_Containment_step :
  forall node_type r_nodes node_strings child_array parent_array gas fuel
         st pos p t input_leaves in_cluster no_break,
    nth_error (cps st) pos = Some p ->
    tree_com p = Some t ->
    CCP.Cluster_Containment node_type r_nodes node_strings child_array
      parent_array gas (S fuel) st pos input_leaves in_cluster no_break =
    if Is_Stable_node node_type (inner_flag st) (lf_below st) t =? 1
    then CCP.stable_case node_type r_nodes node_strings child_array
           (CCP.Cluster_Containment node_type r_nodes node_strings child_array
              parent_array gas fuel)
           st pos p t input_leaves in_cluster no_break
    else CCP.unstable_case node_type r_nodes node_strings child_array
           parent_array gas
           (CCP.Cluster_Containment node_type r_nodes node_strings child_array
              parent_array gas fuel)
           st pos p t input_leaves in_cluster no_break.
Proof.
  intros. cbn [CCP.Cluster_Containment]. rewrite H, H0. reflexivity.
Qed.

(** C1.  A tree component is classified stable exactly when its tree
    holds a leaf, or a reticulation that is INNER with [lf_below >= 0];
    [Cluster_Containment] hands a stable component to the resolver and
    every other component with a tree to the splitter. *)
Theorem C1_stable_iff_and_routing :
  forall node_type r_nodes node_strings child_array parent_array gas fuel
         st pos p t input_leaves in_cluster no_break,
    nth_error (cps st) pos = Some p ->
    tree_com p = Some t ->
    component_tree node_type t ->
    let stable :=
      Exists (stable_vertex node_type (inner_flag st) (lf_below st)) (nodes t) in
    let run fuel :=
      CCP.Cluster_Containment node_type r_nodes node_strings child_array
                              parent_array gas fuel in
    (Is_Stable node_type (tree_com p) (inner_flag st) (lf_below st) = 1 <-> stable)
    /\ (stable ->
        run (S fuel) st pos input_leaves in_cluster no_break =
        CCP.stable_case node_type r_nodes node_strings child_array
          (run fuel) st pos p t input_leaves in_cluster no_break)
    /\ (~ stable ->
        run (S fuel) st pos input_leaves in_cluster no_break =
        CCP.unstable_case node_type r_nodes node_strings child_array parent_array gas
          (run fuel) st pos p t input_leaves in_cluster no_break).
Proof.
  intros node_type r_nodes node_strings child_array parent_array gas fuel
         st pos p t input_leaves in_cluster no_break Hp Ht Hwf stable run.
  assert (Hiff : Is_Stable node_type (tree_com p) (inner_flag st) (lf_below st) = 1
                 <-> stable).
  { rewrite Ht. cbn [Is_Stable]. apply Is_Stable_node_spec. exact Hwf. }
  split; [exact Hiff|].
  unfold run. rewrite (Cluster_Containment_step _ _ _ _ _ _ _ _ _ _ _ _ _ _ Hp Ht).
  rewrite Ht in Hiff. cbn [Is_Stable] in Hiff. split; intros Hs.
  - apply Hiff in Hs. rewrite Hs. reflexivity.
  - destruct (Z.eqb_spec (Is_Stable_node node_type (inner_flag st) (lf_below st) t) 1)
      as [E|E]; [|reflexivity].
    apply Hiff in E. contradiction.
Qed.


Lemma small_tree_component : component_tree small_types small_tree.
Proof.
  unfold component_tree, small_tree. cbn [nodes child flat_map app].
  apply Forall_cons; [intros _; right; reflexivity|].
  apply Forall_cons; [intros H; contradiction H; reflexivity|].
  apply Forall_cons; [intros H; contradiction H; reflexivity|].
  apply Forall_nil.
Qed.

Lemma C1_stable_iff_and_routing_witness :
  nth_error (cps small_state) 0 = Some (Comp 0 CROSS 3 2 (Some small_tree))
  /\ component_tree small_types small_tree
  /\ (Is_Stable small_types (Some small_tree) (fun _ => CROSS) (fun _ => 5) = 1
      <-> Exists (stable_vertex small_types (fun _ => CROSS) (fun _ => 5))
                 (nodes small_tree)).
Proof.
  split; [reflexivity|]. split; [exact small_tree_component|].
  exact (proj1 (C1_stable_iff_and_routing small_types [2] [] (fun _ => [])
                  (fun _ => []) O O small_state O
                  (Comp 0 CROSS 3 2 (Some small_tree)) small_tree [1] (fun _ => 1) 0
                  eq_refl eq_refl small_tree_component)).
Defined.

(** ** The normalization of REVISED reticulations (C2) *)

Lemma Normalize_Revised_spec r_nodes :
  forall inner_flag super_deg r,
    let flags := fst (Normalize_Revised r_nodes inner_flag super_deg) in
    let degs := snd (Normalize_Revised r_nodes inner_flag super_deg) in
    (In r r_nodes -> inner_flag r = REVISED ->
     if super_deg r >? 2
     then degs r = super_deg r - 1 /\ flags r = CROSS
     else degs r = 1 /\ flags r = INNER)
    /\ (inner_flag r <> REVISED -> flags r = inner_flag r /\ degs r = super_deg r)
    /\ (~ In r r_nodes -> flags r = inner_flag r /\ degs r = super_deg r).
Proof.
  induction r_nodes as [|r0 rest IH]; intros inner_flag super_deg r;
    cbn [Normalize_Revised].
  - cbn [fst snd]. split; [intros []|]. split; intros _; split; reflexivity.
  - assert (Hkeep : forall fl sd,
               fl r = inner_flag r -> sd r = super_deg r -> r <> r0 ->
               let flags := fst (Normalize_Revised rest fl sd) in
               let degs := snd (Normalize_Revised rest fl sd) in
               (In r (r0 :: rest) -> inner_flag r = REVISED ->
                if super_deg r >? 2
                then degs r = super_deg r - 1 /\ flags r = CROSS
                else degs r = 1 /\ flags r = INNER)
               /\ (inner_flag r <> REVISED ->
                   flags r = inner_flag r /\ degs r = super_deg r)
               /\ (~ In r (r0 :: rest) ->
                   flags r = inner_flag r /\ degs r = super_deg r)).
    { intros fl sd Hfl Hsd Hne. specialize (IH fl sd r). cbv zeta in IH |- *.
      rewrite Hfl, Hsd in IH. destruct IH as (IH1 & IH2 & IH3).
      split; [|split].
      - intros [Hin|Hin] Hr; [congruence|]. apply IH1; assumption.
      - exact IH2.
      - intros Hn. apply IH3. intros Hin. apply Hn. right. exact Hin. }
    assert (Hhit : forall fl sd,
               fl r0 <> REVISED -> r = r0 ->
               fst (Normalize_Revised rest fl sd) r = fl r
               /\ snd (Normalize_Revised rest fl sd) r = sd r).
    { intros fl sd Hfl E. rewrite E. exact (proj1 (proj2 (IH fl sd r0)) Hfl). }
    destruct (Z.eqb_spec (inner_flag r0) REVISED) as [H0|H0].
    + destruct (Z.eqb_spec r r0) as [E|E].
      * destruct (super_deg r0 >? 2) eqn:Hd; cbv zeta.
        -- destruct (Hhit (upd inner_flag r0 CROSS)
                          (upd super_deg r0 (super_deg r0 - 1))) as [Hf Hs];
             [unfold upd; rewrite Z.eqb_refl; discriminate | exact E |].
           rewrite Hf, Hs. subst r. unfold upd. rewrite Z.eqb_refl, Hd.
           split; [intros _ _; split; reflexivity|].
           split; [intros H; contradiction|].
           intros Hn. exfalso. apply Hn. left. reflexivity.
        -- destruct (Hhit (upd inner_flag r0 INNER) (upd super_deg r0 1)) as [Hf Hs];
             [unfold upd; rewrite Z.eqb_refl; discriminate | exact E |].
           rewrite Hf, Hs. subst r. unfold upd. rewrite Z.eqb_refl, Hd.
           split; [intros _ _; split; reflexivity|].
           split; [intros H; contradiction|].
           intros Hn. exfalso. apply Hn. left. reflexivity.
      * assert (Hu : forall (a : Z -> Z) v, upd a r0 v r = a r).
        { intros a v. unfold upd. destruct (Z.eqb_spec r r0); [contradiction|reflexivity]. }
        destruct (super_deg r0 >? 2); apply Hkeep; auto.
    + destruct (Z.eqb_spec r r0) as [E|E].
      * destruct (Hhit inner_flag super_deg H0 E) as [Hf Hs]. cbv zeta.
        rewrite Hf, Hs. subst r.
        split; [intros _ H; contradiction|].
        split; [intros _; split; reflexivity|]. intros _; split; reflexivity.
      * apply Hkeep; auto.
Qed.

Lemma Parallel_Normalize_Revised_eq r_nodes :
  forall inner_flag super_deg,
    Parallel.Normalize_Revised r_nodes inner_flag super_deg =
    Normalize_Revised r_nodes inner_flag super_deg.
Proof.
  induction r_nodes as [|r rest IH]; intros inner_flag super_deg;
    cbn [Parallel.Normalize_Revised Normalize_Revised]; [reflexivity|].
  destruct (inner_flag r =? REVISED); [destruct (super_deg r >? 2)|]; apply IH.
Qed.

Ltac pass_on :=
  match goal with
  | |- passes_on (fun _ => Some ?res) _ _ =>
      left; exists res; intros rec; reflexivity
  | |- passes_on (fun rec => rec ?s ?k ?il ?ic ?nb) _ _ =>
      right; exists s, k, il, ic, nb;
      split; [reflexivity|split; [reflexivity|intros rec; reflexivity]]
  end.

Lemma CCP_stable_case_passes_on node_type r_nodes node_strings child_array
  st pos p t input_leaves in_cluster no_break :
  let flags0 :=
    rs_inner_flag
      (snd (Replace_Ret_Revised node_type (lf_below st) (super_deg st) t
              (RS (inner_flag st) [] [] [] (fun _ => -1)))) in
  passes_on
    (fun rec => CCP.stable_case node_type r_nodes node_strings child_array rec
                  st pos p t input_leaves in_cluster no_break)
    (fst (Normalize_Revised r_nodes flags0 (super_deg st)))
    (snd (Normalize_Revised r_nodes flags0 (super_deg st))).
Proof.
  intros flags0. subst flags0. unfold CCP.stable_case.
  destruct (Replace_Ret_Revised _ _ _ _ _) as [t1 rs]. cbn [snd].
  destruct (Normalize_Revised _ _ _) as [iflag sdeg]. cbn [fst snd].
  repeat match goal with
         | |- passes_on (fun rec => if ?b then _ else _) _ _ => destruct b
         | |- passes_on (fun rec => let '(_, _) := ?x in _) _ _ => destruct x
         | |- passes_on (fun rec => match ?x with (_, _) => _ end) _ _ => destruct x
         end; pass_on.
Qed.

Lemma Parallel_stable_case_passes_on node_type r_nodes
  st pos p t input_leaves in_cluster no_break :
  let flags0 :=
    rs_inner_flag
      (snd (Replace_Ret_Revised node_type (lf_below st) (super_deg st) t
              (RS (inner_flag st) [] [] [] (fun _ => -1)))) in
  passes_on
    (fun rec => Parallel.stable_case node_type r_nodes rec
                  st pos p t input_leaves in_cluster no_break)
    (fst (Parallel.Normalize_Revised r_nodes flags0 (super_deg st)))
    (snd (Parallel.Normalize_Revised r_nodes flags0 (super_deg st))).
Proof.
  intros flags0. subst flags0. unfold Parallel.stable_case.
  destruct (Replace_Ret_Revised _ _ _ _ _) as [t1 rs]. cbn [snd].
  destruct (Parallel.Normalize_Revised _ _ _) as [iflag sdeg]. cbn [fst snd].
  repeat match goal with
         | |- passes_on (fun rec => if ?b then _ else _) _ _ => destruct b
         | |- passes_on (fun rec => let '(_, _) := ?x in _) _ _ => destruct x
         | |- passes_on (fun rec => match ?x with (_, _) => _ end) _ _ => destruct x
         end; pass_on.
Qed.

(** C2.  Right after the leaf substitution of the stable resolver, every
    reticulation that is REVISED is normalized: with a super-degree above
    2 the super-degree drops by one and the flag becomes CROSS, otherwise
    the super-degree becomes 1 and the flag INNER; no other entry of the
    two arrays changes.  These are the arrays that the resolver of
    [ClusterContainment.c] and the resolver of [SoftRFDist_parallel.c]
    go on with, whenever they do not end the search themselves. *)
Theorem C2_revised_normalized :
  forall node_type r_nodes node_strings child_array st pos p t
         input_leaves in_cluster no_break,
    let flags0 :=
      rs_inner_flag
        (snd (Replace_Ret_Revised node_type (lf_below st) (super_deg st) t
                (RS (inner_flag st) [] [] [] (fun _ => -1)))) in
    exists flags degs,
      (forall r, In r r_nodes -> flags0 r = REVISED ->
                 if super_deg st r >? 2
                 then degs r = super_deg st r - 1 /\ flags r = CROSS
                 else degs r = 1 /\ flags r = INNER)
      /\ (forall r, ~ (In r r_nodes /\ flags0 r = REVISED) ->
                    degs r = super_deg st r /\ flags r = flags0 r)
      /\ passes_on
           (fun rec => CCP.stable_case node_type r_nodes node_strings child_array
                         rec st pos p t input_leaves in_cluster no_break)
           flags degs
      /\ passes_on
           (fun rec => Parallel.stable_case node_type r_nodes
                         rec st pos p t input_leaves in_cluster no_break)
           flags degs.
Proof.
  intros node_type r_nodes node_strings child_array st pos p t il ic nb flags0.
  exists (fst (Normalize_Revised r_nodes flags0 (super_deg st))),
         (snd (Normalize_Revised r_nodes flags0 (super_deg st))).
  split.
  { intros r Hin Hrev.
    exact (proj1 (Normalize_Revised_spec r_nodes flags0 (super_deg st) r) Hin Hrev). }
  split.
  { intros r Hn.
    destruct (Normalize_Revised_spec r_nodes flags0 (super_deg st) r) as (_ & H2 & H3).
    destruct (Z.eq_dec (flags0 r) REVISED) as [E|E].
    - destruct (in_dec Z.eq_dec r r_nodes) as [Hi|Hi].
      + exfalso. apply Hn. split; assumption.
      + destruct (H3 Hi) as [Hf Hd]. split; assumption.
    - destruct (H2 E) as [Hf Hd]. split; assumption. }
  split.
  - apply CCP_stable_case_passes_on.
  - rewrite <- Parallel_Normalize_Revised_eq. apply Parallel_stable_case_passes_on.
Qed.

Lemma C2_revised_normalized_witness :
  In 2 [2]
  /\ rs_inner_flag
       (snd (Replace_Ret_Revised small_types (lf_below crossing_state)
               (super_deg crossing_state) small_tree
               (RS (inner_flag crossing_state) [] [] [] (fun _ => -1)))) 2 = REVISED
  /\ exists st' pos' input_leaves' in_cluster' no_break',
       (super_deg st' 2 = 2 /\ inner_flag st' 2 = CROSS)
       /\ (forall rec,
             CCP.stable_case small_types [2] [] (fun _ => []) rec crossing_state 0
               (Comp 0 CROSS 3 2 (Some small_tree)) small_tree [7; 8] far_cluster 0
             = rec st' pos' input_leaves' in_cluster' no_break')
       /\ exists st'' pos'' input_leaves'' in_cluster'' no_break'',
            (super_deg st'' 2 = 2 /\ inner_flag st'' 2 = CROSS)
            /\ forall rec,
                 Parallel.stable_case small_types [2] rec crossing_state 0
                   (Comp 0 CROSS 3 2 (Some small_tree)) small_tree [7; 8] far_cluster 0
                 = rec st'' pos'' input_leaves'' in_cluster'' no_break''.
Proof.
  split; [left; reflexivity|]. split; [reflexivity|].
  destruct (C2_revised_normalized small_types [2] [] (fun _ => []) crossing_state 0%nat
              (Comp 0 CROSS 3 2 (Some small_tree)) small_tree [7; 8] far_cluster 0)
    as (flags & degs & Hr & _ & Hc & Hp).
  specialize (Hr 2 (or_introl eq_refl) eq_refl).
  change (super_deg crossing_state 2 >? 2) with true in Hr. cbv iota in Hr.
  change (super_deg crossing_state 2 - 1) with 2 in Hr.
  destruct Hc as [(res & Hres)|(st1 & k1 & il1 & ic1 & nb1 & Hf1 & Hd1 & Hrec1)].
  { specialize (Hres (fun _ _ _ _ _ => None)). vm_compute in Hres. discriminate Hres. }
  destruct Hp as [(res & Hres)|(st2 & k2 & il2 & ic2 & nb2 & Hf2 & Hd2 & Hrec2)].
  { specialize (Hres (fun _ _ _ _ _ => None)). vm_compute in Hres. discriminate Hres. }
  exists st1, k1, il1, ic1, nb1. rewrite Hf1, Hd1.
  split; [exact Hr|]. split; [exact Hrec1|].
  exists st2, k2, il2, ic2, nb2. rewrite Hf2, Hd2.
  split; [exact Hr|]. exact Hrec2.
Defined.

(** ** The shortcut of the splitter (C3) *)

Section Unstable.
Variables node_type inner_flag lf_below : Z -> Z.
Variable B : list Z.

Let collect := Find_UnStable node_type inner_flag lf_below B.
Let wanted := cross_leaves_in node_type inner_flag lf_below B.

Lemma cross_leaves_in_node l f cs :
  wanted (Tnode l f cs) = wanted (Tnode l f []) ++ flat_map wanted cs.
Proof.
  unfold wanted, cross_leaves_in.
  assert (H : forall cs : list arb_tnode,
             map lf_below
               (filter (fun r => (node_type r =? RET) && (inner_flag r =? CROSS)
                                 && negb (lf_below r =? -2)
                                 && (Is_In (lf_below r) B =? 1))
                       (map label (flat_map nodes cs))) =
             flat_map (fun t => map lf_below
               (filter (fun r => (node_type r =? RET) && (inner_flag r =? CROSS)
                                 && negb (lf_below r =? -2)
                                 && (Is_In (lf_below r) B =? 1))
                       (map label (nodes t)))) cs).
  { induction cs0 as [|c cs0 IH]; [reflexivity|].
    cbn [flat_map]. rewrite map_app, filter_app, map_app, IH. reflexivity. }
  cbn [nodes child flat_map map filter app label].
  destruct ((node_type l =? RET) && (inner_flag l =? CROSS)
            && negb (lf_below l =? -2) && (Is_In (lf_below l) B =? 1));
    cbn [map app]; rewrite H; reflexivity.
Qed.

Lemma Find_UnStable_lf_in t :
  component_tree node_type t ->
  forall u, lf_in_comp (collect t u) = lf_in_comp u ++ wanted t.
Proof.
  induction t as [l f cs IH] using arb_tnode_ind. intros Hwf u.
  assert (Hleaf : (node_type l = TREE \/ node_type l = ROOT) \/ cs = []).
  { destruct cs as [|c cs']; [right; reflexivity|left].
    apply Forall_inv in Hwf. apply Hwf. discriminate. }
  rewrite cross_leaves_in_node.
  unfold collect. cbn [Find_UnStable label child].
  assert (Hw : wanted (Tnode l f []) =
               if (node_type l =? RET) && (inner_flag l =? CROSS)
                  && negb (lf_below l =? -2) && (Is_In (lf_below l) B =? 1)
               then [lf_below l] else []).
  { unfold wanted, cross_leaves_in. cbn [nodes child flat_map map filter app label].
    destruct ((node_type l =? RET) && (inner_flag l =? CROSS)
              && negb (lf_below l =? -2) && (Is_In (lf_below l) B =? 1));
      reflexivity. }
  rewrite Hw.
  destruct (Z.eqb_spec (node_type l) LEAVE) as [HL|HL].
  { assert (Hnot : (node_type l =? RET) = false)
      by (rewrite HL; reflexivity).
    rewrite Hnot. cbn [andb app].
    destruct Hleaf as [[H|H]|H]; try (rewrite HL in H; discriminate).
    subst cs. cbn [flat_map]. rewrite app_nil_r. reflexivity. }
  destruct (Z.eqb_spec (node_type l) RET) as [HR|HR].
  { assert (Hcs : cs = []).
    { destruct Hleaf as [[H|H]|H]; try (rewrite HR in H; discriminate). exact H. }
    subst cs. cbn [flat_map andb]. rewrite app_nil_r.
    destruct (inner_flag l =? CROSS); cbn [andb]; [|rewrite app_nil_r; reflexivity].
    destruct (lf_below l =? -2); cbn [negb andb]; [rewrite app_nil_r; reflexivity|].
    destruct (Is_In (lf_below l) B =? 1); cbn [lf_in_comp];
      [reflexivity | rewrite app_nil_r; reflexivity]. }
  cbn [andb app].
  destruct ((node_type l =? TREE) || (node_type l =? ROOT)) eqn:HT.
  - clear Hleaf Hw. revert u.
    induction cs as [|c cs' IHcs]; intros u.
    + cbn [flat_map]. rewrite app_nil_r. reflexivity.
    + cbn [flat_map]. rewrite IHcs.
      * fold (collect c u). rewrite (Forall_inv IH).
        -- rewrite app_assoc. reflexivity.
        -- eapply component_tree_child; [exact Hwf|left; reflexivity].
      * exact (Forall_inv_tail IH).
      * unfold component_tree in *. cbn [nodes child flat_map] in *.
        apply Forall_cons.
        -- intros _. apply orb_true_iff in HT.
           destruct HT as [H|H]; apply Z.eqb_eq in H; [left|right]; exact H.
        -- apply Forall_inv_tail in Hwf. apply Forall_app in Hwf. apply Hwf.
  - destruct Hleaf as [[H|H]|H].
    + rewrite H in HT. discriminate.
    + rewrite H in HT. rewrite orb_true_r in HT. discriminate.
    + subst cs. cbn [flat_map]. rewrite app_nil_r. reflexivity.
Qed.
End Unstable.

(** C3.  In the unstable case, when the leaves collected from the CROSS
    reticulations of the component whose [lf_below] is in B are as many
    as B, [Cluster_Containment] returns success at once: it reports the
    root of the component, and [no_break] is as before, so no split into
    two copies has been made. *)
Theorem C3_splitter_shortcut :
  forall node_type r_nodes node_strings child_array parent_array gas fuel
         st pos p t input_leaves in_cluster no_break,
    nth_error (cps st) pos = Some p ->
    tree_com p = Some t ->
    component_tree node_type t ->
    ~ Exists (stable_vertex node_type (inner_flag st) (lf_below st)) (nodes t) ->
    len (cross_leaves_in node_type (inner_flag st) (lf_below st) input_leaves t)
    = len input_leaves ->
    CCP.Cluster_Containment node_type r_nodes node_strings child_array
      parent_array gas (S fuel) st pos input_leaves in_cluster no_break
    = Some (Res 50 no_break
              (print_success node_type node_strings (label t) (cps st)
                             child_array no_break)).
Proof.
  intros node_type r_nodes node_strings child_array parent_array gas fuel
         st pos p t input_leaves in_cluster no_break Hp Ht Hwf Hunst Hlen.
  rewrite (Cluster_Containment_step _ _ _ _ _ _ _ _ _ _ _ _ _ _ Hp Ht).
  destruct (Z.eqb_spec (Is_Stable_node node_type (inner_flag st) (lf_below st) t) 1)
    as [E|E].
  { apply Is_Stable_node_spec in E; [contradiction|exact Hwf]. }
  unfold CCP.unstable_case.
  rewrite (Find_UnStable_lf_in node_type (inner_flag st) (lf_below st)
             input_leaves t Hwf (UL [] [] [] [])).
  cbn [lf_in_comp app]. rewrite Hlen, Z.eqb_refl. reflexivity.
Qed.


Lemma bare_tree_component : component_tree small_types bare_tree.
Proof.
  unfold component_tree, bare_tree. cbn [nodes child flat_map app].
  apply Forall_cons; [intros _; right; reflexivity|].
  apply Forall_cons; [intros H; contradiction H; reflexivity|].
  apply Forall_nil.
Qed.

Lemma bare_tree_unstable :
  ~ Exists (stable_vertex small_types (fun _ => CROSS) (fun _ => 5)) (nodes bare_tree).
Proof.
  unfold bare_tree. cbn [nodes child flat_map app]. intros H.
  apply Exists_cons in H. destruct H as [[H|(H & _)]|H]; [discriminate H|discriminate H|].
  apply Exists_cons in H. destruct H as [[H|(_ & H & _)]|H];
    [discriminate H|discriminate H|inversion H].
Qed.

Lemma C3_splitter_shortcut_witness :
  res_value
    (match CCP.Cluster_Containment small_types [2] ["root"; "leaf"; "ret"]%string
             (fun _ => []) (fun _ => []) O 1 bare_state O [5] (fun _ => 1) 0 with
     | Some r => r
     | None => Res 0 0 []
     end) = 50.
Proof.
  rewrite (C3_splitter_shortcut small_types [2] ["root"; "leaf"; "ret"]%string
             (fun _ => []) (fun _ => []) O O bare_state O
             (Comp 0 CROSS 2 1 (Some bare_tree)) bare_tree [5] (fun _ => 1) 0
             eq_refl eq_refl bare_tree_component bare_tree_unstable eq_refl).
  reflexivity.
Defined.

(** ** The validation of the topology (C5) *)

Lemma type_node_check es s i :
  ti_check (type_node es s i) =
  (if (indeg es i =? 0) && (outdeg es i >? 1) then 1 + ti_check s else ti_check s)
  /\ ti_check_node (type_node es s i) =
     (if (indeg es i >? 1) && (outdeg es i >? 1)
      then ti_check_node s + 1 else ti_check_node s).
Proof.
  unfold type_node.
  destruct ((indeg es i =? 0) && (outdeg es i >? 1)),
           ((indeg es i =? 1) && (outdeg es i =? 0)),
           ((indeg es i =? 1) && (outdeg es i >=? 1)),
           ((indeg es i >? 1) && (outdeg es i =? 1)),
           ((indeg es i >? 1) && (outdeg es i >? 1));
    split; reflexivity.
Qed.

Lemma type_node_counts es l :
  forall s,
    ti_check (fold_left (type_node es) l s) =
    ti_check s + len (filter (fun i => (indeg es i =? 0) && (outdeg es i >? 1)) l)
    /\ ti_check_node (fold_left (type_node es) l s) =
       ti_check_node s
       + len (filter (fun i => (indeg es i >? 1) && (outdeg es i >? 1)) l).
Proof.
  induction l as [|i l IH]; intros s; cbn [fold_left filter].
  - unfold len. cbn. split; lia.
  - destruct (IH (type_node es s i)) as [IH1 IH2]. rewrite IH1, IH2.
    destruct (type_node_check es s i) as [-> ->].
    destruct ((indeg es i =? 0) && (outdeg es i >? 1)),
             ((indeg es i >? 1) && (outdeg es i >? 1));
      unfold len; cbn [List.length]; split; lia.
Qed.

Lemma Node_Type_Inform1_rejects node_type no_nodes es root :
  (snd (Node_Type_Inform1 node_type no_nodes es root) <? 0) = true
  <-> (1 < len (root_nodes es no_nodes) \/ mixed_nodes es no_nodes <> []).
Proof.
  unfold Node_Type_Inform1. cbn [snd].
  destruct (type_node_counts es (upto no_nodes) (TI node_type root 0 0)) as [Hc Hn].
  cbn [ti_check ti_check_node] in Hc, Hn. rewrite Hc, Hn.
  fold (root_nodes es no_nodes). fold (mixed_nodes es no_nodes).
  assert (Hm : 0 < len (mixed_nodes es no_nodes) <-> mixed_nodes es no_nodes <> []).
  { destruct (mixed_nodes es no_nodes); unfold len; cbn [List.length]; split.
    - lia.
    - intros H; contradiction H; reflexivity.
    - discriminate.
    - lia. }
  destruct (Z.gtb_spec (0 + len (root_nodes es no_nodes)) 1) as [G|G];
    destruct (Z.gtb_spec (0 + len (mixed_nodes es no_nodes)) 0) as [M|M];
    cbn [orb]; split; intros H; try reflexivity; try discriminate H.
  - left. lia.
  - left. lia.
  - right. apply Hm. lia.
  - destruct H as [H|H]; [lia|]. apply Hm in H. lia.
Qed.

(** C5, as the code has it.  [main] returns 10 with the diagnostic of the
    topology exactly when it has three arguments and the graph read from
    the file has two or more ROOT nodes, or a node with indegree and
    outdegree both above 1. *)
Theorem C5_rejects_two_roots_or_mixed_node :
  forall fuel root0 argv leaf_file network_file,
    let ns := fst (read_network network_file [] []) in
    let es := snd (read_network network_file [] []) in
    CCP_main.main fuel root0 argv leaf_file network_file
    = Some (10, CCP_main.msg_topology)
    <-> (len argv = 3
         /\ (1 < len (root_nodes es (len ns)) \/ mixed_nodes es (len ns) <> [])).
Proof.
  intros fuel root0 argv leaf_file network_file ns es.
  unfold CCP_main.main, CCP_main.check_input.
  destruct (Z.eqb_spec (len argv) 3) as [A|A]; cbn [negb].
  2:{ split; [discriminate|]. intros [H _]. contradiction. }
  subst ns es. destruct (read_network network_file [] []) as [ns es]. cbn [fst snd].
  pose proof (Node_Type_Inform1_rejects (fun _ => 0) (len ns) es root0) as Hrej.
  destruct (Node_Type_Inform1 (fun _ => 0) (len ns) es root0) as [[nt1 root1] x].
  cbn [snd] in Hrej.
  destruct (x <? 0).
  { split; [intros _; split; [exact A|apply Hrej; reflexivity] | reflexivity]. }
  assert (Hno : ~ (1 < len (root_nodes es (len ns)) \/ mixed_nodes es (len ns) <> [])).
  { intros H. apply Hrej in H. discriminate. }
  assert (Hgoal : forall r : option (Z * list string),
             (forall out, r <> Some (10, out)) \/ r = Some (10, CCP_main.msg_leaf) ->
             r = Some (10, CCP_main.msg_topology) <->
             len argv = 3 /\
             (1 < len (root_nodes es (len ns)) \/ mixed_nodes es (len ns) <> [])).
  { intros r Hr. split.
    - intros E. destruct Hr as [Hr|Hr].
      + exfalso. exact (Hr _ E).
      + rewrite Hr in E. discriminate E.
    - intros [_ H]. contradiction. }
  destruct (Move_Leaves_Front _ _ _ _) as [node_strings es'].
  destruct (Node_Type_Inform1 nt1 (len ns) es' root1) as [[nt2 root2] x2].
  match goal with |- context [if negb ?c then _ else _] => destruct c end; cbn [negb].
  2:{ apply Hgoal. right. reflexivity. }
  match goal with
  | |- context [if ?c then CCP_main.Exit 0 _ else _] => destruct c
  end.
  { apply Hgoal. left. intros out E. discriminate E. }
  apply Hgoal. left. intros out.
  destruct (CCP_main.prepare _ _ _ _ _ _ _) as [si|]; [|discriminate].
  destruct (CCP_main.search _ _) as [r|]; discriminate.
Qed.

(** C5 as stated fails: the graph of a file with the single line [a b]
    has no ROOT, so it does not have exactly one; yet the validation
    returns 0 and [main] goes on to the trivial report and returns 0. *)
Lemma C5_counterexample_no_root :
  root_nodes (snd (read_network rootless_network [] []))
             (len (fst (read_network rootless_network [] []))) = []
  /\ snd (Node_Type_Inform1 (fun _ => 0) 2 (snd (read_network rootless_network [] [])) 0)
     = 0
  /\ exists out,
       CCP_main.main 0 0 ccp_argv ["b"]%string rootless_network = Some (0, out).
Proof.
  split; [reflexivity|]. split; [reflexivity|].
  eexists. vm_compute. reflexivity.
Qed.

(** ** The exits of [main] (C6) *)

(** The five ways in which [main] leaves the checks of its input. *)
Lemma check_input_cases root0 argv leaf_file network_file :
  let c := CCP_main.check_input root0 argv leaf_file network_file in
  let no1 := cluster_size leaf_file in
  let n_l := network_leaf_count root0 network_file in
  c = CCP_main.Exit 10 CCP_main.msg_usage
  \/ c = CCP_main.Exit 10 CCP_main.msg_topology
  \/ c = CCP_main.Exit 10 CCP_main.msg_leaf
  \/ ((no1 = 1 \/ n_l = no1)
      /\ exists out, c = CCP_main.Exit 0 (out ++ CCP_main.msg_trivial))
  \/ (no1 <> 1 /\ n_l <> no1
      /\ exists node_strings es node_type root input_leaves in_cluster out,
           c = CCP_main.Proceed node_strings es node_type root n_l
                                input_leaves in_cluster out
           /\ len input_leaves = no1).
Proof.
  unfold CCP_main.check_input, cluster_size, network_leaf_count.
  destruct (negb (len argv =? 3)); [left; reflexivity|].
  destruct (read_network network_file [] []) as [ns es].
  destruct (Node_Type_Inform1 (fun _ => 0) (len ns) es root0) as [[nt1 root1] x].
  destruct (x <? 0); [right; left; reflexivity|].
  destruct (Move_Leaves_Front _ _ _ _) as [node_strings es'].
  destruct (Node_Type_Inform1 nt1 (len ns) es' root1) as [[nt2 root2] x2].
  cbv zeta.
  match goal with
  | |- context [if negb (?a =? ?b) then _ else _] =>
      destruct (Z.eqb_spec a b) as [Hm|Hm]
  end; cbn [negb]; [|right; right; left; reflexivity].
  right. right. right.
  destruct (Z.eqb_spec (len (read_leaves leaf_file [])) 1) as [H1|H1]; cbn [orb].
  { left. split; [left; exact H1|]. eexists. reflexivity. }
  match goal with
  | |- context [if ?a =? ?b then _ else _] => destruct (Z.eqb_spec a b) as [Hn|Hn]
  end.
  { left. split; [right; exact Hn|]. eexists. reflexivity. }
  right. split; [exact H1|]. split; [exact Hn|].
  do 7 eexists. split; [reflexivity|exact Hm].
Qed.

Lemma main_of_exit fuel root0 argv leaf_file network_file code out :
  CCP_main.check_input root0 argv leaf_file network_file = CCP_main.Exit code out ->
  CCP_main.main fuel root0 argv leaf_file network_file = Some (code, out).
Proof. intros H. unfold CCP_main.main. rewrite H. reflexivity. Qed.

(** C6, as the code has it.  On an input that passes the checks, a
    cluster that is a singleton or the full leaf set makes [main] print
    the trivial report and return 0 whatever the fuel, also with none at
    all: the components are not built and [Cluster_Containment] is not
    called.  Every other cluster, the empty one of a network with leaves
    included, takes [main] on to the search. *)
Theorem C6_trivial_for_singleton_and_full_set :
  forall root0 argv leaf_file network_file,
    (forall out,
        CCP_main.check_input root0 argv leaf_file network_file
        <> CCP_main.Exit 10 out) ->
    let no1 := cluster_size leaf_file in
    let n_l := network_leaf_count root0 network_file in
    ((no1 = 1 \/ no1 = n_l) ->
     exists out,
       forall fuel,
         CCP_main.main fuel root0 argv leaf_file network_file
         = Some (0, out ++ CCP_main.msg_trivial))
    /\ (no1 <> 1 -> no1 <> n_l ->
        exists node_strings es node_type root input_leaves in_cluster out,
          CCP_main.check_input root0 argv leaf_file network_file
          = CCP_main.Proceed node_strings es node_type root n_l
                             input_leaves in_cluster out
          /\ len input_leaves = no1).
Proof.
  intros root0 argv leaf_file network_file Hok no1 n_l.
  destruct (check_input_cases root0 argv leaf_file network_file)
    as [H|[H|[H|[(Ht & out & H)|(H1 & Hn & H)]]]];
    try (exfalso; exact (Hok _ H)).
  - split.
    + intros _. exists out. intros fuel. apply main_of_exit. exact H.
    + intros N1 Nn. exfalso. destruct Ht as [Ht|Ht]; [exact (N1 Ht)|].
      apply Nn. symmetry. exact Ht.
  - split.
    + intros [E|E]; exfalso; [exact (H1 E)|]. apply Hn. symmetry. exact E.
    + intros _ _. exact H.
Qed.

Lemma C6_trivial_for_singleton_and_full_set_witness :
  exists out,
    CCP_main.main 0 0 ccp_argv ["leaf1"]%string reference_network
    = Some (0, out ++ CCP_main.msg_trivial).
Proof.
  assert (Hok : forall out,
             CCP_main.check_input 0 ccp_argv ["leaf1"]%string reference_network
             <> CCP_main.Exit 10 out).
  { intros out. vm_compute. discriminate. }
  destruct (proj1 (C6_trivial_for_singleton_and_full_set 0 ccp_argv ["leaf1"]%string
                     reference_network Hok) (or_introl eq_refl)) as [out H].
  exists out. exact (H O).
Defined.

(** C6 as stated fails for the empty cluster: with an empty leaf file
    and the network of the header comment, [main] does not take the
    trivial exit; it builds the components and runs the search, and the
    resolver reports a node. *)
Lemma C6_counterexample_empty_cluster :
  cluster_size [] = 0
  /\ match CCP_main.check_input 0 ccp_argv [] reference_network with
     | CCP_main.Proceed _ _ _ _ _ input_leaves _ _ => input_leaves = []
     | CCP_main.Exit _ _ => False
     end
  /\ CCP_main.main 0 0 ccp_argv [] reference_network = None
  /\ exists out,
       CCP_main.main 20 0 ccp_argv [] reference_network = Some (0, out)
       /\ existsb (String.eqb ("The input is the soft cluster of node: 2" ++ nl)) out
          = true
       /\ existsb (String.eqb ("The input is a trivial soft cluster " ++ nl)) out
          = false.
Proof.
  split; [reflexivity|]. split; [vm_compute; reflexivity|].
  split; [vm_compute; reflexivity|].
  eexists. split; [vm_compute; reflexivity|].
  split; vm_compute; reflexivity.
Qed.

(** ** Identical arguments (C10) *)

(** C10.  When both file arguments are the same string, each of the two
    distance programs prints the line with the distance 0.0 and returns:
    the result is the same whatever [Preprocess_Network] and
    [Find_Cluster_Distance] would do with the files, so neither file is
    opened, read or checked, and no exit with status 10 takes place. *)
Theorem C10_same_argument_prints_zero :
  forall prog file,
    (forall Preprocess_Network fuel,
        SRFD.main Preprocess_Network fuel [prog; file; file]
        = Some (SRFD.msg_same, None))
    /\ (forall Find_Cluster_Distance,
          Parallel.main Find_Cluster_Distance [prog; file; file] = SRFD.msg_same)
    /\ SRFD.msg_same =
       [nl ++ "The two network files are the same." ++ nl
           ++ "The soft Robinson-Foulds distance between the two input networks is: "
           ++ "0.0" ++ nl]%string.
Proof.
  intros prog file. split; [|split].
  - intros Preprocess_Network fuel. unfold SRFD.main.
    cbn [len List.length nth negb]. rewrite String.eqb_refl. reflexivity.
  - intros Find_Cluster_Distance. unfold Parallel.main.
    cbn [len List.length nth negb]. rewrite String.eqb_refl. reflexivity.
  - reflexivity.
Qed.

(** ** Symmetry of the distance *)

Section Symmetry.
Variable fuel : nat.
Variables net1 net2 : SRFD.network.
Hypothesis same_count : SRFD.n_l net1 = SRFD.n_l net2.

Lemma Is_Cluster_swap a rs rs' :
  SRFD.Is_Cluster fuel net1 net2 a rs = Some (SRFD.Done rs') ->
  SRFD.Is_Cluster fuel net2 net1 a (swap_results rs)
  = Some (SRFD.Done (swap_results rs')).
Proof.
  unfold SRFD.Is_Cluster. rewrite <- same_count.
  destruct ((len a =? 0) || (len a =? SRFD.n_l net1)).
  { intros H. injection H as <-. reflexivity. }
  destruct (len a =? 1).
  { intros H. injection H as <-. reflexivity. }
  destruct (SRFD.run_search fuel net1 a _) as [[r1|]|]; cbn [SRFD.and_then];
    try discriminate.
  destruct (SRFD.run_search fuel net2 a _) as [[r2|]|]; cbn [SRFD.and_then];
    try discriminate.
  intros H. injection H as <-. reflexivity.
Qed.

Lemma Is_Cluster_all_swap inputs :
  forall rs rs',
    SRFD.Is_Cluster_all fuel net1 net2 inputs rs = Some (SRFD.Done rs') ->
    SRFD.Is_Cluster_all fuel net2 net1 inputs (swap_results rs)
    = Some (SRFD.Done (swap_results rs')).
Proof.
  induction inputs as [|a rest IH]; intros rs rs'; cbn [SRFD.Is_Cluster_all].
  - intros H. injection H as <-. reflexivity.
  - destruct (SRFD.Is_Cluster fuel net1 net2 a rs) as [[rs1|]|] eqn:E;
      cbn [SRFD.and_then]; try discriminate.
    intros H. rewrite (Is_Cluster_swap _ _ _ E). cbn [SRFD.and_then].
    apply IH. exact H.
Qed.

Lemma sizes_loop_swap ks :
  forall rs rs',
    SRFD.sizes_loop fuel net1 net2 ks rs = Some (SRFD.Done rs') ->
    SRFD.sizes_loop fuel net2 net1 ks (swap_results rs)
    = Some (SRFD.Done (swap_results rs')).
Proof.
  induction ks as [|k ks IH]; intros rs rs'; cbn [SRFD.sizes_loop].
  - intros H. injection H as <-. reflexivity.
  - unfold SRFD.Subset_CCP. rewrite <- same_count.
    destruct (SRFD.Is_Cluster_all fuel net1 net2 _ rs) as [[rs1|]|] eqn:E;
      cbn [SRFD.and_then]; try discriminate.
    intros H. rewrite (Is_Cluster_all_swap _ _ _ E). cbn [SRFD.and_then].
    apply IH. exact H.
Qed.

Lemma count_diff_swap rlen rs :
  SRFD.count_diff rlen (swap_results rs) = SRFD.count_diff rlen rs.
Proof.
  unfold SRFD.count_diff.
  assert (H : forall l z,
             fold_left (fun dist i => dist + SRFD.pop (Z.lxor (SRFD.res1 (swap_results rs) i)
                                                             (SRFD.res2 (swap_results rs) i)))
                       l z
             = fold_left (fun dist i => dist + SRFD.pop (Z.lxor (SRFD.res1 rs i)
                                                               (SRFD.res2 rs i)))
                         l z); [|apply H].
  induction l as [|i l IH]; intros z; cbn [fold_left]; [reflexivity|].
  cbn [swap_results SRFD.res1 SRFD.res2]. rewrite (Z.lxor_comm (SRFD.res2 rs i)).
  apply IH.
Qed.
End Symmetry.

Lemma same_leaves_sym net1 net2 :
  SRFD.same_leaves net1 net2 = true -> SRFD.same_leaves net2 net1 = true.
Proof.
  unfold SRFD.same_leaves. intros H. apply andb_true_iff in H. destruct H as [Hn Hs].
  apply Z.eqb_eq in Hn. rewrite <- Hn, Z.eqb_refl. cbn [andb].
  rewrite forallb_forall in *. intros i Hi. rewrite String.eqb_sym. apply Hs, Hi.
Qed.

(** *** The searches return *)

Ltac break_pair :=
  match goal with
  | |- context [match ?x with (_, _) => _ end] => destruct x eqn:?
  end.

Lemma Make_Current_Network_roots cs :
  map ret_node (Make_Current_Network cs) = map ret_node cs.
Proof.
  unfold Make_Current_Network. rewrite map_map. apply map_ext.
  intros c. destruct (size c =? 0); reflexivity.
Qed.

Section Roots.
Variable node_type : Z -> Z.

Lemma Modify1_comp_root r c ne :
  ret_node (fst (Modify1_comp node_type r c ne)) = ret_node c.
Proof.
  unfold Modify1_comp. destruct (tree_com c); [|reflexivity].
  repeat break_pair. reflexivity.
Qed.

Lemma Modify_comp_root r c ne :
  ret_node (fst (Modify_comp node_type r c ne)) = ret_node c.
Proof.
  unfold Modify_comp. destruct (tree_com c) as [t|]; [|reflexivity].
  destruct (label t =? r); [reflexivity|apply Modify1_comp_root].
Qed.

Lemma Modify2_roots p : forall x ne,
  map ret_node (fst (Modify2 node_type p x ne)) = map ret_node p.
Proof.
  induction p as [|c p IH]; intros x ne; [reflexivity|].
  cbn [Modify2]. pose proof (Modify1_comp_root x c ne) as Hc.
  destruct (Modify1_comp node_type x c ne) as [c' ne1]. cbn [fst] in Hc.
  specialize (IH x ne1). destruct (Modify2 node_type p x ne1) as [rest' ne2].
  cbn [fst map] in *. now rewrite Hc, IH.
Qed.

Lemma Modify_later_roots p : forall x ne,
  map ret_node (fst (Modify_later node_type p x ne)) = map ret_node p.
Proof.
  induction p as [|c p IH]; intros x ne; [reflexivity|].
  cbn [Modify_later]. pose proof (Modify_comp_root x c ne) as Hc.
  destruct (Modify_comp node_type x c ne) as [c' ne1]. cbn [fst] in Hc.
  specialize (IH x ne1). destruct (Modify_later node_type p x ne1) as [rest' ne2].
  cbn [fst map] in *. now rewrite Hc, IH.
Qed.

Lemma roots_later (cs : list components) pos later' :
  map ret_node later' = map ret_node (skipn (S pos) cs) ->
  map ret_node (firstn (S pos) cs ++ later') = map ret_node cs.
Proof.
  intros H. rewrite map_app, H, <- map_app, firstn_skipn. reflexivity.
Qed.

Lemma roots_at (cs : list components) pos p p' later' :
  nth_error cs pos = Some p ->
  ret_node p' = ret_node p ->
  map ret_node later' = map ret_node (skipn (S pos) cs) ->
  map ret_node (firstn pos cs ++ p' :: later') = map ret_node cs.
Proof.
  intros Hn Hp Hl. rewrite map_app. cbn [map]. rewrite Hp, Hl.
  rewrite <- (firstn_skipn pos cs) at 3. rewrite map_app. f_equal.
  clear Hl. revert pos Hn. induction cs as [|c cs IH]; intros [|pos] Hn; try discriminate.
  - cbn in Hn. injection Hn as ->. reflexivity.
  - cbn [nth_error] in Hn. exact (IH pos Hn).
Qed.

Lemma Modify_roots cs pos ne cs1 pos1 ne1 x :
  map ret_node (fst (fst (fst (Modify node_type cs pos ne cs1 pos1 ne1 x))))
  = map ret_node cs
  /\ map ret_node (snd (fst (Modify node_type cs pos ne cs1 pos1 ne1 x)))
     = map ret_node cs1.
Proof.
  unfold Modify. destruct (nth_error cs pos) as [p|]; [|split; reflexivity].
  pose proof (Modify_later_roots (skipn (S pos) cs) x ne) as Hl.
  destruct (Modify_later node_type (skipn (S pos) cs) x ne) as [later' ne'].
  cbn [fst] in Hl. pose proof (roots_later cs pos later' Hl) as Hcs.
  destruct pos1 as [k|]; [|split; [exact Hcs|reflexivity]].
  destruct (nth_error cs1 k) as [p1|] eqn:Ek; [|split; [exact Hcs|reflexivity]].
  pose proof (Modify_comp_root x p1 ne1) as Hp.
  destruct (Modify_comp node_type x p1 ne1) as [p1' ne1']. cbn [fst snd] in *.
  split; [exact Hcs|]. now apply (roots_at cs1 k p1).
Qed.

Lemma Modify_Cross_Ret_roots rs optional in_cluster :
  forall p later lfb ne,
    ret_node (fst (fst (fst (Modify_Cross_Ret node_type rs optional in_cluster
                                              p later lfb ne))))
    = ret_node p
    /\ map ret_node (snd (fst (fst (Modify_Cross_Ret node_type rs optional in_cluster
                                                     p later lfb ne))))
       = map ret_node later.
Proof.
  induction rs as [|r rs IH]; intros p later lfb ne; [split; reflexivity|].
  cbn [Modify_Cross_Ret].
  destruct ((lfb r >=? 0) && (Is_In (lfb r) optional =? 1)); [|apply IH].
  destruct (in_cluster (lfb r) =? 1).
  - pose proof (Modify2_roots later r ne) as Hl.
    destruct (Modify2 node_type later r ne) as [later' ne']. cbn [fst] in Hl.
    rewrite <- Hl. apply IH.
  - destruct (in_cluster (lfb r) =? 0); [|apply IH].
    pose proof (Modify1_comp_root r p ne) as Hp.
    destruct (Modify1_comp node_type r p ne) as [p' ne']. cbn [fst] in Hp.
    rewrite <- Hp. apply IH.
Qed.

Lemma Modify_Cross_Ret1_roots rs optional in_cluster :
  forall p later lfb ne,
    ret_node (fst (fst (fst (Modify_Cross_Ret1 node_type rs optional in_cluster
                                               p later lfb ne))))
    = ret_node p
    /\ map ret_node (snd (fst (fst (Modify_Cross_Ret1 node_type rs optional in_cluster
                                                      p later lfb ne))))
       = map ret_node later.
Proof.
  induction rs as [|r rs IH]; intros p later lfb ne; [split; reflexivity|].
  cbn [Modify_Cross_Ret1].
  destruct ((lfb r >=? 0) && (Is_In (lfb r) optional =? 1)); [|apply IH].
  destruct (in_cluster (lfb r) =? 0).
  - pose proof (Modify2_roots later r ne) as Hl.
    destruct (Modify2 node_type later r ne) as [later' ne']. cbn [fst] in Hl.
    rewrite <- Hl. apply IH.
  - destruct (in_cluster (lfb r) =? 1); [|apply IH].
    pose proof (Modify1_comp_root r p ne) as Hp.
    destruct (Modify1_comp node_type r p ne) as [p' ne']. cbn [fst] in Hp.
    rewrite <- Hp. apply IH.
Qed.

Lemma split_in_roots pos pos1 ab r :
  map ret_node (cps (fst (SRFD.split_in node_type pos pos1 ab r)))
  = map ret_node (cps (fst ab))
  /\ map ret_node (cps (snd (SRFD.split_in node_type pos pos1 ab r)))
     = map ret_node (cps (snd ab)).
Proof.
  destruct ab as [a b]. unfold SRFD.split_in.
  destruct (if inner_flag a r =? CROSS then _ else _) as [[[ifa sda] ifb] sdb].
  pose proof (Modify_roots (cps a) pos SRFD.no_edges (cps b) (Some pos1)
                           SRFD.no_edges r) as [H1 H2].
  destruct (Modify node_type (cps a) pos SRFD.no_edges (cps b) (Some pos1)
                   SRFD.no_edges r) as [[[cs n1] cs1] n2].
  cbn [fst snd cps] in *. split; assumption.
Qed.

Lemma split_out_roots pos pos1 ab r :
  map ret_node (cps (fst (SRFD.split_out node_type pos pos1 ab r)))
  = map ret_node (cps (fst ab))
  /\ map ret_node (cps (snd (SRFD.split_out node_type pos pos1 ab r)))
     = map ret_node (cps (snd ab)).
Proof.
  destruct ab as [a b]. unfold SRFD.split_out.
  destruct (if inner_flag a r =? CROSS then _ else _) as [[[ifa sda] ifb] sdb].
  pose proof (Modify_roots (cps b) pos1 SRFD.no_edges (cps a) (Some pos)
                           SRFD.no_edges r) as [H1 H2].
  destruct (Modify node_type (cps b) pos1 SRFD.no_edges (cps a) (Some pos)
                   SRFD.no_edges r) as [[[cs1 n1] cs] n2].
  cbn [fst snd cps] in *. split; assumption.
Qed.

Lemma splits_roots (step : state * state -> Z -> state * state) rets :
  (forall ab r,
      map ret_node (cps (fst (step ab r))) = map ret_node (cps (fst ab))
      /\ map ret_node (cps (snd (step ab r))) = map ret_node (cps (snd ab))) ->
  forall ab,
    map ret_node (cps (fst (fold_left step rets ab))) = map ret_node (cps (fst ab))
    /\ map ret_node (cps (snd (fold_left step rets ab))) = map ret_node (cps (snd ab)).
Proof.
  intros Hstep. induction rets as [|r rets IH]; intros ab; [split; reflexivity|].
  cbn [fold_left]. destruct (IH (step ab r)) as [H1 H2].
  destruct (Hstep ab r) as [H3 H4]. split; congruence.
Qed.

Lemma find_ret_node_at cs : forall pos p,
  NoDup (map ret_node cs) -> nth_error cs pos = Some p ->
  find_ret_node cs (ret_node p) = pos.
Proof.
  induction cs as [|c cs IH]; intros pos p Hnd Hn; [destruct pos; discriminate|].
  cbn [map] in Hnd. apply NoDup_cons_iff in Hnd. destruct Hnd as [Hc Hnd].
  cbn [find_ret_node]. destruct pos as [|pos]; cbn [nth_error] in Hn.
  - injection Hn as ->. now rewrite Z.eqb_refl.
  - destruct (Z.eqb_spec (ret_node c) (ret_node p)) as [E|_].
    + exfalso. apply Hc. rewrite E. apply in_map. exact (nth_error_In _ _ Hn).
    + f_equal. now apply IH.
Qed.
End Roots.

Section Returns.
Variable node_type : Z -> Z.
Variable r_nodes : list Z.

(** The search of [SoftRFDist_print.c] returns: every call goes on to
    the next component of a list with the same roots. *)
Lemma Cluster_Containment_returns :
  forall fuel st pos input_leaves in_cluster,
    NoDup (map ret_node (cps st)) ->
    (List.length (cps st) - pos < fuel)%nat ->
    exists v,
      SRFD.Cluster_Containment node_type r_nodes fuel st pos input_leaves in_cluster
      = Some v.
Proof.
  induction fuel as [|fuel IH]; intros st pos il ic Hnd Hfuel; [lia|].
  cbn [SRFD.Cluster_Containment].
  destruct (nth_error (cps st) pos) as [p|] eqn:Hp; [|eauto].
  destruct (SRFD.trace_outside r_nodes (lf_below st)); [eauto|].
  assert (Hpos : (pos < List.length (cps st))%nat).
  { apply nth_error_Some. congruence. }
  assert (Hnext : forall st' il' ic',
             map ret_node (cps st') = map ret_node (cps st) ->
             exists v,
               SRFD.Cluster_Containment node_type r_nodes fuel st' (S pos) il' ic'
               = Some v).
  { intros st' il' ic' Hr. apply IH.
    - rewrite Hr. exact Hnd.
    - apply (f_equal (@List.length Z)) in Hr. rewrite !length_map in Hr. lia. }
  assert (Hcut : forall x,
             map ret_node
                 (firstn (S pos) (cps st)
                  ++ fst (Modify2 node_type (skipn (S pos) (cps st)) x SRFD.no_edges))
             = map ret_node (cps st)).
  { intros x. apply roots_later. apply Modify2_roots. }
  destruct (tree_com p) as [t|].
  2:{ specialize (Hcut (ret_node p)).
      destruct (Modify2 node_type (skipn (S pos) (cps st)) (ret_node p) SRFD.no_edges)
        as [later' ne']. cbn [fst] in Hcut. apply Hnext. exact Hcut. }
  destruct (Is_Stable node_type (Some t) (inner_flag st) (lf_below st) =? 1).
  - unfold SRFD.stable_case.
    destruct (SRFD.Replace_Ret_Revised _ _ _ _ _) as [t1 rs].
    destruct (SRFD.Normalize_Revised _ _ _) as [iflag sdeg].
    destruct (SRFD.replaced_outside rs); [eauto|].
    destruct (len (rs_leaf_set rs) >? 0).
    + destruct (CCP.mark_leaves _ _ _ _) as [t3 no_mark].
      destruct (DProgram_Revised _ _ _ _ _ >=? 0); [eauto|].
      destruct (CCP.count_eq ic 0 (rs_leaf_set rs) =? len (rs_leaf_set rs)).
      { match goal with
        | |- context [Modify_Cross_Ret1 ?nt ?rn ?o ?c ?q ?l ?b ?e] =>
            pose proof (Modify_Cross_Ret1_roots nt rn o c q l b e) as [H1 H2];
            destruct (Modify_Cross_Ret1 nt rn o c q l b e) as [[[p5 later5] lfb5] ne5]
        end.
        cbn [fst snd] in H1, H2. apply Hnext. cbn [cps]. unfold SRFD.step_cps.
        apply (roots_at (cps st) pos p); [exact Hp|exact H1|exact H2]. }
      destruct (CCP.count_eq ic 1 (rs_leaf_set rs) =? len (rs_leaf_set rs)); [|eauto].
      destruct (_ =? len il); [eauto|].
      match goal with
      | |- context [Modify_Cross_Ret ?nt ?rn ?o ?c ?q ?l ?b ?e] =>
          pose proof (Modify_Cross_Ret_roots nt rn o c q l b e) as [H1 H2];
          destruct (Modify_Cross_Ret nt rn o c q l b e) as [[[p5 later5] lfb5] ne5]
      end.
      cbn [fst snd] in H1, H2. apply Hnext. cbn [cps]. unfold SRFD.step_cps.
      apply (roots_at (cps st) pos p); [exact Hp|exact H1|exact H2].
    + match goal with
      | |- context [Modify ?nt ?cs ?k ?e ?cs1 ?k1 ?e1 ?x] =>
          pose proof (Modify_roots nt cs k e cs1 k1 e1 x) as [H1 _];
          destruct (Modify nt cs k e cs1 k1 e1 x) as [[[cps3 n1] c1] n2]
      end.
      cbn [fst] in H1. apply Hnext. cbn [cps]. rewrite H1. unfold SRFD.step_cps.
      apply (roots_at (cps st) pos p); [exact Hp|reflexivity|reflexivity].
  - unfold SRFD.unstable_case.
    destruct (len (lf_in_comp _) =? len il); [eauto|].
    destruct ((len (unstb_rets_in _) >? 0) || (len (unstb_rets_out _) >? 0)).
    2:{ specialize (Hcut (ret_node p)).
        destruct (Modify2 node_type (skipn (S pos) (cps st)) (ret_node p) SRFD.no_edges)
          as [later' ne']. cbn [fst] in Hcut. apply Hnext. exact Hcut. }
    assert (Hpos1 : find_ret_node (Make_Current_Network (cps st)) (ret_node p) = pos).
    { assert (Hq : exists q, nth_error (Make_Current_Network (cps st)) pos = Some q
                             /\ ret_node q = ret_node p).
      { unfold Make_Current_Network. rewrite nth_error_map, Hp. cbn.
        eexists. split; [reflexivity|]. destruct (size p =? 0); reflexivity. }
      destruct Hq as (q & Hq & <-).
      apply find_ret_node_at; [|exact Hq].
      rewrite Make_Current_Network_roots. exact Hnd. }
    rewrite Hpos1.
    match goal with
    | |- context [fold_left (SRFD.split_out node_type pos pos) ?outs
                            (fold_left (SRFD.split_in node_type pos pos) ?ins ?ab0)] =>
        pose proof (splits_roots (SRFD.split_in node_type pos pos) ins
                      (split_in_roots node_type pos pos) ab0) as [Ha1 Hb1];
        pose proof (splits_roots (SRFD.split_out node_type pos pos) outs
                      (split_out_roots node_type pos pos)
                      (fold_left (SRFD.split_in node_type pos pos) ins ab0)) as [Ha2 Hb2];
        destruct (fold_left (SRFD.split_out node_type pos pos) outs
                            (fold_left (SRFD.split_in node_type pos pos) ins ab0))
          as [a b]
    end.
    cbn [fst snd cps] in Ha1, Hb1, Ha2, Hb2.
    rewrite Make_Current_Network_roots in Hb1.
    assert (Ha : map ret_node (cps a) = map ret_node (cps st)) by congruence.
    assert (Hb : map ret_node (cps b) = map ret_node (cps st)) by congruence.
    match goal with
    | |- exists v, SRFD.and_then ?first _ = Some v =>
        assert (Hfirst : exists res, first = Some res)
    end.
    { destruct (_ >? 1); apply Hnext; exact Ha. }
    destruct Hfirst as ([res|] & ->); cbn [SRFD.and_then]; [|eauto].
    destruct (res =? 0); [|eauto]. apply Hnext. exact Hb.
Qed.
End Returns.

Lemma run_search_returns fuel net input_leaves in_cluster :
  searchable fuel net ->
  exists v, SRFD.run_search fuel net input_leaves in_cluster = Some v.
Proof.
  intros [Hnd Hlen]. unfold SRFD.run_search. apply Cluster_Containment_returns.
  - cbn [cps]. rewrite Make_Current_Network_roots. exact Hnd.
  - cbn [cps]. unfold Make_Current_Network. rewrite length_map. lia.
Qed.

Lemma Is_Cluster_returns fuel net1 net2 a rs :
  searchable fuel net1 -> searchable fuel net2 ->
  exists rs', SRFD.Is_Cluster fuel net1 net2 a rs = Some rs'.
Proof.
  intros H1 H2. unfold SRFD.Is_Cluster.
  destruct ((len a =? 0) || (len a =? SRFD.n_l net1)); [eauto|].
  destruct (len a =? 1); [eauto|].
  match goal with
  | |- context [SRFD.run_search fuel net1 a ?ic] =>
      destruct (run_search_returns fuel net1 a ic H1) as ([r1|] & ->);
      destruct (run_search_returns fuel net2 a ic H2) as ([r2|] & ->)
  end; cbn [SRFD.and_then]; eauto.
Qed.

Lemma Is_Cluster_all_returns fuel net1 net2 inputs :
  searchable fuel net1 -> searchable fuel net2 ->
  forall rs, exists rs', SRFD.Is_Cluster_all fuel net1 net2 inputs rs = Some rs'.
Proof.
  intros H1 H2. induction inputs as [|a inputs IH]; intros rs; cbn [SRFD.Is_Cluster_all].
  - eauto.
  - destruct (Is_Cluster_returns fuel net1 net2 a rs H1 H2) as ([rs1|] & ->);
      cbn [SRFD.and_then]; [apply IH|eauto].
Qed.

Lemma sizes_loop_returns fuel net1 net2 ks :
  searchable fuel net1 -> searchable fuel net2 ->
  forall rs, exists rs', SRFD.sizes_loop fuel net1 net2 ks rs = Some rs'.
Proof.
  intros H1 H2. induction ks as [|k ks IH]; intros rs; cbn [SRFD.sizes_loop].
  - eauto.
  - unfold SRFD.Subset_CCP.
    destruct (Is_Cluster_all_returns fuel net1 net2
                (SRFD.Subset_CCP_inputs (SRFD.n_l net1) k
                   (SRFD.nChoosek (SRFD.n_l net1) k)) H1 H2 rs) as ([rs1|] & ->);
      cbn [SRFD.and_then]; [apply IH|eauto].
Qed.

(** With enough fuel the distance is computed, unless a search leaves
    an array. *)
Lemma Find_Cluster_Distance_returns fuel net1 net2 :
  searchable fuel net1 -> searchable fuel net2 ->
  SRFD.same_leaves net1 net2 = true ->
  SRFD.Find_Cluster_Distance fuel net1 net2 = Some SRFD.Undefined
  \/ exists dist,
       SRFD.Find_Cluster_Distance fuel net1 net2 = Some (SRFD.Distance dist).
Proof.
  intros H1 H2 Hsame. unfold SRFD.Find_Cluster_Distance.
  assert (Hn : (SRFD.n_l net1 =? SRFD.n_l net2) = true).
  { unfold SRFD.same_leaves in Hsame. apply andb_true_iff in Hsame. apply Hsame. }
  rewrite Hn, Hsame. cbn [negb].
  destruct (sizes_loop_returns fuel net1 net2
              (SRFD.range 1 (Z.to_nat (SRFD.n_l net1 - 1))) H1 H2
              (SRFD.Results (fun _ => 0) (fun _ => 0) 0)) as ([rs|] & ->).
  - right. eauto.
  - left. reflexivity.
Qed.

Lemma Find_Cluster_Distance_swap fuel net1 net2 dist :
  SRFD.same_leaves net1 net2 = true ->
  SRFD.Find_Cluster_Distance fuel net1 net2 = Some (SRFD.Distance dist) ->
  SRFD.Find_Cluster_Distance fuel net2 net1 = Some (SRFD.Distance dist).
Proof.
  intros Hsame. pose proof (same_leaves_sym _ _ Hsame) as Hsame'.
  assert (Hn : SRFD.n_l net1 = SRFD.n_l net2).
  { unfold SRFD.same_leaves in Hsame. apply andb_true_iff in Hsame.
    apply Z.eqb_eq. apply Hsame. }
  unfold SRFD.Find_Cluster_Distance.
  rewrite Hsame, Hsame', <- Hn, Z.eqb_refl. cbn [negb].
  destruct (SRFD.sizes_loop fuel net1 net2 _ _) as [[rs|]|] eqn:E; try discriminate.
  intros H. injection H as <-.
  pose proof (sizes_loop_swap fuel net1 net2 Hn _ _ _ E) as Hs.
  unfold swap_results at 1 in Hs. cbn [SRFD.res1 SRFD.res2 SRFD.no_res] in Hs.
  rewrite Hs, count_diff_swap. reflexivity.
Qed.

(** X26.  For two networks of at most 24 leaves that pass the test of
    the leaf sets: when the distance of (N1, N2) is computed, with every
    search staying inside the arrays, the distance of (N2, N1) is
    computed too and is the same.  The two result arrays change places
    and the number of bits in which they differ is the same. *)
Theorem X26_distance_symmetric_inside_the_arrays :
  forall fuel net1 net2 dist,
    SRFD.n_l net1 <= 24 ->
    SRFD.same_leaves net1 net2 = true ->
    SRFD.Find_Cluster_Distance fuel net1 net2 = Some (SRFD.Distance dist) ->
    SRFD.same_leaves net2 net1 = true
    /\ SRFD.Find_Cluster_Distance fuel net2 net1 = Some (SRFD.Distance dist).
Proof.
  intros fuel net1 net2 dist _ Hsame H. split.
  - apply same_leaves_sym. exact Hsame.
  - apply Find_Cluster_Distance_swap; assumption.
Qed.

Lemma X26_distance_symmetric_inside_the_arrays_witness :
  SRFD.n_l left_tree <= 24
  /\ SRFD.same_leaves left_tree right_tree = true
  /\ SRFD.Find_Cluster_Distance 5 left_tree right_tree = Some (SRFD.Distance (2 # 2))
  /\ SRFD.Find_Cluster_Distance 5 right_tree left_tree = Some (SRFD.Distance (2 # 2)).
Proof.
  assert (Hn : SRFD.n_l left_tree <= 24) by (vm_compute; discriminate).
  assert (H : SRFD.Find_Cluster_Distance 5 left_tree right_tree
              = Some (SRFD.Distance (2 # 2))) by (vm_compute; reflexivity).
  split; [exact Hn|]. split; [reflexivity|]. split; [exact H|].
  exact (proj2 (X26_distance_symmetric_inside_the_arrays 5 left_tree right_tree (2 # 2)
                  Hn eq_refl H)).
Defined.

(** ** The enumeration of the subsets *)

Lemma range_length lo c : List.length (SRFD.range lo c) = c.
Proof. revert lo. induction c as [|c IH]; intros lo; cbn; [reflexivity|]. now rewrite IH. Qed.

Lemma range_snoc lo c : SRFD.range lo (S c) = SRFD.range lo c ++ [lo + Z.of_nat c].
Proof.
  revert lo. induction c as [|c IH]; intros lo.
  - cbn. f_equal. lia.
  - change (SRFD.range lo (S (S c))) with (lo :: SRFD.range (lo + 1) (S c)).
    rewrite IH. cbn. do 2 f_equal. f_equal. lia.
Qed.

Lemma bump_cell pre z tl :
  let j := len pre in
  SRFD.set_cell (SRFD.i4vec_indicator0 j (pre ++ z :: tl)) j
                (rd (SRFD.i4vec_indicator0 j (pre ++ z :: tl)) j + 1)
  = SRFD.range 0 (List.length pre) ++ (z + 1) :: tl.
Proof.
  cbv zeta. unfold len, SRFD.i4vec_indicator0, SRFD.set_cell, rd.
  rewrite Nat2Z.id.
  assert (E1 : skipn (List.length pre) (pre ++ z :: tl) = z :: tl).
  { rewrite skipn_app, skipn_all, Nat.sub_diag. reflexivity. }
  rewrite E1.
  pose proof (range_length 0 (List.length pre)) as Hr.
  destruct (Z.ltb_spec (Z.of_nat (List.length pre)) 0) as [H|H]; [lia|].
  assert (E2 : nth (List.length pre) (SRFD.range 0 (List.length pre) ++ z :: tl) 0 = z).
  { rewrite app_nth2 by lia. rewrite Hr, Nat.sub_diag. reflexivity. }
  rewrite E2.
  assert (E3 : firstn (List.length pre) (SRFD.range 0 (List.length pre) ++ z :: tl)
               = SRFD.range 0 (List.length pre)).
  { rewrite firstn_app, Hr, Nat.sub_diag. cbn [firstn]. rewrite app_nil_r.
    apply firstn_all2. lia. }
  rewrite E3.
  assert (E4 : skipn (S (List.length pre)) (SRFD.range 0 (List.length pre) ++ z :: tl)
               = tl).
  { rewrite skipn_app, Hr. rewrite skipn_all2 by lia.
    replace (S (List.length pre) - List.length pre)%nat with 1%nat by lia.
    reflexivity. }
  rewrite E4. reflexivity.
Qed.

Lemma ksub_body suf :
  forall pre,
    suf <> [] ->
    let jsave := SRFD.ksub_jsave suf (len pre) (len (pre ++ suf)) in
    SRFD.set_cell (SRFD.i4vec_indicator0 jsave (pre ++ suf)) jsave
                  (rd (SRFD.i4vec_indicator0 jsave (pre ++ suf)) jsave + 1)
    = advance (List.length pre) suf.
Proof.
  induction suf as [|x rest IH]; intros pre Hne; [contradiction|].
  destruct rest as [|y r].
  - cbn [SRFD.ksub_jsave advance].
    assert (E : len (pre ++ [x]) - 1 = len pre).
    { unfold len. rewrite length_app. cbn. lia. }
    rewrite E. apply bump_cell.
  - cbn [SRFD.ksub_jsave advance]. destruct (x + 1 <? y).
    + apply bump_cell.
    + specialize (IH (pre ++ [x])).
      rewrite <- app_assoc in IH. cbn [app] in IH.
      assert (E : len (pre ++ [x]) = len pre + 1).
      { unfold len. rewrite length_app. cbn. lia. }
      rewrite E in IH. rewrite length_app in IH. cbn [List.length] in IH.
      rewrite Nat.add_1_r in IH. apply IH. discriminate.
Qed.

Lemma ksub_next_advance n k a :
  a <> [] -> len a = k -> rd a 0 < n - k + 1 ->
  SRFD.ksub_next n k a = advance 0 a.
Proof.
  intros Hne Hk Hlt. unfold SRFD.ksub_next.
  destruct (Z.ltb_spec (rd a 0) (n - k + 1)) as [_|H]; [|lia].
  subst k. exact (ksub_body a [] Hne).
Qed.

Lemma sorted_snoc s m :
  StronglySorted Z.lt s -> Forall (fun x => x < m) s ->
  StronglySorted Z.lt (s ++ [m]).
Proof.
  induction s as [|x s IH]; intros Hs Hb; cbn [app].
  - constructor; constructor.
  - apply StronglySorted_inv in Hs. destruct Hs as [Hs Hx].
    constructor.
    + apply IH; [exact Hs|]. exact (Forall_inv_tail Hb).
    + apply Forall_app. split; [exact Hx|]. constructor; [|constructor].
      exact (Forall_inv Hb).
Qed.

Lemma sorted_snoc_inv s m :
  StronglySorted Z.lt (s ++ [m]) ->
  StronglySorted Z.lt s /\ Forall (fun x => x < m) s.
Proof.
  induction s as [|x s IH]; cbn [app]; intros H.
  - split; constructor.
  - apply StronglySorted_inv in H. destruct H as [Hs Hx].
    destruct (IH Hs) as [IH1 IH2]. apply Forall_app in Hx. destruct Hx as [Hx1 Hx2].
    split.
    + constructor; assumption.
    + constructor; [exact (Forall_inv Hx2)|exact IH2].
Qed.

Lemma colex_subsets n :
  forall k a, In a (colex n k) <-> k_subset (Z.of_nat n) k a.
Proof.
  induction n as [|n IH]; intros k a; destruct k as [|k].
  - cbn [colex In]. unfold k_subset. split.
    + intros [<-|[]]. repeat split; constructor.
    + intros (H & _). left. symmetry. apply length_zero_iff_nil. exact H.
  - cbn [colex In]. unfold k_subset. split; [intros []|].
    intros (Hl & _ & Hb). destruct a as [|x a]; [discriminate Hl|].
    apply Forall_inv in Hb. lia.
  - cbn [colex In]. unfold k_subset. split.
    + intros [<-|[]]. repeat split; constructor.
    + intros (H & _). left. symmetry. apply length_zero_iff_nil. exact H.
  - cbn [colex]. rewrite in_app_iff, in_map_iff. split.
    + intros [H|(s & <- & H)].
      * apply IH in H. destruct H as (Hl & Hs & Hb). repeat split; try assumption.
        eapply Forall_impl; [|exact Hb]. cbv beta. intros x Hx. lia.
      * apply IH in H. destruct H as (Hl & Hs & Hb). repeat split.
        -- rewrite length_app, Hl. cbn. lia.
        -- apply sorted_snoc; [exact Hs|].
           eapply Forall_impl; [|exact Hb]. cbv beta. intros x Hx. lia.
        -- apply Forall_app. split.
           ++ eapply Forall_impl; [|exact Hb]. cbv beta. intros x Hx. lia.
           ++ constructor; [lia|constructor].
    + intros (Hl & Hs & Hb).
      destruct (exists_last (l := a)) as (s & x & ->).
      { intros ->. discriminate Hl. }
      apply sorted_snoc_inv in Hs. destruct Hs as [Hs Hlt].
      apply Forall_app in Hb. destruct Hb as [Hb Hx]. apply Forall_inv in Hx.
      rewrite length_app in Hl. cbn in Hl.
      destruct (Z.eq_dec x (Z.of_nat n)) as [->|Hne].
      * right. exists s. split; [reflexivity|]. apply IH. repeat split.
        -- lia.
        -- exact Hs.
        -- rewrite Forall_forall in *. intros y Hy.
           specialize (Hb y Hy). specialize (Hlt y Hy). lia.
      * left. apply IH. repeat split.
        -- rewrite length_app. cbn. lia.
        -- apply sorted_snoc; assumption.
        -- apply Forall_app. split.
           ++ rewrite Forall_forall in *. intros y Hy.
              specialize (Hb y Hy). specialize (Hlt y Hy). lia.
           ++ constructor; [lia|constructor].
Qed.

Lemma chained_app step A :
  forall B,
    chained step A -> chained step B ->
    (A <> [] -> B <> [] -> step (last A []) = hd [] B) ->
    chained step (A ++ B).
Proof.
  induction A as [|x A IH]; intros B HA HB Hj; [exact HB|].
  destruct A as [|x' A'].
  - cbn [app]. destruct B as [|y B']; [exact I|].
    cbn [chained]. split; [|exact HB]. apply Hj; discriminate.
  - cbn [app chained] in *. destruct HA as [Hx HA]. split; [exact Hx|].
    apply (IH B HA HB). intros _ HBne. apply Hj; [discriminate|exact HBne].
Qed.

Lemma chained_ext f g l :
  (forall a, In a l -> f a = g a) -> chained f l -> chained g l.
Proof.
  induction l as [|x l IH]; intros Hfg Hc; [exact I|].
  destruct l as [|y l']; [exact I|].
  cbn [chained] in *. destruct Hc as [Hx Hc]. split.
  - rewrite <- Hfg by (left; reflexivity). exact Hx.
  - apply IH; [|exact Hc]. intros a Ha. apply Hfg. right. exact Ha.
Qed.

Lemma walk_chained n k l :
  forall x,
    chained (SRFD.ksub_next n k) (x :: l) ->
    SRFD.subset_walk n k (List.length l) x = l.
Proof.
  induction l as [|y l IH]; intros x Hc; [reflexivity|].
  cbn [chained] in Hc. destruct Hc as [Hx Hc].
  cbn [List.length SRFD.subset_walk]. rewrite Hx. f_equal. apply IH. exact Hc.
Qed.

Lemma advance_cons2 j x y r :
  advance j (x :: y :: r)
  = if x + 1 <? y then SRFD.range 0 j ++ (x + 1) :: y :: r
    else advance (S j) (y :: r).
Proof. reflexivity. Qed.

Lemma advance_range j a m :
  advance j (SRFD.range a (S m))
  = SRFD.range 0 (j + m) ++ [a + Z.of_nat m + 1].
Proof.
  revert j a. induction m as [|m IH]; intros j a.
  - cbn [SRFD.range advance]. rewrite Nat.add_0_r. do 2 f_equal. lia.
  - change (SRFD.range a (S (S m))) with (a :: (a + 1) :: SRFD.range (a + 1 + 1) m).
    rewrite advance_cons2, Z.ltb_irrefl.
    change ((a + 1) :: SRFD.range (a + 1 + 1) m) with (SRFD.range (a + 1) (S m)).
    rewrite IH. replace (S j + m)%nat with (j + S m)%nat by lia.
    do 2 f_equal. lia.
Qed.

Lemma advance_snoc m s :
  forall j,
    s <> [] -> Forall (fun x => x < m) (advance j s) ->
    advance j (s ++ [m]) = advance j s ++ [m].
Proof.
  induction s as [|x s IH]; intros j Hne Hb; [contradiction|].
  destruct s as [|y r].
  - cbn [app advance] in *. apply Forall_app in Hb. destruct Hb as [_ Hb].
    apply Forall_inv in Hb. destruct (Z.ltb_spec (x + 1) m) as [_|H]; [|lia].
    rewrite <- app_assoc. reflexivity.
  - cbn [app advance] in *. destruct (x + 1 <? y).
    + rewrite <- app_assoc. reflexivity.
    + apply IH; [discriminate|exact Hb].
Qed.

Lemma colex_empty n : forall k, (n < k)%nat -> colex n k = [].
Proof.
  induction n as [|n IH]; intros k Hk; destruct k as [|k]; try lia.
  - reflexivity.
  - cbn [colex]. rewrite (IH (S k)) by lia. rewrite (IH k) by lia. reflexivity.
Qed.

Lemma colex_nonempty n : forall k, (k <= n)%nat -> colex n k <> [].
Proof.
  induction n as [|n IH]; intros k Hk; destruct k as [|k]; try discriminate; [lia|].
  cbn [colex]. intros E. apply app_eq_nil in E. destruct E as [_ E].
  apply map_eq_nil in E. revert E. apply IH. lia.
Qed.

Lemma colex_hd n : forall k, (k <= n)%nat -> hd [] (colex n k) = SRFD.range 0 k.
Proof.
  induction n as [|n IH]; intros k Hk; destruct k as [|k]; try reflexivity; [lia|].
  cbn [colex]. destruct (Nat.eq_dec k n) as [->|Hne].
  - rewrite colex_empty by lia. cbn [app].
    specialize (IH n (Nat.le_refl n)).
    pose proof (colex_nonempty n n (Nat.le_refl n)) as Hn.
    destruct (colex n n) as [|s l]; [contradiction|]. cbn [map hd] in *.
    rewrite IH. symmetry. rewrite range_snoc. f_equal.
  - specialize (IH (S k)).
    pose proof (colex_nonempty n (S k)) as Hn.
    destruct (colex n (S k)) as [|s l]; [exfalso; apply Hn; [lia|reflexivity]|].
    cbn [app hd] in *. apply IH. lia.
Qed.

Lemma colex_last n :
  forall k, (k <= n)%nat -> last (colex n k) [] = SRFD.range (Z.of_nat (n - k)) k.
Proof.
  induction n as [|n IH]; intros k Hk; destruct k as [|k]; try reflexivity; [lia|].
  cbn [colex]. specialize (IH k).
  assert (Hk' : (k <= n)%nat) by lia. specialize (IH Hk').
  destruct (exists_last (colex_nonempty n k Hk')) as (l & s & E).
  rewrite E in *. rewrite last_last in IH.
  rewrite map_app. cbn [map]. rewrite app_assoc, last_last, IH.
  rewrite range_snoc. replace (S n - S k)%nat with (n - k)%nat by lia.
  do 2 f_equal. lia.
Qed.

Lemma chained_map_snoc n l :
  chained (advance 0) l ->
  Forall (fun s => s <> [] /\ Forall (fun x => x < n) s) l ->
  chained (advance 0) (map (fun s => s ++ [n]) l).
Proof.
  induction l as [|x l IH]; intros Hc Hv; [exact I|].
  destruct l as [|y l']; [exact I|].
  cbn [map chained] in *. destruct Hc as [Hx Hc].
  pose proof (Forall_inv Hv) as [Hxne _].
  pose proof (Forall_inv (Forall_inv_tail Hv)) as [_ Hyb].
  split.
  - rewrite advance_snoc; [rewrite Hx; reflexivity|exact Hxne|].
    rewrite Hx. exact Hyb.
  - apply IH; [exact Hc|exact (Forall_inv_tail Hv)].
Qed.

Lemma colex_chained n : forall k, chained (advance 0) (colex n k).
Proof.
  induction n as [|n IH]; intros k; destruct k as [|k]; try exact I.
  cbn [colex]. apply chained_app.
  - apply IH.
  - destruct k as [|k]; [destruct n; exact I|].
    apply chained_map_snoc; [apply IH|].
    apply Forall_forall. intros s Hs. apply colex_subsets in Hs.
    destruct Hs as (Hl & _ & Hb). split.
    + intros ->. discriminate Hl.
    + eapply Forall_impl; [|exact Hb]. cbv beta. intros x Hx. lia.
  - intros HA HB.
    assert (Hk : (S k <= n)%nat).
    { destruct (Nat.le_gt_cases (S k) n) as [H|H]; [exact H|].
      exfalso. apply HA. apply colex_empty. exact H. }
    rewrite colex_last by exact Hk.
    assert (Hk' : (k <= n)%nat) by lia.
    pose proof (colex_hd n k Hk') as Hh.
    pose proof (colex_nonempty n k Hk') as Hn.
    destruct (colex n k) as [|s l]; [contradiction|]. cbn [map hd] in *.
    rewrite Hh, advance_range. cbn [Nat.add]. do 2 f_equal. lia.
Qed.

Lemma sorted_first_bound n a :
  forall x,
    StronglySorted Z.lt (x :: a) -> Forall (fun y => y < n) (x :: a) ->
    x + Z.of_nat (List.length (x :: a)) <= n.
Proof.
  induction a as [|y a IH]; intros x Hs Hb.
  - apply Forall_inv in Hb. cbn. lia.
  - apply StronglySorted_inv in Hs. destruct Hs as [Hs Hx].
    apply Forall_inv in Hx. specialize (IH y Hs (Forall_inv_tail Hb)).
    cbn [List.length] in *. lia.
Qed.

Lemma ksub_next_on_subset n k a :
  k_subset (Z.of_nat n) (S k) a ->
  SRFD.ksub_next (Z.of_nat n) (Z.of_nat (S k)) a = advance 0 a.
Proof.
  intros (Hl & Hs & Hb). destruct a as [|x a]; [discriminate Hl|].
  apply ksub_next_advance.
  - discriminate.
  - unfold len. rewrite Hl. reflexivity.
  - assert (Hx : x + Z.of_nat (List.length (x :: a)) <= Z.of_nat n).
    { apply sorted_first_bound; [exact Hs|].
      eapply Forall_impl; [|exact Hb]. cbv beta. intros y Hy. lia. }
    rewrite Hl in Hx. unfold rd. cbn. lia.
Qed.

Lemma Subset_CCP_inputs_colex n k :
  (k < n)%nat ->
  SRFD.Subset_CCP_inputs (Z.of_nat n) (Z.of_nat (S k))
                         (Z.of_nat (List.length (colex n (S k))))
  = colex n (S k).
Proof.
  intros Hk. unfold SRFD.Subset_CCP_inputs, SRFD.i4vec_indicator0.
  rewrite Nat2Z.id. rewrite skipn_all2 by (rewrite repeat_length; lia).
  rewrite app_nil_r.
  pose proof (colex_hd n (S k) Hk) as Hh.
  pose proof (colex_nonempty n (S k) Hk) as Hn.
  pose proof (colex_chained n (S k)) as Hc.
  assert (Hv : forall a, In a (colex n (S k)) ->
                         advance 0 a = SRFD.ksub_next (Z.of_nat n) (Z.of_nat (S k)) a).
  { intros a Ha. symmetry. apply ksub_next_on_subset. apply colex_subsets. exact Ha. }
  destruct (colex n (S k)) as [|s l]; [contradiction|]. cbn [hd] in Hh. subst s.
  f_equal.
  replace (Z.to_nat (Z.of_nat (List.length (SRFD.range 0 (S k) :: l)) - 1))
    with (List.length l) by (cbn [List.length]; lia).
  apply walk_chained. eapply chained_ext; [exact Hv|exact Hc].
Qed.

Lemma subset_count_0 n : subset_count n 0 = 1.
Proof. unfold subset_count. destruct n; reflexivity. Qed.

Lemma subset_count_pascal n k :
  subset_count (S n) (S k) = subset_count n (S k) + subset_count n k.
Proof.
  unfold subset_count. cbn [colex]. rewrite length_app, length_map. lia.
Qed.

Lemma subset_count_above n k : (n < k)%nat -> subset_count n k = 0.
Proof. intros H. unfold subset_count. rewrite colex_empty by exact H. reflexivity. Qed.

Lemma subset_count_absorb n :
  forall k, (k <= n)%nat ->
            (Z.of_nat k + 1) * subset_count n (S k)
            = (Z.of_nat n - Z.of_nat k) * subset_count n k.
Proof.
  induction n as [|n IH]; intros k Hk.
  - assert (k = O) by lia. subst k. reflexivity.
  - rewrite subset_count_pascal. destruct k as [|k].
    + rewrite !subset_count_0. specialize (IH O (Nat.le_0_l n)).
      rewrite subset_count_0 in IH. lia.
    + rewrite (subset_count_pascal n k).
      destruct (Nat.eq_dec k n) as [->|Hne].
      * rewrite (subset_count_above n (S (S n))) by lia.
        rewrite (subset_count_above n (S n)) by lia. lia.
      * pose proof (IH (S k) ltac:(lia)) as H1.
        pose proof (IH k ltac:(lia)) as H2.
        remember (subset_count n (S (S k))) as A eqn:EA.
        remember (subset_count n (S k)) as B eqn:EB.
        remember (subset_count n k) as C eqn:EC.
        clear EA EB EC IH.
        replace (Z.of_nat (S (S k))) with (Z.of_nat k + 1 + 1) in * by lia.
        replace (Z.of_nat (S k)) with (Z.of_nat k + 1) in * by lia.
        replace (Z.of_nat (S n)) with (Z.of_nat n + 1) by lia.
        nia.
Qed.

Lemma subset_count_1 n : subset_count n 1 = Z.of_nat n.
Proof.
  pose proof (subset_count_absorb n O (Nat.le_0_l n)) as H.
  rewrite subset_count_0 in H. change (Z.of_nat 0) with 0 in H. lia.
Qed.

Lemma subset_count_sym n :
  forall k, (k <= n)%nat -> subset_count n k = subset_count n (n - k).
Proof.
  induction n as [|n IH]; intros k Hk.
  - assert (k = O) by lia. subst k. reflexivity.
  - destruct k as [|k].
    + rewrite Nat.sub_0_r, subset_count_0, subset_count_pascal.
      rewrite (subset_count_above n (S n)) by lia.
      rewrite (IH n (Nat.le_refl n)), Nat.sub_diag, subset_count_0. reflexivity.
    + rewrite subset_count_pascal. cbn [Nat.sub].
      destruct (Nat.eq_dec k n) as [->|Hne].
      * rewrite Nat.sub_diag, subset_count_0.
        rewrite (subset_count_above n (S n)) by lia.
        rewrite (IH n (Nat.le_refl n)), Nat.sub_diag, subset_count_0. reflexivity.
      * replace (n - k)%nat with (S (n - S k)) by lia.
        rewrite subset_count_pascal.
        rewrite (IH (S k)) by lia. rewrite (IH k) by lia.
        replace (n - k)%nat with (S (n - S k)) by lia. lia.
Qed.

Lemma nChoosek_loop n m :
  forall j,
    (1 <= j)%nat -> (j + m <= n)%nat ->
    fold_left (fun result i => Z.quot (result * (Z.of_nat n - i + 1)) i)
              (SRFD.range (Z.of_nat j + 1) m) (subset_count n j)
    = subset_count n (j + m).
Proof.
  induction m as [|m IH]; intros j Hj Hn.
  - rewrite Nat.add_0_r. reflexivity.
  - cbn [SRFD.range fold_left].
    pose proof (subset_count_absorb n j ltac:(lia)) as Ha.
    replace (subset_count n j * (Z.of_nat n - (Z.of_nat j + 1) + 1))
      with (subset_count n (S j) * (Z.of_nat j + 1)) by lia.
    rewrite Z.quot_mul by lia.
    replace (Z.of_nat j + 1 + 1) with (Z.of_nat (S j) + 1) by lia.
    rewrite IH by lia. f_equal. lia.
Qed.

Lemma range_In count : forall lo x,
  In x (SRFD.range lo count) <-> lo <= x < lo + Z.of_nat count.
Proof.
  induction count as [|c IH]; intros lo x; cbn [SRFD.range In].
  - lia.
  - rewrite IH. lia.
Qed.

(** Up to 29 leaves no product of [nChoosek] wraps around. *)
Lemma nChoosek_no_wrap n k :
  0 <= n <= 29 -> 0 <= k <= n -> SRFD.nChoosek n k = nChoosek_on_Z n k.
Proof.
  intros Hn Hk.
  assert (H : forallb (fun n => forallb (fun k => SRFD.nChoosek n k =? nChoosek_on_Z n k)
                                        (SRFD.range 0 (Z.to_nat (n + 1))))
                      (SRFD.range 0 30) = true) by (vm_compute; reflexivity).
  rewrite forallb_forall in H. specialize (H n).
  rewrite forallb_forall in H. apply Z.eqb_eq. apply H.
  - apply range_In. lia.
  - apply range_In. lia.
Qed.

Lemma nChoosek_count n k :
  (k <= n)%nat -> (n <= 29)%nat ->
  SRFD.nChoosek (Z.of_nat n) (Z.of_nat k) = subset_count n k.
Proof.
  intros Hk Hn. rewrite nChoosek_no_wrap by lia. unfold nChoosek_on_Z.
  destruct (Z.gtb_spec (Z.of_nat k) (Z.of_nat n)) as [H|_]; [lia|].
  assert (Hfold : forall j, (1 <= j <= n)%nat ->
             fold_left (fun result i => Z.quot (result * (Z.of_nat n - i + 1)) i)
                       (SRFD.range 2 (Z.to_nat (Z.of_nat j - 1))) (Z.of_nat n)
             = subset_count n j).
  { intros j Hj.
    replace (Z.to_nat (Z.of_nat j - 1)) with (j - 1)%nat by lia.
    pose proof (nChoosek_loop n (j - 1) 1 ltac:(lia) ltac:(lia)) as Hl.
    change (Z.of_nat 1 + 1) with 2 in Hl. rewrite subset_count_1 in Hl.
    rewrite Hl. f_equal. lia. }
  destruct (Z.gtb_spec (Z.of_nat k * 2) (Z.of_nat n)) as [H2|H2].
  - rewrite (subset_count_sym n k Hk).
    destruct (Z.eqb_spec (Z.of_nat n - Z.of_nat k) 0) as [E|E].
    + replace (n - k)%nat with O by lia. rewrite subset_count_0. reflexivity.
    + replace (Z.of_nat n - Z.of_nat k) with (Z.of_nat (n - k)) by lia.
      apply Hfold. lia.
  - destruct (Z.eqb_spec (Z.of_nat k) 0) as [E|E].
    + replace k with O by lia. rewrite subset_count_0. reflexivity.
    + apply Hfold. lia.
Qed.

Lemma bitmap_snoc s m :
  SRFD.bitmap (s ++ [m]) = Z.lor (SRFD.bitmap s) (Z.shiftl 1 m).
Proof. unfold SRFD.bitmap. rewrite fold_left_app. reflexivity. Qed.

Lemma lor_below a b n :
  0 <= a < 2 ^ n -> 0 <= b < 2 ^ n -> 0 <= Z.lor a b < 2 ^ n.
Proof.
  intros Ha Hb.
  assert (H0 : 0 <= Z.lor a b) by (apply Z.lor_nonneg; lia).
  split; [exact H0|].
  destruct (Z.eq_dec (Z.lor a b) 0) as [E|E]; [lia|].
  assert (Hn : 0 < n).
  { destruct (Z.lt_trichotomy n 0) as [H|[H|H]]; [|subst n|exact H].
    - rewrite Z.pow_neg_r in Ha by exact H. lia.
    - cbn in Ha, Hb. assert (a = 0) by lia. assert (b = 0) by lia. subst. contradiction. }
  apply Z.log2_lt_pow2; [lia|].
  rewrite Z.log2_lor by lia.
  assert (La : Z.log2 a < n).
  { destruct (Z.eq_dec a 0) as [->|Na]; [cbn; lia|]. apply Z.log2_lt_pow2; lia. }
  assert (Lb : Z.log2 b < n).
  { destruct (Z.eq_dec b 0) as [->|Nb]; [cbn; lia|]. apply Z.log2_lt_pow2; lia. }
  lia.
Qed.

Lemma bitmap_below n a :
  0 <= n -> Forall (fun x => 0 <= x < n) a -> 0 <= SRFD.bitmap a < 2 ^ n.
Proof.
  intros Hn. unfold SRFD.bitmap.
  assert (H : forall acc, 0 <= acc < 2 ^ n ->
                          Forall (fun x => 0 <= x < n) a ->
                          0 <= fold_left (fun b i => Z.lor b (Z.shiftl 1 i)) a acc < 2 ^ n).
  { induction a as [|x a IH]; intros acc Hacc Hb; [exact Hacc|].
    cbn [fold_left]. apply IH; [|exact (Forall_inv_tail Hb)].
    apply Forall_inv in Hb. apply lor_below; [exact Hacc|].
    rewrite Z.shiftl_1_l. split; [apply Z.pow_nonneg; lia|].
    apply Z.pow_lt_mono_r; lia. }
  apply H. split; [lia|]. apply Z.pow_pos_nonneg; lia.
Qed.

Lemma lor_pow2 b m :
  0 <= m -> 0 <= b < 2 ^ m -> Z.lor b (Z.shiftl 1 m) = b + 2 ^ m.
Proof.
  intros Hm Hb. rewrite Z.shiftl_1_l.
  assert (Hland : Z.land b (2 ^ m) = 0).
  { apply Z.bits_inj'. intros i Hi. rewrite Z.land_spec, Z.bits_0, Z.pow2_bits_eqb by lia.
    destruct (Z.eqb_spec m i) as [<-|Hne]; [|apply andb_false_r].
    rewrite andb_true_r.
    destruct (Z.eq_dec b 0) as [->|Hb0]; [apply Z.bits_0|].
    apply Z.bits_above_log2; [lia|]. apply Z.log2_lt_pow2; lia. }
  rewrite <- Z.lxor_lor by exact Hland.
  symmetry. apply Z.add_nocarry_lxor. exact Hland.
Qed.

Lemma sorted_app {A} (R : A -> A -> Prop) l1 l2 :
  StronglySorted R l1 -> StronglySorted R l2 ->
  (forall x y, In x l1 -> In y l2 -> R x y) ->
  StronglySorted R (l1 ++ l2).
Proof.
  induction l1 as [|x l1 IH]; intros H1 H2 H; [exact H2|].
  apply StronglySorted_inv in H1. destruct H1 as [H1 Hx].
  cbn [app]. constructor.
  - apply IH; [exact H1|exact H2|]. intros a b Ha Hb. apply H; [right; exact Ha|exact Hb].
  - apply Forall_app. split; [exact Hx|].
    apply Forall_forall. intros y Hy. apply H; [left; reflexivity|exact Hy].
Qed.

Lemma sorted_map {A B} (R' : A -> A -> Prop) (R : B -> B -> Prop) (f : A -> B) l :
  StronglySorted R' l ->
  (forall x y, In x l -> In y l -> R' x y -> R (f x) (f y)) ->
  StronglySorted R (map f l).
Proof.
  induction l as [|x l IH]; intros Hs Hf; [constructor|].
  apply StronglySorted_inv in Hs. destruct Hs as [Hs Hx].
  cbn [map]. constructor.
  - apply IH; [exact Hs|]. intros a b Ha Hb. apply Hf; right; assumption.
  - apply Forall_forall. intros y Hy. apply in_map_iff in Hy.
    destruct Hy as (a & <- & Ha). apply Hf; [left; reflexivity|right; exact Ha|].
    rewrite Forall_forall in Hx. apply Hx. exact Ha.
Qed.

Lemma colex_sorted n :
  forall k, StronglySorted (fun a b => SRFD.bitmap a < SRFD.bitmap b) (colex n k).
Proof.
  induction n as [|n IH]; intros k; destruct k as [|k];
    try (repeat constructor; fail).
  cbn [colex].
  assert (Hlow : forall s j, In s (colex n j) ->
                             0 <= SRFD.bitmap s < 2 ^ Z.of_nat n).
  { intros s j Hs. apply colex_subsets in Hs. destruct Hs as (_ & _ & Hb).
    apply bitmap_below; [lia|exact Hb]. }
  assert (Hhigh : forall s, In s (colex n k) ->
                            SRFD.bitmap (s ++ [Z.of_nat n])
                            = SRFD.bitmap s + 2 ^ Z.of_nat n).
  { intros s Hs. rewrite bitmap_snoc. apply lor_pow2; [lia|]. exact (Hlow s k Hs). }
  apply sorted_app.
  - apply IH.
  - apply (sorted_map (fun a b => SRFD.bitmap a < SRFD.bitmap b)); [apply IH|].
    intros x y Hx Hy Hlt. rewrite (Hhigh x Hx), (Hhigh y Hy). lia.
  - intros x y Hx Hy. apply in_map_iff in Hy. destruct Hy as (s & <- & Hs).
    rewrite (Hhigh s Hs). pose proof (Hlow x _ Hx). pose proof (Hlow s _ Hs). lia.
Qed.

Lemma sorted_NoDup {A} (R : A -> A -> Prop) l :
  (forall x, ~ R x x) -> StronglySorted R l -> NoDup l.
Proof.
  intros Hirr. induction l as [|x l IH]; intros Hs; [constructor|].
  apply StronglySorted_inv in Hs. destruct Hs as [Hs Hx]. constructor.
  - intros Hin. rewrite Forall_forall in Hx. exact (Hirr x (Hx x Hin)).
  - apply IH. exact Hs.
Qed.

Lemma bitmap_testbit a i :
  0 <= i -> Forall (fun x => 0 <= x) a ->
  Z.testbit (SRFD.bitmap a) i = existsb (Z.eqb i) a.
Proof.
  intros Hi. unfold SRFD.bitmap.
  assert (H : forall acc, Forall (fun x => 0 <= x) a ->
                          Z.testbit (fold_left (fun b j => Z.lor b (Z.shiftl 1 j)) a acc) i
                          = Z.testbit acc i || existsb (Z.eqb i) a).
  { induction a as [|x a IH]; intros acc Ha; cbn [fold_left existsb].
    - now rewrite orb_false_r.
    - rewrite IH by exact (Forall_inv_tail Ha). apply Forall_inv in Ha.
      rewrite Z.lor_spec, Z.shiftl_1_l, Z.pow2_bits_eqb by exact Ha.
      rewrite (Z.eqb_sym x i). now rewrite orb_assoc. }
  intros Ha. rewrite H by exact Ha. now rewrite Z.bits_0.
Qed.

Lemma range_NoDup count : forall lo, NoDup (SRFD.range lo count).
Proof.
  assert (Hin : forall c lo x, In x (SRFD.range lo c) -> lo <= x).
  { induction c as [|c IH]; intros lo x Hx; [destruct Hx|].
    cbn [SRFD.range] in Hx. destruct Hx as [<-|Hx]; [lia|]. apply IH in Hx. lia. }
  induction count as [|c IH]; intros lo; cbn [SRFD.range]; constructor.
  - intros H. apply Hin in H. lia.
  - apply IH.
Qed.


(** A subset that is neither empty nor everything has a bitmap from 1
    to [2^n - 2]. *)
Lemma bitmap_proper n k a :
  (0 < k)%nat -> Z.of_nat k < n -> k_subset n k a ->
  1 <= SRFD.bitmap a <= 2 ^ n - 2.
Proof.
  intros Hk Hn (Hlen & Hs & Hb).
  assert (Hpos : Forall (fun x => 0 <= x) a).
  { eapply Forall_impl; [|exact Hb]. cbn. intros; lia. }
  pose proof (bitmap_below n a ltac:(lia) Hb) as Hlow.
  assert (Hne0 : SRFD.bitmap a <> 0).
  { destruct a as [|x a]; [cbn in Hlen; lia|].
    intros E. pose proof (bitmap_testbit (x :: a) x) as Hx.
    rewrite E, Z.bits_0 in Hx. cbn [existsb] in Hx. rewrite Z.eqb_refl in Hx.
    apply Forall_inv in Hpos. specialize (Hx Hpos). cbn in Hx.
    discriminate Hx. constructor; [exact Hpos|]. apply Forall_inv_tail in Hb.
    eapply Forall_impl; [|exact Hb]. cbn. intros; lia. }
  assert (Hmiss : exists i, 0 <= i < n /\ ~ In i a).
  { destruct (existsb (fun i => negb (existsb (Z.eqb i) a)) (SRFD.range 0 (Z.to_nat n))) eqn:E.
    - apply existsb_exists in E. destruct E as (i & Hi & Hni).
      exists i. apply range_In in Hi. split; [lia|].
      intros Hin. apply negb_true_iff in Hni.
      assert (existsb (Z.eqb i) a = true) as Ht
          by (apply existsb_exists; exists i; split; [exact Hin|apply Z.eqb_refl]).
      congruence.
    - exfalso.
      assert (Hincl : incl (SRFD.range 0 (Z.to_nat n)) a).
      { intros i Hi.
        assert (Hf : negb (existsb (Z.eqb i) a) = false).
        { destruct (negb (existsb (Z.eqb i) a)) eqn:Hneg; [|reflexivity].
          rewrite <- E. symmetry. apply existsb_exists. exists i. split; assumption. }
        apply negb_false_iff in Hf. apply existsb_exists in Hf.
        destruct Hf as (y & Hy & Hiy). apply Z.eqb_eq in Hiy. now subst y. }
      apply (NoDup_incl_length (range_NoDup _ 0)) in Hincl.
      rewrite range_length in Hincl. lia. }
  destruct Hmiss as (i & Hi & Hni).
  assert (Hne1 : SRFD.bitmap a <> 2 ^ n - 1).
  { intros E. pose proof (bitmap_testbit a i ltac:(lia) Hpos) as Hx.
    rewrite E in Hx. replace (2 ^ n - 1) with (Z.ones n) in Hx
      by (rewrite Z.ones_equiv; lia).
    rewrite Z.ones_spec_low in Hx by lia.
    symmetry in Hx. apply existsb_exists in Hx. destruct Hx as (y & Hy & Hiy).
    apply Z.eqb_eq in Hiy. subst y. contradiction. }
  lia.
Qed.

Lemma rev_snoc {A} (s : list A) (x : A) : rev (s ++ [x]) = x :: rev s.
Proof. now rewrite rev_app_distr. Qed.

Lemma colex_top n k s :
  In s (colex n (S k)) -> exists x t, rev s = x :: t /\ x < Z.of_nat n.
Proof.
  intros Hs. apply colex_subsets in Hs. destruct Hs as (Hlen & _ & Hb).
  destruct (rev s) as [|x t] eqn:E.
  - apply (f_equal (@List.length Z)) in E. rewrite length_rev in E. cbn in E. lia.
  - exists x, t. split; [reflexivity|].
    rewrite Forall_forall in Hb. apply Hb. apply in_rev. rewrite E. now left.
Qed.

Lemma colex_sorted_words n :
  forall k, StronglySorted (fun a b => lex_lt (rev a) (rev b) = true) (colex n k).
Proof.
  induction n as [|n IH]; intros k; destruct k as [|k];
    try (repeat constructor; fail).
  cbn [colex]. apply sorted_app.
  - apply IH.
  - apply (sorted_map (fun a b => lex_lt (rev a) (rev b) = true)); [apply IH|].
    intros x y _ _ Hlt. rewrite !rev_snoc. cbn [lex_lt].
    rewrite Z.ltb_irrefl, Z.eqb_refl. exact Hlt.
  - intros x y Hx Hy. apply in_map_iff in Hy. destruct Hy as (s & <- & Hs).
    rewrite rev_snoc. apply colex_top in Hx. destruct Hx as (h & t & -> & Hh).
    cbn [lex_lt]. apply Z.ltb_lt in Hh. now rewrite Hh.
Qed.

(** C7.  For at most 29 leaves and a size [k] from 1 to [n - 1], the
    arrays that [Subset_CCP] hands to [Is_Cluster], [nChoosek n k] of
    them, each made from the one before by [ksub_next], are the subsets
    of size [k] of the [n] leaves, every one exactly once.  They come in
    the increasing order of their bitmaps read as integers (leaf [i] is
    bit [i]), every bitmap lies between 1 and [2^n - 2], and this is the
    lexicographic order of the subsets read from their highest leaf
    down (co-lexicographic order), not that of the increasing lists.
    (The bound is the one of the 32-bit products of [nChoosek].) *)
Theorem C7_subsets_in_bitmap_order :
  forall n k,
    n <= 29 ->
    1 <= k <= n - 1 ->
    let produced := SRFD.Subset_CCP_inputs n k (SRFD.nChoosek n k) in
    (forall a, In a produced <-> k_subset n (Z.to_nat k) a)
    /\ NoDup produced
    /\ StronglySorted (fun a b => lex_lt (rev a) (rev b) = true) produced
    /\ StronglySorted (fun a b => SRFD.bitmap a < SRFD.bitmap b) produced
    /\ Forall (fun a => 1 <= SRFD.bitmap a <= 2 ^ n - 2) produced.
Proof.
  intros n k Hn Hk produced.
  assert (E : produced = colex (Z.to_nat n) (Z.to_nat k)).
  { unfold produced.
    replace n with (Z.of_nat (Z.to_nat n)) at 1 2 by lia.
    replace k with (Z.of_nat (Z.to_nat k)) at 1 2 by lia.
    rewrite nChoosek_count by lia. unfold subset_count.
    destruct (Z.to_nat k) as [|k'] eqn:Ek; [lia|].
    apply Subset_CCP_inputs_colex. lia. }
  assert (Hin : forall a, In a produced <-> k_subset n (Z.to_nat k) a).
  { intros a. rewrite E, colex_subsets. rewrite Z2Nat.id by lia. reflexivity. }
  split; [exact Hin|]. rewrite E. split; [|split; [|split]].
  - apply (sorted_NoDup (fun a b => SRFD.bitmap a < SRFD.bitmap b)).
    + intros x. lia.
    + apply colex_sorted.
  - apply colex_sorted_words.
  - apply colex_sorted.
  - rewrite <- E. apply Forall_forall. intros a Ha. apply Hin in Ha.
    apply (bitmap_proper n (Z.to_nat k)); [lia|lia|exact Ha].
Qed.

Lemma C7_subsets_in_bitmap_order_witness :
  4 <= 29 /\ 1 <= 2 <= 4 - 1
  /\ SRFD.Subset_CCP_inputs 4 2 (SRFD.nChoosek 4 2)
     = [[0; 1]; [0; 2]; [1; 2]; [0; 3]; [1; 3]; [2; 3]]
  /\ map SRFD.bitmap (SRFD.Subset_CCP_inputs 4 2 (SRFD.nChoosek 4 2))
     = [3; 5; 6; 9; 10; 12]
  /\ NoDup (SRFD.Subset_CCP_inputs 4 2 (SRFD.nChoosek 4 2)).
Proof.
  split; [lia|]. split; [lia|]. split; [reflexivity|]. split; [reflexivity|].
  exact (proj1 (proj2 (C7_subsets_in_bitmap_order 4 2 ltac:(lia) ltac:(lia)))).
Defined.

(** C7 as stated fails for the order: compared by their first
    difference, as increasing lists of leaves, the subsets do not come
    in lexicographic order.  Of the subsets of size 2 of 4 leaves,
    [ksub_next] makes [1; 2] before [0; 3]. *)
Lemma C7_counterexample_not_lexicographic :
  SRFD.Subset_CCP_inputs 4 2 (SRFD.nChoosek 4 2)
  = [[0; 1]; [0; 2]; [1; 2]; [0; 3]; [1; 3]; [2; 3]]
  /\ SRFD.ksub_next 4 2 [1; 2] = [0; 3]
  /\ lex_lt [1; 2] [0; 3] = false
  /\ lex_lt [0; 3] [1; 2] = true
  /\ ~ StronglySorted (fun a b => lex_lt a b = true)
                      (SRFD.Subset_CCP_inputs 4 2 (SRFD.nChoosek 4 2)).
Proof.
  split; [reflexivity|]. split; [reflexivity|].
  split; [reflexivity|]. split; [reflexivity|].
  intros H. change (SRFD.Subset_CCP_inputs 4 2 (SRFD.nChoosek 4 2))
    with [[0; 1]; [0; 2]; [1; 2]; [0; 3]; [1; 3]; [2; 3]] in H.
  apply StronglySorted_inv in H. destruct H as [H _].
  apply StronglySorted_inv in H. destruct H as [H _].
  apply StronglySorted_inv in H. destruct H as [_ H].
  apply Forall_inv in H. discriminate H.
Qed.

(** ** The order of the reticulations by level *)

Section LevelOrder.
Variable node_type : Z -> Z.
Variable child_array : Z -> list Z.
Variable rank : Z -> nat.
Hypothesis Hranked : ranked child_array rank.
Hypothesis Hcell : node_type (-2) <> RET.

Lemma Is_Tree_Component_total gas :
  forall v, (rank v < gas)%nat ->
  Is_Tree_Component node_type child_array gas v = Some 0
  \/ Is_Tree_Component node_type child_array gas v = Some 1.
Proof.
  induction gas as [|gas IH]; intros v Hv; [lia|].
  cbn [Is_Tree_Component].
  assert (Hc : forall c, In c (child_array v) -> (rank c < gas)%nat).
  { intros c Hin. apply Hranked in Hin. lia. }
  match goal with
  | |- ?F (child_array v) 0 = _ \/ _ =>
      enough (H : forall cs res,
                 res = 0 \/ res = 1 ->
                 (forall c, In c cs -> (rank c < gas)%nat) ->
                 F cs res = Some 0 \/ F cs res = Some 1)
        by (apply H; [left; reflexivity|exact Hc])
  end.
  clear Hc. induction cs as [|c cs IHcs]; intros res Hres Hc.
  - destruct Hres as [->| ->]; [left|right]; reflexivity.
  - destruct (node_type c =? LEAVE) eqn:EL.
    { apply IHcs; [exact Hres|]. intros x Hx. apply Hc. now right. }
    destruct (node_type c =? RET) eqn:ER; [right; reflexivity|].
    destruct (IH c (Hc c (or_introl eq_refl))) as [E|E]; rewrite E.
    + cbn [Z.eqb]. apply IHcs; [left; reflexivity|].
      intros x Hx. apply Hc. now right.
    + right. reflexivity.
Qed.

Lemma Is_Tree_Component_S gas v :
  Is_Tree_Component node_type child_array (S gas) v
  = Is_Tree_Component_loop node_type (Is_Tree_Component node_type child_array gas)
                           (child_array v) 0.
Proof.
  cbn [Is_Tree_Component].
  match goal with
  | |- ?F (child_array v) 0 = _ =>
      enough (H : forall cs res,
                 F cs res
                 = Is_Tree_Component_loop node_type
                     (Is_Tree_Component node_type child_array gas) cs res)
        by apply H
  end.
  induction cs as [|c cs IH]; intros res; [reflexivity|].
  cbn [Is_Tree_Component_loop].
  destruct (node_type c =? LEAVE); [apply IH|].
  destruct (node_type c =? RET); [reflexivity|].
  destruct (Is_Tree_Component node_type child_array gas c) as [r|]; [|reflexivity].
  destruct (r =? 1); [reflexivity|apply IH].
Qed.

Lemma Count_Ret_Child_S gas orig v cfs :
  Count_Ret_Child node_type child_array (S gas) orig v cfs
  = Count_Ret_Child_loop node_type orig
      (Count_Ret_Child node_type child_array gas orig) (child_array v) cfs.
Proof.
  cbn [Count_Ret_Child].
  match goal with
  | |- ?F (child_array v) cfs = _ =>
      enough (H : forall cs cfs,
                 F cs cfs
                 = Count_Ret_Child_loop node_type orig
                     (Count_Ret_Child node_type child_array gas orig) cs cfs)
        by apply H
  end.
  clear cfs. induction cs as [|c cs IH]; intros cfs; [reflexivity|].
  cbn [Count_Ret_Child_loop]. destruct cfs as [[count flag] size].
  destruct (node_type c =? LEAVE); [apply IH|].
  destruct (node_type c =? RET); [apply IH|].
  destruct (Count_Ret_Child node_type child_array gas orig c (count, flag, size + 1));
    [apply IH|reflexivity].
Qed.

Lemma Is_In_absent x l : ~ In x l -> Is_In x l = -1.
Proof.
  induction l as [|y l IH]; intros H; [reflexivity|].
  cbn [Is_In]. destruct (Z.eqb_spec x y) as [->|Hne].
  - exfalso. apply H. now left.
  - apply IH. intros Hin. apply H. now right.
Qed.

(** [Count_Ret_Child] returns when the walk fits in [gas]; [count]
    grows when [Is_Tree_Component] answers 1; and [flag] grows with
    [count] when no reticulation below is left in [orig_rnodes]. *)
Lemma Count_Ret_Child_spec gas orig :
  forall v c0 f0 s0,
    (rank v < gas)%nat ->
    exists c1 f1 s1,
      Count_Ret_Child node_type child_array gas orig v (c0, f0, s0) = Some (c1, f1, s1)
      /\ c0 <= c1
      /\ (Is_Tree_Component node_type child_array gas v = Some 1 -> c0 < c1)
      /\ ((forall x, node_type x = RET -> (rank x < rank v)%nat -> Is_In x orig = -1) ->
          c1 - c0 = f1 - f0).
Proof.
  induction gas as [|gas IH]; intros v c0 f0 s0 Hv; [lia|].
  rewrite Count_Ret_Child_S, Is_Tree_Component_S.
  assert (Hc : forall c, In c (child_array v) -> (rank c < gas)%nat /\ (rank c < rank v)%nat).
  { intros c Hin. apply Hranked in Hin. lia. }
  enough (H : forall cs,
             (forall c, In c cs -> (rank c < gas)%nat /\ (rank c < rank v)%nat) ->
             forall c0 f0 s0 res,
             exists c1 f1 s1,
               Count_Ret_Child_loop node_type orig
                 (Count_Ret_Child node_type child_array gas orig) cs (c0, f0, s0)
               = Some (c1, f1, s1)
               /\ c0 <= c1
               /\ (Is_Tree_Component_loop node_type
                     (Is_Tree_Component node_type child_array gas) cs res = Some 1 ->
                   res <> 1 -> c0 < c1)
               /\ ((forall x, node_type x = RET -> (rank x < rank v)%nat ->
                              Is_In x orig = -1) ->
                   c1 - c0 = f1 - f0)).
  { destruct (H (child_array v) Hc c0 f0 s0 0) as (c1 & f1 & s1 & E & Hle & Hitc & Hfl).
    exists c1, f1, s1. split; [exact E|]. split; [exact Hle|]. split; [|exact Hfl].
    intros E1. apply Hitc; [exact E1|lia]. }
  clear c0 f0 s0 Hc.
  induction cs as [|c cs IHcs]; intros Hc c0 f0 s0 res.
  - exists c0, f0, s0. cbn. split; [reflexivity|]. split; [lia|]. split; [|lia].
    intros E Hne. injection E as E. contradiction.
  - assert (Hcs : forall x, In x cs -> (rank x < gas)%nat /\ (rank x < rank v)%nat).
    { intros x Hx. apply Hc. now right. }
    destruct (Hc c (or_introl eq_refl)) as [Hcg Hcv].
    cbn [Count_Ret_Child_loop Is_Tree_Component_loop].
    destruct (node_type c =? LEAVE) eqn:EL.
    { destruct (IHcs Hcs c0 f0 (s0 + 1) res) as (c1 & f1 & s1 & E & Hle & Hitc & Hfl).
      exists c1, f1, s1. repeat split; assumption. }
    destruct (Z.eqb_spec (node_type c) RET) as [ER|ER].
    { destruct (IHcs Hcs (c0 + 1) (if Is_In c orig =? -1 then f0 + 1 else f0) s0 res)
        as (c1 & f1 & s1 & E & Hle & _ & Hfl).
      exists c1, f1, s1. split; [exact E|]. split; [lia|]. split; [intros; lia|].
      intros Hmin. specialize (Hfl Hmin). rewrite (Hmin c ER Hcv) in Hfl.
      cbn [Z.eqb Pos.eqb] in Hfl. lia. }
    destruct (IH c c0 f0 (s0 + 1) Hcg) as (c' & f' & s' & E' & Hle' & Hitc' & Hfl').
    rewrite E'.
    assert (Hr : exists r, Is_Tree_Component node_type child_array gas c = Some r
                           /\ (r = 0 \/ r = 1)).
    { destruct (Is_Tree_Component_total gas c Hcg) as [E|E]; eauto. }
    destruct Hr as (r & Er & Hr). rewrite Er.
    destruct (IHcs Hcs c' f' s' r) as (c1 & f1 & s1 & E & Hle & Hitc & Hfl).
    exists c1, f1, s1. split; [exact E|]. split; [lia|]. split.
    + intros E1 _. destruct Hr as [-> | ->].
      * cbn [Z.eqb] in E1. specialize (Hitc E1). lia.
      * specialize (Hitc' Er). lia.
    + intros Hmin. specialize (Hfl Hmin).
      assert (Hminc : forall x, node_type x = RET -> (rank x < rank c)%nat ->
                                Is_In x orig = -1).
      { intros x Hx Hlt. apply Hmin; [exact Hx|lia]. }
      specialize (Hfl' Hminc). lia.
Qed.

Lemma Is_Empty_cases orig :
  (Is_Empty orig = 1 /\ unresolved orig = 0%nat)
  \/ (Is_Empty orig = 0 /\ (0 < unresolved orig)%nat).
Proof.
  unfold unresolved. induction orig as [|x orig IH]; [left; split; reflexivity|].
  cbn [Is_Empty filter]. destruct (negb (x =? -2)).
  - right. split; [reflexivity|]. cbn [List.length]. lia.
  - exact IH.
Qed.

Lemma mark_done_le o : forall i, (unresolved (mark_done o i) <= unresolved o)%nat.
Proof.
  unfold unresolved. induction o as [|x o IH]; intros i; [destruct i; cbn; lia|].
  destruct i as [|i]; cbn [mark_done filter].
  - change (negb (-2 =? -2)) with false. cbn iota.
    destruct (negb (x =? -2)); cbn [List.length]; lia.
  - specialize (IH i). destruct (negb (x =? -2)); cbn [List.length]; lia.
Qed.

Lemma mark_done_lt o : forall i x,
  nth_error o i = Some x -> x <> -2 ->
  (unresolved (mark_done o i) < unresolved o)%nat.
Proof.
  unfold unresolved. induction o as [|y o IH]; intros i x Hi Hx; [destruct i; discriminate|].
  destruct i as [|i]; cbn [mark_done filter nth_error] in *.
  - injection Hi as ->. change (negb (-2 =? -2)) with false. cbn iota.
    destruct (Z.eqb_spec x (-2)) as [E|_]; [contradiction|]. cbn [negb List.length]. lia.
  - specialize (IH i x Hi Hx). destruct (negb (y =? -2)); cbn [List.length]; lia.
Qed.

Lemma mark_done_In o : forall i r, In r (mark_done o i) -> r = -2 \/ In r o.
Proof.
  induction o as [|y o IH]; intros i r Hr; [destruct i; destruct Hr|].
  destruct i as [|i]; cbn [mark_done] in Hr; destruct Hr as [<-|Hr].
  - now left.
  - right. now right.
  - right. now left.
  - destruct (IH i r Hr) as [E|E]; [now left|right; now right].
Qed.

Lemma marks_le (sel : list temp_node) :
  forall o, (unresolved (fold_left (fun o t => mark_done o (index t)) sel o)
             <= unresolved o)%nat.
Proof.
  induction sel as [|t sel IH]; intros o; cbn [fold_left]; [lia|].
  specialize (IH (mark_done o (index t))). pose proof (mark_done_le o (index t)). lia.
Qed.

Lemma marks_In (sel : list temp_node) :
  forall o r, In r (fold_left (fun o t => mark_done o (index t)) sel o) ->
              r = -2 \/ In r o.
Proof.
  induction sel as [|t sel IH]; intros o r Hr; cbn [fold_left] in Hr; [now right|].
  destruct (IH _ _ Hr) as [E|E]; [now left|]. exact (mark_done_In _ _ _ E).
Qed.

Lemma tnode_insert_In x l t : In t (tnode_insert x l) <-> t = x \/ In t l.
Proof.
  induction l as [|y l IH]; cbn [tnode_insert In]; [intuition congruence|].
  destruct (value y >=? value x); cbn [In]; [rewrite IH|]; intuition congruence.
Qed.

Lemma tnode_sort_In l t : In t (tnode_sort l) <-> In t l.
Proof.
  unfold tnode_sort.
  enough (H : forall acc, In t (fold_left (fun acc x => tnode_insert x acc) l acc)
                          <-> In t l \/ In t acc).
  { rewrite H. cbn [In]. tauto. }
  induction l as [|x l IH]; intros acc; cbn [fold_left In]; [tauto|].
  rewrite IH, tnode_insert_In. intuition congruence.
Qed.

Lemma level_leaves_spec orig :
  List.length (fst (level_leaves node_type child_array orig)) = List.length orig
  /\ forall r, In r (fst (level_leaves node_type child_array orig)) ->
               r = -2 \/ In r orig.
Proof.
  induction orig as [|x orig [IHl IHi]]; [split; [reflexivity|intros r []]|].
  cbn [level_leaves].
  destruct (level_leaves node_type child_array orig) as [orig' out] eqn:E.
  cbn [fst] in IHl, IHi.
  assert (Hrest : forall r, In r orig' -> r = -2 \/ In r (x :: orig)).
  { intros r Hr. destruct (IHi r Hr); [now left|right; now right]. }
  destruct (x =? -2); [|destruct (has_nonleaf node_type (child_array x) =? 0)];
    cbn [fst List.length In]; (split; [lia|]); intros r [<-|Hr]; auto;
    right; now left.
Qed.

Lemma level_trees_spec gas orig :
  (forall r, In r orig -> r <> -2 -> (rank r < gas)%nat) ->
  exists orig' out,
    level_trees node_type child_array gas orig = Some (orig', out)
    /\ List.length orig' = List.length orig
    /\ above_ret node_type child_array rank gas orig'.
Proof.
  induction orig as [|x orig IH]; intros Hb.
  - exists [], []. split; [reflexivity|]. split; [reflexivity|]. intros r [].
  - destruct IH as (orig' & out & E & Hl & Hinv).
    { intros r Hr. apply Hb. now right. }
    cbn [level_trees]. rewrite E.
    destruct (Z.eqb_spec x (-2)) as [Ex|Ex].
    { exists (x :: orig'), out. split; [reflexivity|]. split; [cbn; lia|].
      intros r [<-|Hr] Hne; [contradiction|]. now apply Hinv. }
    pose proof (Hb x (or_introl eq_refl) Ex) as Hx.
    destruct (Is_Tree_Component_total gas x Hx) as [E0|E1].
    + rewrite E0. cbn [Z.eqb]. exists (-2 :: orig'), (x :: out).
      split; [reflexivity|]. split; [cbn; lia|].
      intros r [<-|Hr] Hne; [contradiction|]. now apply Hinv.
    + rewrite E1. cbn [Z.eqb Pos.eqb]. exists (x :: orig'), out.
      split; [reflexivity|]. split; [cbn; lia|].
      intros r [<-|Hr] Hne; [split; assumption|]. now apply Hinv.
Qed.

Lemma level_collect_spec gas orig :
  forall cells i,
    (forall r, In r cells -> r <> -2 -> (rank r < gas)%nat) ->
    (forall j x, nth_error cells j = Some x -> nth_error orig (i + j) = Some x) ->
    exists sel,
      level_collect node_type child_array gas orig i cells = Some sel
      /\ (forall t, In t sel ->
                    nth_error orig (index t) = Some (pnode t) /\ pnode t <> -2)
      /\ (forall r c f s,
            In r cells -> r <> -2 ->
            Count_Ret_Child node_type child_array gas orig r (0, 0, 0) = Some (c, f, s) ->
            0 < f -> f = c -> sel <> []).
Proof.
  induction cells as [|x cells IH]; intros i Hb Hnth.
  - exists []. split; [reflexivity|]. split; [intros t []|]. intros r c f s [].
  - destruct (IH (S i)) as (sel & E & Hsel & Hne).
    { intros r Hr. apply Hb. now right. }
    { intros j y Hj. rewrite Nat.add_succ_comm. apply Hnth. exact Hj. }
    cbn [level_collect]. rewrite E.
    destruct (Z.eqb_spec x (-2)) as [Ex|Ex].
    { exists sel. split; [reflexivity|]. split; [exact Hsel|].
      intros r c f s [<-|Hr] Hr2; [contradiction|]. now apply (Hne r c f s). }
    pose proof (Hb x (or_introl eq_refl) Ex) as Hx.
    destruct (Count_Ret_Child_spec gas orig x 0 0 0 Hx) as (c1 & f1 & s1 & Ec & _).
    rewrite Ec.
    destruct ((f1 >? 0) && (f1 =? c1)) eqn:Et.
    + exists (TN x s1 i :: sel). split; [reflexivity|]. split.
      * intros t [<-|Ht]; [|now apply Hsel]. cbn [index pnode].
        split; [|exact Ex]. rewrite <- (Nat.add_0_r i). apply Hnth. reflexivity.
      * intros; discriminate.
    + exists sel. split; [reflexivity|]. split; [exact Hsel|].
      intros r c f s [<-|Hr] Hr2 Hcount Hpos Heq; [|now apply (Hne r c f s)].
      rewrite Ec in Hcount. injection Hcount as -> -> ->.
      apply andb_false_iff in Et. destruct Et as [Et|Et].
      * rewrite Z.gtb_ltb in Et. apply Z.ltb_ge in Et. lia.
      * apply Z.eqb_neq in Et. contradiction.
Qed.

Lemma least_rank (l : list Z) :
  l <> [] -> exists r, In r l /\ forall r', In r' l -> (rank r <= rank r')%nat.
Proof.
  induction l as [|x l IH]; intros Hne; [contradiction|].
  destruct l as [|y l].
  - exists x. split; [now left|]. intros r' [<-|[]]. lia.
  - destruct IH as (r & Hr & Hmin); [discriminate|].
    destruct (Nat.le_gt_cases (rank x) (rank r)) as [Hle|Hgt].
    + exists x. split; [now left|]. intros r' [<-|Hr']; [lia|].
      specialize (Hmin r' Hr'). lia.
    + exists r. split; [now right|]. intros r' [<-|Hr']; [lia|]. now apply Hmin.
Qed.

Lemma Is_In_member x l : Is_In x l <> -1 -> In x l.
Proof.
  induction l as [|y l IH]; cbn [Is_In]; [congruence|].
  destruct (Z.eqb_spec x y) as [->|Hne]; [now left|]. intros H. right. now apply IH.
Qed.

(** With a rank, a round of the third rule moves a reticulation as long
    as one is left. *)
Lemma level_round_progress gas orig :
  above_ret node_type child_array rank gas orig -> Is_Empty orig = 0 ->
  exists orig' moved,
    level_round node_type child_array gas orig = Some (orig', moved)
    /\ (unresolved orig' < unresolved orig)%nat
    /\ above_ret node_type child_array rank gas orig'.
Proof.
  intros Hinv Hempty. unfold level_round.
  destruct (level_collect_spec gas orig orig 0) as (sel & E & Hsel & Hne).
  { intros r Hr Hr2. now apply Hinv. }
  { intros j x Hj. exact Hj. }
  rewrite E.
  assert (Hsel_ne : sel <> []).
  { destruct (least_rank (filter (fun r => negb (r =? -2)) orig)) as (r & Hr & Hmin).
    { destruct (Is_Empty_cases orig) as [[H _]|[_ H]]; [congruence|].
      unfold unresolved in H. intros E0. rewrite E0 in H. cbn in H. lia. }
    apply filter_In in Hr. destruct Hr as [Hr Hr2].
    apply negb_true_iff, Z.eqb_neq in Hr2.
    destruct (Hinv r Hr Hr2) as [Hg Hitc].
    destruct (Count_Ret_Child_spec gas orig r 0 0 0 Hg)
      as (c1 & f1 & s1 & Ec & _ & Hc & Hf).
    specialize (Hc Hitc).
    assert (Hgone : forall x, node_type x = RET -> (rank x < rank r)%nat ->
                              Is_In x orig = -1).
    { intros x Hx Hlt. destruct (Z.eq_dec (Is_In x orig) (-1)) as [Ei|Ei]; [exact Ei|].
      exfalso. apply Is_In_member in Ei.
      assert (Hx2 : x <> -2) by (intros ->; contradiction).
      assert (Hlive : In x (filter (fun r => negb (r =? -2)) orig)).
      { apply filter_In. split; [exact Ei|]. now apply negb_true_iff, Z.eqb_neq. }
      specialize (Hmin x Hlive). lia. }
    specialize (Hf Hgone).
    apply (Hne r c1 f1 s1 Hr Hr2 Ec); lia. }
  assert (Hsorted : forall t, In t (tnode_sort sel) ->
                              nth_error orig (index t) = Some (pnode t) /\ pnode t <> -2).
  { intros t Ht. apply Hsel. now apply tnode_sort_In. }
  destruct (tnode_sort sel) as [|t ts] eqn:Es.
  { destruct sel as [|t0 sel0]; [contradiction|].
    assert (H : In t0 (tnode_sort (t0 :: sel0))) by (apply tnode_sort_In; now left).
    rewrite Es in H. destruct H. }
  eexists _, _. split; [reflexivity|]. split.
  - cbn [fold_left]. destruct (Hsorted t (or_introl eq_refl)) as [Hn Hp].
    pose proof (mark_done_lt orig (index t) (pnode t) Hn Hp).
    pose proof (marks_le ts (mark_done orig (index t))). lia.
  - intros r Hr Hr2. apply marks_In in Hr. destruct Hr as [->|Hr]; [contradiction|].
    now apply Hinv.
Qed.

Lemma level_loop_total gas :
  forall fuel orig out,
    (unresolved orig <= fuel)%nat -> above_ret node_type child_array rank gas orig ->
    exists res, level_loop node_type child_array fuel gas orig out = Some res.
Proof.
  induction fuel as [|fuel IH]; intros orig out Hm Hinv.
  - cbn [level_loop]. destruct (Is_Empty_cases orig) as [[E _]|[_ H]]; [|lia].
    rewrite E. cbn. eauto.
  - cbn [level_loop]. destruct (Is_Empty_cases orig) as [[E _]|[E _]]; rewrite E.
    + cbn. eauto.
    + cbn [Z.eqb].
      destruct (level_round_progress gas orig Hinv E)
        as (orig' & moved & Er & Hlt & Hinv').
      rewrite Er. apply IH; [lia|exact Hinv'].
Qed.

Lemma unresolved_le orig : (unresolved orig <= List.length orig)%nat.
Proof. unfold unresolved. apply filter_length_le. Qed.

Lemma Sort_Rets_By_Level_total gas orig r_nodes :
  (forall r, In r orig -> r <> -2 -> (rank r < gas)%nat) ->
  exists out,
    Sort_Rets_By_Level node_type child_array (List.length orig) gas orig r_nodes
    = Some out.
Proof.
  intros Hb. unfold Sort_Rets_By_Level.
  destruct (level_leaves_spec orig) as [Hl Hi].
  destruct (level_leaves node_type child_array orig) as [orig1 out1].
  cbn [fst] in Hl, Hi.
  destruct (level_trees_spec gas orig1) as (orig2 & out2 & E & Hl2 & Hinv).
  { intros r Hr Hr2. destruct (Hi r Hr) as [->|Hin]; [contradiction|]. now apply Hb. }
  rewrite E.
  destruct (level_loop_total gas (List.length orig) orig2 (out1 ++ out2)) as (res & Er).
  { pose proof (unresolved_le orig2). lia. }
  { exact Hinv. }
  rewrite Er. eauto.
Qed.

End LevelOrder.

(** When a round of the third rule moves nothing, the cells are as they
    were. *)
Lemma level_round_idle node_type child_array gas orig orig' :
  level_round node_type child_array gas orig = Some (orig', []) -> orig' = orig.
Proof.
  unfold level_round.
  destruct (level_collect node_type child_array gas orig 0 orig) as [sel|]; [|discriminate].
  intros H. injection H as H1 H2.
  destruct (tnode_sort sel); [|discriminate]. now subst.
Qed.

Lemma level_loop_stuck node_type child_array gas orig orig' :
  Is_Empty orig = 0 ->
  level_round node_type child_array gas orig = Some (orig', []) ->
  forall fuel out, level_loop node_type child_array fuel gas orig out = None.
Proof.
  intros Hempty Hround. pose proof (level_round_idle _ _ _ _ _ Hround) as ->.
  induction fuel as [|fuel IH]; intros out; cbn [level_loop]; rewrite Hempty; cbn [Z.eqb].
  - reflexivity.
  - rewrite Hround. apply IH.
Qed.

Lemma level_trees_no_gas node_type child_array orig :
  Is_Empty orig = 0 -> level_trees node_type child_array 0 orig = None.
Proof.
  induction orig as [|x orig IH]; cbn [Is_Empty level_trees]; [discriminate|].
  destruct (x =? -2); cbn [negb]; intros H.
  - now rewrite IH.
  - destruct (level_trees node_type child_array 0 orig) as [[o out]|]; reflexivity.
Qed.

(** The function does not return when the first two loops move nothing
    and a round of the third moves nothing either. *)
Lemma Sort_Rets_By_Level_stuck node_type child_array orig r_nodes :
  Is_Empty orig = 0 ->
  level_leaves node_type child_array orig = (orig, []) ->
  (forall gas, level_trees node_type child_array (S gas) orig = Some (orig, [])) ->
  (forall gas, level_round node_type child_array (S gas) orig = Some (orig, [])) ->
  forall fuel gas, Sort_Rets_By_Level node_type child_array fuel gas orig r_nodes = None.
Proof.
  intros Hempty Hleaves Htrees Hround fuel gas. unfold Sort_Rets_By_Level.
  rewrite Hleaves. destruct gas as [|gas].
  - now rewrite level_trees_no_gas.
  - rewrite Htrees.
    now rewrite (level_loop_stuck _ _ _ _ _ Hempty (Hround gas)).
Qed.

(** C4.  On a graph without a directed cycle the level ordering of the
    reticulations returns, after no more rounds of the third rule than
    there are reticulations.  There is no test for a cycle and no error
    for it: when a round of the third rule moves no reticulation while
    reticulations are left, the cells are unchanged, the same round
    comes again, and the loop does not return. *)
Theorem C4_level_order_has_no_cycle_check :
  forall (node_type : Z -> Z) (child_array : Z -> list Z),
    (forall rank gas orig_rnodes r_nodes,
        ranked child_array rank ->
        node_type (-2) <> RET ->
        (forall r, In r orig_rnodes -> r <> -2 -> (rank r < gas)%nat) ->
        exists out,
          Sort_Rets_By_Level node_type child_array (List.length orig_rnodes) gas
                             orig_rnodes r_nodes = Some out)
    /\ (forall gas orig_rnodes orig' out,
           Is_Empty orig_rnodes = 0 ->
           level_round node_type child_array gas orig_rnodes = Some (orig', []) ->
           orig' = orig_rnodes
           /\ forall fuel,
                level_loop node_type child_array fuel gas orig_rnodes out = None).
Proof.
  intros node_type child_array. split.
  - intros rank gas orig r_nodes Hranked Hcell Hgas.
    exact (Sort_Rets_By_Level_total node_type child_array rank Hranked Hcell
                                    gas orig r_nodes Hgas).
  - intros gas orig orig' out Hempty Hround. split.
    + exact (level_round_idle _ _ _ _ _ Hround).
    + intros fuel. exact (level_loop_stuck _ _ _ _ _ Hempty Hround fuel out).
Qed.

Lemma level_rank_ranked : ranked level_children level_rank.
Proof.
  intros v c. unfold level_children, level_rank.
  destruct (Z.eqb_spec v 7) as [->|H7]; [cbn; intuition (subst; cbn; lia)|].
  destruct (Z.eqb_spec v 5) as [->|H5]; [cbn; intuition (subst; cbn; lia)|].
  destruct (Z.eqb_spec v 6) as [->|H6]; [cbn; intuition (subst; cbn; lia)|].
  destruct (Z.eqb_spec v 4) as [->|H4]; [cbn; intuition (subst; cbn; lia)|].
  destruct (Z.eqb_spec v 3) as [->|H3]; [cbn; intuition (subst; cbn; lia)|].
  intros [].
Qed.

Lemma C4_level_order_has_no_cycle_check_witness :
  (exists out, Sort_Rets_By_Level level_types level_children 2 5 [3; 4] [3; 4] = Some out)
  /\ Sort_Rets_By_Level level_types level_children 2 5 [3; 4] [3; 4] = Some [3; 4]
  /\ Sort_Rets_By_Level level_types level_children 2 5 [4; 3] [4; 3] = Some [3; 4]
  /\ Is_Empty [3; 4] = 0
  /\ level_round level_types cyclic_children 5 [3; 4] = Some ([3; 4], [])
  /\ forall fuel, level_loop level_types cyclic_children fuel 5 [3; 4] [] = None.
Proof.
  split.
  { apply (proj1 (C4_level_order_has_no_cycle_check level_types level_children)
                 level_rank 5%nat [3; 4] [3; 4]).
    - exact level_rank_ranked.
    - vm_compute. discriminate.
    - intros r [<-|[<-|[]]] _; vm_compute; lia. }
  split; [reflexivity|]. split; [reflexivity|]. split; [reflexivity|].
  split; [reflexivity|].
  apply (proj2 (C4_level_order_has_no_cycle_check level_types cyclic_children)
               5%nat [3; 4] [3; 4] []); reflexivity.
Defined.

(** C4 as stated fails on a graph with a cycle: the network file passes
    the checks of [main] (one root, no node with several parents and
    several children), the third rule never moves one of the two
    reticulations, and neither [Sort_Rets_By_Level] nor [main] returns,
    with an error or otherwise, whatever the bounds. *)
Lemma C4_counterexample_cycle :
  match CCP_main.check_input 0 ccp_argv ["a"; "b"]%string cyclic_network with
  | CCP_main.Proceed _ _ node_type _ _ _ _ _ =>
      map node_type [0; 1; 2; 3; 4; 5] = [LEAVE; LEAVE; LEAVE; ROOT; RET; RET]
  | CCP_main.Exit _ _ => False
  end
  /\ (forall fuel gas,
        Sort_Rets_By_Level level_types cyclic_children fuel gas [3; 4] [3; 4] = None)
  /\ forall fuel,
       CCP_main.main fuel 0 ccp_argv ["a"; "b"]%string cyclic_network = None.
Proof.
  split; [vm_compute; reflexivity|]. split.
  { apply Sort_Rets_By_Level_stuck; try reflexivity; intros gas; reflexivity. }
  intros fuel. unfold CCP_main.main.
  destruct (CCP_main.check_input 0 ccp_argv ["a"; "b"]%string cyclic_network)
    as [code out|ns es nt root n_l il ic out0] eqn:Hc; [vm_compute in Hc; discriminate Hc|].
  vm_compute in Hc. injection Hc as <- <- <- <- <- <- <- <-.
  unfold CCP_main.prepare.
  match goal with
  | |- context [Child_Parent_Inform ?es] =>
      destruct (Child_Parent_Inform es) as [ca pa] eqn:Hcp
  end.
  vm_compute in Hcp. injection Hcp as <- <-.
  erewrite Sort_Rets_By_Level_stuck; [reflexivity| | | |].
  - vm_compute. reflexivity.
  - vm_compute. reflexivity.
  - intros gas. vm_compute. reflexivity.
  - intros gas. vm_compute. reflexivity.
Qed.

(** ** Counting and writing bits *)

Lemma land_even_odd a b : Z.land (2 * a) (2 * b + 1) = 2 * Z.land a b.
Proof.
  apply Z.bits_inj'. intros i Hi. rewrite Z.land_spec.
  destruct (Z.eq_dec i 0) as [->|Hne].
  - rewrite Z.testbit_even_0. rewrite Z.testbit_even_0. reflexivity.
  - replace i with (Z.succ (i - 1)) by lia.
    rewrite !Z.testbit_even_succ, Z.testbit_odd_succ, Z.land_spec by lia. reflexivity.
Qed.

Lemma land_odd_even a : Z.land (2 * a + 1) (2 * a) = 2 * a.
Proof.
  apply Z.bits_inj'. intros i Hi. rewrite Z.land_spec.
  destruct (Z.eq_dec i 0) as [->|Hne].
  - rewrite Z.testbit_even_0. apply andb_false_r.
  - replace i with (Z.succ (i - 1)) by lia.
    rewrite Z.testbit_even_succ, Z.testbit_odd_succ by lia. apply andb_diag.
Qed.

(** [x & (x - 1)] is [x] without its lowest 1 bit. *)
Lemma clear_lowest p :
  exists t, 0 <= t /\ Z.testbit (Z.pos p) t = true
            /\ Z.land (Z.pos p) (Z.pos p - 1) = Z.pos p - 2 ^ t.
Proof.
  induction p as [q IH|q IH|].
  - exists 0. split; [lia|]. split; [reflexivity|].
    rewrite Pos2Z.inj_xI. replace (2 * Z.pos q + 1 - 1) with (2 * Z.pos q) by lia.
    rewrite land_odd_even. cbn. lia.
  - destruct IH as (t & Ht & Hbit & Hland). exists (Z.succ t).
    split; [lia|]. rewrite Pos2Z.inj_xO. split.
    + rewrite Z.testbit_even_succ by lia. exact Hbit.
    + replace (2 * Z.pos q - 1) with (2 * (Z.pos q - 1) + 1) by lia.
      rewrite land_even_odd, Hland, Z.pow_succ_r by lia. lia.
  - exists 0. split; [lia|]. split; reflexivity.
Qed.

Lemma clear_lowest_bits x :
  0 < x ->
  exists t, 0 <= t /\ Z.testbit x t = true
            /\ 0 <= Z.land x (x - 1) < x
            /\ forall i, 0 <= i ->
                         Z.testbit (Z.land x (x - 1)) i
                         = Z.testbit x i && negb (i =? t).
Proof.
  intros Hx. destruct x as [|p|p]; try lia.
  destruct (clear_lowest p) as (t & Ht & Hbit & Hland).
  exists t. split; [exact Ht|]. split; [exact Hbit|].
  assert (Hpow : 0 < 2 ^ t) by (apply Z.pow_pos_nonneg; lia).
  split.
  - split; [apply Z.land_nonneg; lia|]. rewrite Hland. lia.
  - intros i Hi. rewrite Hland.
    assert (Hnc : Z.ldiff (2 ^ t) (Z.pos p) = 0).
    { apply Z.bits_inj'. intros j Hj.
      rewrite Z.ldiff_spec, Z.pow2_bits_eqb, Z.bits_0 by lia.
      destruct (Z.eqb_spec t j) as [<-|_]; [|reflexivity].
      rewrite Hbit. reflexivity. }
    rewrite (Z.sub_nocarry_ldiff _ _ Hnc), Z.ldiff_spec, Z.pow2_bits_eqb by lia.
    now rewrite (Z.eqb_sym t i).
Qed.

Lemma filter_drop_one (f g : Z -> bool) (t : Z) (l : list Z) :
  NoDup l -> In t l -> f t = true ->
  (forall i, In i l -> g i = f i && negb (i =? t)) ->
  len (filter g l) + 1 = len (filter f l).
Proof.
  unfold len. intros Hnd Hin Hft Hg.
  assert (Hout : forall l', ~ In t l' -> (forall i, In i l' -> g i = f i && negb (i =? t)) ->
                            filter g l' = filter f l').
  { induction l' as [|y l' IH]; intros Hni Hg'; [reflexivity|].
    cbn [filter]. rewrite (Hg' y (or_introl eq_refl)).
    destruct (Z.eqb_spec y t) as [->|_]; [exfalso; apply Hni; now left|].
    rewrite andb_true_r, IH; [reflexivity| |].
    - intros H. apply Hni. now right.
    - intros i Hi. apply Hg'. now right. }
  induction l as [|y l IH]; [destruct Hin|].
  apply NoDup_cons_iff in Hnd. destruct Hnd as [Hy Hnd].
  cbn [filter]. rewrite (Hg y (or_introl eq_refl)).
  destruct Hin as [->|Hin].
  - rewrite Z.eqb_refl, Hft, andb_false_r. cbn [List.length].
    rewrite Hout; [lia|exact Hy|]. intros i Hi. apply Hg. now right.
  - destruct (Z.eqb_spec y t) as [->|_]; [contradiction|]. rewrite andb_true_r.
    assert (IH' : (Z.of_nat (List.length (filter g l)) + 1
                   = Z.of_nat (List.length (filter f l)))).
    { apply IH; [exact Hnd|exact Hin|]. intros i Hi. apply Hg. now right. }
    destruct (f y); cbn [List.length]; lia.
Qed.

Lemma bit_above x t : 0 <= x < 2 ^ t -> 0 <= t -> Z.testbit x t = false.
Proof.
  intros Hx Ht. destruct (Z.eq_dec x 0) as [->|Hne]; [apply Z.bits_0|].
  apply Z.bits_above_log2; [lia|]. apply Z.log2_lt_pow2; lia.
Qed.

Lemma bit_count_bounds w x : 0 <= bit_count w x <= Z.of_nat w.
Proof.
  unfold bit_count, len. pose proof (filter_length_le (Z.testbit x) (SRFD.range 0 w)) as H.
  rewrite range_length in H. lia.
Qed.

Lemma bit_count_0 w : bit_count w 0 = 0.
Proof.
  unfold bit_count. replace (filter (Z.testbit 0) (SRFD.range 0 w)) with (@nil Z); [reflexivity|].
  induction (SRFD.range 0 w) as [|i l IH]; [reflexivity|].
  cbn [filter]. rewrite Z.bits_0. exact IH.
Qed.

Lemma bit_count_clear w x :
  0 < x < 2 ^ Z.of_nat w ->
  bit_count w (Z.land x (x - 1)) + 1 = bit_count w x.
Proof.
  intros Hx. destruct (clear_lowest_bits x) as (t & Ht & Hbit & _ & Hbits); [lia|].
  unfold bit_count. apply (filter_drop_one _ _ t).
  - apply range_NoDup.
  - apply range_In. split; [lia|].
    destruct (Z.lt_ge_cases t (Z.of_nat w)) as [H|H]; [lia|].
    assert (Hf : Z.testbit x t = false).
    { apply bit_above; [|exact Ht]. split; [lia|].
      apply Z.lt_le_trans with (2 ^ Z.of_nat w); [lia|].
      apply Z.pow_le_mono_r; lia. }
    congruence.
  - exact Hbit.
  - intros i Hi. apply range_In in Hi. apply Hbits. lia.
Qed.

Lemma pop_loop_count w :
  forall rounds x n,
    0 <= x < 2 ^ Z.of_nat w ->
    bit_count w x <= Z.of_nat rounds ->
    SRFD.pop_loop rounds x n = n + bit_count w x.
Proof.
  induction rounds as [|rounds IH]; intros x n Hx Hc; cbn [SRFD.pop_loop].
  - pose proof (bit_count_bounds w x). lia.
  - destruct (Z.eqb_spec x 0) as [->|Hne]; [rewrite bit_count_0; lia|].
    pose proof (bit_count_clear w x ltac:(lia)) as Hstep.
    destruct (clear_lowest_bits x ltac:(lia)) as (_ & _ & _ & Hr & _).
    rewrite IH; lia.
Qed.

(** X1.  For a 32-bit word, [pop] returns the number of its 1 bits: the
    loop [x = x & (x - 1)] clears one of them in each round, and it has
    stopped by itself after at most 32 rounds. *)
Theorem X1_pop_counts_the_one_bits :
  forall x,
    0 <= x < 2 ^ 32 ->
    SRFD.pop x = bit_count 32 x
    /\ forall rounds, (32 <= rounds)%nat -> SRFD.pop_loop rounds x 0 = bit_count 32 x.
Proof.
  intros x Hx.
  assert (H : forall rounds, (32 <= rounds)%nat ->
                             SRFD.pop_loop rounds x 0 = bit_count 32 x).
  { intros rounds Hr. rewrite (pop_loop_count 32); [lia|exact Hx|].
    pose proof (bit_count_bounds 32 x). lia. }
  split; [|exact H]. apply H. lia.
Qed.

Lemma X1_pop_counts_the_one_bits_witness :
  SRFD.pop 4294967295 = 32 /\ SRFD.pop 0 = 0 /\ SRFD.pop 44 = bit_count 32 44.
Proof.
  split; [reflexivity|]. split; [reflexivity|].
  exact (proj1 (X1_pop_counts_the_one_bits 44 ltac:(lia))).
Defined.

Lemma land_pow2_test x m :
  0 <= m -> (Z.land x (2 ^ m) =? 0) = negb (Z.testbit x m).
Proof.
  intros Hm. destruct (Z.testbit x m) eqn:Hb; cbn [negb].
  - apply Z.eqb_neq. intros E.
    assert (H : Z.testbit (Z.land x (2 ^ m)) m = true).
    { rewrite Z.land_spec, Hb, Z.pow2_bits_eqb, Z.eqb_refl by lia. reflexivity. }
    rewrite E, Z.bits_0 in H. discriminate.
  - apply Z.eqb_eq. apply Z.bits_inj'. intros i Hi.
    rewrite Z.land_spec, Z.pow2_bits_eqb, Z.bits_0 by lia.
    destruct (Z.eqb_spec m i) as [<-|_]; [now rewrite Hb|apply andb_false_r].
Qed.

Lemma bin_digits_bits x0 m :
  0 <= m < 32 ->
  forall steps x j,
    0 <= j ->
    (forall b, 0 <= b < 32 -> Z.testbit x b = Z.testbit x0 (b - j)) ->
    bin_digits steps x (2 ^ m)
    = map (fun i => Z.b2z (Z.testbit x0 (m - i))) (SRFD.range j steps).
Proof.
  intros Hm. induction steps as [|steps IH]; intros x j Hj Hinv; [reflexivity|].
  cbn [bin_digits SRFD.range map]. f_equal.
  - rewrite land_pow2_test by lia. rewrite Hinv by lia.
    destruct (Z.testbit x0 (m - j)); reflexivity.
  - apply IH; [lia|]. intros b Hb.
    rewrite Z.mod_pow2_bits_low, Z.shiftl_spec by lia.
    destruct (Z.eq_dec b 0) as [->|Hne].
    + rewrite !Z.testbit_neg_r by lia. reflexivity.
    + rewrite Hinv by lia. f_equal. lia.
Qed.

Lemma int_to_bin_digit_bits x count :
  1 <= count <= 32 ->
  int_to_bin_digit x count
  = map (fun i => Z.b2z (Z.testbit x (count - 1 - i))) (SRFD.range 0 (Z.to_nat count)).
Proof.
  intros Hc. unfold int_to_bin_digit. rewrite Z.shiftl_1_l.
  apply bin_digits_bits; [lia|lia|]. intros b _. f_equal. lia.
Qed.

Lemma bin_value_snoc l d : bin_value (l ++ [d]) = 2 * bin_value l + d.
Proof. unfold bin_value. rewrite fold_left_app. reflexivity. Qed.

Lemma high_bits_halved x (m : nat) :
  map (fun i => Z.b2z (Z.testbit x (Z.of_nat (S m) - i))) (SRFD.range 0 (S m))
  = map (fun i => Z.b2z (Z.testbit (x / 2) (Z.of_nat m - i))) (SRFD.range 0 (S m)).
Proof.
  apply map_ext_in. intros i Hi. apply range_In in Hi. f_equal.
  change 2 with (2 ^ 1). rewrite <- Z.shiftr_div_pow2, Z.shiftr_spec by lia.
  f_equal. lia.
Qed.

Lemma bin_value_bits (m : nat) :
  forall x,
    bin_value (map (fun i => Z.b2z (Z.testbit x (Z.of_nat m - i))) (SRFD.range 0 (S m)))
    = x mod 2 ^ Z.of_nat (S m).
Proof.
  induction m as [|m IH]; intros x.
  - cbn [SRFD.range map]. unfold bin_value. cbn [fold_left].
    replace (Z.of_nat 0 - 0) with 0 by lia. rewrite Z.bit0_mod.
    change (2 ^ Z.of_nat 1) with 2. lia.
  - rewrite range_snoc, map_app. cbn [map]. rewrite bin_value_snoc.
    rewrite high_bits_halved, IH.
    replace (Z.of_nat (S m) - (0 + Z.of_nat (S m))) with 0 by lia.
    rewrite Z.bit0_mod.
    replace (2 ^ Z.of_nat (S (S m))) with (2 * 2 ^ Z.of_nat (S m))
      by (rewrite (Nat2Z.inj_succ (S m)), Z.pow_succ_r by lia; reflexivity).
    rewrite Z.rem_mul_r; [lia|lia|]. apply Z.pow_pos_nonneg; lia.
Qed.

(** X2.  [int_to_bin_digit] writes [count] cells, for [count] from 1
    to 32: cell [i] holds bit [count - 1 - i] of the argument, the
    highest of these bits first, so that the cells read as a binary
    number give the argument modulo [2^count]; the bits from [count] on
    are dropped. *)
Theorem X2_int_to_bin_digit_writes_the_bits :
  forall x count,
    1 <= count <= 32 ->
    let out := int_to_bin_digit x count in
    len out = count
    /\ (forall i, 0 <= i < count -> rd out i = Z.b2z (Z.testbit x (count - 1 - i)))
    /\ bin_value out = x mod 2 ^ count.
Proof.
  intros x count Hc out. unfold out. rewrite int_to_bin_digit_bits by exact Hc.
  split; [|split].
  - unfold len. rewrite length_map, range_length. lia.
  - intros i Hi. unfold rd. destruct (Z.ltb_spec i 0) as [H|_]; [lia|].
    rewrite (nth_indep _ 0 (Z.b2z (Z.testbit x (count - 1 - 0))))
      by (rewrite length_map, range_length; lia).
    rewrite (map_nth (fun i => Z.b2z (Z.testbit x (count - 1 - i)))).
    f_equal. f_equal. f_equal.
    assert (Hn : forall n lo c, (n < c)%nat -> nth n (SRFD.range lo c) 0 = lo + Z.of_nat n).
    { induction n as [|n IH]; intros lo [|c] Hlt; try lia; cbn [SRFD.range nth]; [lia|].
      rewrite IH by lia. lia. }
    rewrite Hn by lia. lia.
  - destruct (Z.to_nat count) as [|m] eqn:Em; [lia|].
    replace (count - 1) with (Z.of_nat m) by lia.
    rewrite bin_value_bits. f_equal. f_equal. lia.
Qed.

Lemma X2_int_to_bin_digit_writes_the_bits_witness :
  int_to_bin_digit 6 4 = [0; 1; 1; 0]
  /\ int_to_bin_digit 22 4 = [0; 1; 1; 0]
  /\ bin_value (int_to_bin_digit 22 4) = 22 mod 2 ^ 4.
Proof.
  split; [reflexivity|]. split; [reflexivity|].
  exact (proj2 (proj2 (X2_int_to_bin_digit_writes_the_bits 22 4 ltac:(lia)))).
Defined.

Lemma range_shift c : forall lo, SRFD.range (lo + 1) c = map Z.succ (SRFD.range lo c).
Proof.
  induction c as [|c IH]; intros lo; [reflexivity|].
  cbn [SRFD.range map]. rewrite IH. reflexivity.
Qed.

Lemma range_app a : forall lo b,
  SRFD.range lo (a + b) = SRFD.range lo a ++ SRFD.range (lo + Z.of_nat a) b.
Proof.
  induction a as [|a IH]; intros lo b.
  - cbn [SRFD.range app Nat.add]. f_equal. lia.
  - cbn [SRFD.range app Nat.add]. rewrite IH.
    replace (lo + 1 + Z.of_nat a) with (lo + Z.of_nat (S a)) by lia. reflexivity.
Qed.

Lemma ones_of_bits (f : Z -> bool) l :
  len (filter (Z.eqb 1) (map (fun i => Z.b2z (f i)) l)) = len (filter f l).
Proof.
  unfold len. induction l as [|i l IH]; [reflexivity|].
  cbn [map filter]. destruct (f i); cbn [Z.b2z Z.eqb Pos.eqb List.length]; lia.
Qed.

Lemma count_mirrored (m : nat) :
  forall g : Z -> bool,
    len (filter (fun i => g (Z.of_nat m - i)) (SRFD.range 0 (S m)))
    = len (filter g (SRFD.range 0 (S m))).
Proof.
  unfold len. intros g. f_equal. revert g.
  induction m as [|m IH]; intros g.
  - cbn [SRFD.range filter]. replace (Z.of_nat 0 - 0) with 0 by lia. reflexivity.
  - assert (L : List.length (filter (fun i => g (Z.of_nat (S m) - i))
                                    (SRFD.range 0 (S (S m))))
                = Nat.add (if g (Z.of_nat (S m)) then 1%nat else 0%nat)
                          (List.length (filter (fun i => g (Z.of_nat m - i))
                                               (SRFD.range 0 (S m))))).
    { change (SRFD.range 0 (S (S m))) with (0 :: SRFD.range (0 + 1) (S m)).
      rewrite range_shift. cbn [filter].
      replace (Z.of_nat (S m) - 0) with (Z.of_nat (S m)) by lia.
      assert (E : forall l,
                 List.length (filter (fun i => g (Z.of_nat (S m) - i)) (map Z.succ l))
                 = List.length (filter (fun i => g (Z.of_nat m - i)) l)).
      { induction l as [|i l IHl]; [reflexivity|]. cbn [map filter].
        replace (Z.of_nat (S m) - Z.succ i) with (Z.of_nat m - i) by lia.
        destruct (g (Z.of_nat m - i)); cbn [List.length]; lia. }
      destruct (g (Z.of_nat (S m))); cbn [List.length]; rewrite E; lia. }
    assert (R : List.length (filter g (SRFD.range 0 (S (S m))))
                = Nat.add (List.length (filter g (SRFD.range 0 (S m))))
                          (if g (Z.of_nat (S m)) then 1%nat else 0%nat)).
    { rewrite (range_snoc 0 (S m)), filter_app, length_app. cbn [filter].
      replace (0 + Z.of_nat (S m)) with (Z.of_nat (S m)) by lia.
      destruct (g (Z.of_nat (S m))); reflexivity. }
    rewrite L, R, IH. lia.
Qed.

Lemma bit_count_low (n : nat) x :
  (n <= 32)%nat -> 0 <= x < 2 ^ Z.of_nat n -> bit_count n x = bit_count 32 x.
Proof.
  intros Hn Hx. unfold bit_count, len.
  assert (E : SRFD.range 0 32 = SRFD.range 0 (n + (32 - n))) by (f_equal; lia).
  rewrite E, range_app, filter_app, length_app.
  replace (filter (Z.testbit x) (SRFD.range (0 + Z.of_nat n) (32 - n))) with (@nil Z);
    [cbn [List.length]; lia|].
  symmetry.
  assert (H : forall l, (forall i, In i l -> Z.of_nat n <= i) ->
                        filter (Z.testbit x) l = []).
  { induction l as [|i l IH]; intros Hl; [reflexivity|]. cbn [filter].
    rewrite bit_above.
    - apply IH. intros j Hj. apply Hl. now right.
    - split; [lia|]. apply Z.lt_le_trans with (2 ^ Z.of_nat n); [lia|].
      apply Z.pow_le_mono_r; [lia|]. apply Hl. now left.
    - specialize (Hl i (or_introl eq_refl)). lia. }
  apply H. intros i Hi. apply range_In in Hi. lia.
Qed.

(** X3.  For a bitmap [k] below [2^n], the number of cells that
    [int_to_bin_digit] sets to 1 is [pop k]: the loop of the parallel
    [Find_Cluster_Distance] hands [Is_Cluster] a membership array and
    the number of its members. *)
Theorem X3_digits_hold_pop_ones :
  forall k n,
    1 <= n <= 32 -> 0 <= k < 2 ^ n ->
    len (filter (Z.eqb 1) (int_to_bin_digit k n)) = SRFD.pop k.
Proof.
  intros k n Hn Hk.
  assert (Hk32 : 0 <= k < 2 ^ 32).
  { split; [lia|]. apply Z.lt_le_trans with (2 ^ n); [lia|].
    apply Z.pow_le_mono_r; lia. }
  unfold SRFD.pop. rewrite (pop_loop_count 32); [|exact Hk32|].
  2:{ pose proof (bit_count_bounds 32 k). lia. }
  rewrite int_to_bin_digit_bits by exact Hn.
  rewrite (ones_of_bits (fun i => Z.testbit k (n - 1 - i))).
  destruct (Z.to_nat n) as [|m] eqn:Em; [lia|].
  replace (n - 1) with (Z.of_nat m) by lia.
  rewrite (count_mirrored m (Z.testbit k)).
  fold (bit_count (S m) k). rewrite bit_count_low; [lia|lia|].
  replace (Z.of_nat (S m)) with n by lia. exact Hk.
Qed.

Lemma X3_digits_hold_pop_ones_witness :
  int_to_bin_digit 11 5 = [0; 1; 0; 1; 1] /\ SRFD.pop 11 = 3
  /\ len (filter (Z.eqb 1) (int_to_bin_digit 11 5)) = SRFD.pop 11.
Proof.
  split; [reflexivity|]. split; [reflexivity|].
  apply (X3_digits_hold_pop_ones 11 5); lia.
Defined.

(** ** The number of subsets *)

Lemma colex_NoDup n k : NoDup (colex n k).
Proof.
  apply (sorted_NoDup (fun a b => SRFD.bitmap a < SRFD.bitmap b)).
  - intros x. lia.
  - apply colex_sorted.
Qed.

(** X4.  For [0 <= k <= n <= 29], [nChoosek n k] is the number of
    subsets of size [k] of [n] leaves; it follows the rule of Pascal's
    triangle, and it is 0 for the size [n + 1].  The bound is that of
    the 32-bit products: [nChoosek 30 15] is negative. *)
Theorem X4_nChoosek_counts_the_subsets :
  forall n k,
    0 <= k <= n ->
    n <= 29 ->
    (exists subsets,
        NoDup subsets
        /\ (forall a, In a subsets <-> k_subset n (Z.to_nat k) a)
        /\ SRFD.nChoosek n k = len subsets)
    /\ (n <= 28 ->
        SRFD.nChoosek (n + 1) (k + 1) = SRFD.nChoosek n k + SRFD.nChoosek n (k + 1))
    /\ SRFD.nChoosek n (n + 1) = 0
    /\ SRFD.nChoosek 30 15 = -131213633.
Proof.
  intros n k Hk Hn.
  assert (Hc : forall a b, (b <= a)%nat -> (a <= 29)%nat ->
                           SRFD.nChoosek (Z.of_nat a) (Z.of_nat b) = subset_count a b).
  { intros a b. apply nChoosek_count. }
  assert (Habove : forall m, 0 <= m -> SRFD.nChoosek m (m + 1) = 0).
  { intros m Hm. unfold SRFD.nChoosek.
    destruct (Z.gtb_spec (m + 1) m) as [_|H]; [reflexivity|lia]. }
  split; [|split; [|split]].
  - exists (colex (Z.to_nat n) (Z.to_nat k)). split; [apply colex_NoDup|]. split.
    + intros a. rewrite colex_subsets, Z2Nat.id by lia. reflexivity.
    + replace n with (Z.of_nat (Z.to_nat n)) at 1 by lia.
      replace k with (Z.of_nat (Z.to_nat k)) at 1 by lia.
      rewrite Hc by lia. reflexivity.
  - intros Hn'.
    replace (n + 1) with (Z.of_nat (S (Z.to_nat n))) by lia.
    replace (k + 1) with (Z.of_nat (S (Z.to_nat k))) by lia.
    replace n with (Z.of_nat (Z.to_nat n)) at 2 3 by lia.
    replace k with (Z.of_nat (Z.to_nat k)) at 2 by lia.
    rewrite !Hc by lia. rewrite subset_count_pascal.
    destruct (Z.eq_dec k n) as [E|E].
    + rewrite subset_count_above by lia.
      replace (Z.of_nat (S (Z.to_nat k))) with (Z.of_nat (Z.to_nat n) + 1) by lia.
      rewrite Habove by lia. lia.
    + rewrite Hc by lia. lia.
  - apply Habove. lia.
  - vm_compute. reflexivity.
Qed.

Lemma X4_nChoosek_counts_the_subsets_witness :
  0 <= 2 <= 5 /\ 5 <= 29
  /\ SRFD.nChoosek 5 2 = 10
  /\ SRFD.nChoosek 6 3 = SRFD.nChoosek 5 2 + SRFD.nChoosek 5 3.
Proof.
  split; [lia|]. split; [lia|]. split; [reflexivity|].
  exact (proj1 (proj2 (X4_nChoosek_counts_the_subsets 5 2 ltac:(lia) ltac:(lia)))
               ltac:(lia)).
Defined.

Lemma chained_next (R : list Z -> list Z -> Prop) step l :
  chained step l -> StronglySorted R l ->
  forall a, In a l -> a <> last l [] ->
            In (step a) l /\ R a (step a).
Proof.
  induction l as [|x l IH]; intros Hc Hs a Hin Hlast; [destruct Hin|].
  destruct l as [|y l].
  - destruct Hin as [<-|[]]. cbn in Hlast. contradiction.
  - cbn [chained] in Hc. destruct Hc as [Hx Hc].
    apply StronglySorted_inv in Hs. destruct Hs as [Hs Hall].
    destruct Hin as [<-|Hin].
    + rewrite Hx. split; [right; now left|]. apply Forall_inv in Hall. exact Hall.
    + destruct (IH Hc Hs a Hin) as [H1 H2].
      { intros E. apply Hlast. rewrite E. reflexivity. }
      split; [now right|exact H2].
Qed.

(** X5.  On a subset of size [k] of the [n] leaves that is not the
    last one, [n - k .. n - 1], [ksub_next] makes a subset of the same
    size with a larger bitmap.  On the last one it does not stop: it
    returns [0 .. k - 2] followed by [n], which is not a leaf. *)
Theorem X5_ksub_next_steps_to_the_next_subset :
  forall n k a,
    1 <= k <= n ->
    k_subset n (Z.to_nat k) a ->
    let last_subset := SRFD.range (n - k) (Z.to_nat k) in
    (a <> last_subset ->
     k_subset n (Z.to_nat k) (SRFD.ksub_next n k a)
     /\ SRFD.bitmap a < SRFD.bitmap (SRFD.ksub_next n k a))
    /\ SRFD.ksub_next n k last_subset = SRFD.range 0 (Z.to_nat k - 1) ++ [n].
Proof.
  intros n k a Hk Ha last_subset.
  destruct (Z.to_nat k) as [|k'] eqn:Ek; [lia|].
  assert (En : n = Z.of_nat (Z.to_nat n)) by lia.
  assert (Ek' : k = Z.of_nat (S k')) by lia.
  assert (Hstep : forall b, k_subset n (S k') b -> SRFD.ksub_next n k b = advance 0 b).
  { intros b Hb. rewrite En, Ek'. apply ksub_next_on_subset. rewrite <- En. exact Hb. }
  assert (Hlast : last (colex (Z.to_nat n) (S k')) [] = last_subset).
  { rewrite colex_last by lia. unfold last_subset. f_equal. lia. }
  assert (Hlast_sub : k_subset n (S k') last_subset).
  { rewrite En. apply colex_subsets. rewrite <- Hlast.
    destruct (exists_last (colex_nonempty (Z.to_nat n) (S k') ltac:(lia)))
      as (l & s & E).
    rewrite E, last_last. apply in_or_app. right. now left. }
  split.
  - intros Hne. rewrite (Hstep a Ha).
    assert (Hin : In a (colex (Z.to_nat n) (S k'))).
    { apply colex_subsets. rewrite <- En. exact Ha. }
    destruct (chained_next (fun a b => SRFD.bitmap a < SRFD.bitmap b) (advance 0)
                (colex (Z.to_nat n) (S k')) (colex_chained _ _) (colex_sorted _ _)
                a Hin) as [H1 H2].
    { rewrite Hlast. exact Hne. }
    split; [|exact H2]. apply colex_subsets in H1. rewrite <- En in H1. exact H1.
  - rewrite (Hstep _ Hlast_sub). unfold last_subset. rewrite advance_range.
    cbn [Nat.add Nat.sub]. rewrite Nat.sub_0_r. do 2 f_equal. lia.
Qed.

Lemma X5_ksub_next_steps_to_the_next_subset_witness :
  SRFD.ksub_next 5 3 [0; 2; 3] = [1; 2; 3]
  /\ SRFD.bitmap [0; 2; 3] < SRFD.bitmap (SRFD.ksub_next 5 3 [0; 2; 3])
  /\ SRFD.ksub_next 5 3 [2; 3; 4] = [0; 1; 5].
Proof.
  assert (Hs : k_subset 5 (Z.to_nat 3) [0; 2; 3]).
  { split; [reflexivity|]. split.
    - repeat constructor.
    - repeat constructor; lia. }
  split; [reflexivity|]. split.
  - apply (X5_ksub_next_steps_to_the_next_subset 5 3 [0; 2; 3] ltac:(lia) Hs).
    discriminate.
  - exact (proj2 (X5_ksub_next_steps_to_the_next_subset 5 3 [0; 2; 3] ltac:(lia) Hs)).
Defined.

Lemma colex_full n : colex n n = [SRFD.range 0 n].
Proof.
  induction n as [|n IH]; [reflexivity|].
  cbn [colex]. rewrite colex_empty by lia. rewrite IH. cbn [map app].
  rewrite range_snoc. reflexivity.
Qed.

(** The subsets of all sizes up to [m] of a set of size [n]. *)
Lemma subset_count_total n :
  forall m, (n <= m)%nat ->
            fold_right Z.add 0 (map (subset_count n) (seq 0 (S m))) = 2 ^ Z.of_nat n.
Proof.
  induction n as [|n IH]; intros m Hm.
  - cbn [seq map fold_right]. rewrite subset_count_0.
    assert (H : forall l, (forall k, In k l -> (0 < k)%nat) ->
                          fold_right Z.add 0 (map (subset_count 0) l) = 0).
    { induction l as [|k l IHl]; intros Hl; [reflexivity|]. cbn [map fold_right].
      rewrite subset_count_above by (apply Hl; now left).
      rewrite IHl; [reflexivity|]. intros j Hj. apply Hl. now right. }
    rewrite H; [reflexivity|]. intros k Hk. apply in_seq in Hk. lia.
  - destruct m as [|m]; [lia|].
    change (seq 0 (S (S m))) with (0%nat :: seq 1 (S m)).
    rewrite <- seq_shift. cbn [map fold_right]. rewrite map_map, subset_count_0.
    assert (H : forall l,
               fold_right Z.add 0 (map (fun k => subset_count (S n) (S k)) l)
               = fold_right Z.add 0 (map (fun k => subset_count n (S k)) l)
                 + fold_right Z.add 0 (map (subset_count n) l)).
    { induction l as [|k l IHl]; [reflexivity|]. cbn [map fold_right].
      rewrite subset_count_pascal, IHl. lia. }
    rewrite H.
    assert (E : 1 + fold_right Z.add 0 (map (fun k => subset_count n (S k)) (seq 0 (S m)))
                = fold_right Z.add 0 (map (subset_count n) (seq 0 (S (S m))))).
    { change (seq 0 (S (S m))) with (0%nat :: seq 1 (S m)).
      rewrite <- seq_shift. cbn [map fold_right]. rewrite map_map, subset_count_0.
      reflexivity. }
    rewrite Z.add_assoc, E, (IH (S m)), (IH m) by lia.
    rewrite Nat2Z.inj_succ, Z.pow_succ_r by lia. lia.
Qed.

Lemma flat_map_len {A B} (f : A -> list B) l :
  len (flat_map f l) = fold_right Z.add 0 (map (fun x => len (f x)) l).
Proof.
  unfold len. induction l as [|x l IH]; [reflexivity|].
  cbn [flat_map map fold_right]. rewrite length_app, Nat2Z.inj_add, IH. reflexivity.
Qed.

Lemma Subset_CCP_inputs_all n k :
  (1 <= k < n)%nat -> (n <= 29)%nat ->
  SRFD.Subset_CCP_inputs (Z.of_nat n) (Z.of_nat k)
                         (SRFD.nChoosek (Z.of_nat n) (Z.of_nat k))
  = colex n k.
Proof.
  intros Hk Hn. rewrite nChoosek_count by lia. unfold subset_count.
  destruct k as [|k]; [lia|]. apply Subset_CCP_inputs_colex. lia.
Qed.

Lemma all_inputs_colex n :
  (n <= 29)%nat ->
  SRFD.all_inputs (Z.of_nat n) = flat_map (colex n) (seq 1 (n - 1)).
Proof.
  intros Hn. unfold SRFD.all_inputs.
  replace (Z.to_nat (Z.of_nat n - 1)) with (n - 1)%nat by lia.
  assert (H : forall c lo, (1 <= lo)%nat -> (lo + c <= n)%nat ->
                           flat_map (fun k => SRFD.Subset_CCP_inputs (Z.of_nat n) k
                                                (SRFD.nChoosek (Z.of_nat n) k))
                                    (SRFD.range (Z.of_nat lo) c)
                           = flat_map (colex n) (seq lo c)).
  { induction c as [|c IH]; intros lo H1 H2; [reflexivity|].
    cbn [SRFD.range seq flat_map]. rewrite Subset_CCP_inputs_all by lia.
    f_equal. replace (Z.of_nat lo + 1) with (Z.of_nat (S lo)) by lia.
    apply IH; lia. }
  destruct n as [|n']; [reflexivity|]. apply (H (S n' - 1)%nat 1%nat); lia.
Qed.

Lemma all_inputs_count n :
  (1 <= n <= 29)%nat -> len (SRFD.all_inputs (Z.of_nat n)) = 2 ^ Z.of_nat n - 2.
Proof.
  intros Hn. rewrite all_inputs_colex, flat_map_len by lia.
  pose proof (subset_count_total n n (Nat.le_refl n)) as Ht.
  assert (Es : seq 0 (S n) = 0%nat :: seq 1 (n - 1) ++ [n]).
  { replace (S n) with (1 + ((n - 1) + 1))%nat by lia.
    rewrite (seq_app 1), (seq_app (n - 1) 1). cbn [seq app].
    replace (0 + 1 + (n - 1))%nat with n by lia. reflexivity. }
  rewrite Es in Ht. cbn [map fold_right] in Ht.
  rewrite map_app in Ht. cbn [map] in Ht.
  assert (Happ : forall l1 l2, fold_right Z.add 0 (l1 ++ l2)
                               = fold_right Z.add 0 l1 + fold_right Z.add 0 l2).
  { induction l1 as [|x l1 IH]; intros l2; cbn [app fold_right]; [reflexivity|].
    rewrite IH. lia. }
  rewrite Happ in Ht. cbn [fold_right] in Ht.
  rewrite subset_count_0 in Ht. unfold subset_count at 2 in Ht.
  rewrite colex_full in Ht. cbn [List.length] in Ht.
  unfold subset_count in Ht. unfold len. lia.
Qed.

Lemma Is_Cluster_all_app fuel net1 net2 l1 :
  forall l2 rs,
    SRFD.Is_Cluster_all fuel net1 net2 (l1 ++ l2) rs
    = SRFD.and_then (SRFD.Is_Cluster_all fuel net1 net2 l1 rs)
                    (fun rs1 => SRFD.Is_Cluster_all fuel net1 net2 l2 rs1).
Proof.
  induction l1 as [|a l1 IH]; intros l2 rs; [reflexivity|].
  cbn [app SRFD.Is_Cluster_all].
  destruct (SRFD.Is_Cluster fuel net1 net2 a rs) as [[rs1|]|]; cbn [SRFD.and_then];
    [apply IH|reflexivity|reflexivity].
Qed.

(** The loop of [Find_Cluster_Distance] over the sizes is one loop of
    calls of [Is_Cluster] over all the subsets. *)
Lemma sizes_loop_all fuel net1 net2 ks :
  forall rs,
    SRFD.sizes_loop fuel net1 net2 ks rs
    = SRFD.Is_Cluster_all fuel net1 net2
        (flat_map (fun k => SRFD.Subset_CCP_inputs (SRFD.n_l net1) k
                              (SRFD.nChoosek (SRFD.n_l net1) k)) ks) rs.
Proof.
  induction ks as [|k ks IH]; intros rs; cbn [SRFD.sizes_loop flat_map].
  - reflexivity.
  - unfold SRFD.Subset_CCP. rewrite Is_Cluster_all_app.
    destruct (SRFD.Is_Cluster_all fuel net1 net2 _ rs) as [[rs1|]|];
      cbn [SRFD.and_then]; [apply IH|reflexivity|reflexivity].
Qed.

Lemma Is_Cluster_index fuel net1 net2 a rs rs' :
  len a <> 0 -> len a <> SRFD.n_l net1 ->
  SRFD.Is_Cluster fuel net1 net2 a rs = Some (SRFD.Done rs') ->
  SRFD.no_res rs' = SRFD.no_res rs + 1.
Proof.
  intros H0 Hn. unfold SRFD.Is_Cluster.
  destruct (Z.eqb_spec (len a) 0) as [E|_]; [contradiction|].
  destruct (Z.eqb_spec (len a) (SRFD.n_l net1)) as [E|_]; [contradiction|].
  cbn [orb]. destruct (len a =? 1).
  - intros H. injection H as <-. reflexivity.
  - destruct (SRFD.run_search fuel net1 a _) as [[r1|]|]; cbn [SRFD.and_then];
      try discriminate.
    destruct (SRFD.run_search fuel net2 a _) as [[r2|]|]; cbn [SRFD.and_then];
      try discriminate.
    intros H. injection H as <-. reflexivity.
Qed.

Lemma Is_Cluster_all_index fuel net1 net2 inputs :
  Forall (fun a => len a <> 0 /\ len a <> SRFD.n_l net1) inputs ->
  forall rs rs',
    SRFD.Is_Cluster_all fuel net1 net2 inputs rs = Some (SRFD.Done rs') ->
    SRFD.no_res rs' = SRFD.no_res rs + len inputs.
Proof.
  induction inputs as [|a inputs IH]; intros Hall rs rs' H; cbn [SRFD.Is_Cluster_all] in H.
  - injection H as <-. unfold len. cbn. lia.
  - destruct (SRFD.Is_Cluster fuel net1 net2 a rs) as [[rs1|]|] eqn:E;
      cbn [SRFD.and_then] in H; try discriminate.
    destruct (Forall_inv Hall) as [H0 Hn].
    rewrite (IH (Forall_inv_tail Hall) rs1 rs' H).
    rewrite (Is_Cluster_index _ _ _ _ _ _ H0 Hn E).
    unfold len. cbn [List.length]. lia.
Qed.

Lemma all_inputs_sizes n :
  (n <= 29)%nat ->
  Forall (fun a => len a <> 0 /\ len a <> Z.of_nat n) (SRFD.all_inputs (Z.of_nat n)).
Proof.
  intros Hn. rewrite all_inputs_colex by lia. apply Forall_forall. intros a Ha.
  apply in_flat_map in Ha. destruct Ha as (k & Hk & Ha).
  apply in_seq in Hk. apply colex_subsets in Ha. destruct Ha as (Hl & _).
  unfold len. rewrite Hl. lia.
Qed.

(** X6.  For 1 to 29 leaves, the loop of [Find_Cluster_Distance] over
    the sizes 1 to [n - 1] calls [Is_Cluster] on [2^n - 2] subsets, and
    each call that returns takes the next bit of the result arrays:
    when the loop ends with the arrays, the index ends at [2^n - 2],
    inside the [2^n] bits that the arrays hold. *)
Theorem X6_one_result_bit_for_each_proper_subset :
  forall fuel net1 net2 rs rs',
    1 <= SRFD.n_l net1 <= 29 ->
    SRFD.sizes_loop fuel net1 net2 (SRFD.range 1 (Z.to_nat (SRFD.n_l net1 - 1))) rs
    = Some (SRFD.Done rs') ->
    len (SRFD.all_inputs (SRFD.n_l net1)) = 2 ^ SRFD.n_l net1 - 2
    /\ SRFD.no_res rs' = SRFD.no_res rs + 2 ^ SRFD.n_l net1 - 2.
Proof.
  intros fuel net1 net2 rs rs' Hn H.
  assert (En : SRFD.n_l net1 = Z.of_nat (Z.to_nat (SRFD.n_l net1))) by lia.
  assert (Hlen : len (SRFD.all_inputs (SRFD.n_l net1)) = 2 ^ SRFD.n_l net1 - 2).
  { pose proof (all_inputs_count (Z.to_nat (SRFD.n_l net1)) ltac:(lia)) as Hc.
    rewrite <- En in Hc. exact Hc. }
  split; [exact Hlen|].
  rewrite sizes_loop_all in H. fold (SRFD.all_inputs (SRFD.n_l net1)) in H.
  apply Is_Cluster_all_index in H.
  - rewrite H, Hlen. lia.
  - pose proof (all_inputs_sizes (Z.to_nat (SRFD.n_l net1)) ltac:(lia)) as Hs.
    rewrite <- En in Hs. exact Hs.
Qed.

Lemma X6_one_result_bit_for_each_proper_subset_witness :
  1 <= SRFD.n_l left_tree <= 29
  /\ exists rs',
       SRFD.sizes_loop 5 left_tree right_tree
         (SRFD.range 1 (Z.to_nat (SRFD.n_l left_tree - 1)))
         (SRFD.Results (fun _ => 0) (fun _ => 0) 0) = Some (SRFD.Done rs')
       /\ SRFD.no_res rs' = 6.
Proof.
  split; [cbn; lia|].
  destruct (SRFD.sizes_loop 5 left_tree right_tree
              (SRFD.range 1 (Z.to_nat (SRFD.n_l left_tree - 1)))
              (SRFD.Results (fun _ => 0) (fun _ => 0) 0)) as [[rs'|]|] eqn:E;
    [|vm_compute in E; discriminate E|vm_compute in E; discriminate E].
  exists rs'. split; [reflexivity|].
  exact (proj2 (X6_one_result_bit_for_each_proper_subset 5 left_tree right_tree _ rs'
                  ltac:(cbn; lia) E)).
Defined.

(** ** Reading the network and the leaves *)

Lemma Check_Name_from_spec ns s :
  forall i,
    (Check_Name_from i ns s = -1 /\ ~ In s ns)
    \/ (exists k, (k < List.length ns)%nat
                  /\ Check_Name_from i ns s = i + Z.of_nat k
                  /\ nth k ns EmptyString = s
                  /\ ~ In s (firstn k ns))
    \/ i < 0.
Proof.
  induction ns as [|x ns IH]; intros i; [left; split; [reflexivity|intros []]|].
  destruct (Z.ltb_spec i 0) as [Hneg|Hi]; [right; right; exact Hneg|].
  cbn [Check_Name_from]. destruct (String.eqb_spec s x) as [->|Hne].
  - right. left. exists 0%nat. cbn. repeat split; [lia|lia|intros []].
  - destruct (IH (i + 1)) as [[E Hni]|[(k & Hk & E & Hn & Hf)|Hneg]]; [| |lia].
    + left. split; [exact E|]. intros [H|H]; [congruence|contradiction].
    + right. left. exists (S k). cbn [List.length nth firstn]. repeat split.
      * lia.
      * rewrite E. lia.
      * exact Hn.
      * intros [H|H]; [congruence|contradiction].
Qed.

Lemma Check_Name_cases ns s :
  (Check_Name ns s = -1 /\ ~ In s ns)
  \/ (0 <= Check_Name ns s < len ns /\ name ns (Check_Name ns s) = s /\ In s ns).
Proof.
  unfold Check_Name. destruct (Check_Name_from_spec ns s 0)
    as [H|[(k & Hk & E & Hn & _)|H]]; [left; exact H| |lia].
  right. rewrite E. unfold len, name. split; [lia|].
  destruct (Z.ltb_spec (0 + Z.of_nat k) 0) as [H|_]; [lia|].
  replace (Z.to_nat (0 + Z.of_nat k)) with k by lia. split; [exact Hn|].
  rewrite <- Hn. apply nth_In. exact Hk.
Qed.

Lemma name_app ns more i :
  0 <= i < len ns -> name (ns ++ more) i = name ns i.
Proof.
  unfold name, len. intros Hi. destruct (Z.ltb_spec i 0) as [H|_]; [lia|].
  apply app_nth1. lia.
Qed.

Lemma name_new ns s : name (ns ++ [s]) (len ns) = s.
Proof.
  unfold name, len. destruct (Z.ltb_spec (Z.of_nat (List.length ns)) 0) as [H|_]; [lia|].
  rewrite Nat2Z.id, app_nth2, Nat.sub_diag by lia. reflexivity.
Qed.

(** [intern] gives the name an index at which it stands, and adds the
    name at the end when it is new. *)
Lemma intern_spec ns s :
  NoDup ns ->
  let '(ns', u) := intern ns s in
  NoDup ns'
  /\ (exists more, ns' = ns ++ more)
  /\ 0 <= u < len ns'
  /\ name ns' u = s
  /\ (forall x, In x ns' <-> In x ns \/ x = s).
Proof.
  intros Hnd. unfold intern.
  destruct (Check_Name_cases ns s) as [[E Hni]|(Hr & Hn & Hin)].
  - rewrite E. cbn [Z.eqb]. split; [|split; [|split; [|split]]].
    + apply NoDup_app; [exact Hnd|repeat constructor; intros []|].
      intros x Hx [<-|[]]. contradiction.
    + now exists [s].
    + unfold len. rewrite length_app. cbn. lia.
    + apply name_new.
    + intros x. rewrite in_app_iff. cbn [In]. intuition congruence.
  - destruct (Z.eqb_spec (Check_Name ns s) (-1)) as [E|_]; [lia|].
    split; [exact Hnd|]. split; [exists []; now rewrite app_nil_r|].
    split; [exact Hr|]. split; [exact Hn|].
    intros x. split; [now left|]. intros [H| ->]; assumption.
Qed.

Lemma edges_within_more n m es :
  n <= m -> edges_within n es -> edges_within m es.
Proof.
  intros Hnm H. unfold edges_within in *. eapply Forall_impl; [|exact H].
  cbv beta. intros e He. lia.
Qed.

Lemma edge_names_app ns more es :
  edges_within (len ns) es ->
  map (edge_names (ns ++ more)) es = map (edge_names ns) es.
Proof.
  intros H. apply map_ext_in. intros e He. unfold edges_within in H.
  rewrite Forall_forall in H. specialize (H e He). unfold edge_names.
  rewrite !name_app by lia. reflexivity.
Qed.

Lemma len_app {A} (l1 l2 : list A) : len (l1 ++ l2) = len l1 + len l2.
Proof. unfold len. rewrite length_app. lia. Qed.

Lemma read_network_spec lines :
  forall ns0 es0,
    NoDup ns0 -> edges_within (len ns0) es0 ->
    let '(ns, es) := read_network lines ns0 es0 in
    NoDup ns
    /\ (exists more, ns = ns0 ++ more)
    /\ edges_within (len ns) es
    /\ map (edge_names ns) es = map (edge_names ns0) es0 ++ lines
    /\ (forall x, In x ns <->
                  In x ns0 \/ exists l, In l lines /\ (x = fst l \/ x = snd l)).
Proof.
  induction lines as [|[s1 s2] lines IH]; intros ns0 es0 Hnd Hw.
  - cbn [read_network]. split; [exact Hnd|]. split; [exists []; now rewrite app_nil_r|].
    split; [exact Hw|]. split; [now rewrite app_nil_r|].
    intros x. split; [now left|]. intros [H|(l & [] & _)]. exact H.
  - cbn [read_network].
    pose proof (intern_spec ns0 s1 Hnd) as H1.
    destruct (intern ns0 s1) as [ns1 u1].
    destruct H1 as (Hnd1 & (m1 & E1) & Hu1 & Hn1 & Hin1).
    pose proof (intern_spec ns1 s2 Hnd1) as H2.
    destruct (intern ns1 s2) as [ns2 u2].
    destruct H2 as (Hnd2 & (m2 & E2) & Hu2 & Hn2 & Hin2).
    assert (Hl1 : len ns0 <= len ns1) by (rewrite E1, len_app; unfold len; lia).
    assert (Hl2 : len ns1 <= len ns2) by (rewrite E2, len_app; unfold len; lia).
    assert (Hw2 : edges_within (len ns2) (es0 ++ [(u1, u2)])).
    { apply Forall_app. split.
      - apply (edges_within_more (len ns0)); [lia|exact Hw].
      - constructor; [cbn [fst snd]; lia|constructor]. }
    specialize (IH ns2 (es0 ++ [(u1, u2)]) Hnd2 Hw2).
    destruct (read_network lines ns2 (es0 ++ [(u1, u2)])) as [ns es].
    destruct IH as (Hnd' & (m & E) & Hw' & Hnames & Hin).
    split; [exact Hnd'|]. split.
    { exists (m1 ++ m2 ++ m). rewrite E, E2, E1, <- !app_assoc. reflexivity. }
    split; [exact Hw'|]. split.
    + rewrite Hnames, map_app, <- app_assoc. cbn [map app]. f_equal.
      * rewrite E2, E1, <- app_assoc. apply edge_names_app. exact Hw.
      * f_equal. unfold edge_names. cbn [fst snd]. rewrite Hn2. f_equal.
        rewrite E2, name_app by lia. exact Hn1.
    + intros x. rewrite Hin, Hin2, Hin1. cbn [In]. split.
      * intros [[[H|H]|H]|(l & Hl & Hx)].
        -- now left.
        -- right. exists (s1, s2). split; [now left|left; exact H].
        -- right. exists (s1, s2). split; [now left|right; exact H].
        -- right. exists l. split; [now right|exact Hx].
      * intros [H|(l & [<-|Hl] & Hx)].
        -- left. left. now left.
        -- cbn [fst snd] in Hx. destruct Hx as [->| ->]; left; [left; now right|now right].
        -- right. exists l. split; assumption.
Qed.

(** X7.  The loop of [main] that reads the network file gives every
    name one index, the names in order of first appearance, and makes
    one edge of every line: the names are all different, the cells of
    [start] and [end] are indices of names, and the two names of the
    edges, in order, are the lines of the file.  (The file has no name
    of 20 characters or more, at most MAXSIZE names and MAXEDGE lines.) *)
Theorem X7_read_network_keeps_the_edge_list :
  forall network_file,
    let ns := fst (read_network network_file [] []) in
    let es := snd (read_network network_file [] []) in
    NoDup ns
    /\ edges_within (len ns) es
    /\ map (edge_names ns) es = network_file
    /\ (forall x, In x ns <->
                  exists l, In l network_file /\ (x = fst l \/ x = snd l)).
Proof.
  intros network_file ns es.
  pose proof (read_network_spec network_file [] [] (NoDup_nil _) (Forall_nil _)) as H.
  unfold ns, es. destruct (read_network network_file [] []) as [ns' es'].
  destruct H as (Hnd & _ & Hw & Hnames & Hin). cbn [fst snd].
  split; [exact Hnd|]. split; [exact Hw|]. split; [exact Hnames|].
  intros x. rewrite Hin. cbn [In]. tauto.
Qed.

Lemma Child_Parent_Inform_cells es :
  forall cp0 k,
    fst (fold_left
           (fun (cp : (Z -> list Z) * (Z -> list Z)) (e : Z * Z) =>
              (ListExtend (fst cp) (fst e) (snd e), ListExtend (snd cp) (snd e) (fst e)))
           es cp0) k
    = fst cp0 k ++ map snd (filter (fun e => fst e =? k) es)
    /\ snd (fold_left
              (fun (cp : (Z -> list Z) * (Z -> list Z)) (e : Z * Z) =>
                 (ListExtend (fst cp) (fst e) (snd e),
                  ListExtend (snd cp) (snd e) (fst e)))
              es cp0) k
       = snd cp0 k ++ map fst (filter (fun e => snd e =? k) es).
Proof.
  induction es as [|e es IH]; intros cp0 k; cbn [fold_left filter map].
  - now rewrite !app_nil_r.
  - destruct (IH (ListExtend (fst cp0) (fst e) (snd e),
                  ListExtend (snd cp0) (snd e) (fst e)) k) as [H1 H2].
    rewrite H1, H2. cbn [fst snd]. unfold ListExtend.
    rewrite (Z.eqb_sym k (fst e)), (Z.eqb_sym k (snd e)).
    split.
    + destruct (fst e =? k); cbn [map]; [rewrite <- app_assoc|]; reflexivity.
    + destruct (snd e =? k); cbn [map]; [rewrite <- app_assoc|]; reflexivity.
Qed.

Lemma degree_count (f : Z * Z -> bool) es :
  forall n, fold_left (fun n e => if f e then n + 1 else n) es n
            = n + len (filter f es).
Proof.
  unfold len. induction es as [|e es IH]; intros n; cbn [fold_left filter].
  - cbn. lia.
  - rewrite IH. destruct (f e); cbn [List.length]; lia.
Qed.

(** X8.  After [Child_Parent_Inform] the list of children of a node
    holds the ends of the edges that start at it, in the order of the
    edges, and the list of parents the starts of the edges that end at
    it: [c] is among the children of [p] exactly when [p] is among the
    parents of [c], exactly when the edge is there, and the lengths of
    the two lists are the degrees that [Node_Type_Inform1] counts. *)
Theorem X8_child_and_parent_lists_mirror_the_edges :
  forall es p c,
    let child_array := fst (Child_Parent_Inform es) in
    let parent_array := snd (Child_Parent_Inform es) in
    child_array p = map snd (filter (fun e => fst e =? p) es)
    /\ parent_array c = map fst (filter (fun e => snd e =? c) es)
    /\ (In c (child_array p) <-> In (p, c) es)
    /\ (In p (parent_array c) <-> In (p, c) es)
    /\ len (child_array p) = outdeg es p
    /\ len (parent_array c) = indeg es c.
Proof.
  intros es p c child_array parent_array.
  assert (Hc : forall k, child_array k = map snd (filter (fun e => fst e =? k) es)).
  { intros k. unfold child_array, Child_Parent_Inform.
    rewrite (proj1 (Child_Parent_Inform_cells es _ k)). reflexivity. }
  assert (Hp : forall k, parent_array k = map fst (filter (fun e => snd e =? k) es)).
  { intros k. unfold parent_array, Child_Parent_Inform.
    rewrite (proj2 (Child_Parent_Inform_cells es _ k)). reflexivity. }
  split; [apply Hc|]. split; [apply Hp|]. split; [|split; [|split]].
  - rewrite Hc, in_map_iff. split.
    + intros ([a b] & E & Hin). apply filter_In in Hin. destruct Hin as [Hin Ha].
      cbn [fst snd] in *. apply Z.eqb_eq in Ha. now subst.
    + intros Hin. exists (p, c). split; [reflexivity|]. apply filter_In.
      split; [exact Hin|apply Z.eqb_refl].
  - rewrite Hp, in_map_iff. split.
    + intros ([a b] & E & Hin). apply filter_In in Hin. destruct Hin as [Hin Ha].
      cbn [fst snd] in *. apply Z.eqb_eq in Ha. now subst.
    + intros Hin. exists (p, c). split; [reflexivity|]. apply filter_In.
      split; [exact Hin|apply Z.eqb_refl].
  - rewrite Hc. unfold outdeg. rewrite (degree_count (fun e => fst e =? p)).
    unfold len. rewrite length_map. lia.
  - rewrite Hp. unfold indeg. rewrite (degree_count (fun e => snd e =? c)).
    unfold len. rewrite length_map. lia.
Qed.

Ltac settle_tests a b :=
  let decide_false t := replace t with false by (symmetry; lia) in
  let decide_true t := replace t with true by (symmetry; lia) in
  (destruct (Z.eqb_spec a 0);
   [decide_false (a =? 1); decide_false (a >? 1)
   |destruct (Z.eqb_spec a 1);
    [decide_false (a >? 1)|destruct (Z.gtb_spec a 1)]]);
  (destruct (Z.eqb_spec b 0);
   [decide_false (b =? 1); decide_false (b >? 1); decide_false (b >=? 1)
   |destruct (Z.eqb_spec b 1);
    [decide_false (b >? 1); decide_true (b >=? 1)
    |destruct (Z.gtb_spec b 1);
     [decide_true (b >=? 1)|decide_false (b >=? 1)]]]).

Lemma type_node_cell es s i j :
  ti_node_type (type_node es s i) j
  = if j =? i then type_of_degrees (indeg es i) (outdeg es i) (ti_node_type s i)
    else ti_node_type s j.
Proof.
  unfold type_node, type_of_degrees.
  generalize (indeg es i) as a, (outdeg es i) as b. intros a b.
  assert (Hb : 0 <= b \/ b < 0) by lia.
  settle_tests a b; cbn [andb ti_node_type]; unfold upd;
    destruct (j =? i) eqn:E; try reflexivity;
    apply Z.eqb_eq in E; subst j; reflexivity.
Qed.

Lemma type_node_root es s i :
  ti_root (type_node es s i)
  = if (indeg es i =? 0) && (outdeg es i >? 1) then i else ti_root s.
Proof.
  unfold type_node.
  destruct ((indeg es i =? 0) && (outdeg es i >? 1)),
           ((indeg es i =? 1) && (outdeg es i =? 0)),
           ((indeg es i =? 1) && (outdeg es i >=? 1)),
           ((indeg es i >? 1) && (outdeg es i =? 1)),
           ((indeg es i >? 1) && (outdeg es i >? 1)); reflexivity.
Qed.

Lemma type_nodes_cell es l :
  NoDup l ->
  forall s j,
    ti_node_type (fold_left (type_node es) l s) j
    = if existsb (Z.eqb j) l
      then type_of_degrees (indeg es j) (outdeg es j) (ti_node_type s j)
      else ti_node_type s j.
Proof.
  induction l as [|i l IH]; intros Hnd s j; [reflexivity|].
  apply NoDup_cons_iff in Hnd. destruct Hnd as [Hi Hnd].
  cbn [fold_left existsb]. rewrite (IH Hnd), !type_node_cell.
  destruct (Z.eqb_spec j i) as [->|Hne]; cbn [orb]; [|reflexivity].
  destruct (existsb (Z.eqb i) l) eqn:E; [|reflexivity].
  apply existsb_exists in E. destruct E as (x & Hx & Ex).
  apply Z.eqb_eq in Ex. subst x. contradiction.
Qed.

Lemma type_nodes_root es l :
  forall s,
    ti_root (fold_left (type_node es) l s)
    = last (filter (fun i => (indeg es i =? 0) && (outdeg es i >? 1)) l) (ti_root s).
Proof.
  induction l as [|i l IH]; intros s; [reflexivity|].
  cbn [fold_left filter]. rewrite IH, type_node_root.
  destruct ((indeg es i =? 0) && (outdeg es i >? 1)); [|reflexivity].
  destruct (filter _ l) as [|y r] eqn:E; [reflexivity|].
  symmetry. rewrite <- E. cbn [last]. rewrite E.
  clear. revert y. induction r as [|z r IHr]; intros y; [reflexivity|].
  cbn [last] in *. apply IHr.
Qed.

Lemma upto_NoDup n : NoDup (upto n).
Proof.
  unfold upto. generalize 0%nat as lo. generalize (Z.to_nat n) as c.
  induction c as [|c IH]; intros lo; cbn [seq map]; constructor; [|apply IH].
  intros H. apply in_map_iff in H. destruct H as (k & E & Hk).
  apply in_seq in Hk. lia.
Qed.

Lemma upto_In n i : In i (upto n) <-> 0 <= i < n.
Proof.
  unfold upto. rewrite in_map_iff. split.
  - intros (k & <- & Hk). apply in_seq in Hk. lia.
  - intros Hi. exists (Z.to_nat i). split; [lia|]. apply in_seq. lia.
Qed.

Lemma degree_nonneg (f : Z * Z -> bool) es :
  0 <= fold_left (fun n e => if f e then n + 1 else n) es 0.
Proof. rewrite degree_count. unfold len. lia. Qed.

(** X9.  [Node_Type_Inform1] gives a node of the graph the type of its
    degrees: ROOT without a parent and with several children, LEAVE with
    one parent and no child, TREE with one parent and children, RET
    with several parents and one child.  A node without a parent and
    with at most one child, and a node with several parents and not
    one child, keep what their cell held; so does every cell outside
    the graph.  The root returned is the last node typed ROOT, and the
    value passed in when there is none. *)
Theorem X9_node_types_follow_the_degrees :
  forall node_type no_nodes es root0 i,
    let types := fst (fst (Node_Type_Inform1 node_type no_nodes es root0)) in
    let root := snd (fst (Node_Type_Inform1 node_type no_nodes es root0)) in
    (0 <= i < no_nodes ->
     (indeg es i = 0 -> 1 < outdeg es i -> types i = ROOT)
     /\ (indeg es i = 1 -> outdeg es i = 0 -> types i = LEAVE)
     /\ (indeg es i = 1 -> 1 <= outdeg es i -> types i = TREE)
     /\ (1 < indeg es i -> outdeg es i = 1 -> types i = RET)
     /\ (indeg es i = 0 -> outdeg es i <= 1 -> types i = node_type i)
     /\ (1 < indeg es i -> outdeg es i <> 1 -> types i = node_type i))
    /\ (~ 0 <= i < no_nodes -> types i = node_type i)
    /\ root = last (root_nodes es no_nodes) root0.
Proof.
  intros node_type no_nodes es root0 i types root.
  assert (Ht : types i
               = if existsb (Z.eqb i) (upto no_nodes)
                 then type_of_degrees (indeg es i) (outdeg es i) (node_type i)
                 else node_type i).
  { unfold types, Node_Type_Inform1. cbn [fst].
    rewrite (type_nodes_cell es (upto no_nodes) (upto_NoDup no_nodes)). reflexivity. }
  split; [|split].
  - intros Hi.
    assert (E : existsb (Z.eqb i) (upto no_nodes) = true).
    { apply existsb_exists. exists i. split; [apply upto_In; exact Hi|apply Z.eqb_refl]. }
    rewrite E in Ht. rewrite Ht. unfold type_of_degrees.
    pose proof (degree_nonneg (fun e => fst e =? i) es) as Hout.
    fold (outdeg es i) in Hout. revert Hout.
    generalize (indeg es i) as a, (outdeg es i) as b. intros a b Hb.
    repeat split; intros H1 H2; settle_tests a b; cbn [andb]; try lia; reflexivity.
  - intros Hi.
    assert (E : existsb (Z.eqb i) (upto no_nodes) = false).
    { destruct (existsb (Z.eqb i) (upto no_nodes)) eqn:E; [|reflexivity].
      apply existsb_exists in E. destruct E as (x & Hx & Ex).
      apply Z.eqb_eq in Ex. subst x. apply upto_In in Hx. contradiction. }
    rewrite E in Ht. exact Ht.
  - unfold root, Node_Type_Inform1. cbn [fst snd]. rewrite type_nodes_root. reflexivity.
Qed.

Lemma X9_node_types_follow_the_degrees_witness :
  let es := snd (read_network reference_network [] []) in
  let types := fst (fst (Node_Type_Inform1 (fun _ => 0) 10 es 0)) in
  map types (upto 10) = [ROOT; TREE; TREE; TREE; TREE; RET; LEAVE; LEAVE; LEAVE; LEAVE]
  /\ types 5 = RET.
Proof.
  split; [vm_compute; reflexivity|].
  apply (X9_node_types_follow_the_degrees (fun _ => 0) 10
           (snd (read_network reference_network [] [])) 0 5);
    [lia|vm_compute; reflexivity|reflexivity].
Defined.

Lemma upto_length n : List.length (upto n) = Z.to_nat n.
Proof. unfold upto. now rewrite length_map, length_seq. Qed.

Lemma upto_nth n k d : (k < Z.to_nat n)%nat -> nth k (upto n) d = Z.of_nat k.
Proof.
  intros Hk. unfold upto.
  rewrite (nth_indep _ d (Z.of_nat 0)) by (now rewrite length_map, length_seq).
  rewrite map_nth, seq_nth by exact Hk. reflexivity.
Qed.

Lemma swap_names_len ns i j : len (swap_names ns i j) = len ns.
Proof. unfold swap_names, len. rewrite length_map, upto_length. lia. Qed.

Lemma swap_names_name ns i j k :
  0 <= k < len ns ->
  name (swap_names ns i j) k
  = if k =? i then name ns j else if k =? j then name ns i else name ns k.
Proof.
  intros Hk. unfold name at 1. destruct (Z.ltb_spec k 0) as [H|_]; [lia|].
  unfold swap_names.
  rewrite (nth_indep _ EmptyString
             ((fun k => if k =? i then name ns j
                        else if k =? j then name ns i else name ns k) 0))
    by (rewrite length_map, upto_length; unfold len in *; lia).
  rewrite (map_nth (fun k => if k =? i then name ns j
                             else if k =? j then name ns i else name ns k)).
  rewrite upto_nth by (unfold len in *; lia).
  rewrite Z2Nat.id by lia. reflexivity.
Qed.

Lemma swap_index_twice i j v : swap_index i j (swap_index i j v) = v.
Proof.
  unfold swap_index.
  destruct (Z.eqb_spec v i) as [->|Hi].
  - rewrite Z.eqb_refl. destruct (Z.eqb_spec j i); congruence.
  - destruct (Z.eqb_spec v j) as [->|Hj].
    + now rewrite Z.eqb_refl.
    + destruct (Z.eqb_spec v i), (Z.eqb_spec v j); congruence.
Qed.

Lemma swap_index_within n i j v :
  0 <= i < n -> 0 <= j < n -> 0 <= v < n -> 0 <= swap_index i j v < n.
Proof. unfold swap_index. intros Hi Hj Hv. destruct (v =? i), (v =? j); lia. Qed.

Lemma swap_names_swapped ns i j v :
  0 <= i < len ns -> 0 <= j < len ns -> 0 <= v < len ns ->
  name (swap_names ns i j) (swap_index i j v) = name ns v.
Proof.
  intros Hi Hj Hv.
  rewrite swap_names_name by (apply swap_index_within; assumption).
  unfold swap_index.
  destruct (Z.eqb_spec v i) as [->|Hvi].
  - destruct (Z.eqb_spec j i) as [->|Hji]; [reflexivity|]. now rewrite Z.eqb_refl.
  - destruct (Z.eqb_spec v j) as [->|Hvj].
    + now rewrite Z.eqb_refl.
    + destruct (Z.eqb_spec v i), (Z.eqb_spec v j); congruence.
Qed.

Lemma name_In ns x : In x ns <-> exists k, 0 <= k < len ns /\ name ns k = x.
Proof.
  unfold name, len. split.
  - intros H. apply (In_nth _ _ EmptyString) in H. destruct H as (k & Hk & E).
    exists (Z.of_nat k). split; [lia|].
    destruct (Z.ltb_spec (Z.of_nat k) 0) as [H|_]; [lia|]. now rewrite Nat2Z.id.
  - intros (k & Hk & E). destruct (Z.ltb_spec k 0) as [H|_]; [lia|].
    rewrite <- E. apply nth_In. lia.
Qed.

Lemma name_NoDup ns :
  NoDup ns <->
  (forall a b, 0 <= a < len ns -> 0 <= b < len ns -> name ns a = name ns b -> a = b).
Proof.
  rewrite (NoDup_nth ns EmptyString). unfold name, len. split.
  - intros H a b Ha Hb E.
    destruct (Z.ltb_spec a 0) as [H0|_]; [lia|].
    destruct (Z.ltb_spec b 0) as [H0|_]; [lia|].
    specialize (H (Z.to_nat a) (Z.to_nat b) ltac:(lia) ltac:(lia) E). lia.
  - intros H a b Ha Hb E.
    specialize (H (Z.of_nat a) (Z.of_nat b) ltac:(lia) ltac:(lia)).
    destruct (Z.ltb_spec (Z.of_nat a) 0) as [H0|_]; [lia|].
    destruct (Z.ltb_spec (Z.of_nat b) 0) as [H0|_]; [lia|].
    rewrite !Nat2Z.id in H. specialize (H E). lia.
Qed.

Lemma swap_names_In ns i j x :
  0 <= i < len ns -> 0 <= j < len ns ->
  (In x (swap_names ns i j) <-> In x ns).
Proof.
  intros Hi Hj. rewrite !name_In, swap_names_len. split; intros (k & Hk & E).
  - exists (swap_index i j k). split; [now apply swap_index_within|].
    rewrite <- E. rewrite <- (swap_index_twice i j k) at 2.
    symmetry. apply swap_names_swapped; [assumption..|now apply swap_index_within].
  - exists (swap_index i j k). split; [now apply swap_index_within|].
    rewrite swap_names_swapped by assumption. exact E.
Qed.

Lemma swap_names_NoDup ns i j :
  0 <= i < len ns -> 0 <= j < len ns -> NoDup ns -> NoDup (swap_names ns i j).
Proof.
  intros Hi Hj Hnd. apply name_NoDup. rewrite swap_names_len. intros a b Ha Hb E.
  rewrite <- (swap_index_twice i j a), <- (swap_index_twice i j b) in E.
  rewrite !swap_names_swapped in E
    by (try assumption; now apply swap_index_within).
  apply (proj1 (name_NoDup ns) Hnd) in E; try (now apply swap_index_within).
  rewrite <- (swap_index_twice i j a), <- (swap_index_twice i j b), E. reflexivity.
Qed.

Lemma swap_edges_names ns i j es :
  0 <= i < len ns -> 0 <= j < len ns -> edges_within (len ns) es ->
  map (edge_names (swap_names ns i j))
      (map (fun e : Z * Z => (swap_index i j (fst e), swap_index i j (snd e))) es)
  = map (edge_names ns) es
  /\ edges_within (len (swap_names ns i j))
       (map (fun e : Z * Z => (swap_index i j (fst e), swap_index i j (snd e))) es).
Proof.
  intros Hi Hj Hw. unfold edges_within in *. rewrite Forall_forall in Hw. split.
  - rewrite map_map. apply map_ext_in. intros e He. specialize (Hw e He).
    unfold edge_names. cbn [fst snd]. rewrite !swap_names_swapped by lia. reflexivity.
  - rewrite swap_names_len. apply Forall_forall. intros e He.
    apply in_map_iff in He. destruct He as (e0 & <- & He0). specialize (Hw e0 He0).
    cbn [fst snd]. split; apply swap_index_within; lia.
Qed.

Lemma Check_Name_at ns p :
  NoDup ns -> 0 <= p < len ns -> Check_Name ns (name ns p) = p.
Proof.
  intros Hnd Hp. destruct (Check_Name_cases ns (name ns p)) as [[_ Hni]|(Hr & Hn & _)].
  - exfalso. apply Hni. apply name_In. exists p. split; [exact Hp|reflexivity].
  - apply (proj1 (name_NoDup ns) Hnd); assumption.
Qed.

Lemma Move_Leaves_Front_spec :
  forall ps i ns es,
    NoDup ns -> edges_within (len ns) es -> 0 <= i ->
    StronglySorted Z.lt ps -> Forall (fun p => i < p < len ns) ps ->
    let '(ns', es') := Move_Leaves_Front (map (name ns) ps) i ns es in
    NoDup ns' /\ len ns' = len ns
    /\ (forall x, In x ns' <-> In x ns)
    /\ edges_within (len ns') es'
    /\ map (edge_names ns') es' = map (edge_names ns) es
    /\ (forall k, 0 <= k < i -> name ns' k = name ns k)
    /\ (forall m, (m < List.length ps)%nat ->
                  name ns' (i + Z.of_nat m) = name ns (nth m ps 0)).
Proof.
  induction ps as [|p ps IH]; intros i ns es Hnd Hw Hi Hs Hb.
  - cbn [map Move_Leaves_Front]. repeat split; try assumption; try tauto.
    intros m Hm. cbn in Hm. lia.
  - cbn [map Move_Leaves_Front].
    apply StronglySorted_inv in Hs. destruct Hs as [Hs Hp].
    pose proof (Forall_inv Hb) as Hpb. cbv beta in Hpb. apply Forall_inv_tail in Hb.
    rewrite Check_Name_at by (try assumption; lia).
    destruct (Z.eqb_spec p (-1)) as [E|_]; [lia|].
    assert (Hir : 0 <= i < len ns) by lia.
    assert (Hpr : 0 <= p < len ns) by lia.
    destruct (swap_edges_names ns i p es Hir Hpr Hw) as [Hnames Hw1].
    assert (Hrest : map (name ns) ps = map (name (swap_names ns i p)) ps).
    { apply map_ext_in. intros q Hq. rewrite Forall_forall in Hp, Hb.
      specialize (Hp q Hq). specialize (Hb q Hq).
      rewrite swap_names_name by lia.
      destruct (Z.eqb_spec q i), (Z.eqb_spec q p); try lia. reflexivity. }
    rewrite Hrest.
    specialize (IH (i + 1) (swap_names ns i p)
                   (map (fun e : Z * Z => (swap_index i p (fst e), swap_index i p (snd e)))
                        es)
                   (swap_names_NoDup ns i p Hir Hpr Hnd) Hw1 ltac:(lia) Hs).
    destruct (Move_Leaves_Front (map (name (swap_names ns i p)) ps) (i + 1)
                (swap_names ns i p) _) as [ns' es'].
    destruct IH as (Hnd' & Hlen & Hin & Hw' & Hn' & Hfront & Hplaced).
    { rewrite swap_names_len. rewrite Forall_forall in *. intros q Hq.
      specialize (Hp q Hq). specialize (Hb q Hq). lia. }
    rewrite swap_names_len in Hlen.
    split; [exact Hnd'|]. split; [exact Hlen|]. split.
    { intros x. rewrite Hin. apply swap_names_In; assumption. }
    split; [exact Hw'|]. split; [now rewrite Hn'|]. split.
    + intros k Hk. rewrite Hfront by lia. rewrite swap_names_name by lia.
      destruct (Z.eqb_spec k i), (Z.eqb_spec k p); try lia. reflexivity.
    + intros [|m] Hm; cbn [nth].
      * rewrite Z.add_0_r, Hfront by lia. rewrite swap_names_name by lia.
        now rewrite Z.eqb_refl.
      * replace (i + Z.of_nat (S m)) with (i + 1 + Z.of_nat m) by lia.
        cbn [List.length] in Hm. rewrite Hplaced by lia.
        assert (Hq : In (nth m ps 0) ps) by (apply nth_In; lia).
        rewrite Forall_forall in Hp, Hb.
        specialize (Hp _ Hq). specialize (Hb _ Hq).
        rewrite swap_names_name by lia.
        destruct (Z.eqb_spec (nth m ps 0) i), (Z.eqb_spec (nth m ps 0) p); try lia.
        reflexivity.
Qed.

(** X10.  [Move_Leaves_Front], called as in [main] with the names of
    the leaves in the order of their indices, none of them at index 0
    (so that no cell is exchanged with itself), puts these names at the
    indices 0, 1, ... in that order and renumbers the same graph: the
    names are the same names, all different, and every edge joins the
    same two names as before. *)
Theorem X10_Move_Leaves_Front_renumbers_the_same_graph :
  forall ns es positions,
    NoDup ns -> edges_within (len ns) es ->
    StronglySorted Z.lt positions ->
    Forall (fun p => 0 < p < len ns) positions ->
    let leave_names := map (name ns) positions in
    let ns' := fst (Move_Leaves_Front leave_names 0 ns es) in
    let es' := snd (Move_Leaves_Front leave_names 0 ns es) in
    firstn (List.length leave_names) ns' = leave_names
    /\ NoDup ns' /\ len ns' = len ns
    /\ (forall x, In x ns' <-> In x ns)
    /\ edges_within (len ns') es'
    /\ map (edge_names ns') es' = map (edge_names ns) es.
Proof.
  intros ns es ps Hnd Hw Hs Hb leave_names ns' es'.
  pose proof (Move_Leaves_Front_spec ps 0 ns es Hnd Hw (Z.le_refl 0) Hs Hb) as H.
  unfold ns', es', leave_names.
  destruct (Move_Leaves_Front (map (name ns) ps) 0 ns es) as [ns1 es1].
  destruct H as (Hnd' & Hlen & Hin & Hw' & Hn' & _ & Hplaced). cbn [fst snd].
  split; [|repeat split; try assumption; apply Hin].
  assert (Hlp : (List.length ps <= List.length ns1)%nat).
  { assert (H : forall lo, lo <= len ns -> StronglySorted Z.lt ps ->
                           Forall (fun p => lo < p < len ns) ps ->
                           lo + Z.of_nat (List.length ps) <= len ns).
    { clear. induction ps as [|p ps IH]; intros lo Hlo Hs Hb; [cbn; lia|].
      apply StronglySorted_inv in Hs. destruct Hs as [Hs Hp].
      pose proof (Forall_inv Hb) as Hpb. cbv beta in Hpb. apply Forall_inv_tail in Hb.
      assert (Hb' : Forall (fun q => p < q < len ns) ps).
      { rewrite Forall_forall in *. intros q Hq. specialize (Hp q Hq).
        specialize (Hb q Hq). lia. }
      specialize (IH p ltac:(lia) Hs Hb'). cbn [List.length]. lia. }
    specialize (H 0 ltac:(unfold len; lia) Hs Hb). unfold len in *. lia. }
  apply (nth_ext _ _ EmptyString EmptyString).
  - rewrite length_firstn, length_map. lia.
  - intros m Hm. rewrite length_firstn, length_map in Hm.
    rewrite nth_firstn. destruct (Nat.ltb_spec m (List.length (map (name ns) ps))) as [_|H];
      [|rewrite length_map in H; lia].
    specialize (Hplaced m ltac:(lia)). cbn [Z.add] in Hplaced.
    unfold name at 1 in Hplaced.
    destruct (Z.ltb_spec (Z.of_nat m) 0) as [H|_]; [lia|].
    rewrite Nat2Z.id in Hplaced. rewrite Hplaced.
    rewrite (nth_indep _ EmptyString (name ns 0)) by (rewrite length_map; lia).
    rewrite (map_nth (name ns)). reflexivity.
Qed.

Lemma X10_Move_Leaves_Front_renumbers_the_same_graph_witness :
  let ns := ["r"; "a"; "x"; "b"]%string in
  let es := [(0, 1); (0, 2); (2, 3)] in
  Move_Leaves_Front ["a"; "b"]%string 0 ns es
  = (["a"; "b"; "x"; "r"]%string, [(3, 0); (3, 2); (2, 1)])
  /\ map (edge_names (fst (Move_Leaves_Front ["a"; "b"]%string 0 ns es)))
         (snd (Move_Leaves_Front ["a"; "b"]%string 0 ns es))
     = map (edge_names ns) es.
Proof.
  split; [reflexivity|].
  refine (proj2 (proj2 (proj2 (proj2 (proj2
            (X10_Move_Leaves_Front_renumbers_the_same_graph
               ["r"; "a"; "x"; "b"]%string [(0, 1); (0, 2); (2, 3)] [1; 3]
               _ _ _ _)))))).
  - repeat constructor; cbn; intuition discriminate.
  - repeat constructor; cbn; lia.
  - repeat constructor.
  - repeat constructor; cbn; lia.
Defined.

Lemma read_leaves_spec tokens :
  forall acc,
    NoDup acc ->
    NoDup (read_leaves tokens acc)
    /\ forall s, In s (read_leaves tokens acc) <-> In s acc \/ In s tokens.
Proof.
  induction tokens as [|t tokens IH]; intros acc Hnd; cbn [read_leaves].
  - split; [exact Hnd|]. intros s. cbn [In]. tauto.
  - destruct (Check_Name_cases acc t) as [[E Hni]|(Hr & _ & Hin)].
    + rewrite E. cbn [Z.eqb].
      destruct (IH (acc ++ [t])) as [H1 H2].
      { apply NoDup_app; [exact Hnd|repeat constructor; intros []|].
        intros x Hx [<-|[]]. contradiction. }
      split; [exact H1|]. intros s. rewrite H2, in_app_iff. cbn [In]. tauto.
    + destruct (Z.eqb_spec (Check_Name acc t) (-1)) as [E|_]; [lia|].
      destruct (IH acc Hnd) as [H1 H2]. split; [exact H1|].
      intros s. rewrite H2. cbn [In]. split; [tauto|].
      intros [H|[<-|H]]; tauto.
Qed.

Lemma Is_In_Str_spec s l :
  (Is_In_Str s l = 1 /\ In s l) \/ (Is_In_Str s l = 0 /\ ~ In s l).
Proof.
  induction l as [|x l IH]; cbn [Is_In_Str]; [right; split; [reflexivity|intros []]|].
  destruct (String.eqb_spec s x) as [->|Hne]; [left; split; [reflexivity|now left]|].
  destruct IH as [[E H]|[E H]]; [left|right]; (split; [exact E|]).
  - now right.
  - intros [H1|H1]; [congruence|contradiction].
Qed.

(** Among the names of a list without repeats, as many stand in a
    second such list as the second list is long exactly when the first
    list holds every name of the second. *)
Lemma count_members (B L : list string) :
  NoDup B -> NoDup L ->
  (len (filter (fun s => Is_In_Str s B =? 1) L) = len B <-> incl B L).
Proof.
  intros HB HL.
  assert (Hf : forall s, In s (filter (fun s => Is_In_Str s B =? 1) L)
                         <-> In s L /\ In s B).
  { intros s. rewrite filter_In.
    destruct (Is_In_Str_spec s B) as [[E H]|[E H]]; rewrite E; cbn; intuition lia. }
  assert (Hnd : NoDup (filter (fun s => Is_In_Str s B =? 1) L))
    by (apply NoDup_filter; exact HL).
  unfold len. split.
  - intros E s Hs.
    assert (Hincl : incl B (filter (fun s => Is_In_Str s B =? 1) L)).
    { apply NoDup_length_incl; [exact Hnd|lia|]. intros x Hx. apply Hf in Hx. tauto. }
    apply Hincl, Hf in Hs. tauto.
  - intros Hincl. f_equal. apply Nat.le_antisymm.
    + apply NoDup_incl_length; [exact Hnd|]. intros x Hx. apply Hf in Hx. tauto.
    + apply NoDup_incl_length; [exact HB|]. intros x Hx. apply Hf.
      split; [apply Hincl|]; exact Hx.
Qed.

Lemma read_network_prefix lines :
  forall ns0 es0,
    exists more, snd (read_network lines ns0 es0) = es0 ++ more.
Proof.
  induction lines as [|[s1 s2] lines IH]; intros ns0 es0; cbn [read_network].
  - exists []. cbn. now rewrite app_nil_r.
  - destruct (intern ns0 s1) as [ns1 u1]. destruct (intern ns1 s2) as [ns2 u2].
    destruct (IH ns2 (es0 ++ [(u1, u2)])) as (more & E).
    exists ((u1, u2) :: more). rewrite E, <- app_assoc. reflexivity.
Qed.

(** The first node of a network file has a child. *)
Lemma first_node_has_child network_file :
  0 < len (fst (read_network network_file [] [])) ->
  1 <= outdeg (snd (read_network network_file [] [])) 0.
Proof.
  destruct network_file as [|[s1 s2] lines]; [unfold len; cbn; lia|].
  intros _. cbn [read_network]. change (intern [] s1) with ([s1], 0). cbv iota beta.
  destruct (intern [s1] s2) as [ns2 u2].
  destruct (read_network_prefix lines ns2 ([] ++ [(0, u2)])) as (more & E).
  rewrite E. unfold outdeg. rewrite (degree_count (fun e => fst e =? 0)).
  cbn [app filter fst Z.eqb]. unfold len. cbn [List.length]. lia.
Qed.

Lemma sorted_filter (f : Z -> bool) l :
  StronglySorted Z.lt l -> StronglySorted Z.lt (filter f l).
Proof.
  induction l as [|x l IH]; intros Hs; [constructor|].
  apply StronglySorted_inv in Hs. destruct Hs as [Hs Hx]. cbn [filter].
  destruct (f x); [|now apply IH]. constructor; [now apply IH|].
  rewrite Forall_forall in *. intros y Hy. apply filter_In in Hy. apply Hx, Hy.
Qed.

Lemma upto_sorted n : StronglySorted Z.lt (upto n).
Proof.
  unfold upto. generalize 0%nat as lo. generalize (Z.to_nat n) as c.
  induction c as [|c IH]; intros lo; cbn [seq map]; constructor; [apply IH|].
  apply Forall_forall. intros y Hy. apply in_map_iff in Hy.
  destruct Hy as (k & <- & Hk). apply in_seq in Hk. lia.
Qed.

Lemma first_node_no_leaf network_file root0 :
  let ns := fst (read_network network_file [] []) in
  let es := snd (read_network network_file [] []) in
  fst (fst (Node_Type_Inform1 (fun _ => 0) (len ns) es root0)) 0 <> LEAVE.
Proof.
  intros ns es. unfold Node_Type_Inform1. cbn [fst].
  rewrite (type_nodes_cell es (upto (len ns)) (upto_NoDup _)). cbn [ti_node_type].
  destruct (existsb (Z.eqb 0) (upto (len ns))) eqn:E; [|discriminate].
  apply existsb_exists in E. destruct E as (x & Hx & Ex). apply Z.eqb_eq in Ex. subst x.
  apply upto_In in Hx.
  pose proof (first_node_has_child network_file ltac:(fold ns; lia)) as Hout.
  fold es in Hout. unfold type_of_degrees. revert Hout.
  generalize (indeg es 0) as a, (outdeg es 0) as b. intros a b Hb.
  settle_tests a b; cbn [andb]; try lia; discriminate.
Qed.

Lemma list_by_index {A} (l : list A) (d : A) :
  l = map (fun i => nth (Z.to_nat i) l d) (upto (len l)).
Proof.
  apply (nth_ext _ _ d d).
  - rewrite length_map, upto_length. unfold len. lia.
  - intros k Hk.
    rewrite (nth_indep (map _ _) d ((fun i => nth (Z.to_nat i) l d) 0))
      by (rewrite length_map, upto_length; unfold len; lia).
    rewrite (map_nth (fun i => nth (Z.to_nat i) l d)).
    rewrite upto_nth by (unfold len; lia). now rewrite Nat2Z.id.
Qed.

Lemma names_NoDup ns ps :
  NoDup ns -> NoDup ps -> Forall (fun p => 0 <= p < len ns) ps ->
  NoDup (map (name ns) ps).
Proof.
  intros Hnd Hl Hpos. pose proof (proj1 (name_NoDup ns) Hnd) as Hinj.
  induction ps as [|p l IH]; [constructor|].
  apply NoDup_cons_iff in Hl. destruct Hl as [Hp Hl]. cbn [map].
  pose proof (Forall_inv Hpos) as Hpp. cbv beta in Hpp.
  apply Forall_inv_tail in Hpos. constructor; [|now apply IH].
  intros Hin. apply in_map_iff in Hin. destruct Hin as (q & E & Hq).
  rewrite Forall_forall in Hpos. specialize (Hpos q Hq).
  apply Hinj in E; [subst q; contradiction|lia|lia].
Qed.

(** The test of the leaf file in [main]: the number of leaves of the
    network whose name is in the file, against the number of names in
    the file. *)
Lemma leaf_check_counts root0 leaf_file network_file :
  let ns0 := fst (read_network network_file [] []) in
  let es0 := snd (read_network network_file [] []) in
  let node_type1 := fst (fst (Node_Type_Inform1 (fun _ => 0) (len ns0) es0 root0)) in
  let leaf_nodes := filter (fun i => node_type1 i =? LEAVE) (upto (len ns0)) in
  let n_l := len leaf_nodes in
  let net_leaves := map (name ns0) leaf_nodes in
  let node_strings := fst (Move_Leaves_Front net_leaves 0 ns0 es0) in
  let leave_names := read_leaves leaf_file [] in
  let in_cluster :=
    fun i => if (0 <=? i) && (i <? n_l)
             then Is_In_Str (name node_strings i) leave_names else 0 in
  NoDup net_leaves
  /\ len (filter (fun i => in_cluster i =? 1) (upto n_l))
     = len (filter (fun s => Is_In_Str s leave_names =? 1) net_leaves).
Proof.
  intros ns0 es0 node_type1 leaf_nodes n_l net_leaves node_strings leave_names in_cluster.
  pose proof (read_network_spec network_file [] [] (NoDup_nil _) (Forall_nil _)) as Hr.
  fold ns0 es0 in Hr.
  assert (Hr' : NoDup ns0 /\ edges_within (len ns0) es0).
  { unfold ns0, es0. destruct (read_network network_file [] []) as [a b].
    cbn [fst snd]. split; apply Hr. }
  clear Hr. destruct Hr' as [Hnd Hw].
  assert (Hsorted : StronglySorted Z.lt leaf_nodes)
    by (apply sorted_filter, upto_sorted).
  assert (Hpos : Forall (fun p => 0 < p < len ns0) leaf_nodes).
  { apply Forall_forall. intros p Hp. apply filter_In in Hp. destruct Hp as [Hp Ht].
    apply upto_In in Hp. apply Z.eqb_eq in Ht.
    destruct (Z.eq_dec p 0) as [->|Hne]; [|lia].
    exfalso. exact (first_node_no_leaf network_file root0 Ht). }
  assert (Hndl : NoDup net_leaves).
  { apply names_NoDup; [exact Hnd|apply NoDup_filter, upto_NoDup|].
    eapply Forall_impl; [|exact Hpos]. cbv beta. intros; lia. }
  split; [exact Hndl|].
  pose proof (Move_Leaves_Front_spec leaf_nodes 0 ns0 es0 Hnd Hw (Z.le_refl 0)
                Hsorted Hpos) as Hm.
  fold net_leaves in Hm.
  assert (Hplaced : forall m, (m < List.length leaf_nodes)%nat ->
                              name node_strings (Z.of_nat m)
                              = name ns0 (nth m leaf_nodes 0)).
  { unfold node_strings. destruct (Move_Leaves_Front net_leaves 0 ns0 es0) as [a b].
    cbn [fst]. intros m Hlt. destruct Hm as (_ & _ & _ & _ & _ & _ & Hm).
    exact (Hm m Hlt). }
  rewrite (list_by_index net_leaves EmptyString) at 1.
  assert (Hlen : len net_leaves = n_l).
  { unfold net_leaves, n_l, len. now rewrite length_map. }
  rewrite Hlen.
  assert (Hfm : forall (f : Z -> string) (h : string -> bool) l,
             len (filter h (map f l)) = len (filter (fun i => h (f i)) l)).
  { intros f h l. unfold len. f_equal. induction l as [|i l IH]; [reflexivity|].
    cbn [map filter]. destruct (h (f i)); cbn [List.length]; now rewrite IH. }
  rewrite Hfm. unfold len. f_equal. f_equal. apply filter_ext_in.
  intros i Hi. apply upto_In in Hi. unfold in_cluster.
  destruct (Z.leb_spec 0 i) as [_|H]; [|lia].
  destruct (Z.ltb_spec i n_l) as [_|H]; [|lia]. cbn [andb].
  do 2 f_equal.
  replace i with (Z.of_nat (Z.to_nat i)) at 1 by lia.
  rewrite Hplaced by (unfold n_l, len in Hi; lia).
  unfold net_leaves.
  rewrite (nth_indep _ EmptyString (name ns0 0))
    by (rewrite length_map; unfold n_l, len in Hi; lia).
  now rewrite (map_nth (name ns0)).
Qed.

Lemma main_exit_10 fuel root0 argv leaf_file network_file out :
  CCP_main.main fuel root0 argv leaf_file network_file = Some (10, out)
  <-> CCP_main.check_input root0 argv leaf_file network_file = CCP_main.Exit 10 out.
Proof.
  unfold CCP_main.main. split.
  - destruct (CCP_main.check_input root0 argv leaf_file network_file)
      as [code o|ns es nt root n_l il ic o].
    + intros H. injection H as -> ->. reflexivity.
    + destruct (CCP_main.prepare _ _ _ _ _ _ _) as [si|]; [|discriminate].
      destruct (CCP_main.search _ _) as [r|]; discriminate.
  - intros ->. reflexivity.
Qed.

(** X11.  [main] returns 10 with the message about a leaf of the
    cluster exactly when the arguments and the topology pass and the
    leaf file holds a name that is not the name of a leaf of the
    network. *)
Theorem X11_leaf_file_must_name_leaves :
  forall fuel root0 argv leaf_file network_file,
    let ns := fst (read_network network_file [] []) in
    let es := snd (read_network network_file [] []) in
    CCP_main.main fuel root0 argv leaf_file network_file = Some (10, CCP_main.msg_leaf)
    <-> (len argv = 3
         /\ snd (Node_Type_Inform1 (fun _ => 0) (len ns) es root0) = 0
         /\ exists s, In s leaf_file /\ ~ In s (network_leaves root0 network_file)).
Proof.
  intros fuel root0 argv leaf_file network_file ns es.
  rewrite main_exit_10.
  pose proof (leaf_check_counts root0 leaf_file network_file) as Hcount.
  cbv zeta in Hcount. destruct Hcount as [Hndl Hcount].
  destruct (read_leaves_spec leaf_file [] (NoDup_nil _)) as [Hndb Hinb].
  pose proof (count_members (read_leaves leaf_file [])
                (network_leaves root0 network_file) Hndb) as Hmem.
  unfold CCP_main.check_input, network_leaves in *. unfold ns, es.
  destruct (read_network network_file [] []) as [ns0 es0]. cbn [fst snd] in *.
  assert (Hx : snd (Node_Type_Inform1 (fun _ => 0) (len ns0) es0 root0) = 0
               \/ snd (Node_Type_Inform1 (fun _ => 0) (len ns0) es0 root0) = -2).
  { unfold Node_Type_Inform1. cbn [snd]. destruct (_ || _); [right|left]; reflexivity. }
  destruct (Node_Type_Inform1 (fun _ => 0) (len ns0) es0 root0) as [[nt1 root1] x].
  cbn [fst snd] in *. specialize (Hmem Hndl).
  destruct (Z.eqb_spec (len argv) 3) as [Ha|Ha]; cbn [negb].
  2:{ split; [intros H; discriminate H|intros (H & _); contradiction]. }
  destruct (Z.ltb_spec x 0) as [Hneg|Hpos].
  { split; [intros H; discriminate H|intros (_ & H & _); lia]. }
  assert (Ex : x = 0) by lia.
  destruct (Move_Leaves_Front _ 0 ns0 es0) as [node_strings es'] eqn:Em.
  cbn [fst] in Hcount.
  destruct (Node_Type_Inform1 nt1 (len ns0) es' root1) as [[nt2 root2] x2].
  cbv zeta. rewrite Hcount.
  destruct (Z.eqb_spec
              (len (filter (fun s => Is_In_Str s (read_leaves leaf_file []) =? 1)
                           (map (name ns0)
                                (filter (fun i => nt1 i =? LEAVE) (upto (len ns0))))))
              (len (read_leaves leaf_file []))) as [E|E]; cbn [negb].
  - apply Hmem in E. split.
    + destruct (_ || _); intros H; discriminate H.
    + intros (_ & _ & s & Hs & Hns). exfalso. apply Hns, E, Hinb. now right.
  - split; [|reflexivity]. intros _. split; [exact Ha|]. split; [exact Ex|].
    destruct (Forall_Exists_dec
                (fun s => In s (map (name ns0)
                                    (filter (fun i => nt1 i =? LEAVE) (upto (len ns0)))))
                (fun s => in_dec string_dec s _) (read_leaves leaf_file []))
      as [Hall|Hex].
    + exfalso. apply E, Hmem. intros s Hs. rewrite Forall_forall in Hall. now apply Hall.
    + apply Exists_exists in Hex. destruct Hex as (s & Hs & Hns).
      exists s. split; [|exact Hns]. apply Hinb in Hs. destruct Hs as [[]|Hs]. exact Hs.
Qed.

Lemma X11_leaf_file_must_name_leaves_witness :
  CCP_main.main 0 0 ccp_argv ["leaf1"; "leaf9"]%string reference_network
  = Some (10, CCP_main.msg_leaf).
Proof.
  apply (X11_leaf_file_must_name_leaves 0 0 ccp_argv ["leaf1"; "leaf9"]%string
           reference_network).
  split; [reflexivity|]. split; [vm_compute; reflexivity|].
  exists "leaf9"%string. split; [right; now left|].
  vm_compute. intuition discriminate.
Defined.

(** ** The component trees: search, construction, pruning *)

Lemma find_over_app {A} (f : A -> bool) l1 l2 :
  find f (l1 ++ l2) = match find f l1 with
                      | Some x => Some x
                      | None => find f l2
                      end.
Proof.
  induction l1 as [|x l1 IH]; [reflexivity|]. cbn [app find].
  destruct (f x); [reflexivity|exact IH].
Qed.

Lemma Search_Revised_find t :
  forall v, Search_Revised t v = find (fun p => label p =? v) (nodes t).
Proof.
  induction t as [l f cs IH] using arb_tnode_ind. intros v.
  cbn [Search_Revised nodes find label child].
  destruct (l =? v); [reflexivity|].
  induction cs as [|c cs IHcs]; [reflexivity|].
  cbn [flat_map]. rewrite find_over_app.
  rewrite <- (Forall_inv IH v).
  destruct (Search_Revised c v); [reflexivity|].
  apply IHcs. exact (Forall_inv_tail IH).
Qed.

(** X12.  [Search_Revised] returns the first node, in preorder, that
    carries the label: a node of the tree with that label when there is
    one, and null exactly when no node of the tree carries it. *)
Theorem X12_Search_Revised_finds_the_first_node :
  forall t v,
    Search_Revised t v = find (fun p => label p =? v) (nodes t)
    /\ (forall p, Search_Revised t v = Some p -> In p (nodes t) /\ label p = v)
    /\ (Search_Revised t v = None <-> ~ In v (map label (nodes t))).
Proof.
  intros t v. rewrite Search_Revised_find. split; [reflexivity|]. split.
  - intros p H. apply find_some in H. destruct H as [H1 H2].
    split; [exact H1|]. now apply Z.eqb_eq.
  - split.
    + intros H Hin. apply in_map_iff in Hin. destruct Hin as (p & E & Hp).
      pose proof (find_none _ _ H p Hp) as Hn. cbv beta in Hn.
      rewrite E, Z.eqb_refl in Hn. discriminate.
    + intros H. destruct (find _ _) as [p|] eqn:E; [|reflexivity].
      apply find_some in E. destruct E as [E1 E2]. apply Z.eqb_eq in E2.
      exfalso. apply H. apply in_map_iff. exists p. split; assumption.
Qed.

Lemma Is_In_Comp_spec t :
  forall v,
    Is_In_Comp t v
    = if existsb (fun p => match child p with
                           | [] => v =? label p
                           | _ :: _ => false
                           end) (nodes t)
      then 1 else 0.
Proof.
  induction t as [l f cs IH] using arb_tnode_ind. intros v.
  cbn [Is_In_Comp nodes existsb child label].
  destruct cs as [|c0 cs0]; [cbn [flat_map existsb]; rewrite orb_false_r;
                             destruct (v =? l); reflexivity|].
  cbn [orb]. set (cs := c0 :: cs0) in *.
  set (leaf_here := fun p => match child p with
                             | [] => v =? label p
                             | _ :: _ => false
                             end).
  assert (H : forall k, 0 <= k ->
             let total :=
               (fix sum (cs : list arb_tnode) (k : Z) : Z :=
                  match cs with
                  | [] => k
                  | c :: cs' => sum cs' (k + Is_In_Comp c v)
                  end) cs k in
             0 <= total
             /\ (0 < total <-> 0 < k \/ existsb leaf_here (flat_map nodes cs) = true)).
  { clearbody cs. clear c0 cs0. induction cs as [|c cs IHcs]; intros k Hk total.
    - subst total. cbn [flat_map existsb]. split; [lia|]. intuition (try lia; discriminate).
    - subst total. cbn [flat_map]. rewrite existsb_app.
      pose proof (Forall_inv IH v) as Hc. fold leaf_here in Hc.
      assert (Hck : 0 <= k + Is_In_Comp c v)
        by (rewrite Hc; destruct (existsb leaf_here (nodes c)); lia).
      destruct (IHcs (Forall_inv_tail IH) (k + Is_In_Comp c v) Hck) as [H1 H2].
      split; [exact H1|]. rewrite H2, Hc.
      destruct (existsb leaf_here (nodes c)); cbn [orb]; intuition lia. }
  destruct (H 0 (Z.le_refl 0)) as [H1 H2]. cbv zeta in H1, H2.
  match type of H1 with
  | 0 <= ?u => match goal with |- context [?t >? 0] => change t with u end
  end.
  match goal with
  | |- context [?t >? 0] => destruct (Z.gtb_spec t 0) as [G|G]
  end; destruct (existsb leaf_here (flat_map nodes cs)) eqn:E; try reflexivity; exfalso.
  - assert (Hr : 0 < 0 \/ false = true) by (apply H2; lia).
    destruct Hr as [Hr|Hr]; [lia|discriminate].
  - assert (Hr : 0 < 0 \/ true = true) by (right; reflexivity).
    apply H2 in Hr. lia.
Qed.

(** X13.  [Is_In_Comp] returns 1 or 0, and 1 exactly when a childless
    node of the tree carries the label; a label that only nodes with
    children carry is not counted. *)
Theorem X13_Is_In_Comp_looks_at_the_childless_nodes :
  forall t v,
    (Is_In_Comp t v = 1 \/ Is_In_Comp t v = 0)
    /\ (Is_In_Comp t v = 1 <-> exists p, In p (nodes t) /\ child p = [] /\ label p = v).
Proof.
  intros t v. rewrite Is_In_Comp_spec.
  destruct (existsb _ (nodes t)) eqn:E.
  - split; [now left|]. split; [intros _|reflexivity].
    apply existsb_exists in E. destruct E as (p & Hp & Hl).
    exists p. split; [exact Hp|]. destruct (child p); [|discriminate].
    split; [reflexivity|]. apply Z.eqb_eq in Hl. now symmetry.
  - split; [now right|]. split; [discriminate|].
    intros (p & Hp & Hc & Hl). exfalso.
    assert (Ht : existsb (fun p => match child p with
                                   | [] => v =? label p
                                   | _ :: _ => false
                                   end) (nodes t) = true).
    { apply existsb_exists. exists p. split; [exact Hp|].
      rewrite Hc. apply Z.eqb_eq. now symmetry. }
    congruence.
Qed.

Lemma nodes_unfold t : nodes t = t :: flat_map nodes (child t).
Proof. destruct t. reflexivity. Qed.

Section Built.
Variable node_type : Z -> Z.
Variable child_array : Z -> list Z.

Let not_ret (v : arb_tnode) : bool := negb (RET =? node_type (label v)).

Lemma Build_Comp_Revised_spec fuel :
  forall l f size ntn t size' ntn',
    Build_Comp_Revised node_type child_array fuel l f size ntn = Some (t, size', ntn') ->
    label t = l /\ flag t = f
    /\ unfolds_graph node_type child_array t
    /\ size' = size + len (flat_map nodes (child t))
    /\ ntn' = ntn + len (filter not_ret (flat_map nodes (child t))).
Proof.
  induction fuel as [|fuel IH]; intros l f size ntn t size' ntn' H; [discriminate H|].
  cbn [Build_Comp_Revised] in H.
  assert (Hleaf : forall sz n, Some (Tnode l f [], sz, n) = Some (t, size', ntn') ->
                               (node_type l =? TREE) || (node_type l =? ROOT) = false ->
                               label t = l /\ flag t = f
                               /\ unfolds_graph node_type child_array t
                               /\ size' = sz + len (flat_map nodes (child t))
                               /\ ntn' = n + len (filter not_ret (flat_map nodes (child t)))).
  { intros sz n E Ht. injection E as <- <- <-. cbn [label flag child flat_map filter].
    unfold len. cbn [List.length]. repeat split; try lia.
    - constructor; [|constructor]. cbn [child label map]. now rewrite Ht.
    - constructor. }
  destruct (Z.eqb_spec (node_type l) LEAVE) as [EL|NL].
  { apply Hleaf in H; [exact H|]. rewrite EL. reflexivity. }
  destruct (Z.eqb_spec (node_type l) RET) as [ER|NR].
  { apply Hleaf in H; [exact H|]. rewrite ER. reflexivity. }
  destruct ((node_type l =? TREE) || (node_type l =? ROOT)) eqn:Et;
    [|apply Hleaf in H; [exact H|reflexivity]].
  clear Hleaf.
  match type of H with
  | match ?F (child_array l) size ntn with _ => _ end = _ =>
      assert (Hover : forall children sz n cs sz' n',
                 F children sz n = Some (cs, sz', n') ->
                 map label cs = children
                 /\ Forall (unfolds_graph node_type child_array) cs
                 /\ Forall (fun v => flag v = 0) cs
                 /\ sz' = sz + len (flat_map nodes cs)
                 /\ n' = n + len (filter not_ret (flat_map nodes cs)));
      [|destruct (F (child_array l) size ntn) as [[[cs sz'] n']|] eqn:E;
        [apply Hover in E|discriminate H]]
  end.
  { induction children as [|q rest IHr]; intros sz n cs sz' n' E.
    - injection E as <- <- <-. unfold len. cbn. repeat split; try constructor; lia.
    - destruct (Build_Comp_Revised node_type child_array fuel q 0 (sz + 1) _)
        as [[[c sz1] n1]|] eqn:Ec; [|discriminate E].
      match type of E with
      | match ?o with _ => _ end = _ => destruct o as [[[cs0 sz2] n2]|] eqn:Eo
      end; [|discriminate E].
      injection E as <- <- <-.
      apply IH in Ec. destruct Ec as (Hl & Hf & Hu & Hs & Hn).
      apply IHr in Eo. destruct Eo as (Hm & Hus & Hfs & Hss & Hns).
      cbn [map flat_map]. rewrite filter_app, !len_app.
      rewrite (nodes_unfold c).
      assert (Hnr : not_ret c = negb (RET =? node_type q))
        by (unfold not_ret; now rewrite Hl).
      cbn [filter]. rewrite Hnr.
      split; [now rewrite Hl, Hm|]. split; [now constructor|].
      split; [now constructor|].
      unfold len in *. cbn [List.length].
      destruct (negb (RET =? node_type q)); cbn [List.length]; lia. }
  destruct E as (Hm & Hus & Hfs & Hss & Hns).
  injection H as <- <- <-. cbn [label flag child].
  split; [reflexivity|]. split; [reflexivity|]. split; [|split; assumption].
  split.
  - cbn [nodes child]. constructor.
    + cbn [child label]. now rewrite Et.
    + clear - Hus. induction cs as [|c cs IHc]; [constructor|].
      cbn [flat_map]. apply Forall_app. split.
      * exact (proj1 (Forall_inv Hus)).
      * apply IHc. exact (Forall_inv_tail Hus).
  - cbn [child]. clear - Hus Hfs. induction cs as [|c cs IHc]; [constructor|].
    cbn [flat_map]. apply Forall_app. split.
    + rewrite (nodes_unfold c). constructor.
      * exact (Forall_inv Hfs).
      * exact (proj2 (Forall_inv Hus)).
    + apply IHc; [exact (Forall_inv_tail Hus)|exact (Forall_inv_tail Hfs)].
Qed.

Lemma unfolds_component_tree t :
  Forall (fun v => map label (child v)
                   = if (node_type (label v) =? TREE) || (node_type (label v) =? ROOT)
                     then child_array (label v) else [])
         (nodes t) ->
  component_tree node_type t.
Proof.
  unfold component_tree. intros H. eapply Forall_impl; [|exact H].
  cbv beta. intros v Hv Hc.
  destruct (Z.eqb_spec (node_type (label v)) TREE) as [E|_]; [now left|].
  destruct (Z.eqb_spec (node_type (label v)) ROOT) as [E|_]; [now right|].
  cbn [orb] in Hv. destruct (child v); [contradiction|discriminate].
Qed.
End Built.

(** X14.  The tree that [Build_Comp_Revised] returns unfolds the graph
    from the given node: the root keeps its label and flag, the children
    of a node are the children of its label in [child_array] when the
    label is tree-typed or the root, leaves and reticulations have no
    children, and the nodes below the root carry the flag 0.  [size]
    grows by the number of nodes below the root and [no_tree_node] by
    the number of them that are not reticulations.  (The C function
    stores the children in an array of MAXDEGREE cells; the statement is
    about graphs within that bound.) *)
Theorem X14_Build_Comp_Revised_unfolds_the_graph :
  forall node_type child_array fuel l f size ntn t size' ntn',
    Build_Comp_Revised node_type child_array fuel l f size ntn = Some (t, size', ntn') ->
    label t = l /\ flag t = f
    /\ unfolds_graph node_type child_array t
    /\ component_tree node_type t
    /\ size' = size + len (nodes t) - 1
    /\ ntn' = ntn + len (filter (fun v => negb (RET =? node_type (label v)))
                                (flat_map nodes (child t))).
Proof.
  intros node_type child_array fuel l f size ntn t size' ntn' H.
  apply Build_Comp_Revised_spec in H. destruct H as (Hl & Hf & Hu & Hs & Hn).
  split; [exact Hl|]. split; [exact Hf|]. split; [exact Hu|].
  split; [apply (unfolds_component_tree node_type child_array), Hu|].
  split; [|exact Hn].
  rewrite Hs. destruct t as [l0 f0 cs]. cbn [nodes child]. unfold len.
  cbn [List.length]. lia.
Qed.

Lemma X14_Build_Comp_Revised_unfolds_the_graph_witness :
  exists t size' ntn',
    Build_Comp_Revised level_types level_children 5 7 0 1 1 = Some (t, size', ntn')
    /\ map label (nodes t) = [7; 5; 4; 1; 6; 4; 3; 2]
    /\ component_tree level_types t
    /\ size' = 1 + len (nodes t) - 1.
Proof.
  destruct (Build_Comp_Revised level_types level_children 5 7 0 1 1)
    as [[[t s] n]|] eqn:E; [|vm_compute in E; discriminate E].
  exists t, s, n. split; [reflexivity|].
  pose proof (X14_Build_Comp_Revised_unfolds_the_graph _ _ _ _ _ _ _ _ _ _ E)
    as (_ & _ & _ & Hc & Hs & _).
  split; [|split; assumption].
  vm_compute in E. injection E as <- _ _. reflexivity.
Defined.

Section Cut.
Variable node_type : Z -> Z.
Variable r : Z.
Hypothesis r_not_tree : node_type r <> TREE /\ node_type r <> ROOT.

Let others (ls : list Z) : list Z := filter (fun l => negb (l =? r)) ls.
Let hits (ls : list Z) : Z := len (filter (fun l => l =? r) ls).
Let cuts (a : Z) (vs : list arb_tnode) : bool :=
  existsb (fun v => (a =? label v) && existsb (fun c => label c =? r) (child v)) vs.

Let Modify1_post (p : arb_tnode) (sz : Z) (ne : Z -> Z -> Z)
  (out : arb_tnode * Z * (Z -> Z -> Z)) : Prop :=
  let '(p', sz', ne') := out in
  label p' = label p
  /\ flag p' = flag p
  /\ map label (flat_map nodes (child p'))
     = others (map label (flat_map nodes (child p)))
  /\ component_tree node_type p'
  /\ sz' = sz - hits (map label (flat_map nodes (child p)))
  /\ (forall a b, ne' a b = if (b =? r) && cut_edge r p a then 0 else ne a b).

Lemma Modify1_spec p :
  component_tree node_type p ->
  forall sz ne, Modify1_post p sz ne (Modify1 node_type r p sz ne).
Proof.
  induction p as [l f cs IH] using arb_tnode_ind. intros Hct sz ne.
  assert (Hsame : Modify1_post (Tnode l f cs) sz ne (Tnode l f cs, sz, ne)
                  \/ (node_type l =? TREE) || (node_type l =? ROOT) = true).
  { destruct ((node_type l =? TREE) || (node_type l =? ROOT)) eqn:Et; [now right|left].
    assert (Hcs : cs = []).
    { destruct cs as [|c cs']; [reflexivity|]. exfalso.
      pose proof (Forall_inv Hct) as H. cbn [child label] in H.
      destruct H as [H|H]; [discriminate|rewrite H in Et|rewrite H in Et];
        vm_compute in Et; discriminate Et. }
    subst cs. unfold Modify1_post, cut_edge. cbn [child flat_map map nodes existsb label].
    unfold others, hits, len. cbn [filter List.length].
    repeat split; try reflexivity; try exact Hct; try lia.
    intros a b. rewrite !andb_false_r. reflexivity. }
  cbn [Modify1].
  destruct (node_type l =? LEAVE) eqn:EL.
  { destruct Hsame as [H|Ht]; [exact H|].
    apply Z.eqb_eq in EL. rewrite EL in Ht. discriminate Ht. }
  destruct (node_type l =? RET) eqn:ER.
  { destruct Hsame as [H|Ht]; [exact H|].
    apply Z.eqb_eq in ER. rewrite ER in Ht. discriminate Ht. }
  destruct ((node_type l =? TREE) || (node_type l =? ROOT)) eqn:Et.
  2:{ destruct Hsame as [H|Ht]; [exact H|discriminate Ht]. }
  clear Hsame.
  assert (Hkids : Forall (component_tree node_type) cs).
  { apply Forall_forall. intros c Hc. exact (component_tree_child _ _ _ _ _ Hct Hc). }
  match goal with
  | |- context [?F cs sz ne] =>
      assert (Hover : forall cs sz ne,
                 Forall (fun c => component_tree node_type c ->
                                  forall sz ne,
                                    Modify1_post c sz ne (Modify1 node_type r c sz ne)) cs ->
                 Forall (component_tree node_type) cs ->
                 let '(cs', sz', ne') := F cs sz ne in
                 map label (flat_map nodes cs') = others (map label (flat_map nodes cs))
                 /\ Forall (component_tree node_type) cs'
                 /\ sz' = sz - hits (map label (flat_map nodes cs))
                 /\ (forall a b,
                        ne' a b
                        = if (b =? r) && ((a =? l) && existsb (fun c => label c =? r) cs
                                          || cuts a (flat_map nodes cs))
                          then 0 else ne a b));
      [|specialize (Hover cs sz ne IH Hkids); destruct (F cs sz ne) as [[cs' sz'] ne']]
  end.
  { clear - r_not_tree. intros cs. induction cs as [|c cs IHcs]; intros sz ne IH Hkids.
    - unfold others, hits, cuts, len. cbn. repeat split; try constructor; try lia.
      intros a b. rewrite !andb_false_r. reflexivity.
    - pose proof (Forall_inv Hkids) as Hc. pose proof (Forall_inv_tail Hkids) as Hcs.
      pose proof (Forall_inv IH Hc) as IHc. pose proof (Forall_inv_tail IH) as IHrest.
      destruct (Z.eqb_spec (label c) r) as [E|E].
      + specialize (IHcs (sz - 1) (upd2 ne l (label c) 0) IHrest Hcs).
        destruct (_ cs (sz - 1) (upd2 ne l (label c) 0)) as [[cs' sz'] ne'].
        destruct IHcs as (H1 & H2 & H3 & H4).
        assert (Hleafc : child c = []).
        { destruct (child c) eqn:Ech; [reflexivity|]. exfalso.
          pose proof Hc as Hc'. unfold component_tree in Hc'.
          rewrite (nodes_unfold c) in Hc'. pose proof (Forall_inv Hc') as H.
          cbv beta in H. specialize (H ltac:(rewrite Ech; discriminate)).
          rewrite E in H. destruct r_not_tree. destruct H; contradiction. }
        cbn [flat_map]. rewrite (nodes_unfold c), Hleafc. cbn [flat_map app map].
        unfold others, hits, cuts in *. cbn [filter existsb].
        rewrite Hleafc. cbn [existsb]. rewrite E, Z.eqb_refl. cbn [negb].
        split; [exact H1|]. split; [exact H2|]. split.
        { rewrite H3. unfold len. cbn [List.length]. lia. }
        intros a b. rewrite H4. unfold upd2. rewrite E.
        destruct (b =? r), (a =? l), (a =? r),
          (existsb (fun c0 => label c0 =? r) cs),
          (existsb (fun v => (a =? label v) && existsb (fun c0 => label c0 =? r) (child v))
                   (flat_map nodes cs)); reflexivity.
      + specialize (IHc sz ne). unfold Modify1_post in IHc.
        destruct (Modify1 node_type r c sz ne) as [[c' sz1] ne1].
        destruct IHc as (G1 & _ & G2 & G3 & G4 & G5).
        specialize (IHcs sz1 ne1 IHrest Hcs).
        destruct (_ cs sz1 ne1) as [[cs' sz2] ne2].
        destruct IHcs as (H1 & H2 & H3 & H4).
        cbn [flat_map]. rewrite (nodes_unfold c), (nodes_unfold c').
        cbn [app map]. rewrite !map_app. unfold others, hits, cuts in *.
        cbn [filter existsb]. rewrite G1.
        destruct (Z.eqb_spec (label c) r) as [E'|_]; [contradiction|]. cbn [negb].
        rewrite !filter_app, len_app.
        split; [now rewrite G2, H1|]. split; [now constructor|].
        split; [lia|].
        intros a b. rewrite H4, G5. unfold cut_edge.
        rewrite (nodes_unfold c). cbn [existsb]. rewrite existsb_app.
        destruct (b =? r), (a =? l), (a =? label c),
          (existsb (fun c0 => label c0 =? r) cs),
          (existsb (fun c0 => label c0 =? r) (child c)),
          (existsb (fun v => (a =? label v) && existsb (fun c0 => label c0 =? r) (child v))
                   (flat_map nodes (child c))),
          (existsb (fun v => (a =? label v) && existsb (fun c0 => label c0 =? r) (child v))
                   (flat_map nodes cs)); reflexivity. }
  destruct Hover as (H1 & H2 & H3 & H4).
  unfold Modify1_post. cbn [label flag child]. split; [reflexivity|].
  split; [reflexivity|]. split; [exact H1|]. split.
  { unfold component_tree. cbn [nodes child]. constructor.
    - intros _. cbn [label]. apply orb_true_iff in Et.
      destruct Et as [Et|Et]; apply Z.eqb_eq in Et; [now left|now right].
    - clear - H2. induction cs' as [|c cs' IHc]; [constructor|].
      cbn [flat_map]. apply Forall_app. split.
      + exact (Forall_inv H2).
      + apply IHc. exact (Forall_inv_tail H2). }
  split; [exact H3|].
  intros a b. rewrite H4. unfold cut_edge, cuts. cbn [nodes child existsb label].
  reflexivity.
Qed.
End Cut.

(** X15.  In a component tree, [Modify1] removes exactly the nodes
    below the root that are labelled [unstb_ret] (a label that is not
    tree-typed) and keeps the others in their order; the result is again
    a component tree, [comp_size] drops by the number of nodes removed,
    and [net_edges] loses the edges from the parents of the removed
    nodes into [unstb_ret] and nothing else. *)
Theorem X15_Modify1_cuts_every_edge_into_the_reticulation
  (node_type : Z -> Z) (unstb_ret : Z) (p : arb_tnode) (comp_size : Z)
  (net_edges : Z -> Z -> Z) :
  component_tree node_type p ->
  node_type unstb_ret <> TREE -> node_type unstb_ret <> ROOT ->
  let '(p', comp_size', net_edges') :=
    Modify1 node_type unstb_ret p comp_size net_edges in
  map label (nodes p')
  = label p :: filter (fun l => negb (l =? unstb_ret))
                      (map label (flat_map nodes (child p)))
  /\ flag p' = flag p
  /\ component_tree node_type p'
  /\ comp_size'
     = comp_size - len (filter (fun l => l =? unstb_ret)
                               (map label (flat_map nodes (child p))))
  /\ (forall a b,
         net_edges' a b
         = if (b =? unstb_ret) && cut_edge unstb_ret p a then 0 else net_edges a b).
Proof.
  intros Hct Ht Hr.
  pose proof (Modify1_spec node_type unstb_ret (conj Ht Hr) p Hct comp_size net_edges) as H.
  destruct (Modify1 node_type unstb_ret p comp_size net_edges) as [[p' sz'] ne'].
  destruct H as (H1 & H2 & H3 & H4 & H5 & H6).
  rewrite (nodes_unfold p'). cbn [map]. rewrite H1, H3.
  repeat split; try assumption.
Qed.

Lemma X15_Modify1_cuts_every_edge_into_the_reticulation_witness :
  let '(p', comp_size', net_edges') :=
    Modify1 small_types 2 small_tree 3 (fun _ _ => 1) in
  map label (nodes p') = [0; 1] /\ comp_size' = 2 /\ net_edges' 0 2 = 0
  /\ net_edges' 0 1 = 1.
Proof.
  assert (Hct : component_tree small_types small_tree).
  { unfold component_tree. cbn [nodes small_tree child flat_map app].
    constructor; [intros _; now right|].
    constructor; [intros H; now elim H|].
    constructor; [intros H; now elim H|constructor]. }
  assert (Ht : small_types 2 <> TREE) by (vm_compute; discriminate).
  assert (Hr : small_types 2 <> ROOT) by (vm_compute; discriminate).
  pose proof (X15_Modify1_cuts_every_edge_into_the_reticulation
                small_types 2 small_tree 3 (fun _ _ => 1) Hct Ht Hr) as H.
  destruct (Modify1 small_types 2 small_tree 3 (fun _ _ => 1)) as [[p' sz'] ne'].
  destruct H as (H1 & _ & _ & H4 & H5).
  split; [exact H1|]. split; [exact H4|]. split; rewrite H5; reflexivity.
Defined.

(** ** The distance counts the disagreements *)

Lemma BITSET_bit a b j :
  0 <= b -> 0 <= j ->
  result_bit (SRFD.BITSET a b) j = (j =? b) || result_bit a j.
Proof.
  intros Hb Hj. unfold result_bit, SRFD.BITSET, upd.
  pose proof (Z.div_mod j 32 ltac:(lia)) as Ej.
  pose proof (Z.div_mod b 32 ltac:(lia)) as Eb.
  pose proof (Z.mod_pos_bound b 32 ltac:(lia)) as Hm.
  destruct (Z.eqb_spec (j / 32) (b / 32)) as [E|E].
  - rewrite <- E, Z.lor_spec, Z.shiftl_1_l, Z.pow2_bits_eqb by lia.
    rewrite orb_comm. f_equal.
    destruct (Z.eqb_spec (b mod 32) (j mod 32)) as [E1|E1],
             (Z.eqb_spec j b) as [E2|E2]; try reflexivity; exfalso.
    + apply E2. lia.
    + apply E1. now rewrite E2.
  - destruct (Z.eqb_spec j b) as [E2|E2]; [|reflexivity].
    exfalso. apply E. now rewrite E2.
Qed.

Lemma BITSET_word a b :
  (forall w, 0 <= a w < 2 ^ 32) -> forall w, 0 <= SRFD.BITSET a b w < 2 ^ 32.
Proof.
  intros Ha w. unfold SRFD.BITSET, upd.
  destruct (w =? b / 32); [|apply Ha].
  apply lor_below; [apply Ha|].
  pose proof (Z.mod_pos_bound b 32 ltac:(lia)) as Hm.
  rewrite Z.shiftl_1_l. split; [apply Z.pow_nonneg; lia|].
  apply Z.pow_lt_mono_r; lia.
Qed.

(** One call of [Is_Cluster] on a proper subset writes its two verdicts
    at the index and moves the index on. *)
Lemma Is_Cluster_bit fuel net1 net2 a rs rs' :
  len a <> 0 -> len a <> SRFD.n_l net1 ->
  0 <= SRFD.no_res rs ->
  result_bit (SRFD.res1 rs) (SRFD.no_res rs) = false ->
  result_bit (SRFD.res2 rs) (SRFD.no_res rs) = false ->
  (forall w, 0 <= SRFD.res1 rs w < 2 ^ 32) ->
  (forall w, 0 <= SRFD.res2 rs w < 2 ^ 32) ->
  SRFD.Is_Cluster fuel net1 net2 a rs = Some (SRFD.Done rs') ->
  SRFD.no_res rs' = SRFD.no_res rs + 1
  /\ (forall w, 0 <= SRFD.res1 rs' w < 2 ^ 32)
  /\ (forall w, 0 <= SRFD.res2 rs' w < 2 ^ 32)
  /\ (forall j, 0 <= j ->
                result_bit (SRFD.res1 rs') j
                = if j =? SRFD.no_res rs then verdict fuel net1 a
                  else result_bit (SRFD.res1 rs) j)
  /\ (forall j, 0 <= j ->
                result_bit (SRFD.res2 rs') j
                = if j =? SRFD.no_res rs then verdict fuel net2 a
                  else result_bit (SRFD.res2 rs) j).
Proof.
  intros H0 Hn Hm Hb1 Hb2 Hw1 Hw2. unfold SRFD.Is_Cluster, verdict.
  destruct (Z.eqb_spec (len a) 0) as [E|_]; [contradiction|].
  destruct (Z.eqb_spec (len a) (SRFD.n_l net1)) as [E|_]; [contradiction|].
  cbn [orb].
  assert (Hset : forall res j, 0 <= j ->
                   result_bit res (SRFD.no_res rs) = false ->
                   result_bit (SRFD.BITSET res (SRFD.no_res rs)) j
                   = if j =? SRFD.no_res rs then true else result_bit res j).
  { intros res j Hj _. rewrite BITSET_bit by lia.
    destruct (j =? SRFD.no_res rs); reflexivity. }
  assert (Hkeep : forall res j,
                    result_bit res (SRFD.no_res rs) = false ->
                    result_bit res j
                    = if j =? SRFD.no_res rs then false else result_bit res j).
  { intros res j Hb. destruct (Z.eqb_spec j (SRFD.no_res rs)) as [->|_];
      [exact Hb|reflexivity]. }
  destruct (len a =? 1).
  - intros H. injection H as <-. cbn [SRFD.no_res SRFD.res1 SRFD.res2 orb].
    split; [reflexivity|]. split; [now apply BITSET_word|].
    split; [now apply BITSET_word|]. split; intros j Hj; now apply Hset.
  - cbn [orb].
    destruct (SRFD.run_search fuel net1 a _) as [[r1|]|]; cbn [SRFD.and_then];
      try discriminate.
    destruct (SRFD.run_search fuel net2 a _) as [[r2|]|]; cbn [SRFD.and_then];
      try discriminate.
    intros H. injection H as <-. cbn [SRFD.no_res SRFD.res1 SRFD.res2].
    split; [reflexivity|].
    split; [destruct (r1 >? 0); [now apply BITSET_word|exact Hw1]|].
    split; [destruct (r2 >? 0); [now apply BITSET_word|exact Hw2]|].
    split; intros j Hj.
    + destruct (r1 >? 0); [now apply Hset|now apply Hkeep].
    + destruct (r2 >? 0); [now apply Hset|now apply Hkeep].
Qed.

(** After the calls on a list of proper subsets, bit [m + i] holds the
    verdict on the subset number [i], where [m] was the index before. *)
Lemma Is_Cluster_all_bits fuel net1 net2 inputs :
  Forall (fun a => len a <> 0 /\ len a <> SRFD.n_l net1) inputs ->
  forall rs rs',
    0 <= SRFD.no_res rs ->
    (forall j, SRFD.no_res rs <= j -> result_bit (SRFD.res1 rs) j = false) ->
    (forall j, SRFD.no_res rs <= j -> result_bit (SRFD.res2 rs) j = false) ->
    (forall w, 0 <= SRFD.res1 rs w < 2 ^ 32) ->
    (forall w, 0 <= SRFD.res2 rs w < 2 ^ 32) ->
    SRFD.Is_Cluster_all fuel net1 net2 inputs rs = Some (SRFD.Done rs') ->
    (forall w, 0 <= SRFD.res1 rs' w < 2 ^ 32)
    /\ (forall w, 0 <= SRFD.res2 rs' w < 2 ^ 32)
    /\ (forall j, 0 <= j ->
                  result_bit (SRFD.res1 rs') j
                  = if j <? SRFD.no_res rs then result_bit (SRFD.res1 rs) j
                    else nth (Z.to_nat (j - SRFD.no_res rs))
                             (map (verdict fuel net1) inputs) false)
    /\ (forall j, 0 <= j ->
                  result_bit (SRFD.res2 rs') j
                  = if j <? SRFD.no_res rs then result_bit (SRFD.res2 rs) j
                    else nth (Z.to_nat (j - SRFD.no_res rs))
                             (map (verdict fuel net2) inputs) false).
Proof.
  induction inputs as [|a inputs IH]; intros Hall rs rs' Hm Hz1 Hz2 Hw1 Hw2 H;
    cbn [SRFD.Is_Cluster_all] in H.
  - injection H as <-. split; [exact Hw1|]. split; [exact Hw2|].
    split; intros j Hj; cbn [map]; destruct (Z.ltb_spec j (SRFD.no_res rs)) as [Hlt|Hge];
      try reflexivity.
    + rewrite Hz1 by lia. now destruct (Z.to_nat _).
    + rewrite Hz2 by lia. now destruct (Z.to_nat _).
  - destruct (SRFD.Is_Cluster fuel net1 net2 a rs) as [[rs1|]|] eqn:E;
      cbn [SRFD.and_then] in H; try discriminate.
    destruct (Forall_inv Hall) as [H0 Hn].
    destruct (Is_Cluster_bit _ _ _ _ _ _ H0 Hn Hm
                (Hz1 _ (Z.le_refl (SRFD.no_res rs))) (Hz2 _ (Z.le_refl (SRFD.no_res rs)))
                Hw1 Hw2 E) as (Ei & Hv1 & Hv2 & Hb1 & Hb2).
    assert (Hz1' : forall j, SRFD.no_res rs1 <= j -> result_bit (SRFD.res1 rs1) j = false).
    { intros j Hj. rewrite Hb1 by lia.
      destruct (Z.eqb_spec j (SRFD.no_res rs)); [lia|]. apply Hz1. lia. }
    assert (Hz2' : forall j, SRFD.no_res rs1 <= j -> result_bit (SRFD.res2 rs1) j = false).
    { intros j Hj. rewrite Hb2 by lia.
      destruct (Z.eqb_spec j (SRFD.no_res rs)); [lia|]. apply Hz2. lia. }
    destruct (IH (Forall_inv_tail Hall) rs1 rs' ltac:(lia) Hz1' Hz2' Hv1 Hv2 H)
      as (Hr1 & Hr2 & Hc1 & Hc2).
    split; [exact Hr1|]. split; [exact Hr2|].
    split; intros j Hj; [rewrite Hc1, Hb1 by lia|rewrite Hc2, Hb2 by lia];
      rewrite Ei; cbn [map];
      destruct (Z.ltb_spec j (SRFD.no_res rs + 1)) as [H1|H1],
               (Z.ltb_spec j (SRFD.no_res rs)) as [H2|H2],
               (Z.eqb_spec j (SRFD.no_res rs)) as [H3|H3]; try lia; try reflexivity.
    + replace (j - SRFD.no_res rs) with 0 by lia. reflexivity.
    + replace (Z.to_nat (j - SRFD.no_res rs))
        with (S (Z.to_nat (j - (SRFD.no_res rs + 1)))) by lia. reflexivity.
    + replace (j - SRFD.no_res rs) with 0 by lia. reflexivity.
    + replace (Z.to_nat (j - SRFD.no_res rs))
        with (S (Z.to_nat (j - (SRFD.no_res rs + 1)))) by lia. reflexivity.
Qed.

Lemma fold_left_sum {A} (f : A -> Z) l :
  forall acc, fold_left (fun d i => d + f i) l acc = acc + fold_right Z.add 0 (map f l).
Proof.
  induction l as [|x l IH]; intros acc; cbn [fold_left map fold_right]; [lia|].
  rewrite IH. lia.
Qed.

Lemma lxor_below a b n :
  0 <= n -> 0 <= a < 2 ^ n -> 0 <= b < 2 ^ n -> 0 <= Z.lxor a b < 2 ^ n.
Proof.
  intros Hn Ha Hb.
  assert (H0 : 0 <= Z.lxor a b) by (apply Z.lxor_nonneg; lia).
  split; [exact H0|].
  destruct (Z.eq_dec (Z.lxor a b) 0) as [E|E].
  { rewrite E. apply Z.pow_pos_nonneg; lia. }
  assert (Hpos : 0 < n).
  { destruct (Z.eq_dec n 0) as [->|Hne]; [|lia]. exfalso. apply E.
    change (2 ^ 0) with 1 in Ha, Hb.
    replace a with 0 by lia. replace b with 0 by lia. reflexivity. }
  apply Z.log2_lt_pow2; [lia|].
  pose proof (Z.log2_lxor a b ltac:(lia) ltac:(lia)) as Hl.
  assert (La : Z.log2 a < n).
  { destruct (Z.eq_dec a 0) as [->|Hne]; [cbn; lia|]. apply Z.log2_lt_pow2; lia. }
  assert (Lb : Z.log2 b < n).
  { destruct (Z.eq_dec b 0) as [->|Hne]; [cbn; lia|]. apply Z.log2_lt_pow2; lia. }
  lia.
Qed.

(** The ones of the word [i] of the difference are the positions
    [32 i .. 32 i + 31] at which the arrays differ. *)
Lemma word_differences r1 r2 i :
  0 <= i ->
  bit_count 32 (Z.lxor (r1 i) (r2 i))
  = len (filter (fun j => xorb (result_bit r1 j) (result_bit r2 j))
                (SRFD.range (32 * i) 32)).
Proof.
  intros Hi. unfold bit_count.
  assert (H : forall c lo, 0 <= lo -> (Z.to_nat lo + c <= 32)%nat ->
                len (filter (Z.testbit (Z.lxor (r1 i) (r2 i))) (SRFD.range lo c))
                = len (filter (fun j => xorb (result_bit r1 j) (result_bit r2 j))
                              (SRFD.range (32 * i + lo) c))).
  { induction c as [|c IH]; intros lo Hlo Hc; [reflexivity|].
    cbn [SRFD.range filter]. rewrite Z.lxor_spec. unfold result_bit at 1 2.
    replace ((32 * i + lo) / 32) with i by (apply Z.div_unique with lo; lia).
    replace ((32 * i + lo) mod 32) with lo by (apply Z.mod_unique with i; lia).
    replace (32 * i + lo + 1) with (32 * i + (lo + 1)) by lia.
    pose proof (IH (lo + 1) ltac:(lia) ltac:(lia)) as IH'.
    destruct (xorb _ _); unfold len in *; cbn [List.length]; lia. }
  rewrite (H 32%nat 0) by (cbn; lia). now rewrite Z.add_0_r.
Qed.

Lemma words_differences (D : Z -> bool) c :
  fold_right Z.add 0
    (map (fun i => len (filter D (SRFD.range (32 * i) 32))) (map Z.of_nat (seq 0 c)))
  = len (filter D (SRFD.range 0 (32 * c))).
Proof.
  induction c as [|c IH]; [reflexivity|].
  rewrite seq_S, !map_app. cbn [map Nat.add].
  assert (Happ : forall l1 l2, fold_right Z.add 0 (l1 ++ l2)
                               = fold_right Z.add 0 l1 + fold_right Z.add 0 l2).
  { induction l1 as [|x l1 IHl]; intros l2; cbn [app fold_right]; [reflexivity|].
    rewrite IHl. lia. }
  rewrite Happ, IH. cbn [fold_right].
  replace (32 * S c)%nat with (32 * c + 32)%nat by lia.
  rewrite range_app, filter_app, len_app.
  replace (0 + Z.of_nat (32 * c)) with (32 * Z.of_nat c) by lia. lia.
Qed.

Lemma count_marked (L : list bool) :
  forall lo c, (List.length L <= c)%nat ->
    len (filter (fun j => nth (Z.to_nat (j - lo)) L false) (SRFD.range lo c))
    = len (filter (fun b => b) L).
Proof.
  induction L as [|b L IH]; intros lo c Hc.
  - cbn [filter]. induction (SRFD.range lo c) as [|j l IHl]; [reflexivity|].
    cbn [filter]. destruct (Z.to_nat (j - lo)); exact IHl.
  - destruct c as [|c]; [cbn in Hc; lia|]. cbn [List.length] in Hc.
    cbn [SRFD.range filter].
    assert (E : filter (fun j => nth (Z.to_nat (j - lo)) (b :: L) false)
                       (SRFD.range (lo + 1) c)
                = filter (fun j => nth (Z.to_nat (j - (lo + 1))) L false)
                         (SRFD.range (lo + 1) c)).
    { apply filter_ext_in. intros j Hj. apply range_In in Hj.
      replace (Z.to_nat (j - lo)) with (S (Z.to_nat (j - (lo + 1)))) by lia.
      reflexivity. }
    rewrite E, Z.sub_diag. change (nth (Z.to_nat 0) (b :: L) false) with b.
    pose proof (IH (lo + 1) c ltac:(lia)) as IH'.
    destruct b; unfold len in *; cbn [List.length]; lia.
Qed.

Lemma nth_xorb (f g : list Z -> bool) l k :
  xorb (nth k (map f l) false) (nth k (map g l) false)
  = nth k (map (fun a => xorb (f a) (g a)) l) false.
Proof.
  revert k. induction l as [|a l IH]; intros [|k]; cbn [map nth]; try reflexivity.
  apply IH.
Qed.

Lemma filter_marked {A} (f : A -> bool) l :
  len (filter (fun b => b) (map f l)) = len (filter f l).
Proof.
  unfold len. induction l as [|x l IH]; [reflexivity|].
  cbn [map filter]. destruct (f x); cbn [List.length]; lia.
Qed.

(** The number that [Find_Cluster_Distance] halves: after the calls on
    the subsets [inputs], started with cleared arrays, the ones of the
    difference are counted once for each subset on which the two
    networks disagree. *)
Lemma count_diff_disagreements fuel net1 net2 inputs rs' rlen :
  Forall (fun a => len a <> 0 /\ len a <> SRFD.n_l net1) inputs ->
  len inputs <= 32 * rlen ->
  SRFD.Is_Cluster_all fuel net1 net2 inputs
    (SRFD.Results (fun _ => 0) (fun _ => 0) 0) = Some (SRFD.Done rs') ->
  SRFD.count_diff rlen rs' = len (filter (disagree fuel net1 net2) inputs).
Proof.
  intros Hall Hlen H.
  assert (Hzero : forall j, result_bit (fun _ => 0) j = false).
  { intros j. unfold result_bit. apply Z.bits_0. }
  assert (Hword : forall w : Z, 0 <= (fun _ : Z => 0) w < 2 ^ 32) by (intros _; lia).
  destruct (Is_Cluster_all_bits _ _ _ _ Hall
              (SRFD.Results (fun _ => 0) (fun _ => 0) 0) rs' (Z.le_refl 0)
              (fun j _ => Hzero j) (fun j _ => Hzero j) Hword Hword H)
    as (Hw1 & Hw2 & Hb1 & Hb2).
  cbn [SRFD.no_res SRFD.res1 SRFD.res2] in Hb1, Hb2.
  unfold SRFD.count_diff. rewrite fold_left_sum, Z.add_0_l. unfold upto.
  assert (E : map (fun i => SRFD.pop (Z.lxor (SRFD.res1 rs' i) (SRFD.res2 rs' i)))
                  (map Z.of_nat (seq 0 (Z.to_nat rlen)))
              = map (fun i => len (filter (fun j => xorb (result_bit (SRFD.res1 rs') j)
                                                         (result_bit (SRFD.res2 rs') j))
                                          (SRFD.range (32 * i) 32)))
                    (map Z.of_nat (seq 0 (Z.to_nat rlen)))).
  { apply map_ext_in. intros i Hi. apply in_map_iff in Hi. destruct Hi as (k & <- & _).
    rewrite <- word_differences by lia. unfold SRFD.pop.
    rewrite (pop_loop_count 32).
    - lia.
    - apply lxor_below; [lia|apply Hw1|apply Hw2].
    - pose proof (bit_count_bounds 32 (Z.lxor (SRFD.res1 rs' (Z.of_nat k))
                                              (SRFD.res2 rs' (Z.of_nat k)))). lia. }
  rewrite E, words_differences.
  transitivity (len (filter (fun j => nth (Z.to_nat (j - 0))
                                          (map (disagree fuel net1 net2) inputs) false)
                            (SRFD.range 0 (32 * Z.to_nat rlen)))).
  - f_equal. apply filter_ext_in. intros j Hj. apply range_In in Hj.
    rewrite Hb1, Hb2 by lia. destruct (Z.ltb_spec j 0) as [Hneg|_]; [lia|].
    unfold disagree. apply nth_xorb.
  - rewrite count_marked; [apply filter_marked|].
    rewrite length_map. unfold len in Hlen. lia.
Qed.

(** The distance from the two networks on: half the number of proper
    subsets of the leaves on which the networks disagree. *)
Lemma Find_Cluster_Distance_counts fuel net1 net2 dist :
  SRFD.n_l net1 <= 29 ->
  SRFD.Find_Cluster_Distance fuel net1 net2 = Some (SRFD.Distance dist) ->
  dist = (inject_Z (len (filter (disagree fuel net1 net2)
                                (SRFD.all_inputs (SRFD.n_l net1)))) / 2)%Q.
Proof.
  intros Hmax. unfold SRFD.Find_Cluster_Distance.
  destruct (negb (SRFD.n_l net1 =? SRFD.n_l net2)); [discriminate|].
  destruct (negb (SRFD.same_leaves net1 net2)); [discriminate|].
  rewrite sizes_loop_all. fold (SRFD.all_inputs (SRFD.n_l net1)).
  destruct (SRFD.Is_Cluster_all fuel net1 net2 (SRFD.all_inputs (SRFD.n_l net1)) _)
    as [[rs'|]|] eqn:E; try discriminate.
  intros H. injection H as <-. do 2 f_equal.
  apply count_diff_disagreements; [| |exact E].
  - destruct (Z.le_gt_cases 0 (SRFD.n_l net1)) as [Hn|Hn].
    + pose proof (all_inputs_sizes (Z.to_nat (SRFD.n_l net1)) ltac:(lia)) as Hs.
      rewrite Z2Nat.id in Hs by lia. exact Hs.
    + unfold SRFD.all_inputs. replace (Z.to_nat (SRFD.n_l net1 - 1)) with O by lia.
      constructor.
  - destruct (Z.le_gt_cases 1 (SRFD.n_l net1)) as [Hn|Hn].
    + pose proof (all_inputs_count (Z.to_nat (SRFD.n_l net1)) ltac:(lia)) as Hc.
      rewrite Z2Nat.id in Hc by lia. rewrite Hc, Z.shiftl_1_l.
      assert (Hp : 0 < 2 ^ SRFD.n_l net1) by (apply Z.pow_pos_nonneg; lia).
      pose proof (Z.div_mod (2 ^ SRFD.n_l net1 + 32 - 1) 32 ltac:(lia)) as Hd.
      pose proof (Z.mod_pos_bound (2 ^ SRFD.n_l net1 + 32 - 1) 32 ltac:(lia)) as Hm.
      lia.
    + unfold SRFD.all_inputs. replace (Z.to_nat (SRFD.n_l net1 - 1)) with O by lia.
      cbn [SRFD.range flat_map]. unfold len. cbn [List.length].
      assert (H0 : 0 <= Z.shiftl 1 (SRFD.n_l net1)) by (apply Z.shiftl_nonneg; lia).
      pose proof (Z.div_pos (Z.shiftl 1 (SRFD.n_l net1) + 32 - 1) 32 ltac:(lia) ltac:(lia)).
      lia.
Qed.

(** X16.  For at most 24 leaves, when every search stays inside the
    arrays and [Find_Cluster_Distance] returns, the distance is half
    the number of proper non-empty subsets of the leaves on which the
    two networks give different verdicts, where a single leaf counts as
    a cluster of both and the search decides for the larger subsets.
    The distance is therefore not negative and, for [n] leaves, at most
    [2^(n-1) - 1].  (Up to 24 leaves the [float] that holds the count
    is exact, and the products of [nChoosek] do not wrap around.) *)
Theorem X16_distance_is_half_the_disagreements fuel net1 net2 dist :
  SRFD.n_l net1 <= 24 ->
  SRFD.Find_Cluster_Distance fuel net1 net2 = Some (SRFD.Distance dist) ->
  dist = (inject_Z (len (filter (disagree fuel net1 net2)
                                (SRFD.all_inputs (SRFD.n_l net1)))) / 2)%Q
  /\ (0 <= dist)%Q
  /\ (1 <= SRFD.n_l net1 -> (dist <= inject_Z (2 ^ (SRFD.n_l net1 - 1) - 1))%Q).
Proof.
  intros Hmax H. apply Find_Cluster_Distance_counts in H; [|lia].
  split; [exact H|]. rewrite H.
  set (c := len (filter (disagree fuel net1 net2) (SRFD.all_inputs (SRFD.n_l net1)))).
  assert (H0 : 0 <= c) by (unfold c, len; lia).
  split.
  - unfold Qle, Qdiv, Qmult, Qinv, inject_Z. cbn. lia.
  - intros Hn.
    assert (Hc : c <= 2 ^ (SRFD.n_l net1) - 2).
    { pose proof (all_inputs_count (Z.to_nat (SRFD.n_l net1)) ltac:(lia)) as Hc.
      rewrite Z2Nat.id in Hc by lia. rewrite <- Hc. unfold c, len.
      pose proof (filter_length_le (disagree fuel net1 net2)
                                   (SRFD.all_inputs (SRFD.n_l net1))). lia. }
    replace (2 ^ SRFD.n_l net1) with (2 * 2 ^ (SRFD.n_l net1 - 1)) in Hc.
    2:{ rewrite <- Z.pow_succ_r by lia. f_equal. lia. }
    unfold Qle, Qdiv, Qmult, Qinv, inject_Z. cbn. lia.
Qed.

Lemma X16_distance_is_half_the_disagreements_witness :
  SRFD.n_l left_tree <= 24
  /\ SRFD.Find_Cluster_Distance 5 left_tree right_tree = Some (SRFD.Distance (2 # 2))
  /\ filter (disagree 5 left_tree right_tree) (SRFD.all_inputs 3) = [[0; 1]; [1; 2]]
  /\ (2 # 2 <= inject_Z 3)%Q.
Proof.
  assert (E : SRFD.Find_Cluster_Distance 5 left_tree right_tree
              = Some (SRFD.Distance (2 # 2))) by (vm_compute; reflexivity).
  split; [vm_compute; discriminate|].
  split; [exact E|]. split; [vm_compute; reflexivity|].
  exact (proj2 (proj2 (X16_distance_is_half_the_disagreements 5 left_tree right_tree
                         (2 # 2) ltac:(vm_compute; discriminate) E))
               ltac:(vm_compute; discriminate)).
Defined.

(** ** Replacing the reticulations and putting them back *)

Section RoundTrip.
Variable node_type : Z -> Z.
Variable leaf_below super_deg : Z -> Z.

Let repl (fl : Z -> Z) (x : Z) : bool := replaced node_type fl leaf_below x.

Lemma Replace_leaf_spec x f s :
  let '(n', s') := Replace_leaf node_type leaf_below super_deg x f s in
  n' = Tnode (if repl (rs_inner_flag s) x then leaf_below x else x) f []
  /\ (forall y, repl (rs_inner_flag s') y = repl (rs_inner_flag s) y)
  /\ rs_rpl_comp s'
     = if repl (rs_inner_flag s) x then upd (rs_rpl_comp s) (leaf_below x) x
       else rs_rpl_comp s.
Proof.
  unfold Replace_leaf, repl, replaced.
  destruct (Z.eqb_spec (node_type x) LEAVE) as [EL|EL].
  { rewrite EL. cbn. repeat split. }
  destruct (Z.eqb_spec (node_type x) RET) as [ER|ER]; [|cbn; repeat split].
  destruct (Z.eqb_spec (leaf_below x) (-2)) as [E2|E2]; [cbn; repeat split|].
  cbn [andb negb].
  destruct (Z.eqb_spec (rs_inner_flag s x) INNER) as [EI|EI]; [cbn; repeat split|].
  destruct (Z.eqb_spec (rs_inner_flag s x) CROSS) as [EC|EC].
  { cbn [orb rs_inner_flag rs_rpl_comp]. split; [reflexivity|]. split; [|reflexivity].
    intros y. unfold upd. destruct (Z.eqb_spec y x) as [->|_]; [|reflexivity].
    rewrite EC. reflexivity. }
  destruct (Z.eqb_spec (rs_inner_flag s x) REVISED) as [EV|EV]; [|cbn; repeat split].
  cbn [orb]. destruct (super_deg x >? 2); cbn; repeat split.
Qed.

(** What [Replace_Ret_Revised] leaves: the tree with the leaves standing
    in, the same reticulations replaceable as before, and in [rpl_comp]
    the reticulation behind each leaf that stands in. *)
Lemma Replace_Ret_Revised_spec t :
  forall s,
    let '(t', s') := Replace_Ret_Revised node_type leaf_below super_deg t s in
    t' = stand_in node_type (rs_inner_flag s) leaf_below t
    /\ (forall y, repl (rs_inner_flag s') y = repl (rs_inner_flag s) y)
    /\ (forall l,
           (rs_rpl_comp s' l = rs_rpl_comp s l
            /\ forall v, In v (nodes t) -> child v = [] ->
                         repl (rs_inner_flag s) (label v) = true ->
                         leaf_below (label v) <> l)
           \/ (exists v, In v (nodes t) /\ child v = []
                         /\ repl (rs_inner_flag s) (label v) = true
                         /\ leaf_below (label v) = l
                         /\ rs_rpl_comp s' l = label v)).
Proof.
  induction t as [x f cs IH] using arb_tnode_ind. intros s.
  destruct cs as [|c0 cs0].
  - cbn [Replace_Ret_Revised stand_in].
    pose proof (Replace_leaf_spec x f s) as H.
    destruct (Replace_leaf node_type leaf_below super_deg x f s) as [n' s'].
    destruct H as (H1 & H2 & H3). split; [exact H1|]. split; [exact H2|].
    intros l. rewrite H3. cbn [nodes child flat_map app].
    destruct (repl (rs_inner_flag s) x) eqn:Er.
    + unfold upd. destruct (Z.eqb_spec l (leaf_below x)) as [->|Hne].
      * right. exists (Tnode x f []). cbn [label child]. repeat split; auto. now left.
      * left. split; [reflexivity|]. intros v [<-|[]] _ _. cbn [label]. congruence.
    + left. split; [reflexivity|]. intros v [<-|[]] _ Hr. cbn [label] in Hr. congruence.
  - set (cs := c0 :: cs0) in *.
    assert (Hover : forall cs s,
               Forall (fun c => forall s,
                         let '(t', s') :=
                           Replace_Ret_Revised node_type leaf_below super_deg c s in
                         t' = stand_in node_type (rs_inner_flag s) leaf_below c
                         /\ (forall y, repl (rs_inner_flag s') y = repl (rs_inner_flag s) y)
                         /\ (forall l,
                                (rs_rpl_comp s' l = rs_rpl_comp s l
                                 /\ forall v, In v (nodes c) -> child v = [] ->
                                              repl (rs_inner_flag s) (label v) = true ->
                                              leaf_below (label v) <> l)
                                \/ (exists v, In v (nodes c) /\ child v = []
                                              /\ repl (rs_inner_flag s) (label v) = true
                                              /\ leaf_below (label v) = l
                                              /\ rs_rpl_comp s' l = label v))) cs ->
               let '(cs', s') :=
                 (fix over (cs : list arb_tnode) (s : replace_state)
                    : list arb_tnode * replace_state :=
                    match cs with
                    | [] => ([], s)
                    | c :: rest =>
                        let '(c', s1) :=
                          Replace_Ret_Revised node_type leaf_below super_deg c s in
                        let '(rest', s2) := over rest s1 in
                        (c' :: rest', s2)
                    end) cs s in
               cs' = map (stand_in node_type (rs_inner_flag s) leaf_below) cs
               /\ (forall y, repl (rs_inner_flag s') y = repl (rs_inner_flag s) y)
               /\ (forall l,
                      (rs_rpl_comp s' l = rs_rpl_comp s l
                       /\ forall v, In v (flat_map nodes cs) -> child v = [] ->
                                    repl (rs_inner_flag s) (label v) = true ->
                                    leaf_below (label v) <> l)
                      \/ (exists v, In v (flat_map nodes cs) /\ child v = []
                                    /\ repl (rs_inner_flag s) (label v) = true
                                    /\ leaf_below (label v) = l
                                    /\ rs_rpl_comp s' l = label v))).
    { clear. intros cs. induction cs as [|c cs IHcs]; intros s IH.
      - cbn [map flat_map]. split; [reflexivity|]. split; [reflexivity|].
        intros l. left. split; [reflexivity|]. intros v [].
      - pose proof (Forall_inv IH s) as Hc. cbv beta in Hc.
        destruct (Replace_Ret_Revised node_type leaf_below super_deg c s) as [c' s1].
        destruct Hc as (C1 & C2 & C3).
        specialize (IHcs s1 (Forall_inv_tail IH)).
        destruct (_ cs s1) as [rest' s2].
        destruct IHcs as (R1 & R2 & R3).
        assert (Est : forall t, stand_in node_type (rs_inner_flag s1) leaf_below t
                                = stand_in node_type (rs_inner_flag s) leaf_below t).
        { clear - C2. induction t as [y g ds IHd] using arb_tnode_ind.
          destruct ds as [|d ds]; cbn [stand_in].
          - fold (repl (rs_inner_flag s1) y). fold (repl (rs_inner_flag s) y).
            now rewrite C2.
          - f_equal. apply map_ext_in. intros e He.
            rewrite Forall_forall in IHd. now apply IHd. }
        cbn [map flat_map].
        split; [rewrite C1, R1; f_equal; apply map_ext; intros; apply Est|].
        split; [intros y; now rewrite R2, C2|].
        intros l. destruct (R3 l) as [(Q1 & Q2)|(v & Hv & Hl & Hr & Hb & Hq)].
        + destruct (C3 l) as [(P1 & P2)|(v & Hv & Hl & Hr & Hb & Hq)].
          * left. split; [congruence|]. intros v Hv Hl Hr. apply in_app_or in Hv.
            destruct Hv as [Hv|Hv]; [now apply P2|]. apply Q2; auto. now rewrite C2.
          * right. exists v. repeat split; auto; [apply in_or_app; now left|congruence].
        + right. exists v. repeat split; auto; [apply in_or_app; now right|].
          now rewrite <- C2. }
    specialize (Hover cs s IH).
    change (Replace_Ret_Revised node_type leaf_below super_deg (Tnode x f cs) s)
      with (let '(cs', s') :=
              (fix over (cs : list arb_tnode) (s : replace_state)
                 : list arb_tnode * replace_state :=
                 match cs with
                 | [] => ([], s)
                 | c :: rest =>
                     let '(c', s1) :=
                       Replace_Ret_Revised node_type leaf_below super_deg c s in
                     let '(rest', s2) := over rest s1 in
                     (c' :: rest', s2)
                 end) cs s in
            (Tnode x f cs', s')).
    destruct (_ cs s) as [cs' s'].
    destruct Hover as (H1 & H2 & H3).
    split; [subst cs'; reflexivity|]. split; [exact H2|].
    intros l. cbn [nodes child].
    destruct (H3 l) as [(Q1 & Q2)|(v & Hv & Hl & Hr & Hb & Hq)].
    + left. split; [exact Q1|]. intros v [<-|Hv] Hl Hr.
      * cbn [child] in Hl. discriminate Hl.
      * now apply Q2.
    + right. exists v. repeat split; auto. now right.
Qed.

(** With the final [rpl_comp], [Rebuilt_Component] turns each stand-in
    back into its reticulation and leaves the rest alone. *)
Lemma Rebuilt_stand_in (whole : arb_tnode) fl rpl :
  (forall v, In v (nodes whole) -> child v = [] -> repl fl (label v) = true ->
             label v <> -1 /\ node_type (leaf_below (label v)) = LEAVE) ->
  (forall v w, In v (nodes whole) -> In w (nodes whole) ->
               child v = [] -> child w = [] ->
               repl fl (label v) = true -> repl fl (label w) = true ->
               leaf_below (label v) = leaf_below (label w) -> label v = label w) ->
  (forall v w, In v (nodes whole) -> In w (nodes whole) ->
               child v = [] -> child w = [] ->
               node_type (label v) = LEAVE -> repl fl (label w) = true ->
               leaf_below (label w) <> label v) ->
  (forall l,
      (rpl l = -1
       /\ forall v, In v (nodes whole) -> child v = [] ->
                    repl fl (label v) = true -> leaf_below (label v) <> l)
      \/ (exists v, In v (nodes whole) /\ child v = []
                    /\ repl fl (label v) = true
                    /\ leaf_below (label v) = l /\ rpl l = label v)) ->
  forall t, (forall v, In v (nodes t) -> In v (nodes whole)) ->
            Rebuilt_Component node_type (stand_in node_type fl leaf_below t) rpl = t.
Proof.
  intros H1 H2 H3 Hrpl. induction t as [x f cs IH] using arb_tnode_ind. intros Hsub.
  destruct cs as [|c cs].
  - assert (Hin : In (Tnode x f []) (nodes whole)) by (apply Hsub; now left).
    cbn [stand_in]. fold (repl fl x).
    destruct (repl fl x) eqn:Er; cbn [Rebuilt_Component].
    + destruct (H1 _ Hin eq_refl Er) as [Hx Hl]. cbn [label] in Hx, Hl.
      rewrite Hl, Z.eqb_refl. cbn [andb].
      destruct (Hrpl (leaf_below x)) as [(_ & Q)|(w & Hw & Hc & Hr & Hb & Hq)].
      * exfalso. exact (Q _ Hin eq_refl Er eq_refl).
      * rewrite Hq. pose proof (H2 _ _ Hw Hin Hc eq_refl Hr Er Hb) as E.
        cbn [label] in E. rewrite E.
        destruct (Z.eqb_spec x (-1)) as [Ex|_]; [contradiction|reflexivity].
    + destruct (Z.eqb_spec (node_type x) LEAVE) as [El|El]; [|reflexivity].
      cbn [andb].
      destruct (Hrpl x) as [(Q & _)|(w & Hw & Hc & Hr & Hb & Hq)].
      * rewrite Q. reflexivity.
      * exfalso. exact (H3 _ _ Hin Hw eq_refl Hc El Hr Hb).
  - cbn [stand_in map Rebuilt_Component]. f_equal.
    assert (Hkids : forall d, In d (c :: cs) ->
                Rebuilt_Component node_type (stand_in node_type fl leaf_below d) rpl = d).
    { intros d Hd. rewrite Forall_forall in IH. apply IH; [exact Hd|].
      intros v Hv. apply Hsub. cbn [nodes child]. right.
      apply in_flat_map. exists d. split; assumption. }
    rewrite (Hkids c (or_introl eq_refl)). f_equal.
    rewrite map_map. rewrite <- (map_id cs) at 2. apply map_ext_in.
    intros d Hd. apply Hkids. now right.
Qed.
End RoundTrip.

(** X18.  [Rebuilt_Component] undoes [Replace_Ret_Revised].  The
    replacement puts the leaf [leaf_below[r]] in the place of each
    childless reticulation [r] with a leaf below and one of the flags
    INNER, CROSS and REVISED, and records [r] in [rpl_comp]; when each
    of these leaves is leaf-typed, different reticulations stand for
    different leaves and no leaf of the tree is one of them,
    [Rebuilt_Component] with the recorded [rpl_comp] gives the tree
    back, labels and flags. *)
Theorem X18_Rebuilt_Component_undoes_Replace_Ret_Revised
  (node_type leaf_below super_deg inner_flag : Z -> Z)
  (leaf_set ambig optional : list Z) (t : arb_tnode) :
  (forall v, In v (nodes t) -> child v = [] ->
             replaced node_type inner_flag leaf_below (label v) = true ->
             label v <> -1 /\ node_type (leaf_below (label v)) = LEAVE) ->
  (forall v w, In v (nodes t) -> In w (nodes t) -> child v = [] -> child w = [] ->
               replaced node_type inner_flag leaf_below (label v) = true ->
               replaced node_type inner_flag leaf_below (label w) = true ->
               leaf_below (label v) = leaf_below (label w) -> label v = label w) ->
  (forall v w, In v (nodes t) -> In w (nodes t) -> child v = [] -> child w = [] ->
               node_type (label v) = LEAVE ->
               replaced node_type inner_flag leaf_below (label w) = true ->
               leaf_below (label w) <> label v) ->
  let '(t', s') :=
    Replace_Ret_Revised node_type leaf_below super_deg t
      (RS inner_flag leaf_set ambig optional (fun _ => -1)) in
  t' = stand_in node_type inner_flag leaf_below t
  /\ Rebuilt_Component node_type t' (rs_rpl_comp s') = t.
Proof.
  intros H1 H2 H3.
  pose proof (Replace_Ret_Revised_spec node_type leaf_below super_deg t
                (RS inner_flag leaf_set ambig optional (fun _ => -1))) as H.
  destruct (Replace_Ret_Revised node_type leaf_below super_deg t _) as [t' s'].
  cbn [rs_inner_flag rs_rpl_comp] in H. destruct H as (E & _ & Hrpl).
  split; [exact E|]. rewrite E.
  apply (Rebuilt_stand_in node_type leaf_below t inner_flag (rs_rpl_comp s') H1 H2 H3 Hrpl).
  auto.
Qed.

Lemma X18_Rebuilt_Component_undoes_Replace_Ret_Revised_witness :
  let node_type := fun i => if i =? 0 then ROOT else if i =? 2 then RET else LEAVE in
  let '(t', s') :=
    Replace_Ret_Revised node_type (fun _ => 3) (fun _ => 2) small_tree
      (RS (fun _ => CROSS) [] [] [] (fun _ => -1)) in
  map label (nodes t') = [0; 1; 3]
  /\ Rebuilt_Component node_type t' (rs_rpl_comp s') = small_tree.
Proof.
  intros node_type.
  pose proof (X18_Rebuilt_Component_undoes_Replace_Ret_Revised
                node_type (fun _ => 3) (fun _ => 2) (fun _ => CROSS) [] [] []
                small_tree) as H.
  destruct (Replace_Ret_Revised node_type (fun _ => 3) (fun _ => 2) small_tree _)
    as [t' s'].
  destruct H as [E H].
  - intros v Hv Hc Hr. cbn in Hv.
    destruct Hv as [<-|[<-|[<-|[]]]]; cbn in Hc, Hr; try discriminate.
    split; [discriminate|reflexivity].
  - intros v w Hv Hw Hcv Hcw Hrv Hrw _. cbn in Hv, Hw.
    destruct Hv as [<-|[<-|[<-|[]]]]; cbn in Hcv, Hrv; try discriminate.
    destruct Hw as [<-|[<-|[<-|[]]]]; cbn in Hcw, Hrw; try discriminate.
    reflexivity.
  - intros v w Hv Hw Hcv Hcw Hl Hr. cbn in Hv, Hw.
    destruct Hw as [<-|[<-|[<-|[]]]]; cbn in Hcw, Hr; try discriminate.
    destruct Hv as [<-|[<-|[<-|[]]]]; cbn in Hcv, Hl; try discriminate.
  - split; [rewrite E; reflexivity|exact H].
Defined.

(** ** The search: values, output and termination *)

Lemma sound_result_later nb nb' r :
  nb <= nb' -> sound_result nb' r -> sound_result nb r.
Proof. unfold sound_result. intuition lia. Qed.

Lemma sound_result_found nb node_type node_strings node all child_array :
  sound_result nb (Res 50 nb (print_success node_type node_strings node all child_array nb)).
Proof.
  unfold sound_result, print_success. cbn [res_value res_output res_no_break app].
  split; [auto|]. split; [|lia]. split; [discriminate|reflexivity].
Qed.

Lemma sound_result_none nb v :
  v = 0 \/ v = 10 -> sound_result nb (Res v nb []).
Proof.
  intros Hv. unfold sound_result. cbn [res_value res_output res_no_break].
  split; [intuition|]. split; [|lia]. split; [lia|congruence].
Qed.

Ltac crack :=
  repeat match goal with
         | |- context [match ?e with _ => _ end] => destruct e eqn:?
         | |- context [if ?e then _ else _] => destruct e eqn:?
         end.

Ltac settle Hrec :=
  match goal with
  | |- Some _ = Some _ -> _ =>
      let H := fresh in
      intros H; injection H as <-;
      first [apply sound_result_found
            |apply sound_result_none; auto
            |eapply sound_result_later; [|apply sound_result_none; auto]; lia
            |eapply sound_result_later; [|apply sound_result_found]; lia]
  | |- None = Some _ -> _ => discriminate
  | |- _ = Some _ -> _ =>
      let H := fresh in
      intros H; apply Hrec in H;
      first [exact H | eapply sound_result_later; [|exact H]; lia]
  end.

Section Sound.
Variable node_type : Z -> Z.
Variable r_nodes : list Z.
Variable node_strings : list string.
Variable child_array : Z -> list Z.
Variable parent_array : Z -> list Z.
Variable gas : nat.
Variable rec : CCP.call.
Hypothesis rec_sound :
  forall st pos il ic nb r, rec st pos il ic nb = Some r -> sound_result nb r.

Lemma stable_case_sound st pos p t il ic nb r :
  CCP.stable_case node_type r_nodes node_strings child_array rec st pos p t il ic nb
  = Some r ->
  sound_result nb r.
Proof.
  unfold CCP.stable_case. crack; settle rec_sound.
Qed.

Lemma unstable_case_sound st pos p t il ic nb r :
  CCP.unstable_case node_type r_nodes node_strings child_array parent_array gas rec
                    st pos p t il ic nb = Some r ->
  sound_result nb r.
Proof.
  unfold CCP.unstable_case.
  destruct (_ =? len il); [settle rec_sound|].
  destruct (_ || _).
  2:{ destruct (Modify2 _ _ _ _) as [later' ne']. settle rec_sound. }
  destruct (fold_left _ _ _) as [a b].
  destruct (Run_Check _ _ _ _ _ _ _ _ _) as [run_1st|]; [|discriminate].
  destruct (Run_Check _ _ _ _ _ _ _ _ _) as [run_2nd|]; [|discriminate].
  destruct (_ && _); [settle rec_sound|].
  match goal with
  | |- match ?first with _ => _ end = _ -> _ =>
      assert (Hfirst : forall r1, first = Some r1 -> sound_result (nb + 1) r1);
      [|destruct first as [r1|]; [specialize (Hfirst r1 eq_refl)|discriminate]]
  end.
  { intros r1. crack; settle rec_sound. }
  destruct (negb (res_value r1 =? 50) && (run_2nd =? 1)) eqn:E2.
  - match goal with
    | |- match ?second with _ => _ end = _ -> _ =>
        destruct second as [r2|] eqn:Er2; [|discriminate]
    end.
    apply rec_sound in Er2. intros H. injection H as <-.
    apply andb_true_iff in E2. destruct E2 as [E2 _].
    apply negb_true_iff, Z.eqb_neq in E2.
    unfold sound_result in *. cbn [res_value res_output res_no_break].
    destruct Hfirst as (_ & Ho1 & Hn1). destruct Er2 as (Hv2 & Ho2 & Hn2).
    assert (Hout : res_output r1 = []).
    { destruct (res_output r1) eqn:Eo; [reflexivity|]. exfalso. apply E2.
      apply Ho1. discriminate. }
    rewrite Hout. cbn [app]. split; [exact Hv2|]. split; [exact Ho2|lia].
  - intros H. injection H as <-. eapply sound_result_later; [|exact Hfirst]. lia.
Qed.
End Sound.

Lemma Cluster_Containment_sound node_type r_nodes node_strings child_array
  parent_array gas fuel :
  forall st pos il ic nb r,
    CCP.Cluster_Containment node_type r_nodes node_strings child_array parent_array
                            gas fuel st pos il ic nb = Some r ->
    sound_result nb r.
Proof.
  induction fuel as [|fuel IH]; intros st pos il ic nb r; [discriminate|].
  cbn [CCP.Cluster_Containment].
  destruct (nth_error (cps st) pos) as [p|].
  2:{ intros H. injection H as <-. apply sound_result_none. auto. }
  destruct (tree_com p) as [t|].
  2:{ destruct (Modify2 _ _ _ _) as [later' ne']. apply IH. }
  destruct (_ =? 1).
  - apply stable_case_sound. exact IH.
  - apply unstable_case_sound. exact IH.
Qed.

Section Feasible.
Variable node_type : Z -> Z.
Variable parent_array : Z -> list Z.
Variable child_array : Z -> list Z.
Variable rank : Z -> nat.
Hypothesis child_array_ranked : ranked child_array rank.

Lemma Is_Feasible_Node_returns il lfb ne curr ind :
  forall fuel parent,
    (rank parent < fuel)%nat ->
    exists v, Is_Feasible_Node node_type parent_array fuel child_array il lfb ne
                               parent curr ind = Some v.
Proof.
  induction fuel as [|fuel IH]; intros parent Hr; [lia|].
  cbn [Is_Feasible_Node].
  match goal with
  | |- exists v, ?F (child_array parent) = Some v =>
      assert (H : forall children,
                 (forall c, In c children -> In c (child_array parent)) ->
                 exists v, F children = Some v)
  end.
  { induction children as [|a rest IHr]; intros Hsub; [eauto|].
    assert (Hrest : forall c, In c rest -> In c (child_array parent))
      by (intros c Hc; apply Hsub; now right).
    specialize (IHr Hrest).
    destruct (a =? curr); [exact IHr|].
    destruct (ne parent a =? 0); [exact IHr|].
    destruct (node_type a =? RET).
    { destruct (negb (lfb a =? -2) && (lfb a =? curr)); [exact IHr|].
      destruct ((Count_Parent parent_array a ne >=? 2) && (lfb a =? -2)); [eauto|].
      destruct ((Count_Parent parent_array a ne <=? 1) && (Is_In (lfb a) il =? ind));
        [eauto|exact IHr]. }
    destruct (node_type a =? LEAVE).
    { destruct (Is_In a il =? ind); [eauto|exact IHr]. }
    destruct (IH a) as (res & ->).
    { pose proof (child_array_ranked parent a (Hsub a (or_introl eq_refl))). lia. }
    destruct (res =? 0); [eauto|exact IHr]. }
  apply H. auto.
Qed.

Variable gas : nat.
Hypothesis gas_above : forall x, (rank x < gas)%nat.

Lemma To_Run_Network_returns il lfb ne unstb_ret ind :
  exists v, To_Run_Network node_type parent_array gas child_array il lfb ne
                           unstb_ret ind = Some v.
Proof.
  unfold To_Run_Network.
  induction (parent_array unstb_ret) as [|parent rest IH]; [eauto|].
  destruct (node_type parent =? ROOT); [eauto|].
  destruct (ne parent unstb_ret =? 0); [exact IH|].
  destruct (Is_Feasible_Node_returns il lfb ne (lfb unstb_ret) ind gas parent
              (gas_above parent)) as (res & ->).
  destruct (res =? 0); [eauto|exact IH].
Qed.

Lemma Run_Check_returns il lfb ne ind rets :
  exists v, Run_Check node_type parent_array gas child_array il lfb ne ind rets = Some v.
Proof.
  induction rets as [|r rets IH]; [cbn; eauto|].
  cbn [Run_Check].
  destruct (To_Run_Network_returns il lfb ne r ind) as (run & ->).
  destruct (run =? 0); [eauto|]. destruct rets; [eauto|exact IH].
Qed.
End Feasible.

Section SplitRoots.
Variable node_type : Z -> Z.

Lemma CCP_split_in_roots pos pos1 ab r :
  map ret_node (cps (fst (CCP.split_in node_type pos pos1 ab r)))
  = map ret_node (cps (fst ab))
  /\ map ret_node (cps (snd (CCP.split_in node_type pos pos1 ab r)))
     = map ret_node (cps (snd ab)).
Proof.
  destruct ab as [a b]. unfold CCP.split_in.
  destruct (if inner_flag a r =? CROSS then _ else _) as [[[ifa sda] ifb] sdb].
  pose proof (Modify_roots node_type (cps a) pos (net_edges a) (cps b) (Some pos1)
                           (net_edges b) r) as [H1 H2].
  destruct (Modify node_type (cps a) pos (net_edges a) (cps b) (Some pos1)
                   (net_edges b) r) as [[[cs n1] cs1] n2].
  cbn [fst snd cps] in *. split; assumption.
Qed.

Lemma CCP_split_out_roots pos pos1 ab r :
  map ret_node (cps (fst (CCP.split_out node_type pos pos1 ab r)))
  = map ret_node (cps (fst ab))
  /\ map ret_node (cps (snd (CCP.split_out node_type pos pos1 ab r)))
     = map ret_node (cps (snd ab)).
Proof.
  destruct ab as [a b]. unfold CCP.split_out.
  destruct (if inner_flag a r =? CROSS then _ else _) as [[[ifa sda] ifb] sdb].
  pose proof (Modify_roots node_type (cps b) pos1 (net_edges b) (cps a) (Some pos)
                           (net_edges a) r) as [H1 H2].
  destruct (Modify node_type (cps b) pos1 (net_edges b) (cps a) (Some pos)
                   (net_edges a) r) as [[[cs1 n1] cs] n2].
  cbn [fst snd cps] in *. split; assumption.
Qed.
End SplitRoots.

Section CCPReturns.
Variable node_type : Z -> Z.
Variable r_nodes : list Z.
Variable node_strings : list string.
Variable child_array : Z -> list Z.
Variable parent_array : Z -> list Z.
Variable gas : nat.
Variable rank : Z -> nat.
Hypothesis child_array_ranked : ranked child_array rank.
Hypothesis gas_above : forall x, (rank x < gas)%nat.

Lemma CCP_Cluster_Containment_returns :
  forall fuel st pos input_leaves in_cluster no_break,
    NoDup (map ret_node (cps st)) ->
    (List.length (cps st) - pos < fuel)%nat ->
    exists r,
      CCP.Cluster_Containment node_type r_nodes node_strings child_array parent_array
                              gas fuel st pos input_leaves in_cluster no_break
      = Some r.
Proof.
  induction fuel as [|fuel IH]; intros st pos il ic nb Hnd Hfuel; [lia|].
  cbn [CCP.Cluster_Containment].
  destruct (nth_error (cps st) pos) as [p|] eqn:Hp; [|eauto].
  assert (Hpos : (pos < List.length (cps st))%nat).
  { apply nth_error_Some. congruence. }
  assert (Hnext : forall st' il' ic' nb',
             map ret_node (cps st') = map ret_node (cps st) ->
             exists r,
               CCP.Cluster_Containment node_type r_nodes node_strings child_array
                 parent_array gas fuel st' (S pos) il' ic' nb' = Some r).
  { intros st' il' ic' nb' Hr. apply IH.
    - rewrite Hr. exact Hnd.
    - apply (f_equal (@List.length Z)) in Hr. rewrite !length_map in Hr. lia. }
  assert (Hcut : forall x ne,
             map ret_node
                 (firstn (S pos) (cps st)
                  ++ fst (Modify2 node_type (skipn (S pos) (cps st)) x ne))
             = map ret_node (cps st)).
  { intros x ne. apply roots_later. apply Modify2_roots. }
  assert (Hat : forall p' later',
             ret_node p' = ret_node p ->
             map ret_node later' = map ret_node (skipn (S pos) (cps st)) ->
             map ret_node (firstn pos (cps st) ++ p' :: later') = map ret_node (cps st)).
  { intros p' later' H1 H2. now apply (roots_at (cps st) pos p). }
  destruct (tree_com p) as [t|].
  2:{ specialize (Hcut (ret_node p) (net_edges st)).
      destruct (Modify2 node_type (skipn (S pos) (cps st)) (ret_node p) (net_edges st))
        as [later' ne']. cbn [fst] in Hcut. apply Hnext. exact Hcut. }
  destruct (Is_Stable node_type (Some t) (inner_flag st) (lf_below st) =? 1).
  - unfold CCP.stable_case.
    destruct (Replace_Ret_Revised _ _ _ _ _) as [t1 rs].
    destruct (Normalize_Revised _ _ _) as [iflag sdeg].
    destruct (len (rs_leaf_set rs) >? 0).
    + destruct ((len (rs_optional rs) =? 0) && (len (rs_leaf_set rs) =? 1)).
      { destruct ((len il =? 1) && _); [eauto|].
        apply Hnext. cbn [cps]. apply Hat; reflexivity. }
      destruct (CCP.mark_leaves _ _ _ _) as [t3 no_mark].
      destruct (DProgram_Revised _ _ _ _ _ >=? 0).
      { destruct (Modify_Cross_Ret _ _ _ _ _ _ _ _) as [[[p5 later5] lfb5] ne5]. eauto. }
      destruct (CCP.count_eq ic 0 (rs_leaf_set rs) =? len (rs_leaf_set rs)).
      { match goal with
        | |- context [Modify_Cross_Ret1 ?nt ?rn ?o ?c ?q ?l ?b ?e] =>
            pose proof (Modify_Cross_Ret1_roots nt rn o c q l b e) as [H1 H2];
            destruct (Modify_Cross_Ret1 nt rn o c q l b e) as [[[p5 later5] lfb5] ne5]
        end.
        cbn [fst snd] in H1, H2. apply Hnext. cbn [cps]. apply Hat; assumption. }
      destruct (CCP.count_eq ic 1 (rs_leaf_set rs) =? len (rs_leaf_set rs)); [|eauto].
      match goal with
      | |- context [Modify_Cross_Ret ?nt ?rn ?o ?c ?q ?l ?b ?e] =>
          pose proof (Modify_Cross_Ret_roots nt rn o c q l b e) as [H1 H2];
          destruct (Modify_Cross_Ret nt rn o c q l b e) as [[[p5 later5] lfb5] ne5]
      end.
      cbn [fst snd] in H1, H2.
      destruct (_ =? len il); [eauto|].
      destruct (_ >? 1); apply Hnext; cbn [cps]; apply Hat; assumption.
    + match goal with
      | |- context [Modify ?nt ?cs ?k ?e ?cs1 ?k1 ?e1 ?x] =>
          pose proof (Modify_roots nt cs k e cs1 k1 e1 x) as [H1 _];
          destruct (Modify nt cs k e cs1 k1 e1 x) as [[[cps3 n1] c1] n2]
      end.
      cbn [fst] in H1. apply Hnext. cbn [cps]. rewrite H1. apply Hat; reflexivity.
  - unfold CCP.unstable_case.
    destruct (len (lf_in_comp _) =? len il); [eauto|].
    destruct ((len (unstb_rets_in _) >? 0) || (len (unstb_rets_out _) >? 0)).
    2:{ specialize (Hcut (ret_node p) (net_edges st)).
        destruct (Modify2 node_type (skipn (S pos) (cps st)) (ret_node p) (net_edges st))
          as [later' ne']. cbn [fst] in Hcut. apply Hnext. exact Hcut. }
    assert (Hpos1 : find_ret_node (Make_Current_Network (cps st)) (ret_node p) = pos).
    { assert (Hq : exists q, nth_error (Make_Current_Network (cps st)) pos = Some q
                             /\ ret_node q = ret_node p).
      { unfold Make_Current_Network. rewrite nth_error_map, Hp. cbn.
        eexists. split; [reflexivity|]. destruct (size p =? 0); reflexivity. }
      destruct Hq as (q & Hq & <-).
      apply find_ret_node_at; [|exact Hq].
      rewrite Make_Current_Network_roots. exact Hnd. }
    rewrite Hpos1.
    match goal with
    | |- context [fold_left (CCP.split_out node_type pos pos) ?outs
                            (fold_left (CCP.split_in node_type pos pos) ?ins ?ab0)] =>
        pose proof (splits_roots (CCP.split_in node_type pos pos) ins
                      (CCP_split_in_roots node_type pos pos) ab0) as [Ha1 Hb1];
        pose proof (splits_roots (CCP.split_out node_type pos pos) outs
                      (CCP_split_out_roots node_type pos pos)
                      (fold_left (CCP.split_in node_type pos pos) ins ab0)) as [Ha2 Hb2];
        destruct (fold_left (CCP.split_out node_type pos pos) outs
                            (fold_left (CCP.split_in node_type pos pos) ins ab0))
          as [a b]
    end.
    cbn [fst snd cps] in Ha1, Hb1, Ha2, Hb2.
    rewrite Make_Current_Network_roots in Hb1.
    assert (Ha : map ret_node (cps a) = map ret_node (cps st)) by congruence.
    assert (Hb : map ret_node (cps b) = map ret_node (cps st)) by congruence.
    match goal with
    | |- context [Run_Check ?nt ?pa ?g ?ca ?l ?lb ?e 1 ?rets] =>
        destruct (Run_Check_returns nt pa ca rank child_array_ranked g gas_above
                    l lb e 1 rets) as (run_1st & ->)
    end.
    match goal with
    | |- context [Run_Check ?nt ?pa ?g ?ca ?l ?lb ?e (-1) ?rets] =>
        destruct (Run_Check_returns nt pa ca rank child_array_ranked g gas_above
                    l lb e (-1) rets) as (run_2nd & ->)
    end.
    destruct ((run_1st =? 0) && (run_2nd =? 0)); [eauto|].
    match goal with
    | |- exists r, match ?first with _ => _ end = Some r =>
        assert (Hfirst : exists res, first = Some res)
    end.
    { destruct (run_1st =? 1); [|eauto].
      destruct (_ >? 1); apply Hnext; exact Ha. }
    destruct Hfirst as (res & ->).
    destruct (negb (res_value res =? 50) && (run_2nd =? 1)); [|eauto].
    match goal with
    | |- exists r, match ?second with _ => _ end = Some r =>
        assert (Hsecond : exists res2, second = Some res2)
    end.
    { apply Hnext. exact Hb. }
    destruct Hsecond as (res2 & ->). eauto.
Qed.
End CCPReturns.

(** X19.  Whatever the state, the search of [ClusterContainment.c]
    returns only 0, 10 or 50; it has printed something exactly when the
    value is 50 (the report of the cluster), and the counter behind
    [no_break] is not lower than before the call. *)
Theorem X19_search_result_is_0_10_or_50
  (node_type : Z -> Z) (r_nodes : list Z) (node_strings : list string)
  (child_array parent_array : Z -> list Z) (gas fuel : nat)
  (st : state) (pos : nat) (input_leaves : list Z) (in_cluster : Z -> Z)
  (no_break : Z) (r : result) :
  CCP.Cluster_Containment node_type r_nodes node_strings child_array parent_array
                          gas fuel st pos input_leaves in_cluster no_break = Some r ->
  (res_value r = 0 \/ res_value r = 10 \/ res_value r = 50)
  /\ (res_value r = 50 <-> res_output r <> [])
  /\ no_break <= res_no_break r.
Proof. apply Cluster_Containment_sound. Qed.

Lemma X19_search_result_is_0_10_or_50_witness :
  exists r,
    CCP.Cluster_Containment small_types [2] ["root"; "leaf"; "ret"]%string
      (fun _ => []) (fun _ => []) O 1 bare_state O [5] (fun _ => 1) 0 = Some r
    /\ res_value r = 50 /\ res_output r <> [].
Proof.
  destruct (CCP.Cluster_Containment small_types [2] ["root"; "leaf"; "ret"]%string
              (fun _ => []) (fun _ => []) O 1 bare_state O [5] (fun _ => 1) 0)
    as [r|] eqn:E; [|vm_compute in E; discriminate E].
  exists r. split; [reflexivity|].
  destruct (X19_search_result_is_0_10_or_50 _ _ _ _ _ _ _ _ _ _ _ _ _ E)
    as (_ & Ho & _).
  assert (Hv : res_value r = 50) by (vm_compute in E; injection E as <-; reflexivity).
  split; [exact Hv|]. apply Ho. exact Hv.
Defined.

(** X20.  On a network without a directed cycle the search of
    [ClusterContainment.c] returns: with distinct reticulations at the
    roots of the components, no call is nested deeper than there are
    components left, and the feasibility walks of [Is_Feasible_Node] go
    no deeper than the rank of a node. *)
Theorem X20_search_returns_on_an_acyclic_network
  (node_type : Z -> Z) (r_nodes : list Z) (node_strings : list string)
  (child_array parent_array : Z -> list Z) (rank : Z -> nat) (gas fuel : nat)
  (st : state) (pos : nat) (input_leaves : list Z) (in_cluster : Z -> Z)
  (no_break : Z) :
  ranked child_array rank ->
  (forall x, (rank x < gas)%nat) ->
  NoDup (map ret_node (cps st)) ->
  (List.length (cps st) - pos < fuel)%nat ->
  exists r,
    CCP.Cluster_Containment node_type r_nodes node_strings child_array parent_array
                            gas fuel st pos input_leaves in_cluster no_break = Some r.
Proof.
  intros Hr Hg Hnd Hf.
  exact (CCP_Cluster_Containment_returns node_type r_nodes node_strings child_array
           parent_array gas rank Hr Hg fuel st pos input_leaves in_cluster no_break
           Hnd Hf).
Qed.

Lemma X20_search_returns_on_an_acyclic_network_witness :
  exists r,
    CCP.Cluster_Containment small_types [2] ["root"; "leaf"; "ret"]%string
      (fun i => if i =? 0 then [1; 2] else []) (fun i => if i =? 0 then [] else [0])
      2 2 small_state O [1; 2] (fun _ => 1) 0 = Some r.
Proof.
  apply (X20_search_returns_on_an_acyclic_network _ _ _ _ _
           (fun i => if i =? 0 then 1%nat else 0%nat)).
  - intros v c Hc. destruct (Z.eqb_spec v 0) as [->|_]; [|destruct Hc].
    destruct Hc as [<-|[<-|[]]]; cbn; lia.
  - intros x. destruct (x =? 0); lia.
  - cbn. repeat constructor. intros [].
  - cbn. lia.
Defined.

Ltac settle_value Hrec :=
  match goal with
  | |- Some (SRFD.Done _) = Some (SRFD.Done _) -> _ =>
      let H := fresh in intros H; injection H as <-; auto
  | |- Some SRFD.Fault = Some _ -> _ => discriminate
  | |- None = Some _ -> _ => discriminate
  | |- _ = Some _ -> _ => apply Hrec
  end.

Lemma SRFD_Cluster_Containment_value node_type r_nodes fuel :
  forall st pos il ic v,
    SRFD.Cluster_Containment node_type r_nodes fuel st pos il ic
    = Some (SRFD.Done v) ->
    v = 0 \/ v = 50.
Proof.
  induction fuel as [|fuel IH]; intros st pos il ic v; [discriminate|].
  cbn [SRFD.Cluster_Containment].
  destruct (nth_error (cps st) pos) as [p|]; [|settle_value IH].
  destruct (SRFD.trace_outside r_nodes (lf_below st)); [discriminate|].
  destruct (tree_com p) as [t|].
  2:{ destruct (Modify2 _ _ _ _) as [later' ne']. apply IH. }
  destruct (_ =? 1).
  - unfold SRFD.stable_case. crack; settle_value IH.
  - unfold SRFD.unstable_case.
    destruct (_ =? len il); [settle_value IH|].
    destruct (_ || _).
    2:{ destruct (Modify2 _ _ _ _) as [later' ne']. apply IH. }
    destruct (fold_left _ _ _) as [a b].
    match goal with
    | |- SRFD.and_then ?first _ = _ -> _ =>
        assert (Hfirst : forall res, first = Some (SRFD.Done res) -> res = 0 \/ res = 50);
        [|destruct first as [[res|]|]; cbn [SRFD.and_then];
          [specialize (Hfirst res eq_refl)|discriminate|discriminate]]
    end.
    { intros res. destruct (_ >? 1); apply IH. }
    destruct (res =? 0); [apply IH|].
    intros H. injection H as <-. exact Hfirst.
Qed.

(** ** The level order is bottom-up *)

Lemma live_cells_all orig :
  Forall (fun r => r <> -2) orig -> live_cells orig = orig.
Proof.
  induction 1 as [|r orig Hr _ IH]; [reflexivity|].
  cbn [live_cells filter]. destruct (Z.eqb_spec r (-2)) as [E|_]; [contradiction|].
  cbn [negb]. f_equal. exact IH.
Qed.

Lemma live_cells_none orig : Is_Empty orig = 1 -> live_cells orig = [].
Proof.
  induction orig as [|r orig IH]; [reflexivity|]. cbn [Is_Empty live_cells filter].
  destruct (negb (r =? -2)); [discriminate|exact IH].
Qed.

Lemma live_cells_In orig r : In r (live_cells orig) <-> In r orig /\ r <> -2.
Proof.
  unfold live_cells. rewrite filter_In, negb_true_iff, Z.eqb_neq. reflexivity.
Qed.

Lemma mark_done_other o : forall i j,
  i <> j -> nth_error (mark_done o i) j = nth_error o j.
Proof.
  induction o as [|x o IH]; intros i j Hij; [destruct i; reflexivity|].
  destruct i as [|i], j as [|j]; cbn [mark_done nth_error]; try reflexivity; try lia.
  apply IH. lia.
Qed.

Lemma mark_done_moves o : forall i x,
  nth_error o i = Some x -> x <> -2 ->
  Permutation (live_cells o) (x :: live_cells (mark_done o i)).
Proof.
  induction o as [|y o IH]; intros i x Hn Hx; [destruct i; discriminate|].
  destruct i as [|i]; cbn [nth_error] in Hn; cbn [mark_done live_cells filter].
  - injection Hn as ->. destruct (Z.eqb_spec x (-2)) as [E|_]; [contradiction|].
    cbn. apply Permutation_refl.
  - fold (live_cells o). fold (live_cells (mark_done o i)).
    destruct (negb (y =? -2)).
    + eapply Permutation_trans; [apply perm_skip, (IH i x Hn Hx)|]. apply perm_swap.
    + exact (IH i x Hn Hx).
Qed.

Lemma marks_move (sel : list temp_node) :
  forall o,
    NoDup (map index sel) ->
    Forall (fun t => nth_error o (index t) = Some (pnode t) /\ pnode t <> -2) sel ->
    Permutation (live_cells o)
                (map pnode sel
                 ++ live_cells (fold_left (fun o t => mark_done o (index t)) sel o)).
Proof.
  induction sel as [|t sel IH]; intros o Hnd Hall; [apply Permutation_refl|].
  cbn [map fold_left app]. cbn [map] in Hnd. apply NoDup_cons_iff in Hnd.
  destruct Hnd as [Hnot Hnd]. destruct (Forall_inv Hall) as [Ht Hlive].
  eapply Permutation_trans; [apply (mark_done_moves o (index t) (pnode t) Ht Hlive)|].
  apply perm_skip. apply IH; [exact Hnd|].
  apply Forall_forall. intros t' Ht'.
  pose proof (proj1 (Forall_forall _ _) (Forall_inv_tail Hall) t' Ht') as [H1 H2].
  split; [|exact H2]. rewrite mark_done_other; [exact H1|].
  intros E. apply Hnot. rewrite E. apply in_map. exact Ht'.
Qed.

Lemma tnode_insert_perm x l : Permutation (x :: l) (tnode_insert x l).
Proof.
  induction l as [|y l IH]; cbn [tnode_insert]; [apply Permutation_refl|].
  destruct (value y >=? value x); [|apply Permutation_refl].
  eapply Permutation_trans; [apply perm_swap|]. apply perm_skip. exact IH.
Qed.

Lemma tnode_sort_perm l : Permutation l (tnode_sort l).
Proof.
  unfold tnode_sort.
  assert (H : forall acc, Permutation (acc ++ l)
                            (fold_left (fun acc x => tnode_insert x acc) l acc)).
  { induction l as [|x l IH]; intros acc; cbn [fold_left].
    - rewrite app_nil_r. apply Permutation_refl.
    - eapply Permutation_trans; [|apply IH].
      eapply Permutation_trans; [apply Permutation_sym, Permutation_middle|].
      change (x :: acc ++ l) with ((x :: acc) ++ l).
      apply Permutation_app_tail. apply tnode_insert_perm. }
  exact (H []).
Qed.

Section Sorted.
Variable node_type : Z -> Z.
Variable child_array : Z -> list Z.

Lemma level_leaves_moves orig :
  let '(orig', out) := level_leaves node_type child_array orig in
  Permutation (live_cells orig) (out ++ live_cells orig')
  /\ forall r, In r out -> has_nonleaf node_type (child_array r) = 0.
Proof.
  induction orig as [|r orig IH]; cbn [level_leaves].
  - split; [apply Permutation_refl|intros r []].
  - destruct (level_leaves node_type child_array orig) as [orig' out].
    destruct IH as [IH Hout]. cbn [live_cells filter].
    fold (live_cells orig). destruct (Z.eqb_spec r (-2)) as [E|E].
    + cbn [negb live_cells filter]. rewrite E. cbn. split; assumption.
    + cbn [negb]. destruct (Z.eqb_spec (has_nonleaf node_type (child_array r)) 0) as [H0|H0].
      * cbn [live_cells filter]. cbn. split; [now apply perm_skip|].
        intros r' [<-|Hr']; [exact H0|now apply Hout].
      * cbn [live_cells filter]. destruct (Z.eqb_spec r (-2)) as [E'|_]; [contradiction|].
        cbn [negb]. split; [|exact Hout].
        eapply Permutation_trans; [apply perm_skip, IH|]. apply Permutation_middle.
Qed.

Lemma level_trees_moves gas orig :
  forall orig' out,
    level_trees node_type child_array gas orig = Some (orig', out) ->
    Permutation (live_cells orig) (out ++ live_cells orig')
    /\ forall r, In r out -> Is_Tree_Component node_type child_array gas r = Some 0.
Proof.
  induction orig as [|r orig IH]; intros orig' out; cbn [level_trees].
  - intros H. injection H as <- <-. split; [apply Permutation_refl|intros r []].
  - destruct (level_trees node_type child_array gas orig) as [[o1 out1]|]; [|discriminate].
    destruct (IH o1 out1 eq_refl) as [IHp Hout].
    cbn [live_cells filter]. fold (live_cells orig).
    destruct (Z.eqb_spec r (-2)) as [E|E].
    + intros H. injection H as <- <-. cbn [negb live_cells filter]. rewrite E. cbn.
      split; assumption.
    + destruct (Is_Tree_Component node_type child_array gas r) as [fl|] eqn:Ef;
        [|discriminate].
      destruct (Z.eqb_spec fl 0) as [H0|H0]; intros H; injection H as <- <-; cbn [negb].
      * cbn [live_cells filter]. cbn. split; [now apply perm_skip|].
        intros r' [<-|Hr']; [now rewrite Ef, H0|now apply Hout].
      * cbn [live_cells filter]. destruct (Z.eqb_spec r (-2)) as [E'|_]; [contradiction|].
        cbn [negb]. split; [|exact Hout].
        eapply Permutation_trans; [apply perm_skip, IHp|]. apply Permutation_middle.
Qed.

(** The entries that one round selects: each names a cell that holds a
    reticulation all of whose reticulations below are counted as gone. *)
Lemma level_collect_entries gas orig :
  forall cells i sel,
    (forall j x, nth_error cells j = Some x -> nth_error orig (i + j) = Some x) ->
    level_collect node_type child_array gas orig i cells = Some sel ->
    Forall (fun t => nth_error orig (index t) = Some (pnode t) /\ pnode t <> -2
                     /\ (i <= index t)%nat
                     /\ exists count size,
                          Count_Ret_Child node_type child_array gas orig (pnode t)
                                          (0, 0, 0) = Some (count, count, size)
                          /\ 0 < count) sel
    /\ NoDup (map index sel).
Proof.
  induction cells as [|r cells IH]; intros i sel Hnth; cbn [level_collect].
  - intros H. injection H as <-. split; constructor.
  - destruct (level_collect node_type child_array gas orig (S i) cells) as [sel1|] eqn:E1;
      [|discriminate].
    assert (Hnth1 : forall j x, nth_error cells j = Some x ->
                                nth_error orig (S i + j) = Some x).
    { intros j x Hj. replace (S i + j)%nat with (i + S j)%nat by lia.
      apply Hnth. exact Hj. }
    destruct (IH (S i) sel1 Hnth1 E1) as [Hall Hnd].
    assert (Hweak : Forall (fun t => nth_error orig (index t) = Some (pnode t)
                                     /\ pnode t <> -2 /\ (i <= index t)%nat
                                     /\ exists count size,
                                          Count_Ret_Child node_type child_array gas orig
                                            (pnode t) (0, 0, 0)
                                          = Some (count, count, size)
                                          /\ 0 < count) sel1).
    { eapply Forall_impl; [|exact Hall]. cbv beta. intros t (A & B & C & D).
      repeat split; auto. lia. }
    destruct (Z.eqb_spec r (-2)) as [E|E].
    { intros H. injection H as <-. split; assumption. }
    destruct (Count_Ret_Child node_type child_array gas orig r (0, 0, 0))
      as [[[count fl] size]|] eqn:Ec; [|discriminate].
    destruct ((fl >? 0) && (fl =? count)) eqn:Et; intros H; injection H as <-.
    + apply andb_true_iff in Et. destruct Et as [Hpos Heq].
      apply Z.gtb_lt in Hpos. apply Z.eqb_eq in Heq. subst fl.
      split.
      * constructor; [|exact Hweak]. cbn [index pnode].
        split; [rewrite <- (Nat.add_0_r i); apply Hnth; reflexivity|].
        split; [exact E|]. split; [lia|]. exists count, size. split; [exact Ec|lia].
      * cbn [map index]. constructor; [|exact Hnd].
        intros Hin. apply in_map_iff in Hin. destruct Hin as (t & Hi & Ht).
        pose proof (proj1 (Forall_forall _ _) Hall t Ht) as (_ & _ & Hge & _). lia.
    + split; assumption.
Qed.

Lemma level_round_moves gas orig orig' moved :
  level_round node_type child_array gas orig = Some (orig', moved) ->
  Permutation (live_cells orig) (moved ++ live_cells orig')
  /\ forall r, In r moved ->
               exists count size,
                 Count_Ret_Child node_type child_array gas orig r (0, 0, 0)
                 = Some (count, count, size) /\ 0 < count.
Proof.
  unfold level_round.
  destruct (level_collect node_type child_array gas orig 0 orig) as [sel|] eqn:E;
    [|discriminate].
  intros H. injection H as <- <-.
  destruct (level_collect_entries gas orig orig O sel (fun j x H => H) E) as [Hall Hnd].
  pose proof (tnode_sort_perm sel) as Hp.
  split.
  - apply marks_move.
    + eapply Permutation_NoDup; [apply Permutation_map, Hp|exact Hnd].
    + eapply Permutation_Forall; [exact Hp|].
      eapply Forall_impl; [|exact Hall]. cbv beta. intros t (A & B & _). now split.
  - intros r Hr. apply in_map_iff in Hr. destruct Hr as (t & <- & Ht).
    apply (Permutation_in _ (Permutation_sym Hp)) in Ht.
    pose proof (proj1 (Forall_forall _ _) Hall t Ht) as (_ & _ & _ & H). exact H.
Qed.

Lemma has_nonleaf_none cs :
  has_nonleaf node_type cs = 0 -> forall c, In c cs -> node_type c = LEAVE.
Proof.
  induction cs as [|x cs IH]; intros H c Hc; [destruct Hc|].
  cbn [has_nonleaf] in H. destruct (Z.eqb_spec (node_type x) LEAVE) as [E|E];
    [|discriminate].
  destruct Hc as [<-|Hc]; [exact E|now apply IH].
Qed.

(** [Is_Tree_Component] returns 1 when a reticulation is below. *)
Lemma Is_Tree_Component_below gas :
  forall v x,
    Is_Tree_Component node_type child_array gas v = Some x -> x <> 1 ->
    forall c, ~ ret_below node_type child_array v c.
Proof.
  induction gas as [|gas IH]; intros v x; [discriminate|].
  rewrite Is_Tree_Component_S.
  assert (Hloop : forall cs res,
             Is_Tree_Component_loop node_type
               (Is_Tree_Component node_type child_array gas) cs res = Some x ->
             x <> 1 ->
             forall t, In t cs ->
                       node_type t = LEAVE
                       \/ (node_type t <> RET
                           /\ forall c, ~ ret_below node_type child_array t c)).
  { induction cs as [|t cs IHcs]; intros res H Hx t' Ht'; [destruct Ht'|].
    cbn [Is_Tree_Component_loop] in H.
    destruct (Z.eqb_spec (node_type t) LEAVE) as [El|El].
    { destruct Ht' as [<-|Ht']; [now left|exact (IHcs _ H Hx t' Ht')]. }
    destruct (Z.eqb_spec (node_type t) RET) as [Er|Er].
    { injection H as <-. contradiction. }
    destruct (Is_Tree_Component node_type child_array gas t) as [r|] eqn:Et;
      [|discriminate].
    destruct (Z.eqb_spec r 1) as [E1|E1]; [injection H as <-; contradiction|].
    destruct Ht' as [<-|Ht']; [|exact (IHcs _ H Hx t' Ht')].
    right. split; [exact Er|]. exact (IH t r Et E1). }
  intros H Hx c Hb. inversion Hb as [v' c' Hin Hret|v' t c' Hin Hl Hr Hdeep]; subst.
  - destruct (Hloop _ _ H Hx c Hin) as [E|[E _]]; [|contradiction].
    rewrite Hret in E. discriminate E.
  - destruct (Hloop _ _ H Hx t Hin) as [E|[_ E]]; [contradiction|].
    exact (E c Hdeep).
Qed.

(** [Count_Ret_Child]: [flag] grows by no more than [count], and by as
    much only when no reticulation below is in a cell. *)
Lemma Count_Ret_Child_below gas orig :
  forall v c0 f0 s0 c1 f1 s1,
    Count_Ret_Child node_type child_array gas orig v (c0, f0, s0) = Some (c1, f1, s1) ->
    0 <= f1 - f0 <= c1 - c0
    /\ (f1 - f0 = c1 - c0 ->
        forall c, ret_below node_type child_array v c -> Is_In c orig = -1).
Proof.
  induction gas as [|gas IH]; intros v c0 f0 s0 c1 f1 s1; [discriminate|].
  rewrite Count_Ret_Child_S.
  assert (Hloop : forall cs c0 f0 s0 c1 f1 s1,
             Count_Ret_Child_loop node_type orig
               (Count_Ret_Child node_type child_array gas orig) cs (c0, f0, s0)
             = Some (c1, f1, s1) ->
             0 <= f1 - f0 <= c1 - c0
             /\ (f1 - f0 = c1 - c0 ->
                 forall t, In t cs ->
                           node_type t = LEAVE
                           \/ (node_type t = RET /\ Is_In t orig = -1)
                           \/ (node_type t <> LEAVE /\ node_type t <> RET
                               /\ forall c, ret_below node_type child_array t c ->
                                            Is_In c orig = -1))).
  { induction cs as [|t cs IHcs]; intros a0 b0 d0 a1 b1 d1 H.
    - cbn [Count_Ret_Child_loop] in H. injection H as <- <- <-.
      split; [lia|]. intros _ t [].
    - cbn [Count_Ret_Child_loop] in H.
      destruct (Z.eqb_spec (node_type t) LEAVE) as [El|El].
      { destruct (IHcs _ _ _ _ _ _ H) as [Hle Heq]. split; [exact Hle|].
        intros E t' [<-|Ht']; [now left|exact (Heq E t' Ht')]. }
      destruct (Z.eqb_spec (node_type t) RET) as [Er|Er].
      { destruct (IHcs _ _ _ _ _ _ H) as [Hle Heq].
        destruct (Z.eqb_spec (Is_In t orig) (-1)) as [Ei|Ei].
        - split; [lia|]. intros E t' [<-|Ht']; [right; left; now split|].
          apply Heq; [lia|exact Ht'].
        - split; [lia|]. intros E. lia. }
      destruct (Count_Ret_Child node_type child_array gas orig t (a0, b0, d0 + 1))
        as [[[a2 b2] d2]|] eqn:Et; [|discriminate].
      destruct (IH _ _ _ _ _ _ _ Et) as [Hle1 Heq1].
      destruct (IHcs _ _ _ _ _ _ H) as [Hle2 Heq2].
      split; [lia|]. intros E t' [<-|Ht'].
      + right. right. split; [exact El|]. split; [exact Er|]. apply Heq1. lia.
      + apply Heq2; [lia|exact Ht']. }
  intros H. destruct (Hloop _ _ _ _ _ _ _ H) as [Hle Heq]. split; [exact Hle|].
  intros E c Hb. specialize (Heq E).
  inversion Hb as [v' c' Hin Hret|v' t c' Hin Hl Hr Hdeep]; subst.
  - destruct (Heq c Hin) as [El|[[_ Ei]|(_ & Er & _)]].
    + rewrite Hret in El. discriminate El.
    + exact Ei.
    + contradiction.
  - destruct (Heq t Hin) as [El|[[Er _]|(_ & _ & Hd)]]; try contradiction.
    exact (Hd c Hdeep).
Qed.

Lemma Is_In_found x l : In x l -> Is_In x l = 1.
Proof.
  induction l as [|y l IH]; intros H; [destruct H|]. cbn [Is_In].
  destruct (Z.eqb_spec x y) as [E|E]; [reflexivity|].
  destruct H as [H|H]; [congruence|exact (IH H)].
Qed.

Lemma bottom_up_app orig out moved :
  bottom_up node_type child_array orig out ->
  (forall r, In r moved ->
             forall c, ret_below node_type child_array r c -> In c orig -> In c out) ->
  bottom_up node_type child_array orig (out ++ moved).
Proof.
  intros Ho Hm pre r post E c Hb Hc.
  apply app_eq_app in E. destruct E as (l & [[E1 E2]|[E1 E2]]).
  - destruct l as [|x l].
    + cbn in E2. rewrite app_nil_r in E1. subst pre.
      apply (Hm r); [rewrite <- E2; now left|exact Hb|exact Hc].
    + cbn in E2. injection E2 as <- E2. exact (Ho pre r l E1 c Hb Hc).
  - subst pre. apply in_or_app. left.
    apply (Hm r); [rewrite E2; apply in_or_app; right; now left|exact Hb|exact Hc].
Qed.

Lemma level_loop_bottom_up gas orig0 :
  forall fuel cells out res,
    Permutation orig0 (out ++ live_cells cells) ->
    bottom_up node_type child_array orig0 out ->
    level_loop node_type child_array fuel gas cells out = Some res ->
    Permutation orig0 res /\ bottom_up node_type child_array orig0 res.
Proof.
  induction fuel as [|fuel IH]; intros cells out res Hp Hb; cbn [level_loop].
  - destruct (Z.eqb_spec (Is_Empty cells) 1) as [E|E]; [|discriminate].
    intros H. injection H as <-. rewrite (live_cells_none _ E), app_nil_r in Hp.
    split; assumption.
  - destruct (Z.eqb_spec (Is_Empty cells) 1) as [E|E].
    { intros H. injection H as <-. rewrite (live_cells_none _ E), app_nil_r in Hp.
      split; assumption. }
    destruct (level_round node_type child_array gas cells) as [[cells' moved]|] eqn:Er;
      [|discriminate].
    destruct (level_round_moves gas cells cells' moved Er) as [Hmv Hsel].
    apply IH.
    + rewrite <- app_assoc. eapply Permutation_trans; [exact Hp|].
      apply Permutation_app_head. exact Hmv.
    + apply bottom_up_app; [exact Hb|].
      intros r Hr c Hrc Hc. destruct (Hsel r Hr) as (count & size & Hcount & Hpos).
      destruct (Count_Ret_Child_below gas cells r 0 0 0 count count size Hcount)
        as [_ Heq].
      specialize (Heq eq_refl c Hrc).
      apply (Permutation_in _ Hp) in Hc. apply in_app_or in Hc.
      destruct Hc as [Hc|Hc]; [exact Hc|].
      apply live_cells_In in Hc. destruct Hc as [Hc _].
      rewrite (Is_In_found _ _ Hc) in Heq. discriminate Heq.
Qed.

(** When [Sort_Rets_By_Level] returns, the reticulations are all there,
    each once, and bottom-up. *)
Lemma Sort_Rets_By_Level_bottom_up fuel gas orig r_nodes out :
  Forall (fun r => r <> -2) orig ->
  (List.length r_nodes <= List.length orig)%nat ->
  Sort_Rets_By_Level node_type child_array fuel gas orig r_nodes = Some out ->
  Permutation orig out /\ bottom_up node_type child_array orig out.
Proof.
  intros Hlive Hlen. unfold Sort_Rets_By_Level.
  pose proof (level_leaves_moves orig) as H1.
  destruct (level_leaves node_type child_array orig) as [orig1 out1].
  destruct H1 as [Hp1 Hl1].
  destruct (level_trees node_type child_array gas orig1) as [[orig2 out2]|] eqn:E2;
    [|discriminate].
  destruct (level_trees_moves gas orig1 orig2 out2 E2) as [Hp2 Hl2].
  destruct (level_loop node_type child_array fuel gas orig2 (out1 ++ out2))
    as [res|] eqn:E3; [|discriminate].
  intros H. injection H as <-.
  rewrite (live_cells_all _ Hlive) in Hp1.
  assert (Hp : Permutation orig ((out1 ++ out2) ++ live_cells orig2)).
  { rewrite <- app_assoc. eapply Permutation_trans; [exact Hp1|].
    apply Permutation_app_head. exact Hp2. }
  assert (Hb : bottom_up node_type child_array orig (out1 ++ out2)).
  { intros pre r post E c Hrc _. exfalso.
    assert (Hin : In r (out1 ++ out2)) by (rewrite E; apply in_or_app; right; now left).
    apply in_app_or in Hin. destruct Hin as [Hin|Hin].
    - pose proof (has_nonleaf_none _ (Hl1 r Hin)) as Hleaf.
      inversion Hrc as [v' c' Hc Hret|v' t c' Hc Hl Hr Hdeep]; subst.
      + rewrite (Hleaf c Hc) in Hret. discriminate Hret.
      + exact (Hl (Hleaf t Hc)).
    - exact (Is_Tree_Component_below gas r 0 (Hl2 r Hin) ltac:(lia) c Hrc). }
  destruct (level_loop_bottom_up gas orig fuel orig2 (out1 ++ out2) res Hp Hb E3)
    as [Hperm Hbu].
  assert (Hskip : skipn (List.length res) r_nodes = []).
  { apply skipn_all2. rewrite <- (Permutation_length Hperm). exact Hlen. }
  rewrite Hskip, app_nil_r. split; assumption.
Qed.
End Sorted.

(** X22.  On a network without a directed cycle [Sort_Rets_By_Level]
    returns the reticulations it was given, each once, and bottom-up:
    every reticulation that is reached from another one through tree
    nodes comes before it in [r_nodes]. *)
Theorem X22_Sort_Rets_By_Level_lists_the_reticulations_bottom_up
  (node_type : Z -> Z) (child_array : Z -> list Z) (rank : Z -> nat) (gas : nat)
  (orig_rnodes : list Z) :
  ranked child_array rank ->
  node_type (-2) <> RET ->
  (forall r, In r orig_rnodes -> (rank r < gas)%nat) ->
  Forall (fun r => r <> -2) orig_rnodes ->
  exists r_nodes,
    Sort_Rets_By_Level node_type child_array (List.length orig_rnodes) gas
                       orig_rnodes orig_rnodes = Some r_nodes
    /\ Permutation orig_rnodes r_nodes
    /\ bottom_up node_type child_array orig_rnodes r_nodes.
Proof.
  intros Hranked Hcell Hgas Hlive.
  destruct (Sort_Rets_By_Level_total node_type child_array rank Hranked Hcell gas
              orig_rnodes orig_rnodes (fun r Hr _ => Hgas r Hr)) as (out & Hout).
  exists out. split; [exact Hout|].
  exact (Sort_Rets_By_Level_bottom_up node_type child_array _ gas orig_rnodes
           orig_rnodes out Hlive (Nat.le_refl _) Hout).
Qed.

Lemma X22_Sort_Rets_By_Level_lists_the_reticulations_bottom_up_witness :
  exists r_nodes,
    Sort_Rets_By_Level level_types level_children 2 5 [4; 3] [4; 3] = Some r_nodes
    /\ Permutation [4; 3] r_nodes
    /\ forall pre r post,
         r_nodes = pre ++ r :: post ->
         forall c, ret_below level_types level_children r c -> In c [4; 3] -> In c pre.
Proof.
  apply (X22_Sort_Rets_By_Level_lists_the_reticulations_bottom_up
           level_types level_children level_rank 5 [4; 3]).
  - exact level_rank_ranked.
  - vm_compute. discriminate.
  - intros r [<-|[<-|[]]]; vm_compute; lia.
  - repeat constructor; discriminate.
Defined.

(** ** The components that [main] builds *)

Section Prepared.
Variable node_type : Z -> Z.
Variable child_array : Z -> list Z.

Lemma Add_Component_Array_roots r_nodes inner_flag :
  forall cs,
    Add_Component_Array node_type child_array r_nodes inner_flag = Some cs ->
    map ret_node cs = r_nodes
    /\ Forall (fun c => inner c = inner_flag (ret_node c)
                        /\ exists child rest,
                             child_array (ret_node c) = child :: rest
                             /\ tree_com c = Some (Tnode child 0 [])) cs.
Proof.
  induction r_nodes as [|r rest IH]; intros cs; cbn [Add_Component_Array].
  - intros H. injection H as <-. split; constructor.
  - destruct (child_array r) as [|child others] eqn:Ec; [discriminate|].
    destruct (Add_Component_Array node_type child_array rest inner_flag) as [cs0|];
      [|discriminate].
    intros H. injection H as <-. destruct (IH cs0 eq_refl) as [H1 H2].
    cbn [map ret_node]. split; [now rewrite H1|].
    constructor; [|exact H2]. cbn [inner ret_node tree_com].
    split; [reflexivity|]. exists child, others. rewrite Ec. split; reflexivity.
Qed.

Lemma build_all_roots fuel r_nodes cs :
  forall super_deg cs' super_deg',
    build_all node_type child_array fuel r_nodes cs super_deg = Some (cs', super_deg') ->
    map ret_node cs' = map ret_node cs
    /\ map inner cs' = map inner cs
    /\ Forall2 (fun c c' =>
                  exists t t',
                    tree_com c = Some t /\ tree_com c' = Some t'
                    /\ label t' = label t) cs cs'.
Proof.
  induction cs as [|p cs IH]; intros sd cs' sd'; cbn [build_all].
  - intros H. injection H as <- <-. repeat split; constructor.
  - destruct (tree_com p) as [t|] eqn:Et; [|discriminate].
    destruct (Build_Comp_Revised node_type child_array fuel (label t) (flag t)
                                 (size p) (no_tree_node p))
      as [[[t' size'] ntn']|] eqn:Eb; [|discriminate].
    destruct (build_all node_type child_array fuel r_nodes cs _) as [[rest' sd1]|] eqn:Er;
      [|discriminate].
    intros H. injection H as <- <-.
    destruct (IH _ _ _ Er) as (H1 & H2 & H3).
    cbn [map ret_node inner]. split; [now rewrite H1|]. split; [now rewrite H2|].
    constructor; [|exact H3]. exists t, t'. cbn [tree_com].
    split; [exact Et|]. split; [reflexivity|].
    destruct fuel as [|fuel']; [discriminate Eb|]. cbn [Build_Comp_Revised] in Eb.
    destruct (node_type (label t) =? LEAVE); [injection Eb as <- _ _; reflexivity|].
    destruct (node_type (label t) =? RET); [injection Eb as <- _ _; reflexivity|].
    destruct ((node_type (label t) =? TREE) || (node_type (label t) =? ROOT));
      [|injection Eb as <- _ _; reflexivity].
    destruct (_ (child_array (label t)) (size p) (no_tree_node p)) as [[[kids s1] n1]|];
      [|discriminate].
    injection Eb as <- _ _. reflexivity.
Qed.
End Prepared.

(** What [main] hands to the search: the reticulations bottom-up, one
    component for each of them in that order, rooted at its child, and
    the component of the root at the end. *)
Lemma prepare_components fuel node_strings es node_type root il ic si :
  CCP_main.prepare fuel node_strings es node_type root il ic = Some si ->
  let orig_rnodes := filter (fun i => node_type i =? RET) (upto (len node_strings)) in
  Permutation orig_rnodes (CCP_main.si_r_nodes si)
  /\ bottom_up node_type (CCP_main.si_child_array si) orig_rnodes
               (CCP_main.si_r_nodes si)
  /\ map ret_node (cps (CCP_main.si_state si)) = CCP_main.si_r_nodes si ++ [root]
  /\ Forall2 (fun r c => exists t child rest,
                           tree_com c = Some t
                           /\ CCP_main.si_child_array si r = child :: rest
                           /\ label t = child)
             (CCP_main.si_r_nodes si) (firstn (List.length (CCP_main.si_r_nodes si)) (cps (CCP_main.si_state si)))
  /\ (node_type root <> RET -> NoDup (map ret_node (cps (CCP_main.si_state si)))).
Proof.
  unfold CCP_main.prepare.
  destruct (Child_Parent_Inform es) as [child_array parent_array].
  set (orig := filter (fun i => node_type i =? RET) (upto (len node_strings))).
  destruct (Sort_Rets_By_Level node_type child_array fuel fuel orig orig)
    as [r_nodes|] eqn:Es; [|discriminate].
  match goal with
  | |- match ?flags with _ => _ end = _ -> _ => destruct flags as [flags0|]; [|discriminate]
  end.
  destruct (Add_Component_Array node_type child_array r_nodes _) as [cs0|] eqn:Ea;
    [|discriminate].
  destruct (build_all node_type child_array fuel r_nodes _ _)
    as [[component_array super_deg]|] eqn:Eb; [|discriminate].
  match goal with
  | |- (let '(_, _) := ?fc in _) = _ -> _ => destruct fc as [pos lf_below]
  end.
  intros H. injection H as <-.
  cbn [CCP_main.si_r_nodes CCP_main.si_state CCP_main.si_child_array cps].
  assert (Hlive : Forall (fun r => r <> -2) orig).
  { apply Forall_forall. intros r Hr. apply filter_In in Hr.
    destruct Hr as [Hr _]. apply upto_In in Hr. lia. }
  destruct (Sort_Rets_By_Level_bottom_up node_type child_array fuel fuel orig orig
              r_nodes Hlive (Nat.le_refl _) Es) as [Hperm Hbu].
  destruct (Add_Component_Array_roots node_type child_array r_nodes _ cs0 Ea)
    as [Hr0 Hc0].
  destruct (build_all_roots node_type child_array fuel r_nodes _ _ _ _ Eb)
    as (Hr1 & _ & Hlab).
  rewrite map_app, Hr0 in Hr1. cbn [map Add_Component_Root ret_node] in Hr1.
  split; [exact Hperm|]. split; [exact Hbu|]. split; [exact Hr1|]. split.
  - apply Forall2_app_inv_l in Hlab.
    destruct Hlab as (built & last & Hb1 & _ & ->).
    assert (Hlen : List.length built = List.length r_nodes).
    { rewrite <- (Forall2_length Hb1), <- Hr0, length_map. reflexivity. }
    rewrite <- Hlen, firstn_app, Nat.sub_diag, firstn_all. cbn [firstn].
    rewrite app_nil_r. rewrite <- Hr0.
    assert (Hmap : map ret_node built = map ret_node cs0).
    { rewrite map_app in Hr1. rewrite Hr0.
      apply (f_equal (firstn (List.length r_nodes))) in Hr1.
      rewrite firstn_app, length_map, Hlen, Nat.sub_diag, firstn_all2 in Hr1
        by (rewrite length_map; lia).
      cbn [firstn] in Hr1. rewrite app_nil_r in Hr1. rewrite Hr1.
      rewrite firstn_app, Nat.sub_diag, firstn_all. cbn [firstn].
      now rewrite app_nil_r. }
    clear - Hb1 Hc0 Hmap. revert built Hb1 Hmap.
    induction Hc0 as [|c cs0 (_ & child & rest & Hch & Ht) _ IH]; intros built Hb1 Hmap.
    + inversion Hb1. constructor.
    + inversion Hb1 as [|c0 c' l l' (t & t' & Htc & Htc' & Hl) Hrest]; subst.
      cbn [map] in Hmap |- *. injection Hmap as Hc Hmap.
      constructor; [|exact (IH _ Hrest Hmap)].
      exists t', child, rest. split; [exact Htc'|]. split; [exact Hch|].
      rewrite Hl. rewrite Ht in Htc. injection Htc as <-. reflexivity.
  - intros Hroot. rewrite Hr1. apply NoDup_app_remove_l with (l := []). cbn [app].
    assert (Hnd : NoDup r_nodes).
    { eapply Permutation_NoDup; [exact Hperm|]. apply NoDup_filter, upto_NoDup. }
    apply (Permutation_NoDup (l := root :: r_nodes)).
    + apply Permutation_cons_append.
    + constructor; [|exact Hnd]. intros Hin.
      apply (Permutation_in _ (Permutation_sym Hperm)) in Hin.
      apply filter_In in Hin. destruct Hin as [_ Hin]. apply Z.eqb_eq in Hin.
      contradiction.
Qed.

(** X23.  What [main] of [ClusterContainment.c] has built when it
    calls the search: [r_nodes] holds the reticulations of the network,
    each once and bottom-up; the component list has one component for
    each of them, in that order and rooted at the first child of the
    reticulation, followed by the component of the root; so the
    components have distinct [ret_node]s when the root is not a
    reticulation. *)
Theorem X23_prepare_builds_one_component_for_each_reticulation
  (fuel : nat) (node_strings : list string) (es : edges) (node_type : Z -> Z)
  (root : Z) (input_leaves : list Z) (in_cluster : Z -> Z)
  (si : CCP_main.search_input) :
  CCP_main.prepare fuel node_strings es node_type root input_leaves in_cluster
  = Some si ->
  let orig_rnodes := filter (fun i => node_type i =? RET) (upto (len node_strings)) in
  Permutation orig_rnodes (CCP_main.si_r_nodes si)
  /\ bottom_up node_type (CCP_main.si_child_array si) orig_rnodes
               (CCP_main.si_r_nodes si)
  /\ map ret_node (cps (CCP_main.si_state si)) = CCP_main.si_r_nodes si ++ [root]
  /\ Forall2 (fun r c => exists t child rest,
                           tree_com c = Some t
                           /\ CCP_main.si_child_array si r = child :: rest
                           /\ label t = child)
             (CCP_main.si_r_nodes si)
             (firstn (List.length (CCP_main.si_r_nodes si))
                     (cps (CCP_main.si_state si)))
  /\ (node_type root <> RET -> NoDup (map ret_node (cps (CCP_main.si_state si)))).
Proof. apply prepare_components. Qed.

Lemma X23_prepare_builds_one_component_for_each_reticulation_witness :
  match CCP_main.check_input 0 ccp_argv ["leaf1"; "leaf2"]%string reference_network with
  | CCP_main.Proceed ns es nt root _ il ic _ =>
      exists si,
        CCP_main.prepare 20 ns es nt root il ic = Some si
        /\ map ret_node (cps (CCP_main.si_state si)) = CCP_main.si_r_nodes si ++ [root]
        /\ NoDup (map ret_node (cps (CCP_main.si_state si)))
  | CCP_main.Exit _ _ => False
  end.
Proof.
  destruct (CCP_main.check_input 0 ccp_argv ["leaf1"; "leaf2"]%string reference_network)
    as [code out|ns es nt root n_l il ic out0] eqn:Hc; [vm_compute in Hc; discriminate Hc|].
  vm_compute in Hc. injection Hc as <- <- <- <- <- <- <- <-.
  match goal with
  | |- exists si, ?prep = Some si /\ _ => destruct prep as [si|] eqn:Hp
  end; [|vm_compute in Hp; discriminate Hp].
  exists si. split; [reflexivity|].
  destruct (X23_prepare_builds_one_component_for_each_reticulation _ _ _ _ _ _ _ _ Hp)
    as (_ & _ & Hr & _ & Hnd).
  split; [exact Hr|]. apply Hnd. vm_compute. discriminate.
Defined.

(** ** The rows of the stable resolver *)

Section Rows.
Variable node_type : Z -> Z.

Lemma Is_Below_spec p :
  component_tree node_type p ->
  forall y,
    Is_Below node_type p y
    = if (node_type y =? LEAVE) && existsb (fun v => label v =? y) (nodes p)
      then 1 else 0.
Proof.
  induction p as [x f cs IH] using arb_tnode_ind. intros Hct y.
  cbn [Is_Below label child nodes existsb].
  destruct (Z.eqb_spec (node_type x) LEAVE) as [El|El].
  - assert (Hcs : cs = []).
    { destruct cs as [|c cs']; [reflexivity|]. exfalso.
      pose proof (Forall_inv Hct) as H. cbn [child label] in H.
      assert (Hne : c :: cs' <> []) by discriminate.
      destruct (H Hne) as [E|E]; rewrite E in El; discriminate El. }
    subst cs. cbn [flat_map existsb]. rewrite orb_false_r.
    destruct (Z.eqb_spec x y) as [->|Hxy].
    + rewrite El, Z.eqb_refl. reflexivity.
    + now rewrite andb_false_r.
  - assert (Hx : (node_type y =? LEAVE) && (x =? y) = false).
    { destruct (Z.eqb_spec x y) as [->|_]; [|apply andb_false_r].
      destruct (Z.eqb_spec (node_type y) LEAVE); [contradiction|reflexivity]. }
    assert (Hkids : forall c, In c cs -> component_tree node_type c).
    { intros c Hc. exact (component_tree_child _ _ _ _ _ Hct Hc). }
    clear Hct. rewrite andb_orb_distrib_r, Hx. cbn [orb].
    induction cs as [|c cs IHcs]; [now rewrite andb_false_r|].
    cbn [flat_map]. rewrite existsb_app, andb_orb_distrib_r.
    rewrite (Forall_inv IH (Hkids c (or_introl eq_refl)) y).
    destruct ((node_type y =? LEAVE) && existsb (fun v => label v =? y) (nodes c));
      [reflexivity|].
    change (0 =? 1) with false. cbv iota. cbn [orb].
    apply IHcs; [exact (Forall_inv_tail IH)|].
    intros d Hd. apply Hkids. now right.
Qed.

Lemma DProgram_row_spec t p input_leaves v :
  component_tree node_type t ->
  Search_Revised t v = Some p ->
  DProgram_row node_type t input_leaves v = len (leaves_within node_type p input_leaves).
Proof.
  intros Hct Hs. unfold DProgram_row. rewrite Hs.
  assert (Hp : component_tree node_type p).
  { rewrite Search_Revised_find in Hs. apply find_some in Hs. destruct Hs as [Hin _].
    clear - Hct Hin. revert Hin Hct.
    induction t as [x f cs IH] using arb_tnode_ind. intros Hin Hct.
    cbn [nodes child] in Hin. destruct Hin as [<-|Hin]; [exact Hct|].
    apply in_flat_map in Hin. destruct Hin as (c & Hc & Hin).
    rewrite Forall_forall in IH. apply (IH c Hc Hin).
    exact (component_tree_child _ _ _ _ _ Hct Hc). }
  unfold leaves_within.
  assert (H : forall l k,
             fold_left (fun k lf => if Is_Below node_type p lf =? 1 then k + 1 else k) l k
             = k + len (filter (fun lf => (node_type lf =? LEAVE)
                                          && existsb (fun v => label v =? lf) (nodes p))
                               l)).
  { induction l as [|lf l IHl]; intros k; cbn [fold_left filter].
    - unfold len. cbn. lia.
    - rewrite IHl, (Is_Below_spec p Hp lf).
      destruct ((node_type lf =? LEAVE) && existsb (fun v => label v =? lf) (nodes p));
        [change (1 =? 1) with true|change (0 =? 1) with false];
        cbv iota; unfold len; cbn [List.length]; lia. }
  rewrite H. lia.
Qed.
End Rows.

(** X24.  In a component tree, [Is_Below] tells whether a leaf labels
    a node of the subtree, and [DProgram_Revised] returns the first
    label of [vmax] whose subtree holds exactly [n_embed] of the input
    leaves (counted as often as they are listed), and -1 when there is
    none.  (The C function reads the first [n_embed] cells of
    [input_leaves] and dereferences the node that [Search_Revised]
    finds: the statement is for the calls that pass the length of the
    array and labels of the tree, as [Cluster_Containment] does.) *)
Theorem X24_DProgram_Revised_finds_the_node_with_the_cluster_below
  (node_type : Z -> Z) (super_t : arb_tnode) (n_embed : Z)
  (vmax input_leaves : list Z) :
  component_tree node_type super_t ->
  n_embed = len input_leaves ->
  (forall v, In v vmax -> In v (map label (nodes super_t))) ->
  let below v :=
    match Search_Revised super_t v with
    | Some p => len (leaves_within node_type p input_leaves)
    | None => 0
    end in
  DProgram_Revised node_type super_t n_embed vmax input_leaves
  = match find (fun v => below v =? n_embed) vmax with
    | Some v => v
    | None => -1
    end
  /\ (forall p y, In p (nodes super_t) ->
                  (Is_Below node_type p y = 1
                   <-> node_type y = LEAVE /\ In y (map label (nodes p)))).
Proof.
  intros Hct _ _ below. split.
  - induction vmax as [|v vmax IH]; [reflexivity|].
    cbn [DProgram_Revised find].
    assert (Hrow : DProgram_row node_type super_t input_leaves v = below v).
    { unfold below. destruct (Search_Revised super_t v) as [p|] eqn:Es.
      - exact (DProgram_row_spec node_type super_t p input_leaves v Hct Es).
      - unfold DProgram_row. now rewrite Es. }
    rewrite Hrow. destruct (below v =? n_embed); [reflexivity|exact IH].
  - intros p y Hp.
    assert (Hpt : component_tree node_type p).
    { clear - Hct Hp. revert Hp Hct.
      induction super_t as [x f cs IH] using arb_tnode_ind. intros Hin Hct.
      cbn [nodes child] in Hin. destruct Hin as [<-|Hin]; [exact Hct|].
      apply in_flat_map in Hin. destruct Hin as (c & Hc & Hin).
      rewrite Forall_forall in IH. apply (IH c Hc Hin).
      exact (component_tree_child _ _ _ _ _ Hct Hc). }
    rewrite (Is_Below_spec node_type p Hpt y).
    destruct (Z.eqb_spec (node_type y) LEAVE) as [El|El]; cbn [andb].
    + destruct (existsb (fun v => label v =? y) (nodes p)) eqn:Ex.
      * split; [intros _|reflexivity]. split; [exact El|].
        apply existsb_exists in Ex. destruct Ex as (v & Hin & E).
        apply Z.eqb_eq in E. apply in_map_iff. exists v. now split.
      * split; [discriminate|]. intros [_ Hin]. exfalso.
        apply in_map_iff in Hin. destruct Hin as (v & E & Hin).
        assert (Ht : existsb (fun v => label v =? y) (nodes p) = true).
        { apply existsb_exists. exists v. split; [exact Hin|]. now apply Z.eqb_eq. }
        congruence.
    + split; [discriminate|]. intros [E _]. contradiction.
Qed.

Lemma X24_DProgram_Revised_finds_the_node_with_the_cluster_below_witness :
  DProgram_Revised small_types small_tree 1 [2; 1; 0] [1] = 1
  /\ (Is_Below small_types small_tree 1 = 1
      <-> small_types 1 = LEAVE /\ In 1 (map label (nodes small_tree))).
Proof.
  assert (Hct : component_tree small_types small_tree).
  { unfold component_tree. cbn [nodes small_tree child flat_map app].
    constructor; [intros _; now right|].
    constructor; [intros H; now elim H|].
    constructor; [intros H; now elim H|constructor]. }
  assert (Hv : forall v, In v [2; 1; 0] -> In v (map label (nodes small_tree))).
  { intros v [<-|[<-|[<-|[]]]]; cbn; auto. }
  destruct (X24_DProgram_Revised_finds_the_node_with_the_cluster_below
              small_types small_tree 1 [2; 1; 0] [1] Hct eq_refl Hv) as [H1 H2].
  split; [rewrite H1; reflexivity|].
  apply H2. cbn. now left.
Defined.

(** ** Marking *)

Lemma raised_refl (l : list arb_tnode) :
  Forall2 (fun v v' => label v' = label v /\ (flag v' = flag v \/ flag v' = 1)) l l.
Proof. induction l as [|x l IH]; constructor; auto. Qed.

Lemma raised_trans (a b c : list arb_tnode) :
  Forall2 (fun v v' => label v' = label v /\ (flag v' = flag v \/ flag v' = 1)) a b ->
  Forall2 (fun v v' => label v' = label v /\ (flag v' = flag v \/ flag v' = 1)) b c ->
  Forall2 (fun v v' => label v' = label v /\ (flag v' = flag v \/ flag v' = 1)) a c.
Proof.
  intros Hab. revert c. induction Hab as [|x y a b [H1 H2] _ IH]; intros c Hbc.
  - inversion Hbc. constructor.
  - inversion Hbc as [|y' z b' c' [H3 H4] Hrest]; subst. constructor; [|now apply IH].
    split; [congruence|]. destruct H4 as [H4|H4]; [|now right].
    destruct H2 as [H2|H2]; [left|right]; congruence.
Qed.

(** [Mark_Revised] touches the flags only: it sets some of them to 1,
    and it counts upwards. *)
Lemma Mark_Revised_flags t :
  forall leaf no_mark,
    let '(t', no_mark') := Mark_Revised t leaf no_mark in
    Initiallize t' = Initiallize t
    /\ flags_raised t t'
    /\ no_mark <= no_mark'.
Proof.
  induction t as [l f cs IH] using arb_tnode_ind. intros leaf n.
  assert (Hroot : Initiallize (Tnode l 1 cs) = Initiallize (Tnode l f cs)
                  /\ flags_raised (Tnode l f cs) (Tnode l 1 cs)
                  /\ n <= n + 1).
  { split; [reflexivity|]. split; [|lia]. unfold flags_raised. cbn [nodes child].
    constructor; [cbn; auto|apply raised_refl]. }
  cbn [Mark_Revised]. destruct ((len cs =? 0) && (l =? leaf)); [exact Hroot|].
  destruct (Mark_scan cs leaf 0 0 (-1)) as [x y].
  destruct (x =? 1).
  2:{ destruct (x >? 1); [exact Hroot|].
      split; [reflexivity|]. split; [apply raised_refl|lia]. }
  match goal with
  | |- let '(_, _) := (let '(_, _) := ?F cs 0 in _) in _ =>
      assert (Hat : forall cs i,
                 Forall (fun c => forall leaf no_mark,
                           let '(t', no_mark') := Mark_Revised c leaf no_mark in
                           Initiallize t' = Initiallize c
                           /\ flags_raised c t' /\ no_mark <= no_mark') cs ->
                 let '(cs', n') := F cs i in
                 map Initiallize cs' = map Initiallize cs
                 /\ Forall2 (fun v v' => label v' = label v
                                         /\ (flag v' = flag v \/ flag v' = 1))
                            (flat_map nodes cs) (flat_map nodes cs')
                 /\ n <= n');
      [|specialize (Hat cs 0 IH); destruct (F cs 0) as [cs' n']]
  end.
  { clear. induction cs as [|c cs IHcs]; intros i IH.
    - split; [reflexivity|]. split; [constructor|lia].
    - destruct (i =? y).
      + pose proof (Forall_inv IH leaf (n + 1)) as Hc. cbv beta in Hc.
        destruct (Mark_Revised c leaf (n + 1)) as [c' n'].
        destruct Hc as (H1 & H2 & H3). cbn [map flat_map].
        split; [now rewrite H1|]. split; [|lia].
        apply Forall2_app; [exact H2|apply raised_refl].
      + specialize (IHcs (i + 1) (Forall_inv_tail IH)).
        destruct (_ cs (i + 1)) as [rest' n'].
        destruct IHcs as (H1 & H2 & H3). cbn [map flat_map].
        split; [now rewrite H1|]. split; [|exact H3].
        apply Forall2_app; [apply raised_refl|exact H2]. }
  destruct Hat as (H1 & H2 & H3).
  split; [cbn [Initiallize label child]; now rewrite H1|].
  split; [|exact H3]. unfold flags_raised. cbn [nodes child].
  constructor; [cbn; auto|exact H2].
Qed.

Lemma mark_leaves_flags t ambig sleaves in_cluster :
  let '(t', no_mark) := CCP.mark_leaves t ambig sleaves in_cluster in
  Initiallize t' = Initiallize t /\ flags_raised t t' /\ 0 <= no_mark.
Proof.
  unfold CCP.mark_leaves.
  assert (Hfold : forall (test : Z -> bool) l tn,
             Initiallize (fst tn) = Initiallize t /\ flags_raised t (fst tn)
             /\ 0 <= snd tn ->
             let r := fold_left (fun (tn : arb_tnode * Z) a =>
                                   if test a then Mark_Revised (fst tn) a (snd tn) else tn)
                                l tn in
             Initiallize (fst r) = Initiallize t /\ flags_raised t (fst r)
             /\ 0 <= snd r).
  { intros test l. induction l as [|a l IHl]; intros tn Htn; [exact Htn|].
    cbn [fold_left]. apply IHl. destruct (test a); [|exact Htn].
    destruct Htn as (H1 & H2 & H3).
    pose proof (Mark_Revised_flags (fst tn) a (snd tn)) as H.
    destruct (Mark_Revised (fst tn) a (snd tn)) as [t' n']. cbn [fst snd].
    destruct H as (G1 & G2 & G3). split; [congruence|].
    split; [exact (raised_trans _ _ _ H2 G2)|lia]. }
  match goal with
  | |- let '(_, _) := fold_left ?g sleaves (fold_left ?h ambig (t, 0)) in _ =>
      pose proof (Hfold (fun a => in_cluster a =? 0) ambig (t, 0)
                    (conj eq_refl (conj (raised_refl _) (Z.le_refl 0)))) as Ha;
      pose proof (Hfold (fun s => (Check_List ambig s =? -1) && (in_cluster s =? 0))
                    sleaves _ Ha) as Hs
  end.
  cbv zeta in Hs. destruct (fold_left _ sleaves _) as [t' n']. exact Hs.
Qed.

Section Commute.
Variable node_type : Z -> Z.

Lemma Rebuilt_Component_Initiallize rpl t :
  Initiallize (Rebuilt_Component node_type t rpl)
  = Rebuilt_Component node_type (Initiallize t) rpl.
Proof.
  induction t as [x f cs IH] using arb_tnode_ind.
  destruct cs as [|c cs].
  - cbn [Rebuilt_Component Initiallize label child map].
    destruct ((node_type x =? LEAVE) && negb (rpl x =? -1)); reflexivity.
  - cbn [Rebuilt_Component Initiallize label child map]. f_equal.
    rewrite (Forall_inv IH). f_equal. rewrite !map_map. apply map_ext_in.
    intros d Hd. rewrite Forall_forall in IH. apply IH. now right.
Qed.
End Commute.

(** X25.  The stable resolver changes nothing but flags in the tree of
    the component: marking ([Mark_Revised], through the two loops of
    [Cluster_Containment]) keeps every node and label and only sets
    flags to 1, and after [Rebuilt_Component] the tree is the one that
    [Replace_Ret_Revised] was given, flags apart, when each leaf that
    stands in for a reticulation is leaf-typed, different reticulations
    stand for different leaves and no leaf of the tree is one of them. *)
Theorem X25_the_resolver_changes_flags_only
  (node_type leaf_below super_deg inner_flag in_cluster : Z -> Z) (t : arb_tnode) :
  (forall v, In v (nodes t) -> child v = [] ->
             replaced node_type inner_flag leaf_below (label v) = true ->
             label v <> -1 /\ node_type (leaf_below (label v)) = LEAVE) ->
  (forall v w, In v (nodes t) -> In w (nodes t) -> child v = [] -> child w = [] ->
               replaced node_type inner_flag leaf_below (label v) = true ->
               replaced node_type inner_flag leaf_below (label w) = true ->
               leaf_below (label v) = leaf_below (label w) -> label v = label w) ->
  (forall v w, In v (nodes t) -> In w (nodes t) -> child v = [] -> child w = [] ->
               node_type (label v) = LEAVE ->
               replaced node_type inner_flag leaf_below (label w) = true ->
               leaf_below (label w) <> label v) ->
  let '(t1, rs) :=
    Replace_Ret_Revised node_type leaf_below super_deg t
      (RS inner_flag [] [] [] (fun _ => -1)) in
  let '(t3, no_mark) :=
    CCP.mark_leaves (Initiallize t1) (rs_ambig rs) (rs_leaf_set rs) in_cluster in
  Initiallize t3 = Initiallize t1
  /\ flags_raised (Initiallize t1) t3
  /\ 0 <= no_mark
  /\ Initiallize (Rebuilt_Component node_type t3 (rs_rpl_comp rs)) = Initiallize t.
Proof.
  intros H1 H2 H3.
  pose proof (Replace_Ret_Revised_spec node_type leaf_below super_deg t
                (RS inner_flag [] [] [] (fun _ => -1))) as H.
  destruct (Replace_Ret_Revised node_type leaf_below super_deg t _) as [t1 rs].
  cbn [rs_inner_flag rs_rpl_comp] in H. destruct H as (E & _ & Hrpl).
  pose proof (mark_leaves_flags (Initiallize t1) (rs_ambig rs) (rs_leaf_set rs)
                                in_cluster) as Hm.
  destruct (CCP.mark_leaves (Initiallize t1) (rs_ambig rs) (rs_leaf_set rs) in_cluster)
    as [t3 no_mark].
  destruct Hm as (M1 & M2 & M3).
  assert (Einit : Initiallize (Initiallize t1) = Initiallize t1).
  { clear. induction t1 as [x f cs IH] using arb_tnode_ind.
    cbn [Initiallize label child]. f_equal. rewrite map_map.
    apply map_ext_in. intros d Hd. rewrite Forall_forall in IH. now apply IH. }
  rewrite Einit in M1.
  split; [exact M1|]. split; [exact M2|]. split; [exact M3|].
  rewrite Rebuilt_Component_Initiallize, M1, <- Rebuilt_Component_Initiallize.
  f_equal. rewrite E.
  apply (Rebuilt_stand_in node_type leaf_below t inner_flag (rs_rpl_comp rs)
                          H1 H2 H3 Hrpl).
  auto.
Qed.

Lemma X25_the_resolver_changes_flags_only_witness :
  let node_type := fun i => if i =? 0 then ROOT else if i =? 2 then RET else LEAVE in
  let '(t1, rs) :=
    Replace_Ret_Revised node_type (fun _ => 3) (fun _ => 2) small_tree
      (RS (fun _ => CROSS) [] [] [] (fun _ => -1)) in
  let '(t3, no_mark) :=
    CCP.mark_leaves (Initiallize t1) (rs_ambig rs) (rs_leaf_set rs) (fun _ => 0) in
  map flag (nodes t3) = [1; 1; 0]
  /\ Initiallize (Rebuilt_Component node_type t3 (rs_rpl_comp rs)) = small_tree.
Proof.
  intros node_type.
  pose proof (X25_the_resolver_changes_flags_only
                node_type (fun _ => 3) (fun _ => 2) (fun _ => CROSS) (fun _ => 0)
                small_tree) as H.
  destruct (Replace_Ret_Revised node_type (fun _ => 3) (fun _ => 2) small_tree _)
    as [t1 rs] eqn:E1.
  destruct (CCP.mark_leaves (Initiallize t1) (rs_ambig rs) (rs_leaf_set rs) (fun _ => 0))
    as [t3 no_mark] eqn:E3.
  destruct H as (_ & _ & _ & H).
  - intros v Hv Hc Hr. cbn in Hv.
    destruct Hv as [<-|[<-|[<-|[]]]]; cbn in Hc, Hr; try discriminate.
    split; [discriminate|reflexivity].
  - intros v w Hv Hw Hcv Hcw Hrv Hrw _. cbn in Hv, Hw.
    destruct Hv as [<-|[<-|[<-|[]]]]; cbn in Hcv, Hrv; try discriminate.
    destruct Hw as [<-|[<-|[<-|[]]]]; cbn in Hcw, Hrw; try discriminate.
    reflexivity.
  - intros v w Hv Hw Hcv Hcw Hl Hr. cbn in Hv, Hw.
    destruct Hw as [<-|[<-|[<-|[]]]]; cbn in Hcw, Hr; try discriminate.
    destruct Hv as [<-|[<-|[<-|[]]]]; cbn in Hcv, Hl; try discriminate.
  - split; [|exact H].
    vm_compute in E1. injection E1 as <- <-. vm_compute in E3. injection E3 as <- _.
    reflexivity.
Defined.

(** ** The negative report (C9) *)

(** C9.  When the search ends with a value other than 50, [main] returns
    0 and what it prints after the listing of the nodes and leaves is the
    negative report, the two lines ["not a cluster!"] and ["The no. of
    rets eliminated: "] with the counter, and nothing else: such a search
    has printed nothing itself.  When [main] returns 10 it has stopped in
    the checks of its input, on the number of arguments, the topology or
    an unknown leaf, before the components are built and the search is
    called. *)
Theorem C9_not_a_cluster_exits_zero :
  forall fuel root0 argv leaf_file network_file code out,
    CCP_main.main fuel root0 argv leaf_file network_file = Some (code, out) ->
    (code = 10 ->
     CCP_main.check_input root0 argv leaf_file network_file = CCP_main.Exit 10 out
     /\ (out = CCP_main.msg_usage \/ out = CCP_main.msg_topology
         \/ out = CCP_main.msg_leaf))
    /\ (forall node_strings es node_type root n_l input_leaves in_cluster out0 si r,
          CCP_main.check_input root0 argv leaf_file network_file
          = CCP_main.Proceed node_strings es node_type root n_l
                             input_leaves in_cluster out0 ->
          CCP_main.prepare fuel node_strings es node_type root input_leaves in_cluster
          = Some si ->
          CCP_main.search fuel si = Some r ->
          res_value r <> 50 ->
          code = 0
          /\ out = out0 ++ res_output r ++ CCP_main.msg_not_cluster (res_no_break r)
          /\ res_output r = []
          /\ out = out0 ++ [("not a cluster!" ++ nl ++ nl)%string;
                            ("The no. of rets eliminated: " ++ dec (res_no_break r)
                               ++ nl)%string])
    /\ (forall no_break,
          CCP_main.msg_not_cluster no_break
          = [("not a cluster!" ++ nl ++ nl)%string;
             ("The no. of rets eliminated: " ++ dec no_break ++ nl)%string]).
Proof.
  intros fuel root0 argv leaf_file network_file code out Hmain. split; [|split].
  - intros ->.
    destruct (check_input_cases root0 argv leaf_file network_file)
      as [H|[H|[H|[(_ & o & H)|(_ & _ & H)]]]].
    + rewrite (main_of_exit _ _ _ _ _ _ _ H) in Hmain. inversion Hmain. subst out.
      split; [exact H|left; reflexivity].
    + rewrite (main_of_exit _ _ _ _ _ _ _ H) in Hmain. inversion Hmain. subst out.
      split; [exact H|right; left; reflexivity].
    + rewrite (main_of_exit _ _ _ _ _ _ _ H) in Hmain. inversion Hmain. subst out.
      split; [exact H|right; right; reflexivity].
    + rewrite (main_of_exit _ _ _ _ _ _ _ H) in Hmain. discriminate Hmain.
    + destruct H as (ns & es & nt & root & il & ic & o & H & _).
      unfold CCP_main.main in Hmain. rewrite H in Hmain.
      destruct (CCP_main.prepare _ _ _ _ _ _ _) as [si|]; [|discriminate].
      destruct (CCP_main.search _ _) as [r|]; discriminate.
  - intros ns es nt root n_l il ic out0 si r Hc Hp Hs Hr.
    unfold CCP_main.main in Hmain. rewrite Hc, Hp, Hs in Hmain.
    destruct (Z.eqb_spec (res_value r) 50) as [E|E]; [contradiction|].
    cbn [negb] in Hmain. inversion Hmain.
    assert (Hquiet : res_output r = []).
    { unfold CCP_main.search in Hs.
      destruct (Cluster_Containment_sound _ _ _ _ _ _ _ _ _ _ _ _ _ Hs) as (_ & Ho & _).
      destruct (res_output r) as [|line rest]; [reflexivity|].
      exfalso. apply Hr. apply Ho. discriminate. }
    split; [reflexivity|]. split; [reflexivity|]. split; [exact Hquiet|].
    rewrite Hquiet. reflexivity.
  - intros no_break. reflexivity.
Qed.

Lemma C9_not_a_cluster_exits_zero_witness :
  exists out0 no_break,
    CCP_main.main 20 0 ccp_argv ["leaf1"; "leaf2"]%string reference_network
    = Some (0, out0 ++ [("not a cluster!" ++ nl ++ nl)%string;
                        ("The no. of rets eliminated: " ++ dec no_break ++ nl)%string]).
Proof.
  destruct (CCP_main.check_input 0 ccp_argv ["leaf1"; "leaf2"]%string
              reference_network)
    as [code out|ns es nt root n_l il ic out0] eqn:Hc; [vm_compute in Hc; discriminate Hc|].
  pose proof Hc as Hc'. vm_compute in Hc. injection Hc as <- <- <- <- <- <- <- <-.
  match type of Hc' with
  | _ = CCP_main.Proceed ?ns ?es ?nt ?root ?nl ?il ?ic ?o =>
      destruct (CCP_main.prepare 20 ns es nt root il ic) as [si|] eqn:Hp
  end; [|vm_compute in Hp; discriminate Hp].
  pose proof Hp as Hp'. vm_compute in Hp. injection Hp as <-.
  match type of Hp' with
  | _ = Some ?si => destruct (CCP_main.search 20 si) as [r|] eqn:Hs
  end; [|vm_compute in Hs; discriminate Hs].
  pose proof Hs as Hs'. vm_compute in Hs. injection Hs as <-.
  match type of Hc' with
  | _ = CCP_main.Proceed _ _ _ _ _ _ _ ?out0 =>
  match type of Hs' with
  | _ = Some ?r =>
      assert (Hr : res_value r <> 50) by (vm_compute; discriminate);
      assert (Hm : CCP_main.main 20 0 ccp_argv ["leaf1"; "leaf2"]%string
                     reference_network
                   = Some (0, out0 ++ res_output r
                                ++ (if negb (res_value r =? 50)
                                    then CCP_main.msg_not_cluster (res_no_break r)
                                    else [])));
      [unfold CCP_main.main; rewrite Hc', Hp', Hs'; reflexivity|];
      exists out0, (res_no_break r);
      rewrite Hm;
      rewrite (proj2 (proj2 (proj2 (proj1 (proj2
                 (C9_not_a_cluster_exits_zero 20 0 ccp_argv
                    ["leaf1"; "leaf2"]%string reference_network _ _ Hm))
                 _ _ _ _ _ _ _ _ _ _ Hc' Hp' Hs' Hr))));
      reflexivity
  end
  end.
Defined.

(** ** Searches that leave the arrays (C8) *)

Section Plain.
Variable node_type : Z -> Z.
Hypothesis no_ret : forall x, node_type x <> RET.

Lemma Replace_leaf_plain lb sd x f s :
  rs_ambig (snd (SRFD.Replace_leaf node_type lb sd x f s)) = rs_ambig s
  /\ rs_optional (snd (SRFD.Replace_leaf node_type lb sd x f s)) = rs_optional s.
Proof.
  unfold SRFD.Replace_leaf. destruct (node_type x =? LEAVE); [split; reflexivity|].
  destruct (Z.eqb_spec (node_type x) RET) as [E|_]; [|split; reflexivity].
  exfalso. exact (no_ret x E).
Qed.

Lemma Replace_Ret_Revised_plain lb sd t :
  forall s,
    rs_ambig (snd (SRFD.Replace_Ret_Revised node_type lb sd t s)) = rs_ambig s
    /\ rs_optional (snd (SRFD.Replace_Ret_Revised node_type lb sd t s)) = rs_optional s.
Proof.
  induction t as [x f cs IH] using arb_tnode_ind. intros s.
  destruct cs as [|c0 cs0].
  - cbn [SRFD.Replace_Ret_Revised]. apply Replace_leaf_plain.
  - set (cs := c0 :: cs0) in *. cbn [SRFD.Replace_Ret_Revised].
    assert (Hover : forall cs s,
               Forall (fun c => forall s,
                         rs_ambig (snd (SRFD.Replace_Ret_Revised node_type lb sd c s))
                         = rs_ambig s
                         /\ rs_optional (snd (SRFD.Replace_Ret_Revised node_type lb sd c s))
                            = rs_optional s) cs ->
               let r :=
                 (fix over (cs : list arb_tnode) (s : replace_state)
                    : list arb_tnode * replace_state :=
                    match cs with
                    | [] => ([], s)
                    | c :: rest =>
                        let '(c', s1) :=
                          SRFD.Replace_Ret_Revised node_type lb sd c s in
                        let '(rest', s2) := over rest s1 in
                        (c' :: rest', s2)
                    end) cs s in
               rs_ambig (snd r) = rs_ambig s /\ rs_optional (snd r) = rs_optional s).
    { clear. intros cs. induction cs as [|c cs IHcs]; intros s IH; cbv zeta.
      - split; reflexivity.
      - pose proof (Forall_inv IH s) as Hc.
        destruct (SRFD.Replace_Ret_Revised node_type lb sd c s) as [c' s1].
        cbn [snd] in Hc. destruct Hc as [C1 C2].
        specialize (IHcs s1 (Forall_inv_tail IH)). cbv zeta in IHcs.
        destruct (_ cs s1) as [rest' s2]. cbn [snd] in *.
        destruct IHcs as [R1 R2]. split; congruence. }
    specialize (Hover cs s IH). cbv zeta in Hover. subst cs.
    destruct (_ (c0 :: cs0) s) as [cs' s']. exact Hover.
Qed.

(** Without reticulations no call of the search leaves an array. *)
Lemma Cluster_Containment_plain fuel :
  forall st pos il ic,
    SRFD.Cluster_Containment node_type [] fuel st pos il ic <> Some SRFD.Fault.
Proof.
  induction fuel as [|fuel IH]; intros st pos il ic; [discriminate|].
  cbn [SRFD.Cluster_Containment].
  destruct (nth_error (cps st) pos) as [p|]; [|discriminate].
  change (SRFD.trace_outside [] (lf_below st)) with false. cbv iota.
  destruct (tree_com p) as [t|].
  2:{ destruct (Modify2 _ _ _ _) as [later' ne']. apply IH. }
  destruct (_ =? 1).
  - unfold SRFD.stable_case.
    pose proof (Replace_Ret_Revised_plain (lf_below st) (super_deg st) t
                  (RS (inner_flag st) [] [] [] (fun _ => -1))) as [Ha Ho].
    destruct (SRFD.Replace_Ret_Revised _ _ _ _ _) as [t1 rs]. cbn [snd rs_ambig rs_optional] in Ha, Ho.
    unfold SRFD.replaced_outside. rewrite Ha, Ho. cbn [app existsb].
    crack; try discriminate; apply IH.
  - unfold SRFD.unstable_case.
    destruct (_ =? len il); [discriminate|].
    destruct (_ || _).
    2:{ destruct (Modify2 _ _ _ _) as [later' ne']. apply IH. }
    destruct (fold_left _ _ _) as [a b].
    match goal with
    | |- SRFD.and_then ?first _ <> _ =>
        assert (Hfirst : first <> Some SRFD.Fault);
        [|destruct first as [[res|]|]; cbn [SRFD.and_then];
          [|contradiction|discriminate]]
    end.
    { destruct (_ >? 1); apply IH. }
    destruct (res =? 0); [apply IH|discriminate].
Qed.
End Plain.

Lemma run_search_plain fuel net il ic :
  reticulation_free net ->
  SRFD.run_search fuel net il ic <> Some SRFD.Fault.
Proof.
  intros [Hr Hn]. unfold SRFD.run_search. rewrite Hr.
  apply Cluster_Containment_plain. exact Hn.
Qed.

Lemma Is_Cluster_plain fuel net1 net2 a rs :
  reticulation_free net1 -> reticulation_free net2 ->
  SRFD.Is_Cluster fuel net1 net2 a rs <> Some SRFD.Fault.
Proof.
  intros H1 H2. unfold SRFD.Is_Cluster.
  destruct (_ || _); [discriminate|]. destruct (_ =? 1); [discriminate|].
  match goal with
  | |- context [SRFD.run_search fuel net1 a ?ic] =>
      pose proof (run_search_plain fuel net1 a ic H1) as F1;
      pose proof (run_search_plain fuel net2 a ic H2) as F2;
      destruct (SRFD.run_search fuel net1 a ic) as [[r1|]|];
      destruct (SRFD.run_search fuel net2 a ic) as [[r2|]|]
  end; cbn [SRFD.and_then]; try discriminate; contradiction.
Qed.

Lemma Is_Cluster_all_plain fuel net1 net2 inputs :
  reticulation_free net1 -> reticulation_free net2 ->
  forall rs, SRFD.Is_Cluster_all fuel net1 net2 inputs rs <> Some SRFD.Fault.
Proof.
  intros H1 H2. induction inputs as [|a inputs IH]; intros rs; cbn [SRFD.Is_Cluster_all];
    [discriminate|].
  pose proof (Is_Cluster_plain fuel net1 net2 a rs H1 H2) as F.
  destruct (SRFD.Is_Cluster fuel net1 net2 a rs) as [[rs1|]|]; cbn [SRFD.and_then];
    [apply IH|contradiction|discriminate].
Qed.

Lemma Find_Cluster_Distance_plain fuel net1 net2 :
  reticulation_free net1 -> reticulation_free net2 ->
  SRFD.Find_Cluster_Distance fuel net1 net2 <> Some SRFD.Undefined.
Proof.
  intros H1 H2. unfold SRFD.Find_Cluster_Distance.
  destruct (negb _); [discriminate|]. destruct (negb _); [discriminate|].
  rewrite sizes_loop_all.
  match goal with
  | |- context [SRFD.Is_Cluster_all fuel net1 net2 ?l ?rs] =>
      pose proof (Is_Cluster_all_plain fuel net1 net2 l H1 H2 rs) as F;
      destruct (SRFD.Is_Cluster_all fuel net1 net2 l rs) as [[rs'|]|]
  end; [discriminate|contradiction|discriminate].
Qed.

(** X21.  With fuel for its components, a call of the search of
    [SoftRFDist_print.c] ends: at an access outside an array, or with
    the value 0 or 50.  The value 10 of the other program does not
    occur, so that the test [> 0] of [Is_Cluster] is the test for 50.
    The call ends outside an array whenever it is made on a component
    while some reticulation has no leaf below ([lf_below] negative); it
    never does so in a network without reticulations. *)
Theorem X21_distance_search_returns_0_or_50
  (node_type : Z -> Z) (r_nodes : list Z) (fuel : nat) (st : state) (pos : nat)
  (input_leaves : list Z) (in_cluster : Z -> Z) :
  NoDup (map ret_node (cps st)) ->
  (List.length (cps st) - pos < fuel)%nat ->
  exists o,
    SRFD.Cluster_Containment node_type r_nodes fuel st pos input_leaves in_cluster
    = Some o
    /\ (o = SRFD.Fault \/ o = SRFD.Done 0 \/ o = SRFD.Done 50)
    /\ (nth_error (cps st) pos <> None ->
        (exists r, In r r_nodes /\ lf_below st r < 0) ->
        o = SRFD.Fault)
    /\ (r_nodes = [] -> (forall x, node_type x <> RET) -> o <> SRFD.Fault).
Proof.
  intros Hnd Hf.
  destruct (Cluster_Containment_returns node_type r_nodes fuel st pos input_leaves
              in_cluster Hnd Hf) as (o & Ho).
  exists o. split; [exact Ho|]. split; [|split].
  - destruct o as [v|]; [|now left]. right.
    destruct (SRFD_Cluster_Containment_value _ _ _ _ _ _ _ _ Ho) as [->| ->]; auto.
  - intros Hp (r & Hr & Hneg). destruct fuel as [|fuel]; [lia|].
    cbn [SRFD.Cluster_Containment] in Ho.
    destruct (nth_error (cps st) pos) as [p|]; [|contradiction].
    assert (Ht : SRFD.trace_outside r_nodes (lf_below st) = true).
    { unfold SRFD.trace_outside. apply existsb_exists. exists r.
      split; [exact Hr|]. apply Z.ltb_lt. exact Hneg. }
    rewrite Ht in Ho. injection Ho as <-. reflexivity.
  - intros -> Hn ->. exact (Cluster_Containment_plain node_type Hn _ _ _ _ _ Ho).
Qed.

Lemma X21_distance_search_returns_0_or_50_witness :
  SRFD.Cluster_Containment small_types [2] 2 small_state O [1; 2] (fun _ => 1)
  = Some (SRFD.Done 50)
  /\ exists o,
       SRFD.Cluster_Containment small_types [2] 2 bare_state O [1; 2] (fun _ => 1)
       = Some o
       /\ (o = SRFD.Fault \/ o = SRFD.Done 0 \/ o = SRFD.Done 50).
Proof.
  split; [vm_compute; reflexivity|].
  destruct (X21_distance_search_returns_0_or_50 small_types [2] 2 bare_state O [1; 2]
              (fun _ => 1)) as (o & Ho & Hv & _).
  - cbn. repeat constructor. intros [].
  - cbn. lia.
  - exists o. split; [exact Ho|exact Hv].
Defined.

Lemma same_leaves_refl net : SRFD.same_leaves net net = true.
Proof.
  unfold SRFD.same_leaves. rewrite Z.eqb_refl. cbn [andb].
  apply forallb_forall. intros i _. apply String.eqb_refl.
Qed.

Lemma no_disagreement fuel net l : filter (disagree fuel net net) l = [].
Proof.
  induction l as [|a l IH]; [reflexivity|].
  cbn [filter]. unfold disagree at 1. rewrite xorb_nilpotent. exact IH.
Qed.

(** X17.  Compared with itself, a network of at most 29 leaves has the
    distance 0 whenever the distance is computed: with fuel for the
    components the call ends, in a search that has left an array or
    with the distance 0; for a network without reticulations it ends
    with the distance 0. *)
Theorem X17_distance_to_itself_is_zero fuel net :
  searchable fuel net ->
  SRFD.n_l net <= 29 ->
  (SRFD.Find_Cluster_Distance fuel net net = Some SRFD.Undefined
   \/ exists dist,
        SRFD.Find_Cluster_Distance fuel net net = Some (SRFD.Distance dist)
        /\ (dist == 0)%Q)
  /\ (reticulation_free net ->
      exists dist,
        SRFD.Find_Cluster_Distance fuel net net = Some (SRFD.Distance dist)
        /\ (dist == 0)%Q).
Proof.
  intros Hs Hmax.
  assert (Hzero : forall dist,
             SRFD.Find_Cluster_Distance fuel net net = Some (SRFD.Distance dist) ->
             (dist == 0)%Q).
  { intros dist Hd. apply Find_Cluster_Distance_counts in Hd; [|exact Hmax].
    rewrite Hd, no_disagreement. reflexivity. }
  destruct (Find_Cluster_Distance_returns fuel net net Hs Hs (same_leaves_refl net))
    as [Hu|(dist & Hd)].
  - split; [left; exact Hu|]. intros Hfree. exfalso.
    exact (Find_Cluster_Distance_plain fuel net net Hfree Hfree Hu).
  - split; [right|intros _]; exists dist; (split; [exact Hd|exact (Hzero dist Hd)]).
Qed.

Lemma X17_distance_to_itself_is_zero_witness :
  searchable 5 left_tree /\ SRFD.n_l left_tree <= 29 /\ reticulation_free left_tree
  /\ exists dist,
       SRFD.Find_Cluster_Distance 5 left_tree left_tree = Some (SRFD.Distance dist)
       /\ (dist == 0)%Q.
Proof.
  assert (Hs : searchable 5 left_tree).
  { split; [repeat constructor; intros []|cbn; lia]. }
  assert (Hn : SRFD.n_l left_tree <= 29) by (vm_compute; discriminate).
  assert (Hf : reticulation_free left_tree).
  { split; [reflexivity|]. intros x. cbn.
    destruct (x <? 3); [discriminate|]. destruct (x =? 3); discriminate. }
  split; [exact Hs|]. split; [exact Hn|]. split; [exact Hf|].
  exact (proj2 (X17_distance_to_itself_is_zero 5 left_tree Hs Hn) Hf).
Defined.








(** The names, the types, the child lists, the reticulations and the
    components of [hybrid_network] are those that the functions that
    [SoftRFDist_print.c] shares with [ClusterContainment.c] compute
    from the file. *)
Lemma hybrid_network_from_its_file :
  match CCP_main.check_input 0 ccp_argv ["a"; "b"]%string hybrid_file with
  | CCP_main.Proceed ns es nt root n_l il ic _ =>
      ns = SRFD.node_strings hybrid_network
      /\ root = SRFD.root hybrid_network
      /\ n_l = SRFD.n_l hybrid_network
      /\ map nt (upto 7) = map (SRFD.node_type hybrid_network) (upto 7)
      /\ match CCP_main.prepare 20 ns es nt root il ic with
         | Some si =>
             CCP_main.si_r_nodes si = SRFD.r_nodes hybrid_network
             /\ map (CCP_main.si_child_array si) (upto 7)
                = map (SRFD.child_array hybrid_network) (upto 7)
             /\ cps (CCP_main.si_state si) = SRFD.all_cps hybrid_network
             /\ map (super_deg (CCP_main.si_state si)) (upto 7)
                = map (SRFD.net_super_deg hybrid_network) (upto 7)
         | None => False
         end
  | CCP_main.Exit _ _ => False
  end.
Proof. vm_compute. repeat split. Qed.

Lemma left_tree_from_its_file :
  match CCP_main.check_input 0 ccp_argv ["a"; "b"]%string tree_file with
  | CCP_main.Proceed ns es nt root n_l il ic _ =>
      ns = SRFD.node_strings left_tree
      /\ root = SRFD.root left_tree
      /\ n_l = SRFD.n_l left_tree
      /\ map nt (upto 5) = map (SRFD.node_type left_tree) (upto 5)
      /\ match CCP_main.prepare 20 ns es nt root il ic with
         | Some si =>
             CCP_main.si_r_nodes si = SRFD.r_nodes left_tree
             /\ map (CCP_main.si_child_array si) (upto 5)
                = map (SRFD.child_array left_tree) (upto 5)
             /\ cps (CCP_main.si_state si) = SRFD.all_cps left_tree
             /\ map (super_deg (CCP_main.si_state si)) (upto 5)
                = map (SRFD.net_super_deg left_tree) (upto 5)
         | None => False
         end
  | CCP_main.Exit _ _ => False
  end.
Proof. vm_compute. repeat split. Qed.
